(* ===== verification/_CoqProject ===== *)
-Q . S2P
Prelude.v
Utf8.v
Json.v
JsonText.v
Strconv.v
GoTime.v
Sha256.v
Duration.v
JsonDecode.v
Indent.v
Text.v
Auth.v
Errors.v
Values.v
Lifecycle.v
Db.v
Model.v
Events.v
Mutations.v
JsonSize.v
Verify.v
Payloads.v
Invariant.v
Preserve.v
PreserveTransitions.v
System.v
Soundness.v
Effects.v
Scenario.v
Atomicity.v
Refinement.v
Reads.v
Request.v
Disk.v
DiskLogic.v
Artifacts.v
Backup.v
BackupNames.v
BackupFacts.v
Publication.v
ArtifactFacts.v
BackupPromises.v
Restore.v
RestoreFacts.v
RestorePromises.v
Startup.v
StartupFacts.v
Recovery.v
Api.v
Paging.v
ApiFacts.v
Download.v
Command.v
Lifetime.v
Restart.v
Guarantees.v
Promises.v
