(* ===== verification/Prelude.v ===== *)
(** * Lazarus: a verification library

    Lazarus coordinates maintenance windows.  A small HTTP server keeps, in one SQLite database, the
    maintenances that are planned, the targets each of them captured and what happened to them, as
    tables and as a journal of events; it takes checked backups, and a command restores them.  This
    library models the Go program under src/ (internal/store, internal/auth, internal/api and
    cmd/lazarus) as executable definitions and proves what makes it correct.

    ** How the program is put together

    A request reaches [Server.ServeHTTP] (internal/api), which authenticates its bearer token
    (internal/auth) and dispatches it to a handler; the handler calls one method of the store
    (internal/store).  A method that writes checks its arguments, runs one SQL transaction under the
    store's mutex, and appends exactly one event to the journal in it.  The verifier reads a database
    and replays the journal of every maintenance against its rows; it runs on every backup before it
    is published, on every artifact before it is downloaded and on every restored copy before it
    replaces a database.  main.go reads the environment, opens the database, serves until a signal
    comes, and drains.

    ** Files and sources

    - The Go standard library as far as the program calls it: [Utf8], [Json], [JsonText] (with
      [canonicalJSON] of store.go), [JsonDecode], [JsonSize] (how many values a document holds),
      [Indent], [Strconv], [Text], [GoTime], [Duration], [Sha256].  [Prelude] holds bytes, strings, results and the tactics all files share.
    - The store: [Errors] and [Values] (store.go), [Lifecycle] (lifecycle.go), [Db] (schema.sql and the
      SQL statements), [Model] (the structs, their JSON and the scanning of rows), [Events] (write
      transactions, events.go), [Mutations] (mutations.go), [Reads] (reads.go), [Verify] (verify.go).
    - The store as a system: [System] (calls as steps, the reachable states), [Effects] (what one call
      may change), [Atomicity] (calls whose commands fail), [Refinement] (an abstract system without versions, payloads or journal, and the
      simulation), [Scenario] (a concrete run for the instances).
    - Tokens and requests: [Auth] (auth.go), [Request] (server.go), [Api] (routes.go, handlers.go and the
      dispatch of server.go; [Api.Ready] is startup.go's).
    - Files: [Disk] (a file system whose operations fail or stop the process at any point), [DiskLogic]
      (a program logic for it), [Artifacts] (VerifyPath, artifacts.go), [Backup] (backup.go), [Restore]
      (restoreDatabase of main.go), [Startup] (Open of store.go, the quick check of startup.go).
    - The command: [Command] (the environment, flags and subcommands of main.go, runServer up to the
      listener), [Lifetime] (signalContext and the rest of runServer as state machines), [Restart]
      ([Store.Close], the deferred close and the start after it).

    A Go method of a struct is a function of the state it reads, of its arguments and of what the
    clock returns during the call.  A body of a transaction is a [tx], a program of SQL statements;
    [Events.write_on] runs it as [Store.write] does, between BEGIN and COMMIT on a connection where
    every command may fail, and [Events.write] is the run in which none does.  A computation over files is an [io]: it consumes one [fault] per operation,
    and the theorems quantify over every list of faults.  Errors are values of [Errors.error].

    ** What the theorems show

    - The journal and the tables agree in every state calls can reach, so the verifier accepts such a
      state exactly when the observation times of its captures survive being stored
      ([Guarantees.reachable_verifies], over the invariant of [Invariant] that [Preserve] and
      [PreserveTransitions] prove operation by operation); the converse reading, what an accepted
      database is like whatever wrote it, is [Soundness].
    - The store implements an abstract system ([Refinement.run_op_simulates]): a call that succeeds
      makes the abstract step it asks for, one that fails makes none.
    - Locks are exclusive, closed maintenances are final, a stale version never overwrites, one call
      journals one event, versions stay within the length of the journal ([Guarantees]); whatever
      command of whatever call fails, only whole calls are committed and no transaction stays open
      ([Atomicity]); captures are idempotent and take free locks only, targets move and
      failed maintenances reopen only with the authority and the phase that allow it ([Promises]);
      following the cursors of a list visits every row once and ends ([Paging]).
    - A token file yields distinct, well-formed tokens, and only a token of the file authenticates
      ([Auth]); If-Match reads back the versions a client was given ([Request]); only an authenticated
      operator changes the store, the server only moves along reachable states, a stale PATCH is
      refused ([ApiFacts]).
    - Whatever fails, wherever the process stops and whatever other requests write while a backup runs:
      a published backup is valid, and a backup that was reported is there, the copy of the database
      of one moment (unless it was made without a minimum age where others have greater names, and the
      rotation of the same call took it), while no write of the others is lost ([BackupFacts], [Publication],
      [BackupPromises]).  Under any faults the rotation removes exactly the oldest, an artifact that is
      handed out is a checked pair ([ArtifactFacts], [BackupPromises]), and what a download sends is what
      was checked and journaled, whatever others do to the directory meanwhile ([Download]); a restore loses
      no file, a restore that reports success has installed the checked copy, and without faults it
      does complete ([RestoreFacts], [RestorePromises]); a database that is served was checked
      ([StartupFacts]); and a backup can be restored and served again ([Recovery]).
    - No signal is lost, draining freezes the store but for the events of downloads and for what handlers
      that had passed the readiness check still journal, and the store is closed under no handler
      ([Lifetime]); wherever a run of the server ends, the next one serves its database ([Restart]).

    ** Parameters

    [Errors.SQLite] is json_valid, length and the text of SQLite's errors; [Artifacts.Engine] what
    SQLite finds in the bytes of a file, its integrity answers and what VACUUM INTO writes;
    [Startup.Opening] what it recovers from a file when it opens it; [Restart.Closing] what it has on the
    disk for a committed database, before and after a checkpoint and a close.  What the code relies on is stated
    where it is used: [Publication.EngineLaws] (the version text is UTF-8 and the size of a file fits 64
    bits), [Recovery.faithful_copy] (a vacuum of the database holds that database, passes the
    checks, and is what SQLite recovers from the file when nothing lies beside it) and [Restart.durable]
    (what was committed is recovered from the files SQLite keeps).  Instances are in [Scenario],
    [BackupPromises], [StartupFacts] and [Restart].  [System.op_ok] says what callers
    of the store owe it: a clock between the years 0 and 9999 (outside, RFC 3339 text does not parse
    back), text in UTF-8 where it ends up in JSON, payloads that fit memory, manifests of files.  For the
    requests of the API all of it but the clock ([ApiFacts.clock_ok]) and the size of files
    ([ApiFacts.disk_ok]) is proved ([ApiFacts.requests_stay_reachable]); nothing is assumed of what a
    client sends, the observation times of a capture included.

    ** Bounds and fuel

    The scanner of JSON has the nesting limit of Go (10000).  Decimal printing has fuel for 20 digits,
    which every 64-bit integer fits.  Loops over text take the length of the text as fuel; lemmas
    (for one, [Duration.segments_enough]) show that it does not run out.  Paging takes one request more
    than there are rows, and the theorems show that this suffices.  Versions and journal identifiers
    are integers without a bound, since a version never exceeds the number of events
    ([Guarantees.versions_bounded]); counters of requests wrap at 64 bits; integers read from JSON, SQL
    keys and durations are kept to 64 bits.

    ** Not modelled

    SQLite's own files while a database is open: a check of a file ([Artifacts.VerifyPath]) reads the
    main file's content alone, though a driver would also find a write-ahead log beside it, and what a
    start finds there is [Startup.Opening]'s.  A ROLLBACK that fails, and a COMMIT refused with its
    transaction left open, which SQLite's WAL mode does not answer.  Parameters of the driver in a
    database path.  Each call of the store is one transaction or one
    reading snapshot, so a handler of the store's data is one step; a backup and a download, which are
    many, are modelled among the writes of others ([Backup.BackupAmong],
    [Api.handleBackupArtifactAmong]), while [Api.ServeHTTP] and [Lifetime.step] run them as one step.
    Also left out: cancelled contexts, except as the end of a handler in [Lifetime]; permissions, owners
    and the loss of writes that were not synced; log lines, the order of headers, the mux's redirects,
    and ranges and conditions of [http.ServeContent]; the TLS configuration and the umask; time zones
    of manifests (times compare as instants); failures to make a path absolute; a handler that begins
    only after the drained server was seen without any. *)
From stdpp Require Export base tactics option list gmap strings sorting.
From Stdlib Require Export ZArith Ascii String Lia.
Abbreviation length := List.length.

(** * Bytes *)

(** A byte of a Go string as the integer the source compares it with, and back. *)
Definition byte (c : ascii) : Z := Z.of_N (N_of_ascii c).
Definition chr (z : Z) : ascii := ascii_of_N (Z.to_N z).

(** The double quote, written by its code. *)
Definition dquote : ascii := "034"%char.
Definition backslash : ascii := "092"%char.

(** [c >= lo && c <= hi] on bytes. *)
Definition in_range (lo hi : Z) (c : ascii) : bool := (lo <=? byte c)%Z && (byte c <=? hi)%Z.

(** * Strings *)

(** Go's [len] of a string. *)
Definition len (s : string) : Z := Z.of_nat (String.length s).

(** Concatenation of a list of strings ([strings.Join] with an empty separator). *)
Fixpoint concat_str (l : list string) : string :=
  match l with
  | [] => ""
  | s :: l' => s +:+ concat_str l'
  end.

(** [strings.Join(l, sep)]. *)
Fixpoint join (sep : string) (l : list string) : string :=
  match l with
  | [] => ""
  | [s] => s
  | s :: l' => s +:+ sep +:+ join sep l'
  end.

(** [strings.HasPrefix(s, p)]. *)
Fixpoint has_prefix (s p : string) {struct p} : bool :=
  match p, s with
  | EmptyString, _ => true
  | String a p', String b s' => Ascii.eqb a b && has_prefix s' p'
  | _, _ => false
  end.

(** The [n] first bytes, and what is left after them. *)
Fixpoint str_take (n : nat) (s : string) : string :=
  match n, s with
  | S n', String c s' => String c (str_take n' s')
  | _, _ => ""
  end.

Fixpoint str_drop (n : nat) (s : string) : string :=
  match n, s with
  | S n', String _ s' => str_drop n' s'
  | _, _ => s
  end.

(** [strings.HasSuffix(s, p)] and [strings.TrimSuffix(s, p)]. *)
Definition has_suffix (s p : string) : bool :=
  (String.length p <=? String.length s)%nat
  && String.eqb (str_drop (String.length s - String.length p) s) p.

Definition trim_suffix (s p : string) : string :=
  if has_suffix s p then str_take (String.length s - String.length p) s else s.

(** [strings.ContainsRune(set, r)] and the byte case of [strings.IndexByte]. *)
Fixpoint str_mem (c : ascii) (s : string) : bool :=
  match s with
  | EmptyString => false
  | String a s' => Ascii.eqb c a || str_mem c s'
  end.

(** Every byte of [s] satisfies [f]. *)
Fixpoint str_forall (f : ascii → bool) (s : string) : bool :=
  match s with
  | EmptyString => true
  | String a s' => f a && str_forall f s'
  end.

(** The string built from bytes that were accumulated in reverse. *)
Definition of_rev (acc : list ascii) : string := string_of_list_ascii (rev acc).

(** A JSON text written with single quotes for double ones. *)
Fixpoint json_text (s : string) : string :=
  match s with
  | EmptyString => ""
  | String c s' => String (if Ascii.eqb c "'" then dquote else c) (json_text s')
  end.

(** * Fallible computations *)

(** A Go function that returns [(A, error)]: a value or an error, never both. *)
Inductive result (E A : Type) : Type :=
  | Ok (a : A)
  | Err (e : E).
Arguments Ok {E A} a.
Arguments Err {E A} e.

#[export] Instance result_ret {E} : MRet (result E) := λ A a, Ok a.
#[export] Instance result_bind {E} : MBind (result E) :=
  λ A B f m, match m with Ok a => f a | Err e => Err e end.

Definition is_ok {E A} (r : result E A) : bool := match r with Ok _ => true | Err _ => false end.

(** An option turned into a result with the error the caller returns. *)
Definition of_option {E A} (e : E) (o : option A) : result E A :=
  match o with Some a => Ok a | None => Err e end.

(** * Automation *)

(** [lia] also on divisions and remainders by constants. *)
Ltac Zify.zify_post_hook ::= Z.div_mod_to_equations.

Create HintDb lazarus.
Create Rewrite HintDb lazarus.

(** Case analysis on the condition of a conditional of the goal or of a hypothesis. *)
Ltac case_if :=
  match goal with
  | |- context [if ?b then _ else _] => destruct b eqn:?
  | H : context [if ?b then _ else _] |- _ => destruct b eqn:?
  end.

(** Splits boolean hypotheses into their parts and turns comparisons into propositions. *)
Ltac bool_hyps :=
  repeat match goal with
  | H : _ && _ = true |- _ => apply andb_true_iff in H as [? ?]
  | H : _ || _ = false |- _ => apply orb_false_iff in H as [? ?]
  | H : negb _ = true |- _ => apply negb_true_iff in H
  | H : negb _ = false |- _ => apply negb_false_iff in H
  | H : String.eqb _ _ = true |- _ => apply String.eqb_eq in H
  | H : String.eqb _ _ = false |- _ => apply String.eqb_neq in H
  | H : Ascii.eqb _ _ = true |- _ => apply Ascii.eqb_eq in H
  | H : Ascii.eqb _ _ = false |- _ => apply Ascii.eqb_neq in H
  | H : (_ =? _)%Z = true |- _ => apply Z.eqb_eq in H
  | H : (_ =? _)%Z = false |- _ => apply Z.eqb_neq in H
  | H : (_ <=? _)%Z = true |- _ => apply Z.leb_le in H
  | H : (_ <=? _)%Z = false |- _ => apply Z.leb_gt in H
  | H : (_ <? _)%Z = true |- _ => apply Z.ltb_lt in H
  | H : (_ <? _)%Z = false |- _ => apply Z.ltb_ge in H
  end.

(** Unfolds monadic binds in a hypothesis that states success. *)
Ltac inv_ok H :=
  repeat match type of H with
  | (match ?m with Ok _ => _ | Err _ => _ end) = Ok _ => destruct m eqn:?; [|discriminate H]
  | (match ?m with Some _ => _ | None => _ end) = Ok _ => destruct m eqn:?; try discriminate H
  | (if ?b then _ else _) = Ok _ => destruct b eqn:?; try discriminate H
  | Ok _ = Ok _ => injection H as H
  end.

(** * Lemmas on bytes and strings *)

Lemma byte_bounds c : (0 ≤ byte c < 256)%Z.
Proof. unfold byte. pose proof (N_ascii_bounded c). lia. Qed.

Lemma chr_byte c : chr (byte c) = c.
Proof. unfold chr, byte. rewrite N2Z.id. apply ascii_N_embedding. Qed.

Lemma byte_chr z : (0 ≤ z < 256)%Z → byte (chr z) = z.
Proof. intros H. unfold chr, byte. rewrite N_ascii_embedding; lia. Qed.

Lemma byte_inj a b : byte a = byte b → a = b.
Proof. intros H. rewrite <-(chr_byte a), <-(chr_byte b). by rewrite H. Qed.

Lemma in_range_spec lo hi c : in_range lo hi c = true ↔ (lo ≤ byte c ≤ hi)%Z.
Proof. unfold in_range. rewrite andb_true_iff, !Z.leb_le. done. Qed.

(** The equations of concatenation ([stdpp] does not let [simpl] unfold it). *)
Lemma app_str_cons a s t : String a s +:+ t = String a (s +:+ t).
Proof. reflexivity. Qed.

Lemma app_str_nil_l t : "" +:+ t = t.
Proof. reflexivity. Qed.

Lemma app_str_nil_r s : s +:+ "" = s.
Proof. induction s as [|a s IH]; [done|]. by rewrite app_str_cons, IH. Qed.

Lemma app_str_assoc a b c : (a +:+ b) +:+ c = a +:+ (b +:+ c).
Proof. induction a as [|x a IH]; [done|]. by rewrite !app_str_cons, IH. Qed.

Lemma length_app_str a b : String.length (a +:+ b) = (String.length a + String.length b)%nat.
Proof. induction a as [|x a IH]; [done|]. rewrite app_str_cons. simpl. by rewrite IH. Qed.

Lemma len_nonneg s : (0 ≤ len s)%Z.
Proof. unfold len. lia. Qed.

Lemma len_app a b : (len (a +:+ b) = len a + len b)%Z.
Proof. unfold len. rewrite length_app_str. lia. Qed.

Lemma len_cons c s : (len (String c s) = 1 + len s)%Z.
Proof. unfold len. simpl String.length. lia. Qed.

Lemma len_zero s : len s = 0%Z ↔ s = "".
Proof. destruct s; unfold len; simpl; split; intros; try done; lia. Qed.

Lemma concat_str_app l1 l2 : concat_str (l1 ++ l2) = concat_str l1 +:+ concat_str l2.
Proof. induction l1 as [|a l IH]; simpl; [done|]. by rewrite IH, app_str_assoc. Qed.

Lemma str_take_app a b : str_take (String.length a) (a +:+ b) = a.
Proof. induction a as [|x a IH]; [by destruct b|]. rewrite app_str_cons. simpl. by rewrite IH. Qed.

Lemma str_drop_app a b : str_drop (String.length a) (a +:+ b) = b.
Proof. induction a as [|x a IH]; [by destruct b|]. by rewrite app_str_cons. Qed.

Lemma str_take_app_sub a b :
  str_take (String.length (a +:+ b) - String.length b) (a +:+ b) = a.
Proof.
  rewrite length_app_str.
  replace (String.length a + String.length b - String.length b)%nat with (String.length a) by lia.
  apply str_take_app.
Qed.

Lemma str_forall_app f a b : str_forall f (a +:+ b) = str_forall f a && str_forall f b.
Proof. induction a as [|x a IH]; [done|]. rewrite app_str_cons. simpl. by rewrite IH, andb_assoc. Qed.

Lemma has_suffix_app a b : has_suffix (a +:+ b) b = true.
Proof.
  unfold has_suffix. rewrite length_app_str.
  replace (String.length a + String.length b - String.length b)%nat with (String.length a) by lia.
  rewrite str_drop_app, String.eqb_refl, andb_true_r. apply Nat.leb_le. lia.
Qed.

Lemma app_str_inj_l a s t : a +:+ s = a +:+ t → s = t.
Proof. intros H. by rewrite <-(str_drop_app a s), H, str_drop_app. Qed.

Lemma app_str_inj_r a b s : a +:+ s = b +:+ s → a = b.
Proof.
  intros H. rewrite <-(str_take_app_sub a s), H. apply str_take_app_sub.
Qed.

Lemma str_take_drop n s : str_take n s +:+ str_drop n s = s.
Proof.
  revert s. induction n as [|n IH]; intros s; [by destruct s|]. destruct s as [|c s]; [done|].
  cbn [str_take str_drop]. by rewrite app_str_cons, IH.
Qed.

Lemma has_prefix_app p s : has_prefix (p +:+ s) p = true.
Proof. induction p as [|c p IH]; [done|]. rewrite app_str_cons. cbn. by rewrite Ascii.eqb_refl, IH. Qed.

Lemma has_prefix_spec s p : has_prefix s p = true → s = p +:+ str_drop (String.length p) s.
Proof.
  revert s. induction p as [|c p IH]; intros s; [by destruct s|]. destruct s as [|d s]; [done|]. cbn [has_prefix].
  intros [E Hp]%andb_true_iff. apply Ascii.eqb_eq in E as ->. rewrite app_str_cons. cbn. f_equal. by apply IH.
Qed.

Lemma has_prefix_shared p a b : has_prefix (p +:+ a) (p +:+ b) = has_prefix a b.
Proof. induction p as [|c p IH]; [done|]. rewrite !app_str_cons. cbn. by rewrite Ascii.eqb_refl, IH. Qed.

Lemma has_prefix_more s t p : has_prefix s p = true → has_prefix (s +:+ t) p = true.
Proof. intros ->%has_prefix_spec. rewrite app_str_assoc. apply has_prefix_app. Qed.

Lemma has_suffix_spec s p : has_suffix s p = true → ∃ a, s = a +:+ p.
Proof.
  unfold has_suffix. intros [_ H%String.eqb_eq]%andb_true_iff. exists (str_take (String.length s - String.length p) s).
  by rewrite <-H at 2; rewrite str_take_drop.
Qed.

Lemma ends_unique a b c d : a +:+ String c "" = b +:+ String d "" → c = d.
Proof.
  revert b. induction a as [|x a IH]; intros [|y b]; rewrite ?app_str_cons, ?app_str_nil_l.
  - congruence.
  - intros [= _ H]. by destruct b.
  - intros [= _ H]. by destruct a.
  - intros [= _ H]. by apply (IH b).
Qed.

(** A text that ends in one byte does not end in another. *)
Lemma has_suffix_last s p q c d : has_suffix s (p +:+ String c "") = true → c ≠ d → has_suffix s (q +:+ String d "") = false.
Proof.
  intros [a ->]%has_suffix_spec Hc. apply not_true_iff_false. intros [b H]%has_suffix_spec.
  rewrite <-!app_str_assoc in H. apply Hc. by apply ends_unique in H.
Qed.

Lemma trim_suffix_app a b : trim_suffix (a +:+ b) b = a.
Proof. unfold trim_suffix. rewrite has_suffix_app. apply str_take_app_sub. Qed.

Lemma of_rev_cons acc c : of_rev (c :: acc) = of_rev acc +:+ String c "".
Proof.
  unfold of_rev. simpl. generalize (rev acc) as l.
  induction l as [|a l IH]; simpl; [done|]. by rewrite IH.
Qed.

(** * Lemmas on results *)

Lemma bind_ok {E A B} (m : result E A) (f : A → result E B) b :
  m ≫= f = Ok b ↔ ∃ a, m = Ok a ∧ f a = Ok b.
Proof.
  destruct m as [a|e]; simpl; split.
  - eauto.
  - intros (a' & [= <-] & H). done.
  - discriminate.
  - intros (a' & [=] & _).
Qed.

Lemma is_ok_spec {E A} (r : result E A) : is_ok r = true ↔ ∃ a, r = Ok a.
Proof. destruct r; simpl; split; try done; eauto. intros [? [=]]. Qed.

#[export] Hint Rewrite @app_str_assoc app_str_nil_r len_app : lazarus.
#[export] Hint Resolve byte_bounds len_nonneg : lazarus.
