(* ===== verification/Utf8.v ===== *)
(** UTF-8 as Go's [unicode/utf8] decodes and encodes it.

    A Go string is a sequence of bytes; [for _, r := range s] and [utf8.DecodeRune] cut it into
    well-formed encodings and single invalid bytes, which count as U+FFFD.  [chunks] is that cut,
    [rune] the code point of one piece, [encode_rune] is [utf8.AppendRune].  [trim_space] is
    [strings.TrimSpace].  The lemmas give the round trips between strings and code points that
    the JSON component rests on. *)
From S2P Require Import Prelude.
Local Open Scope Z_scope.

(** One step of the decoder: an invalid byte, or an encoding of one to four bytes. *)
Inductive chunk :=
  | RBad (a : ascii)
  | R1 (a : ascii)
  | R2 (a b : ascii)
  | R3 (a b c : ascii)
  | R4 (a b c d : ascii).

#[export] Instance chunk_eq_dec : EqDecision chunk.
Proof. solve_decision. Defined.

(** The byte ranges of the table in [unicode/utf8]. *)
Definition cont (c : ascii) : bool := in_range 128 191 c.
Definition ok2 (a b : ascii) : bool := in_range 194 223 a && cont b.
Definition ok3 (a b c : ascii) : bool :=
  (in_range 224 224 a && in_range 160 191 b
   || in_range 225 236 a && cont b
   || in_range 237 237 a && in_range 128 159 b
   || in_range 238 239 a && cont b)
  && cont c.
Definition ok4 (a b c d : ascii) : bool :=
  (in_range 240 240 a && in_range 144 191 b
   || in_range 241 243 a && cont b
   || in_range 244 244 a && in_range 128 143 b)
  && cont c && cont d.

(** The decoder's cut of a string. *)
Fixpoint chunks (s : string) : list chunk :=
  match s with
  | EmptyString => []
  | String a s1 =>
    if byte a <? 128 then R1 a :: chunks s1 else
    match s1 with
    | EmptyString => RBad a :: chunks s1
    | String b s2 =>
      if ok2 a b then R2 a b :: chunks s2 else
      match s2 with
      | EmptyString => RBad a :: chunks s1
      | String c s3 =>
        if ok3 a b c then R3 a b c :: chunks s3 else
        match s3 with
        | EmptyString => RBad a :: chunks s1
        | String d s4 => if ok4 a b c d then R4 a b c d :: chunks s4 else RBad a :: chunks s1
        end
      end
    end
  end.

Definition chunk_bytes (k : chunk) : string :=
  match k with
  | RBad a | R1 a => String a ""
  | R2 a b => String a (String b "")
  | R3 a b c => String a (String b (String c ""))
  | R4 a b c d => String a (String b (String c (String d "")))
  end.

(** U+FFFD, [utf8.RuneError]. *)
Definition rune_error : Z := 65533.

Definition rune (k : chunk) : Z :=
  match k with
  | RBad _ => rune_error
  | R1 a => byte a
  | R2 a b => (byte a - 192) * 64 + (byte b - 128)
  | R3 a b c => (byte a - 224) * 4096 + (byte b - 128) * 64 + (byte c - 128)
  | R4 a b c d =>
    (byte a - 240) * 262144 + (byte b - 128) * 4096 + (byte c - 128) * 64 + (byte d - 128)
  end.

(** The runes a [range] loop over the string sees. *)
Definition runes (s : string) : list Z := map rune (chunks s).

(** A Unicode scalar value: a code point that is not a surrogate. *)
Definition scalar (r : Z) : bool :=
  (0 <=? r) && (r <=? 1114111) && negb ((55296 <=? r) && (r <=? 57343)).

(** [utf8.AppendRune]: anything else than a scalar value becomes U+FFFD. *)
Definition encode_rune (r : Z) : chunk :=
  if negb (scalar r) then R3 (chr 239) (chr 191) (chr 189)
  else if r <? 128 then R1 (chr r)
  else if r <? 2048 then R2 (chr (192 + r / 64)) (chr (128 + r mod 64))
  else if r <? 65536 then
    R3 (chr (224 + r / 4096)) (chr (128 + (r / 64) mod 64)) (chr (128 + r mod 64))
  else
    R4 (chr (240 + r / 262144)) (chr (128 + (r / 4096) mod 64))
       (chr (128 + (r / 64) mod 64)) (chr (128 + r mod 64)).

Definition bytes_of (l : list chunk) : string := concat_str (map chunk_bytes l).
Definition string_of_runes (l : list Z) : string := bytes_of (map encode_rune l).

(** A piece that is a well-formed encoding ([false] for an invalid byte). *)
Definition chunk_ok (k : chunk) : bool :=
  match k with
  | RBad _ => false
  | R1 a => byte a <? 128
  | R2 a b => ok2 a b
  | R3 a b c => ok3 a b c
  | R4 a b c d => ok4 a b c d
  end.

(** [utf8.ValidString]. *)
Definition valid_utf8 (s : string) : bool := forallb chunk_ok (chunks s).

(** [unicode.IsSpace]. *)
Definition is_space (r : Z) : bool :=
  (9 <=? r) && (r <=? 13) || (r =? 32) || (r =? 133) || (r =? 160) || (r =? 5760)
  || (8192 <=? r) && (r <=? 8202) || (r =? 8232) || (r =? 8233) || (r =? 8239)
  || (r =? 8287) || (r =? 12288).

Fixpoint trim_left (l : list chunk) : list chunk :=
  match l with
  | [] => []
  | k :: l' => if is_space (rune k) then trim_left l' else l
  end.

(** [strings.TrimSpace]. *)
Definition trim_space (s : string) : string :=
  bytes_of (rev (trim_left (rev (trim_left (chunks s))))).

(** * Lemmas *)

Ltac range_hyps :=
  unfold chunk_ok, ok2, ok3, ok4, cont, in_range in *;
  repeat rewrite ?orb_true_iff, ?andb_true_iff, ?orb_false_iff, ?andb_false_iff,
    ?Z.leb_le, ?Z.leb_gt, ?Z.ltb_lt, ?Z.ltb_ge in *.

Ltac byte_facts :=
  repeat match goal with
  | c : ascii |- _ =>
    lazymatch goal with
    | H : 0 <= byte c < 256 |- _ => fail
    | _ => pose proof (byte_bounds c)
    end
  end.

Ltac decide_if_true :=
  match goal with
  | |- context [if ?b then _ else _] =>
    let E := fresh in destruct b eqn:E; [try done | exfalso; range_hyps; lia]
  end.

Ltac decide_if_false :=
  match goal with
  | |- context [if ?b then _ else _] =>
    let E := fresh in destruct b eqn:E; [exfalso; range_hyps; lia | ]
  end.

(** A well-formed piece at the head of a string is what the decoder cuts off. *)
Lemma chunks_app_ok k s : chunk_ok k = true → chunks (chunk_bytes k +:+ s) = k :: chunks s.
Proof.
  intros Hk. destruct k as [a|a|a b|a b c|a b c d]; simpl in Hk; try done;
    simpl; rewrite ?app_str_cons, ?app_str_nil_l; cbn [chunks].
  - by rewrite Hk.
  - decide_if_false. by rewrite Hk.
  - do 2 decide_if_false. by rewrite Hk.
  - do 3 decide_if_false. by rewrite Hk.
Qed.

Lemma chunks_bytes_of l : forallb chunk_ok l = true → chunks (bytes_of l) = l.
Proof.
  induction l as [|k l IH]; [done|]. simpl. intros [Hk Hl]%andb_true_iff.
  unfold bytes_of. simpl. rewrite chunks_app_ok by done. f_equal. by apply IH.
Qed.

Lemma bytes_of_app l1 l2 : bytes_of (l1 ++ l2) = bytes_of l1 +:+ bytes_of l2.
Proof. unfold bytes_of. by rewrite map_app, concat_str_app. Qed.

(** The decoder loses nothing. *)
Lemma bytes_of_chunks s : bytes_of (chunks s) = s.
Proof.
  assert (H : ∀ n s, (String.length s ≤ n)%nat → bytes_of (chunks s) = s); [|by eapply H].
  clear s. induction n as [|n IH]; intros [|a s] Hn; simpl in Hn; try done; [lia|].
  cbn [chunks].
  repeat (match goal with
    | |- context [if ?b then _ else _] => destruct b
    | |- context [match ?s with EmptyString => _ | String _ _ => _ end] => is_var s; destruct s
    end);
  unfold bytes_of in *; cbn [map concat_str chunk_bytes];
  rewrite ?app_str_cons, ?app_str_nil_l; rewrite IH by (simpl in *; lia); done.
Qed.

Lemma chunks_ok_of_runes l : forallb chunk_ok (map encode_rune l) = true.
Proof.
  induction l as [|r l IH]; [done|]. simpl. rewrite IH, andb_true_r. clear.
  unfold encode_rune. destruct (scalar r) eqn:Hs; [simpl|reflexivity].
  unfold scalar in Hs. bool_hyps.
  assert (r < 55296 ∨ 57343 < r).
  { match goal with H : _ && _ = false |- _ => apply andb_false_iff in H as [?|?] end;
      bool_hyps; lia. }
  repeat case_if; bool_hyps; range_hyps; rewrite ?byte_chr by lia; lia.
Qed.

Lemma rune_encode r : scalar r = true → rune (encode_rune r) = r.
Proof.
  intros Hs. unfold encode_rune. rewrite Hs. simpl. unfold scalar in Hs. bool_hyps.
  repeat case_if; bool_hyps; simpl; rewrite ?byte_chr by lia; lia.
Qed.

(** Decoding what was encoded gives the runes back. *)
Lemma chunks_string_of_runes l : chunks (string_of_runes l) = map encode_rune l.
Proof. apply chunks_bytes_of, chunks_ok_of_runes. Qed.

Lemma runes_string_of_runes l : forallb scalar l = true → runes (string_of_runes l) = l.
Proof.
  intros H. unfold runes. rewrite chunks_string_of_runes.
  induction l as [|r l IH]; [done|]. simpl in *. apply andb_true_iff in H as [Hr Hl].
  by rewrite rune_encode, IH.
Qed.

Lemma valid_string_of_runes l : valid_utf8 (string_of_runes l) = true.
Proof. unfold valid_utf8. rewrite chunks_string_of_runes. apply chunks_ok_of_runes. Qed.

Lemma scalar_rune k : chunk_ok k = true → scalar (rune k) = true.
Proof.
  unfold scalar. destruct k; simpl; intros H; byte_facts; range_hyps; try done;
    rewrite negb_true_iff, andb_false_iff, Z.leb_gt, Z.leb_gt; lia.
Qed.

Lemma encode_rune_ok k : chunk_ok k = true → encode_rune (rune k) = k.
Proof.
  intros H. unfold encode_rune. rewrite scalar_rune by done. simpl.
  destruct k; simpl in *; byte_facts; range_hyps; try done;
    repeat (decide_if_false || decide_if_true);
    f_equal; apply byte_inj; rewrite byte_chr by lia; lia.
Qed.

(** Encoding the runes of a well-formed string gives the string back. *)
Lemma string_of_runes_runes s : valid_utf8 s = true → string_of_runes (runes s) = s.
Proof.
  intros H. unfold string_of_runes, runes, valid_utf8 in *.
  rewrite map_map.
  assert (Hm : map (λ x, encode_rune (rune x)) (chunks s) = chunks s).
  { induction (chunks s) as [|k l IH]; [done|]. simpl in *.
    apply andb_true_iff in H as [Hk Hl]. by rewrite encode_rune_ok, IH. }
  rewrite Hm. apply bytes_of_chunks.
Qed.

Lemma scalar_runes s : valid_utf8 s = true → forallb scalar (runes s) = true.
Proof.
  unfold valid_utf8, runes. induction (chunks s) as [|k l IH]; [done|]. simpl.
  intros [Hk Hl]%andb_true_iff. by rewrite scalar_rune, IH.
Qed.

(** * ASCII strings and trimming *)

Definition is_ascii (s : string) : bool := str_forall (λ c, byte c <? 128) s.

Lemma chunks_ascii s : is_ascii s = true → chunks s = map R1 (list_ascii_of_string s).
Proof.
  induction s as [|c s IH]; [done|]. cbn [is_ascii str_forall list_ascii_of_string map].
  intros [Hc Hs]%andb_true_iff. change (String c s) with (chunk_bytes (R1 c) +:+ s).
  rewrite chunks_app_ok by done. by rewrite IH.
Qed.

Lemma valid_ascii s : is_ascii s = true → valid_utf8 s = true.
Proof.
  intros H. unfold valid_utf8. rewrite chunks_ascii by done. unfold is_ascii in H.
  induction s as [|c s IH]; [done|]. cbn [str_forall list_ascii_of_string map forallb] in *.
  apply andb_true_iff in H as [Hc Hs]. by rewrite (IH Hs), andb_true_r.
Qed.

Lemma trim_left_suffix l : ∃ p, l = p ++ trim_left l.
Proof.
  induction l as [|k l [p IH]]; [by exists []|]. cbn [trim_left].
  case_if; [exists (k :: p); simpl; by f_equal|by exists []].
Qed.

Lemma trim_left_idem l : trim_left (trim_left l) = trim_left l.
Proof. induction l as [|k l IH]; [done|]. cbn [trim_left]. case_if; [done|]. cbn [trim_left]. by rewrite Heqb. Qed.

Definition trim_both (l : list chunk) : list chunk := rev (trim_left (rev (trim_left l))).

Lemma trim_both_sub l : ∃ p s, l = p ++ trim_both l ++ s.
Proof.
  unfold trim_both. destruct (trim_left_suffix l) as [p Hp].
  destruct (trim_left_suffix (rev (trim_left l))) as [q Hq].
  exists p, (rev q). rewrite <-rev_app_distr, <-Hq, rev_involutive. done.
Qed.

(** Nothing is left to trim at the front of a trimmed list. *)
Lemma trim_left_both l : trim_left (trim_both l) = trim_both l.
Proof.
  unfold trim_both. pose proof (trim_left_idem l) as Hi. revert Hi. generalize (trim_left l) as m. intros m Hm.
  destruct (trim_left_suffix (rev m)) as [q Hq].
  destruct m as [|k m]; [done|].
  assert (Hk : is_space (rune k) = false).
  { cbn [trim_left] in Hm. case_if; [|done]. destruct (trim_left_suffix m) as [p Hp].
    apply (f_equal (@List.length chunk)) in Hm, Hp. rewrite length_app in Hp. simpl in Hm. lia. }
  destruct (rev (trim_left (rev (k :: m)))) as [|k' r] eqn:Hr; [done|].
  assert (k' = k) as ->.
  { apply (f_equal (@rev chunk)) in Hq. rewrite rev_involutive, rev_app_distr, Hr in Hq. by injection Hq. }
  cbn [trim_left]. by rewrite Hk.
Qed.

Lemma trim_both_idem l : trim_both (trim_both l) = trim_both l.
Proof.
  unfold trim_both at 1. rewrite trim_left_both. unfold trim_both at 1.
  rewrite rev_involutive, trim_left_idem. done.
Qed.

Lemma trim_space_chunks s : valid_utf8 s = true →
  chunks (trim_space s) = trim_both (chunks s) ∧ valid_utf8 (trim_space s) = true.
Proof.
  intros Hv. unfold trim_space. fold (trim_both (chunks s)).
  assert (Hb : forallb chunk_ok (trim_both (chunks s)) = true).
  { unfold valid_utf8 in Hv. destruct (trim_both_sub (chunks s)) as (p & q & H). rewrite H in Hv.
    rewrite !forallb_app in Hv. bool_hyps. done. }
  unfold valid_utf8. by rewrite chunks_bytes_of.
Qed.

Lemma trim_space_idem s : valid_utf8 s = true → trim_space (trim_space s) = trim_space s.
Proof.
  intros Hv. destruct (trim_space_chunks s Hv) as [Hc _]. unfold trim_space at 1.
  fold (trim_both (chunks (trim_space s))). by rewrite Hc, trim_both_idem.
Qed.
