(* ===== verification/Json.v ===== *)
(** JSON as Go's [encoding/json] scans, validates and prints it.

    [run] is the byte-at-a-time scanner of the package (its states are [mode], its parse stack is
    a list of [frame]), extended to build the value it accepts.  A value keeps every string and
    number as the literal text between its delimiters, so printing a scanned document is
    [json.Compact].  [parse_all] is [json.Valid] with the value, [parse_prefix] what one call of
    [Decoder.Decode] reads.  The main lemma, [run_print], says that scanning a printed value gives
    the value back, at any position inside an enclosing document, and fails exactly when the
    nesting limit of the package is exceeded. *)
From S2P Require Import Prelude Utf8.
Local Open Scope Z_scope.
#[local] Set Warnings "-register-all".

Inductive json :=
  | JNull
  | JBool (b : bool)
  | JNum (lit : string)
  | JStr (lit : string)
  | JArr (items : list json)
  | JObj (members : list (string * json)).

(** * The scanner *)

(** Go's [parseArrayValue], [parseObjectKey] ([FObj _ None]) and [parseObjectValue]. *)
Inductive frame :=
  | FArr (items : list json)
  | FObj (members : list (string * json)) (key : option string).

Inductive num_state := NNeg | N0 | N1 | NDot | NDot0 | NE | NESign | NE0.
Inductive str_state := SIn | SEsc | SU (left : nat).

Inductive mode :=
  | BeginValue
  | BeginValueOrEmpty
  | BeginString
  | BeginStringOrEmpty
  | EndKey
  | EndValue
  | InStr (acc : list ascii) (st : str_state)
  | InNum (acc : list ascii) (st : num_state)
  | InLit (left : string) (v : json).

(** What one byte does: go on, complete the outermost value (before or with this byte), fail. *)
Inductive outcome :=
  | Next (m : mode) (stk : list frame)
  | Done (v : json)
  | DoneBefore (v : json)
  | Bad.

Definition is_ws (c : ascii) : bool :=
  Ascii.eqb c " " || Ascii.eqb c "009" || Ascii.eqb c "013" || Ascii.eqb c "010".
Definition is_digit (c : ascii) : bool := in_range 48 57 c.
Definition is_hex (c : ascii) : bool := is_digit c || in_range 97 102 c || in_range 65 70 c.

(** [maxNestingDepth]. *)
Definition max_depth : Z := 10000.

Definition push (f : frame) (m : mode) (stk : list frame) : outcome :=
  if Z.of_nat (length stk) + 1 <=? max_depth then Next m (f :: stk) else Bad.

(** A complete value is handed to the enclosing container. *)
Definition finish (v : json) (stk : list frame) : outcome :=
  match stk with
  | [] => Done v
  | FArr items :: k => Next EndValue (FArr (v :: items) :: k)
  | FObj ms (Some key) :: k => Next EndValue (FObj ((key, v) :: ms) None :: k)
  | FObj _ None :: _ => Bad
  end.

(** The end of a string literal: a key where one is expected, a value elsewhere. *)
Definition finish_str (lit : string) (stk : list frame) : outcome :=
  match stk with
  | FObj ms None :: k => Next EndKey (FObj ms (Some lit) :: k)
  | _ => finish (JStr lit) stk
  end.

Definition step_end (stk : list frame) (c : ascii) : outcome :=
  if is_ws c then Next EndValue stk else
  match stk with
  | FArr items :: k =>
    if Ascii.eqb c "," then Next BeginValue stk
    else if Ascii.eqb c "]" then finish (JArr (rev items)) k else Bad
  | FObj ms None :: k =>
    if Ascii.eqb c "," then Next BeginString stk
    else if Ascii.eqb c "}" then finish (JObj (rev ms)) k else Bad
  | _ => Bad
  end.

Definition step_string (stk : list frame) (c : ascii) : outcome :=
  if Ascii.eqb c dquote then Next (InStr [] SIn) stk else Bad.

Definition step_value (stk : list frame) (c : ascii) : outcome :=
  if is_ws c then Next BeginValue stk
  else if Ascii.eqb c "{" then push (FObj [] None) BeginStringOrEmpty stk
  else if Ascii.eqb c "[" then push (FArr []) BeginValueOrEmpty stk
  else if Ascii.eqb c dquote then Next (InStr [] SIn) stk
  else if Ascii.eqb c "-" then Next (InNum [c] NNeg) stk
  else if Ascii.eqb c "0" then Next (InNum [c] N0) stk
  else if is_digit c then Next (InNum [c] N1) stk
  else if Ascii.eqb c "t" then Next (InLit "rue" (JBool true)) stk
  else if Ascii.eqb c "f" then Next (InLit "alse" (JBool false)) stk
  else if Ascii.eqb c "n" then Next (InLit "ull" JNull) stk
  else Bad.

(** The states inside a string literal. *)
Definition str_next (st : str_state) (c : ascii) : option str_state :=
  match st with
  | SIn =>
    if Ascii.eqb c backslash then Some SEsc
    else if byte c <? 32 then None else Some SIn
  | SEsc =>
    if str_mem c (String dquote "\/bfnrt") then Some SIn
    else if Ascii.eqb c "u" then Some (SU 4) else None
  | SU n =>
    if is_hex c then Some (match n with S (S k) => SU (S k) | _ => SIn end) else None
  end.

(** The states inside a number; [None]: the byte is not part of it. *)
Definition num_next (st : num_state) (c : ascii) : option num_state :=
  match st with
  | NNeg => if Ascii.eqb c "0" then Some N0 else if is_digit c then Some N1 else None
  | N0 =>
    if Ascii.eqb c "." then Some NDot
    else if Ascii.eqb c "e" || Ascii.eqb c "E" then Some NE else None
  | N1 =>
    if is_digit c then Some N1 else
    if Ascii.eqb c "." then Some NDot
    else if Ascii.eqb c "e" || Ascii.eqb c "E" then Some NE else None
  | NDot => if is_digit c then Some NDot0 else None
  | NDot0 =>
    if is_digit c then Some NDot0
    else if Ascii.eqb c "e" || Ascii.eqb c "E" then Some NE else None
  | NE =>
    if Ascii.eqb c "+" || Ascii.eqb c "-" then Some NESign
    else if is_digit c then Some NE0 else None
  | NESign | NE0 => if is_digit c then Some NE0 else None
  end.

(** The states in which a number may end. *)
Definition num_final (st : num_state) : bool :=
  match st with N0 | N1 | NDot0 | NE0 => true | _ => false end.

Definition step (m : mode) (stk : list frame) (c : ascii) : outcome :=
  match m with
  | BeginValue => step_value stk c
  | BeginValueOrEmpty =>
    if is_ws c then Next BeginValueOrEmpty stk
    else if Ascii.eqb c "]" then
      match stk with FArr items :: k => finish (JArr (rev items)) k | _ => Bad end
    else step_value stk c
  | BeginString => if is_ws c then Next BeginString stk else step_string stk c
  | BeginStringOrEmpty =>
    if is_ws c then Next BeginStringOrEmpty stk
    else if Ascii.eqb c "}" then
      match stk with FObj ms None :: k => finish (JObj (rev ms)) k | _ => Bad end
    else step_string stk c
  | EndKey =>
    if is_ws c then Next EndKey stk
    else if Ascii.eqb c ":" then Next BeginValue stk else Bad
  | EndValue => step_end stk c
  | InStr acc st =>
    if (match st with SIn => Ascii.eqb c dquote | _ => false end)
    then finish_str (of_rev acc) stk
    else match str_next st c with Some st' => Next (InStr (c :: acc) st') stk | None => Bad end
  | InNum acc st =>
    match num_next st c with
    | Some st' => Next (InNum (c :: acc) st') stk
    | None =>
      if num_final st then
        match finish (JNum (of_rev acc)) stk with
        | Next _ stk' => step_end stk' c
        | Done v => DoneBefore v
        | o => o
        end
      else Bad
    end
  | InLit l v =>
    match l with
    | String d l' =>
      if Ascii.eqb c d then
        match l' with EmptyString => finish v stk | _ => Next (InLit l' v) stk end
      else Bad
    | EmptyString => Bad
    end
  end.

(** The end of the input completes a number that is the outermost value. *)
Definition at_eof (m : mode) (stk : list frame) : option json :=
  match m, stk with
  | InNum acc st, [] => if num_final st then Some (JNum (of_rev acc)) else None
  | _, _ => None
  end.

Fixpoint run (m : mode) (stk : list frame) (s : string) : option (json * string) :=
  match s with
  | EmptyString => match at_eof m stk with Some v => Some (v, "") | None => None end
  | String c s' =>
    match step m stk c with
    | Next m' stk' => run m' stk' s'
    | Done v => Some (v, s')
    | DoneBefore v => Some (v, s)
    | Bad => None
    end
  end.

(** One [Decoder.Decode]: the first value and what follows it. *)
Definition parse_prefix (s : string) : option (json * string) := run BeginValue [] s.

(** A whole document: one value and nothing but white space after it. *)
Definition parse_all (s : string) : option json :=
  match parse_prefix s with
  | Some (v, rest) => if str_forall is_ws rest then Some v else None
  | None => None
  end.

(** [json.Valid]. *)
Definition valid (s : string) : bool := match parse_all s with Some _ => true | None => false end.

(** * Printing *)

Definition quoted (lit : string) : string := String dquote (lit +:+ String dquote "").

(** The value without white space ([json.Compact] of the document it was scanned from). *)
Fixpoint print (v : json) : string :=
  match v with
  | JNull => "null"
  | JBool true => "true"
  | JBool false => "false"
  | JNum lit => lit
  | JStr lit => quoted lit
  | JArr l => String "[" (join "," (map print l) +:+ "]")
  | JObj l => String "{" (join "," (map (λ '(k, v), quoted k +:+ String ":" (print v)) l) +:+ "}")
  end.

(** A literal is what the scanner accepts between two quotes, or as a number. *)
Fixpoint str_run (st : str_state) (s : string) : option str_state :=
  match s with
  | EmptyString => Some st
  | String c s' =>
    if (match st with SIn => Ascii.eqb c dquote | _ => false end) then None
    else match str_next st c with Some st' => str_run st' s' | None => None end
  end.

Definition str_ok (lit : string) : bool :=
  match str_run SIn lit with Some SIn => true | _ => false end.

Fixpoint num_run (st : num_state) (s : string) : option num_state :=
  match s with
  | EmptyString => Some st
  | String c s' => match num_next st c with Some st' => num_run st' s' | None => None end
  end.

Definition num_start (c : ascii) : option num_state :=
  if Ascii.eqb c "-" then Some NNeg
  else if Ascii.eqb c "0" then Some N0
  else if is_digit c then Some N1 else None.

Definition num_scan (lit : string) : option num_state :=
  match lit with
  | EmptyString => None
  | String c s => match num_start c with Some st => num_run st s | None => None end
  end.

(** [isValidNumber]. *)
Definition num_ok (lit : string) : bool :=
  match num_scan lit with Some st => num_final st | None => false end.

Fixpoint wf (v : json) : bool :=
  match v with
  | JNull | JBool _ => true
  | JNum lit => num_ok lit
  | JStr lit => str_ok lit
  | JArr l => forallb wf l
  | JObj l => forallb (λ '(k, v), str_ok k && wf v) l
  end.

(** The value fits below [n] enclosing containers. *)
Fixpoint fits (v : json) (n : Z) : bool :=
  match v with
  | JArr l => (n + 1 <=? max_depth) && forallb (λ v, fits v (n + 1)) l
  | JObj l => (n + 1 <=? max_depth) && forallb (λ '(_, v), fits v (n + 1)) l
  | _ => true
  end.

(** * Scanning what was printed *)

(** Induction over values, with the hypotheses for the elements of arrays and objects. *)
Section json_induction.
Context (P : json → Prop).
Hypothesis Hnull : P JNull.
Hypothesis Hbool : ∀ b, P (JBool b).
Hypothesis Hnum : ∀ lit, P (JNum lit).
Hypothesis Hstr : ∀ lit, P (JStr lit).
Hypothesis Harr : ∀ l, Forall P l → P (JArr l).
Hypothesis Hobj : ∀ l, Forall (λ kv, P kv.2) l → P (JObj l).

Fixpoint json_nested_ind (v : json) : P v :=
  match v with
  | JNull => Hnull
  | JBool b => Hbool b
  | JNum lit => Hnum lit
  | JStr lit => Hstr lit
  | JArr l =>
    Harr l ((fix go l : Forall P l :=
      match l with [] => Forall_nil_2 P | v :: l' => Forall_cons_2 P v l' (json_nested_ind v) (go l') end) l)
  | JObj l =>
    Hobj l ((fix go l : Forall (λ kv, P kv.2) l :=
      match l with
      | [] => Forall_nil_2 _
      | kv :: l' => Forall_cons_2 (λ kv, P kv.2) kv l' (json_nested_ind kv.2) (go l')
      end) l)
  end.
End json_induction.

(** The scan goes on after [o]. *)
Definition resume (o : outcome) (rest : string) : option (json * string) :=
  match o with
  | Next m stk => run m stk rest
  | Done v | DoneBefore v => Some (v, rest)
  | Bad => None
  end.

(** What may follow a number without becoming part of it. *)
Definition delim (rest : string) : bool :=
  match rest with
  | EmptyString => true
  | String c _ => negb (is_digit c || str_mem c ".eE")
  end.

Lemma finish_shape v stk :
  match finish v stk with
  | Next m _ => m = EndValue
  | Done v' => v' = v ∧ stk = []
  | DoneBefore _ => False
  | Bad => True
  end.
Proof. destruct stk as [|[items|ms [key|]] k]; simpl; auto. Qed.

Lemma run_str lit : ∀ acc st stk rest,
  str_run st lit = Some SIn →
  run (InStr acc st) stk (lit +:+ String dquote rest) = resume (finish_str (of_rev acc +:+ lit) stk) rest.
Proof.
  induction lit as [|c lit IH]; intros acc st stk rest H; simpl in H.
  - injection H as ->. rewrite app_str_nil_r, app_str_nil_l. cbn [run step].
    rewrite Ascii.eqb_refl. unfold finish_str.
    destruct stk as [|[|? [|]] ?]; reflexivity.
  - rewrite app_str_cons. cbn [run step].
    destruct (match st with SIn => Ascii.eqb c dquote | _ => false end); [done|].
    destruct (str_next st c) as [st'|]; [|done].
    rewrite IH by done. rewrite of_rev_cons, app_str_assoc. done.
Qed.

Lemma num_next_delim st c : num_final st = true →
  is_digit c || str_mem c ".eE" = false → num_next st c = None.
Proof.
  intros Hst Hc. apply orb_false_iff in Hc as [Hd Hm]. simpl in Hm.
  repeat (apply orb_false_iff in Hm as [? Hm]).
  destruct st; try done; simpl;
    repeat match goal with H : _ = false |- _ => rewrite H; clear H end; reflexivity.
Qed.

Lemma run_num lit : ∀ acc st stk rest,
  match num_run st lit with Some st' => num_final st' | None => false end = true →
  delim rest = true →
  run (InNum acc st) stk (lit +:+ rest) = resume (finish (JNum (of_rev acc +:+ lit)) stk) rest.
Proof.
  induction lit as [|c lit IH]; intros acc st stk rest H Hd; simpl in H.
  - rename H into Hf. rewrite app_str_nil_r, app_str_nil_l.
    destruct rest as [|c rest]; cbn [run].
    + simpl. destruct stk as [|[items|ms [key|]] k]; simpl; [by rewrite Hf|done..].
    + cbn [step]. rewrite num_next_delim by (try apply negb_true_iff; done). rewrite Hf.
      pose proof (finish_shape (JNum (of_rev acc)) stk) as Hs.
      destruct (finish _ stk) as [m stk'|v|v|]; simpl in *; subst; try done.
  - rewrite app_str_cons. cbn [run step].
    destruct (num_next st c) as [st'|]; [|done].
    rewrite IH by done. rewrite of_rev_cons, app_str_assoc. done.
Qed.

(** The first byte of a printed value starts a value: it is no white space and closes nothing. *)
Definition starts_value (s : string) : bool :=
  match s with
  | String c _ => negb (is_ws c) && negb (Ascii.eqb c "]") && negb (Ascii.eqb c "}")
  | EmptyString => false
  end.

Lemma num_start_byte c st : num_start c = Some st → c = "-"%char ∨ is_digit c = true.
Proof.
  unfold num_start. repeat case_if; intros [= <-]; bool_hyps; subst; auto.
Qed.

Lemma digit_bytes c : is_digit c = true →
  In c ["0"; "1"; "2"; "3"; "4"; "5"; "6"; "7"; "8"; "9"]%char.
Proof.
  unfold is_digit. rewrite in_range_spec. intros H.
  assert (Hc : ∃ n, (n < 10)%nat ∧ c = chr (48 + Z.of_nat n)).
  { exists (Z.to_nat (byte c - 48)). split; [lia|]. rewrite <-(chr_byte c) at 1. f_equal. lia. }
  destruct Hc as (n & Hn & ->). do 10 (destruct n as [|n]; [vm_compute; tauto|]). lia.
Qed.

Lemma print_starts v rest : wf v = true → starts_value (print v +:+ rest) = true.
Proof.
  destruct v as [|[]|lit|lit|l|l]; intros Hw; try reflexivity.
  simpl in *. unfold num_ok in Hw. destruct lit as [|c lit]; [done|]. simpl in Hw.
  destruct (num_start c) eqn:Hc; [|done]. rewrite app_str_cons.
  apply num_start_byte in Hc as [->|Hc]; [done|].
  apply digit_bytes in Hc. simpl in Hc. intuition subst; reflexivity.
Qed.

Lemma run_value_or_empty stk s : starts_value s = true →
  run BeginValueOrEmpty stk s = run BeginValue stk s.
Proof.
  destruct s as [|c s]; [done|]. simpl. intros [[? ?]%andb_true_iff ?]%andb_true_iff.
  bool_hyps. cbn [run step]. unfold step_value.
  repeat match goal with H : ?x = false |- context [if ?x then _ else _] => rewrite H end.
  destruct (Ascii.eqb_spec c "]"); [done|]. reflexivity.
Qed.

Lemma run_num_value lit stk rest : num_ok lit = true → delim rest = true →
  run BeginValue stk (lit +:+ rest) = resume (finish (JNum lit) stk) rest.
Proof.
  intros Hn Hd. unfold num_ok in Hn. destruct lit as [|c lit]; [done|]. simpl in Hn.
  rewrite app_str_cons. cbn [run step]. destruct (num_start c) as [st|] eqn:Hc; [|done].
  assert (Hstep : step_value stk c = Next (InNum [c] st) stk).
  { destruct (num_start_byte _ _ Hc) as [->|Hdig]; [by injection Hc as <-|].
    apply digit_bytes in Hdig. simpl in Hdig.
    intuition subst; vm_compute in Hc; injection Hc as <-; reflexivity. }
  rewrite Hstep. by rewrite run_num.
Qed.

Lemma run_string_value lit stk rest : str_ok lit = true →
  run BeginValue stk (quoted lit +:+ rest) = resume (finish_str lit stk) rest.
Proof.
  unfold str_ok. destruct (str_run SIn lit) as [[| |]|] eqn:Hs; try done. intros _.
  unfold quoted. rewrite app_str_cons, app_str_assoc, app_str_cons, app_str_nil_l.
  cbn [run step]. change (step_value stk dquote) with (Next (InStr [] SIn) stk). cbn.
  by rewrite run_str.
Qed.

Lemma run_string_key lit stk rest : str_ok lit = true →
  run BeginString stk (quoted lit +:+ rest) = resume (finish_str lit stk) rest.
Proof. intros H. rewrite <-run_string_value by done. reflexivity. Qed.

(** A position where a value may start: the innermost object is not waiting for a key. *)
Definition value_pos (stk : list frame) : bool :=
  match stk with FObj _ None :: _ => false | _ => true end.

(** The induction hypothesis of [run_print] for one value. *)
Definition scans (v : json) : Prop :=
  wf v = true → ∀ stk rest, value_pos stk = true → delim rest = true →
  run BeginValue stk (print v +:+ rest) =
  if fits v (Z.of_nat (length stk)) then resume (finish v stk) rest else None.

Lemma delim_comma rest : delim (String "," rest) = true.
Proof. reflexivity. Qed.

Lemma join_cons sep s l rest :
  join sep (s :: l) +:+ rest = s +:+ match l with [] => rest | _ => sep +:+ (join sep l +:+ rest) end.
Proof. destruct l; simpl; [done|]. by rewrite !app_str_assoc. Qed.

Lemma resume_finish v k c rest :
  match finish v k with
  | Next m stk => run m stk rest
  | Done v' => Some (v', rest)
  | DoneBefore v' => Some (v', String c rest)
  | Bad => None
  end = resume (finish v k) rest.
Proof.
  pose proof (finish_shape v k) as H. destruct (finish v k); simpl in *; try done.
Qed.

Lemma run_close_arr items k rest :
  run EndValue (FArr items :: k) (String "]" rest) = resume (finish (JArr (rev items)) k) rest.
Proof. apply resume_finish. Qed.

Lemma run_comma_arr items k rest :
  run EndValue (FArr items :: k) (String "," rest) = run BeginValue (FArr items :: k) rest.
Proof. reflexivity. Qed.

Lemma run_close_obj ms k rest :
  run EndValue (FObj ms None :: k) (String "}" rest) = resume (finish (JObj (rev ms)) k) rest.
Proof. apply resume_finish. Qed.

Lemma run_comma_obj ms k rest :
  run EndValue (FObj ms None :: k) (String "," rest) = run BeginString (FObj ms None :: k) rest.
Proof. reflexivity. Qed.

Lemma length_frame (f : frame) (k : list frame) :
  Z.of_nat (length (f :: k)) = Z.of_nat (length k) + 1.
Proof. simpl. lia. Qed.

Lemma run_items l : Forall scans l → ∀ v acc k rest,
  scans v → wf v = true → forallb wf l = true →
  run BeginValue (FArr acc :: k) (join "," (map print (v :: l)) +:+ String "]" rest) =
  if forallb (λ v, fits v (Z.of_nat (length k) + 1)) (v :: l)
  then resume (finish (JArr (rev acc ++ v :: l)) k) rest else None.
Proof.
  intros Hl. induction Hl as [|w l Hw Hl IH]; intros v acc k rest Hv Hwv Hwl.
  - cbn [map join forallb]. rewrite Hv, length_frame, andb_true_r by done.
    case_if; [|done]. apply run_close_arr.
  - simpl in Hwl. apply andb_true_iff in Hwl as [Hww Hwl].
    change (map print (v :: w :: l)) with (print v :: map print (w :: l)).
    rewrite join_cons. cbn [map]. rewrite app_str_cons, app_str_nil_l.
    rewrite Hv, length_frame by done. cbn [forallb].
    destruct (fits v _); [|done]. cbn [andb finish resume]. rewrite run_comma_arr.
    change (print w :: map print l) with (map print (w :: l)).
    rewrite IH by done. cbn [rev]. rewrite <-app_assoc. done.
Qed.

(** One printed member of an object. *)
Definition print_member (kv : string * json) : string := quoted kv.1 +:+ String ":" (print kv.2).

Lemma run_member key v ms k rest :
  scans v → wf v = true → str_ok key = true → delim rest = true →
  run BeginString (FObj ms None :: k) (print_member (key, v) +:+ rest) =
  if fits v (Z.of_nat (length k) + 1) then run EndValue (FObj ((key, v) :: ms) None :: k) rest else None.
Proof.
  intros Hv Hw Hk Hd. unfold print_member. cbn [fst snd]. rewrite app_str_assoc, run_string_key by done.
  cbn [finish_str resume]. rewrite app_str_cons. cbn [run step].
  change (is_ws ":") with false. change (Ascii.eqb ":" ":") with true. cbn iota.
  rewrite Hv, length_frame by done. by case_if.
Qed.

Lemma run_members l : Forall (λ kv, scans kv.2) l → ∀ kv ms k rest,
  scans kv.2 → wf kv.2 = true → str_ok kv.1 = true →
  forallb (λ '(k, v), str_ok k && wf v) l = true →
  run BeginString (FObj ms None :: k) (join "," (map print_member (kv :: l)) +:+ String "}" rest) =
  if forallb (λ '(_, v), fits v (Z.of_nat (length k) + 1)) (kv :: l)
  then resume (finish (JObj (rev ms ++ kv :: l)) k) rest else None.
Proof.
  intros Hl. induction Hl as [|w l Hw Hl IH]; intros [key v] ms k rest Hv Hwv Hk Hwl; simpl in Hv, Hwv, Hk.
  - cbn [map join forallb]. rewrite run_member, andb_true_r by done.
    case_if; [|done]. apply run_close_obj.
  - simpl in Hwl. destruct w as [key' w]. apply andb_true_iff in Hwl as [[Hkw Hww]%andb_true_iff Hwl].
    change (map print_member ((key, v) :: (key', w) :: l))
      with (print_member (key, v) :: map print_member ((key', w) :: l)).
    rewrite join_cons. cbn [map]. rewrite app_str_cons, app_str_nil_l.
    rewrite run_member by done. cbn [forallb].
    destruct (fits v _); [|done]. cbn [andb]. rewrite run_comma_obj.
    change (print_member (key', w) :: map print_member l) with (map print_member ((key', w) :: l)).
    rewrite IH by done. cbn [rev]. rewrite <-app_assoc. done.
Qed.

Lemma print_obj l : print (JObj l) = String "{" (join "," (map print_member l) +:+ "}").
Proof. simpl. do 3 f_equal. apply map_ext. by intros [k v]. Qed.

Lemma run_string_or_empty stk s : has_prefix s (String dquote "") = true →
  run BeginStringOrEmpty stk s = run BeginString stk s.
Proof.
  destruct s as [|c s]; [done|]. cbn [has_prefix]. intros [H _]%andb_true_iff.
  apply Ascii.eqb_eq in H. subst. reflexivity.
Qed.

Lemma join_members_quote kv l rest :
  has_prefix (join "," (map print_member (kv :: l)) +:+ rest) (String dquote "") = true.
Proof. cbn [map]. rewrite join_cons. unfold print_member, quoted. rewrite app_str_assoc, app_str_cons. reflexivity. Qed.

Lemma join_values_start v l rest : wf v = true →
  starts_value (join "," (map print (v :: l)) +:+ rest) = true.
Proof. intros Hw. cbn [map]. rewrite join_cons. by apply print_starts. Qed.

Lemma run_push f m stk c rest : step_value stk c = push f m stk →
  run BeginValue stk (String c rest) =
  if Z.of_nat (length stk) + 1 <=? max_depth then run m (f :: stk) rest else None.
Proof. intros H. cbn [run step]. rewrite H. unfold push. by case_if. Qed.

Lemma run_literal v lit c stk rest :
  step_value stk c = Next (InLit lit v) stk → lit = "rue" ∨ lit = "alse" ∨ lit = "ull" →
  run BeginValue stk (String c (lit +:+ rest)) = resume (finish v stk) rest.
Proof.
  intros Hs [-> | [-> | -> ]]; cbn [run step]; rewrite Hs; apply resume_finish.
Qed.

(** Scanning a printed value gives the value back, in any context; it fails exactly when the
    value nests deeper than the package allows. *)
Lemma run_print v : scans v.
Proof.
  induction v using json_nested_ind; intros Hw stk rest Hp Hd; simpl in Hw.
  - by apply run_literal; auto.
  - destruct b; by apply run_literal; auto.
  - by apply run_num_value.
  - cbn [print]. rewrite run_string_value by done. by destruct stk as [|[items|ms [key|]] k].
  - cbn [print fits]. rewrite app_str_cons, app_str_assoc, run_push with (f := FArr []) (m := BeginValueOrEmpty) by done.
    case_if; [cbn [andb]|done]. rewrite app_str_cons, app_str_nil_l.
    destruct l as [|v l]; [apply (resume_finish (JArr []) stk "]" rest)|].
    apply Forall_cons in H as [Hv Hl]. simpl in Hw. apply andb_true_iff in Hw as [Hwv Hwl].
    rewrite run_value_or_empty by (by apply join_values_start). by rewrite run_items.
  - rewrite print_obj. cbn [fits].
    rewrite app_str_cons, app_str_assoc, run_push with (f := FObj [] None) (m := BeginStringOrEmpty) by done.
    case_if; [cbn [andb]|done]. rewrite app_str_cons, app_str_nil_l.
    destruct l as [|[key v] l]; [apply (resume_finish (JObj []) stk "}" rest)|].
    apply Forall_cons in H as [Hv Hl]. simpl in Hw.
    apply andb_true_iff in Hw as [[Hk Hwv]%andb_true_iff Hwl].
    rewrite run_string_or_empty by apply join_members_quote. by rewrite run_members.
Qed.

(** Reading one value off the front of a text. *)
Lemma parse_prefix_print v rest : wf v = true → delim rest = true →
  parse_prefix (print v +:+ rest) = if fits v 0 then Some (v, rest) else None.
Proof. intros Hw Hd. unfold parse_prefix. rewrite run_print by done. reflexivity. Qed.

Lemma parse_all_print v : wf v = true → parse_all (print v) = if fits v 0 then Some v else None.
Proof.
  intros Hw. unfold parse_all. rewrite <-(app_str_nil_r (print v)), parse_prefix_print by done.
  by case_if.
Qed.

(** * What the scanner accepts is well formed *)

Definition good (n : Z) (v : json) : bool := wf v && fits v n.

Definition frame_ok (n : Z) (f : frame) : bool :=
  match f with
  | FArr items => forallb (good n) items
  | FObj ms key =>
    forallb (λ '(k, v), str_ok k && good n v) ms
    && match key with Some k => str_ok k | None => true end
  end.

Fixpoint stack_ok (stk : list frame) : bool :=
  match stk with
  | [] => true
  | f :: k =>
    (Z.of_nat (length k) + 1 <=? max_depth) && frame_ok (Z.of_nat (length k) + 1) f && stack_ok k
  end.

Definition mode_ok (m : mode) : Prop :=
  match m with
  | InStr acc st => str_run SIn (of_rev acc) = Some st
  | InNum acc st => num_scan (of_rev acc) = Some st
  | InLit _ v => match v with JNull | JBool _ => True | _ => False end
  | _ => True
  end.

Definition outcome_ok (o : outcome) : Prop :=
  match o with
  | Next m stk => mode_ok m ∧ stack_ok stk = true
  | Done v | DoneBefore v => good 0 v = true
  | Bad => True
  end.

Lemma str_run_app a b st :
  str_run st (a +:+ b) = match str_run st a with Some st' => str_run st' b | None => None end.
Proof.
  revert st. induction a as [|c a IH]; intros st; [done|].
  rewrite app_str_cons. cbn [str_run]. destruct (match st with SIn => _ | _ => _ end); [done|].
  by destruct (str_next st c).
Qed.

Lemma num_run_app a b st :
  num_run st (a +:+ b) = match num_run st a with Some st' => num_run st' b | None => None end.
Proof.
  revert st. induction a as [|c a IH]; intros st; [done|].
  rewrite app_str_cons. cbn [num_run]. by destruct (num_next st c).
Qed.

Lemma num_scan_snoc a st c : num_scan a = Some st → num_scan (a +:+ String c "") = num_next st c.
Proof.
  destruct a as [|d a]; [done|]. rewrite app_str_cons. simpl.
  destruct (num_start d); [|done]. rewrite num_run_app. intros ->. simpl. by destruct (num_next st c).
Qed.

Lemma forallb_rev {A} (f : A → bool) l : forallb f (rev l) = forallb f l.
Proof.
  induction l as [|a l IH]; [done|]. simpl. rewrite forallb_app, IH. simpl.
  rewrite andb_true_r. apply andb_comm.
Qed.

Lemma finish_ok v stk : good (Z.of_nat (length stk)) v = true → stack_ok stk = true →
  outcome_ok (finish v stk).
Proof.
  intros Hv Hs. destruct stk as [|[items|ms [key|]] k]; simpl in *; try done.
  - rewrite <-length_frame with (f := FArr items) in *. simpl in *.
    apply andb_true_iff in Hs as [[Hm Hf]%andb_true_iff Hk].
    split; [done|]. by rewrite Hm, Hf, Hk, Hv.
  - apply andb_true_iff in Hs as [[Hm [Hf Hkey]%andb_true_iff]%andb_true_iff Hk].
    split; [done|]. rewrite Hm, Hf, Hk, Hkey.
    replace (Z.of_nat (length k) + 1) with (Z.of_nat (S (length k))) by lia.
    by rewrite Hv.
Qed.

Lemma good_arr items k : stack_ok (FArr items :: k) = true →
  good (Z.of_nat (length k)) (JArr (rev items)) = true ∧ stack_ok k = true.
Proof.
  cbn [stack_ok frame_ok]. intros [[Hm Hf]%andb_true_iff Hk]%andb_true_iff. split; [|done].
  unfold good. cbn [wf fits]. rewrite Hm, !forallb_rev. cbn [andb].
  unfold good in Hf. rewrite forallb_forall in Hf.
  apply andb_true_iff; split; apply forallb_forall; intros v Hv;
    apply Hf, andb_true_iff in Hv; tauto.
Qed.

Lemma good_obj ms k : stack_ok (FObj ms None :: k) = true →
  good (Z.of_nat (length k)) (JObj (rev ms)) = true ∧ stack_ok k = true.
Proof.
  cbn [stack_ok frame_ok]. intros [[Hm [Hf _]%andb_true_iff]%andb_true_iff Hk]%andb_true_iff.
  split; [|done]. unfold good. cbn [wf fits]. rewrite Hm, !forallb_rev. cbn [andb].
  unfold good in Hf. rewrite forallb_forall in Hf.
  apply andb_true_iff; split; apply forallb_forall; intros [key v] Hv; apply Hf in Hv;
    rewrite !andb_true_iff in *; tauto.
Qed.

Lemma push_ok f m stk : mode_ok m → (∀ n, frame_ok n f = true) → stack_ok stk = true →
  outcome_ok (push f m stk).
Proof.
  intros Hm Hf Hs. unfold push. case_if; [|done]. split; [done|]. simpl.
  by rewrite Heqb, Hf, Hs.
Qed.

Lemma step_value_ok stk c : stack_ok stk = true → outcome_ok (step_value stk c).
Proof.
  intros Hs. unfold step_value.
  repeat (case_if; [try (apply push_ok; by simpl); try (split; [|done]); try done | try done]);
    unfold mode_ok, of_rev; cbn [rev app string_of_list_ascii num_scan]; unfold num_start;
    bool_hyps; subst; try done.
  repeat match goal with H : _ ≠ _ |- _ => apply Ascii.eqb_neq in H; rewrite H; clear H end.
  by case_if.
Qed.

Lemma step_end_ok stk c : stack_ok stk = true → outcome_ok (step_end stk c).
Proof.
  intros Hs. unfold step_end. case_if; [done|].
  destruct stk as [|[items|ms [key|]] k]; try done; repeat case_if; try done.
  - apply good_arr in Hs as [? ?]. by apply finish_ok.
  - apply good_obj in Hs as [? ?]. by apply finish_ok.
Qed.

Lemma finish_str_ok lit stk : str_ok lit = true → stack_ok stk = true → outcome_ok (finish_str lit stk).
Proof.
  intros Hl Hs. assert (Hg : ∀ n, good n (JStr lit) = true).
  { intros n. unfold good. simpl. by rewrite Hl. }
  destruct stk as [|[items|ms [key|]] k]; try (apply finish_ok; done).
  simpl in *. split; [done|]. simpl. rewrite !andb_true_iff in *. tauto.
Qed.

Lemma finish_num_ok acc st stk : num_scan (of_rev acc) = Some st → num_final st = true →
  stack_ok stk = true → outcome_ok (finish (JNum (of_rev acc)) stk).
Proof.
  intros Ha Hf Hs. apply finish_ok; [|done]. unfold good. simpl. unfold num_ok. by rewrite Ha, Hf.
Qed.

Lemma step_ok m stk c : mode_ok m → stack_ok stk = true → outcome_ok (step m stk c).
Proof.
  intros Hm Hs. destruct m as [| | | | | |acc st|acc st|l v]; cbn [step].
  - by apply step_value_ok.
  - repeat case_if; [done| |by apply step_value_ok].
    destruct stk as [|[items|ms [key|]] k]; try done.
    apply good_arr in Hs as [? ?]. by apply finish_ok.
  - unfold step_string. by repeat case_if.
  - unfold step_string. repeat case_if; try done.
    destruct stk as [|[items|ms [key|]] k]; try done.
    apply good_obj in Hs as [? ?]. by apply finish_ok.
  - by repeat case_if.
  - by apply step_end_ok.
  - simpl in Hm. case_if.
    + apply finish_str_ok; [|done]. unfold str_ok. rewrite Hm. by destruct st.
    + destruct (str_next st c) eqn:Hn; [|done]. split; [|done]. simpl.
      rewrite of_rev_cons, str_run_app, Hm. cbn [str_run]. by rewrite Heqb, Hn.
  - simpl in Hm. destruct (num_next st c) eqn:Hn.
    + split; [|done]. simpl. by rewrite of_rev_cons, num_scan_snoc with (st := st).
    + destruct (num_final st) eqn:Hf; [|done].
      pose proof (finish_num_ok acc st stk Hm Hf Hs) as Ho.
      destruct (finish _ stk) as [m' stk'|v|v|]; try done.
      apply step_end_ok, Ho.
  - destruct l as [|d l]; [done|]. destruct (Ascii.eqb c d); [|done].
    destruct l; [|done]. apply finish_ok; [|done]. by destruct v.
Qed.

(** A value that was scanned is well formed and within the nesting limit. *)
Lemma run_good m stk s v rest : mode_ok m → stack_ok stk = true →
  run m stk s = Some (v, rest) → good 0 v = true.
Proof.
  revert m stk. induction s as [|c s IH]; intros m stk Hm Hs; cbn [run].
  - destruct m; try done. simpl. destruct stk; [|done]. destruct (num_final st) eqn:Hf; [|done].
    intros [= <- <-]. apply (finish_num_ok acc st [] Hm Hf Hs).
  - pose proof (step_ok m stk c Hm Hs) as Ho.
    destruct (step m stk c) as [m' stk'|v'|v'|]; simpl in Ho; [|by intros [= <- <-]..|done].
    destruct Ho. by apply IH.
Qed.

Lemma parse_prefix_good s v rest : parse_prefix s = Some (v, rest) → wf v = true ∧ fits v 0 = true.
Proof. intros H. apply andb_true_iff. by apply (run_good BeginValue [] s v rest). Qed.

Lemma parse_all_good s v : parse_all s = Some v → wf v = true ∧ fits v 0 = true.
Proof.
  unfold parse_all. destruct (parse_prefix s) as [[v' rest]|] eqn:H; [|done].
  case_if; [|done]. intros [= <-]. by eapply parse_prefix_good.
Qed.

(** Scanning consumes a prefix of the input, and at least one byte of it. *)
Lemma run_suffix m stk s v rest : run m stk s = Some (v, rest) → ∃ p, s = p +:+ rest.
Proof.
  revert m stk. induction s as [|c s IH]; intros m stk; cbn [run].
  - destruct (at_eof m stk); [|done]. intros [= <- <-]. by exists "".
  - destruct (step m stk c) as [m' stk'|v'|v'|]; [|intros [= <- <-]..|done].
    + intros (p & ->)%IH. by exists (String c p).
    + by exists (String c "").
    + by exists "".
Qed.

Lemma step_value_consumes stk c v : step_value stk c ≠ DoneBefore v.
Proof. unfold step_value, push. repeat case_if; done. Qed.

Lemma parse_prefix_shorter s v rest : parse_prefix s = Some (v, rest) →
  (String.length rest < String.length s)%nat.
Proof.
  unfold parse_prefix. destruct s as [|c s]; [done|]. cbn [run step].
  pose proof (step_value_consumes [] c) as Hc.
  destruct (step_value [] c) as [m' stk'|v'|v'|]; [| | |done]; simpl.
  - intros (p & ->)%run_suffix. rewrite length_app_str. lia.
  - intros [= <- <-]. lia.
  - by destruct (Hc v').
Qed.

(** Printing is the inverse of scanning up to white space: a scanned value, printed and scanned
    again, is itself. *)
Lemma parse_print_parse s v : parse_all s = Some v → parse_all (print v) = Some v.
Proof. intros [Hw Hf]%parse_all_good. by rewrite parse_all_print, Hf. Qed.
