(* ===== verification/JsonText.v ===== *)
(** String literals and canonical documents: what [encoding/json] does with the text of strings
    when it decodes and encodes them, and [canonicalJSON] of internal/store/store.go.

    [quote] is the string encoder with HTML escaping, [unquote] the decoder of literals,
    [escape_html] what [json.Marshal] does to the literals of a [json.RawMessage], [canon] the trip
    through [any] (objects become maps: keys sorted, the last of equal keys wins).  The lemmas are
    the inverse laws and the idempotence of canonical documents. *)
From S2P Require Import Prelude Utf8 Json.
Local Open Scope Z_scope.

(** * Encoding a string *)

Definition hex_digit (n : Z) : ascii := if n <? 10 then chr (48 + n) else chr (87 + n).

Definition ascii_chunks (l : list ascii) : list chunk := map R1 l.

(** The escape [\u00xx] of an ASCII byte. *)
Definition u_escape (n : Z) : list chunk :=
  ascii_chunks [backslash; "u"; "0"; "0"; hex_digit (n / 16); hex_digit (n mod 16)]%char.

(** [htmlSafeSet]. *)
Definition html_safe (c : ascii) : bool :=
  (32 <=? byte c) && negb (str_mem c (String dquote (String backslash "<>&"))).

(** One step of [appendString] with HTML escaping. *)
Definition quote_chunk (k : chunk) : list chunk :=
  match k with
  | RBad _ => ascii_chunks [backslash; "u"; "f"; "f"; "f"; "d"]%char
  | R1 c =>
    if html_safe c then [k] else
    if Ascii.eqb c backslash || Ascii.eqb c dquote then ascii_chunks [backslash; c]
    else if byte c =? 8 then ascii_chunks [backslash; "b"%char]
    else if byte c =? 12 then ascii_chunks [backslash; "f"%char]
    else if byte c =? 10 then ascii_chunks [backslash; "n"%char]
    else if byte c =? 13 then ascii_chunks [backslash; "r"%char]
    else if byte c =? 9 then ascii_chunks [backslash; "t"%char]
    else u_escape (byte c)
  | _ =>
    if rune k =? 8232 then ascii_chunks [backslash; "u"; "2"; "0"; "2"; "8"]%char
    else if rune k =? 8233 then ascii_chunks [backslash; "u"; "2"; "0"; "2"; "9"]%char
    else [k]
  end.

(** The literal of a string. *)
Definition quote (s : string) : string := bytes_of (List.concat (map quote_chunk (chunks s))).

(** * Decoding a literal *)

Definition hex_val (c : ascii) : option Z :=
  if is_digit c then Some (byte c - 48)
  else if in_range 97 102 c then Some (byte c - 87)
  else if in_range 65 70 c then Some (byte c - 55)
  else None.

Definition hex4 (a b c d : ascii) : option Z :=
  match hex_val a, hex_val b, hex_val c, hex_val d with
  | Some x, Some y, Some z, Some w => Some (((x * 16 + y) * 16 + z) * 16 + w)
  | _, _, _, _ => None
  end.

Definition is_surrogate (r : Z) : bool := (55296 <=? r) && (r <? 57344).

(** [utf16.DecodeRune]; U+FFFD unless the two are a surrogate pair. *)
Definition decode_surrogates (r1 r2 : Z) : Z :=
  if (55296 <=? r1) && (r1 <? 56320) && (56320 <=? r2) && (r2 <? 57344)
  then (r1 - 55296) * 1024 + (r2 - 56320) + 65536
  else rune_error.

(** The byte a two-byte escape stands for. *)
Definition simple_escape (e : ascii) : option Z :=
  if Ascii.eqb e dquote || Ascii.eqb e backslash || Ascii.eqb e "/" || Ascii.eqb e "'" then Some (byte e)
  else if Ascii.eqb e "b" then Some 8
  else if Ascii.eqb e "f" then Some 12
  else if Ascii.eqb e "n" then Some 10
  else if Ascii.eqb e "r" then Some 13
  else if Ascii.eqb e "t" then Some 9
  else None.

(** The escape [\uXXXX] at the head of the pieces ([getu4]). *)
Definition getu4 (l : list chunk) : option Z :=
  match l with
  | R1 s :: R1 u :: R1 a :: R1 b :: R1 c :: R1 d :: _ =>
    if Ascii.eqb s backslash && Ascii.eqb u "u" then hex4 a b c d else None
  | _ => None
  end.

(** [unquoteBytes] as the runes it writes. *)
Fixpoint unq (l : list chunk) : option (list Z) :=
  match l with
  | [] => Some []
  | R1 c :: l1 =>
    if Ascii.eqb c backslash then
      match l1 with
      | R1 e :: l2 =>
        if Ascii.eqb e "u" then
          match l2 with
          | R1 x1 :: R1 x2 :: R1 x3 :: R1 x4 :: l6 =>
            match hex4 x1 x2 x3 x4 with
            | Some rr =>
              if is_surrogate rr then
                match getu4 l6, l6 with
                | Some rr1, _ :: _ :: _ :: _ :: _ :: _ :: l12 =>
                  let dec := decode_surrogates rr rr1 in
                  if dec =? rune_error then cons rune_error <$> unq l6 else cons dec <$> unq l12
                | _, _ => cons rune_error <$> unq l6
                end
              else cons rr <$> unq l6
            | None => None
            end
          | _ => None
          end
        else
          match simple_escape e with
          | Some r => cons r <$> unq l2
          | None => None
          end
      | _ => None
      end
    else if Ascii.eqb c dquote || (byte c <? 32) then None
    else cons (byte c) <$> unq l1
  | k :: l1 => cons (rune k) <$> unq l1
  end.

(** The string a literal denotes (the empty one for a text that is no literal). *)
Definition unquote (lit : string) : string :=
  match unq (chunks lit) with Some rs => string_of_runes rs | None => "" end.

(** * Escaping inside a raw message *)

(** What [appendCompact] does with HTML escaping on. *)
Definition escape_chunk (k : chunk) : list chunk :=
  match k with
  | R1 c => if str_mem c "<>&" then u_escape (byte c) else [k]
  | R3 _ _ _ => if (rune k =? 8232) || (rune k =? 8233) then quote_chunk k else [k]
  | _ => [k]
  end.

Definition escape_lit (lit : string) : string := bytes_of (List.concat (map escape_chunk (chunks lit))).

Fixpoint escape_html (v : json) : json :=
  match v with
  | JStr lit => JStr (escape_lit lit)
  | JArr l => JArr (map escape_html l)
  | JObj l => JObj (map (λ '(k, v), (escape_lit k, escape_html v)) l)
  | _ => v
  end.

(** * Canonical documents *)

(** Insertion into a Go map, kept in the order in which [json.Marshal] prints it. *)
Fixpoint insert_key {A} (k : string) (v : A) (l : list (string * A)) : list (string * A) :=
  match l with
  | [] => [(k, v)]
  | (k', v') :: l' =>
    match String.compare k k' with
    | Lt => (k, v) :: l
    | Eq => (k, v) :: l'
    | Gt => (k', v') :: insert_key k v l'
    end
  end.

Definition go_map {A} (l : list (string * A)) : list (string * A) :=
  fold_left (λ acc kv, insert_key kv.1 kv.2 acc) l [].

(** Decoding into [any] with [UseNumber] and encoding the result. *)
Fixpoint canon (v : json) : json :=
  match v with
  | JStr lit => JStr (quote (unquote lit))
  | JArr l => JArr (map canon l)
  | JObj l =>
    JObj (map (λ kv, (quote kv.1, kv.2)) (go_map (map (λ '(k, v), (unquote k, canon v)) l)))
  | _ => v
  end.

(** Why [canonicalJSON] fails. *)
Inductive canon_error := InvalidJSON | MultipleValues.

(** [canonicalJSON]: one value, and no second one after it. *)
Definition canonicalJSON (raw : string) : result canon_error string :=
  match parse_prefix raw with
  | None => Err InvalidJSON
  | Some (v, rest) =>
    match parse_prefix rest with
    | Some _ => Err MultipleValues
    | None => Ok (print (canon v))
    end
  end.

Example canonicalJSON_example :
  canonicalJSON (json_text "{ 'b' : [1, 2.50 ,null] , 'a':'x\u003cy','b':true}") =
  Ok (json_text "{'a':'x\u003cy','b':true}").
Proof. vm_compute. reflexivity. Qed.

(** * Lemmas on pieces *)

(** The pieces the decoder produces: encodings, ASCII bytes, and invalid bytes above ASCII. *)
Definition piece_ok (k : chunk) : bool :=
  match k with RBad a => 128 <=? byte a | _ => chunk_ok k end.

Lemma chunks_pieces s : forallb piece_ok (chunks s) = true.
Proof.
  assert (H : ∀ n s, (String.length s ≤ n)%nat → forallb piece_ok (chunks s) = true); [|by eapply H].
  clear s. induction n as [|n IH]; intros [|a s] Hn; simpl in Hn; try done; [lia|].
  cbn [chunks].
  repeat (match goal with
    | |- context [if ?b then _ else _] => destruct b eqn:?
    | |- context [match ?s with EmptyString => _ | String _ _ => _ end] => is_var s; destruct s
    end); cbn [forallb piece_ok chunk_ok]; rewrite IH by (simpl in *; lia);
  rewrite andb_true_r; try done; bool_hyps; apply Z.leb_le; lia.
Qed.

Lemma bytes_of_cons k l : bytes_of (k :: l) = chunk_bytes k +:+ bytes_of l.
Proof. reflexivity. Qed.

Ltac all_bytes c := destruct c as [[] [] [] [] [] [] [] []].

Lemma unq_quote_chunk k l : unq (quote_chunk k ++ l) = cons (rune k) <$> unq l.
Proof.
  destruct k as [a|a|a b|a b c|a b c d]; [reflexivity|all_bytes a; reflexivity|..];
    unfold quote_chunk; do 2 (case_if; [bool_hyps; by match goal with H : rune _ = _ |- _ => rewrite H end|]); reflexivity.
Qed.

Lemma quote_chunk_ok k : piece_ok k = true → forallb chunk_ok (quote_chunk k) = true.
Proof.
  destruct k as [a|a|a b|a b c|a b c d]; intros H; [reflexivity|all_bytes a; try reflexivity; done|..];
    unfold quote_chunk; do 2 (case_if; [reflexivity|]); simpl in *; by rewrite H.
Qed.

Lemma quote_chunks_ok s : forallb chunk_ok (List.concat (map quote_chunk (chunks s))) = true.
Proof.
  pose proof (chunks_pieces s) as H. induction (chunks s) as [|k l IH]; [done|].
  simpl in *. apply andb_true_iff in H as [Hk Hl].
  rewrite forallb_app, quote_chunk_ok by done. by apply IH.
Qed.

Lemma chunks_quote s : chunks (quote s) = List.concat (map quote_chunk (chunks s)).
Proof. apply chunks_bytes_of, quote_chunks_ok. Qed.

(** Decoding an encoded string gives its runes, invalid bytes as U+FFFD. *)
Lemma unq_quote s : unq (chunks (quote s)) = Some (runes s).
Proof.
  rewrite chunks_quote. unfold runes. induction (chunks s) as [|k l IH]; [done|].
  simpl. by rewrite unq_quote_chunk, IH.
Qed.

Lemma unquote_quote s : valid_utf8 s = true → unquote (quote s) = s.
Proof. intros H. unfold unquote. rewrite unq_quote. by apply string_of_runes_runes. Qed.

Lemma unquote_valid lit : valid_utf8 (unquote lit) = true.
Proof. unfold unquote. destruct (unq _); [apply valid_string_of_runes|reflexivity]. Qed.

(** * Literals are accepted by the scanner *)

Lemma str_next_high st c st' : 128 ≤ byte c → str_next st c = Some st' → st = SIn ∧ st' = SIn.
Proof. all_bytes c; intros H; try (vm_compute in H; by destruct H); destruct st; intros [=]; done. Qed.

Lemma str_next_high_in c : 128 ≤ byte c → str_next SIn c = Some SIn ∧ Ascii.eqb c dquote = false.
Proof. all_bytes c; intros H; try (vm_compute in H; by destruct H); done. Qed.

Lemma str_run_cons st c s st1 : str_next st c = Some st1 →
  (st = SIn → Ascii.eqb c dquote = false) → str_run st (String c s) = str_run st1 s.
Proof. intros Hn Hq. cbn [str_run]. rewrite Hn. destruct st; try done. by rewrite Hq. Qed.

Lemma str_run_highs s rest :
  str_forall (λ c, 128 <=? byte c) s = true → str_run SIn (s +:+ rest) = str_run SIn rest.
Proof.
  induction s as [|c s IH]; [done|]. cbn [str_forall].
  intros [Hc Hs]%andb_true_iff. apply Z.leb_le in Hc. rewrite app_str_cons. destruct (str_next_high_in c Hc).
  rewrite str_run_cons with (st1 := SIn) by done. by apply IH.
Qed.

(** A piece of more than one byte, or an invalid one, has no ASCII byte. *)
Lemma high_bytes k : piece_ok k = true → (∀ c, k ≠ R1 c) →
  str_forall (λ c, 128 <=? byte c) (chunk_bytes k) = true.
Proof.
  destruct k as [a|a|a b|a b c|a b c d]; intros H Hne; [| by destruct (Hne a) |..];
    simpl in *; range_hyps; try lia.
Qed.

Lemma str_run_quote_chunk k rest : piece_ok k = true →
  str_run SIn (bytes_of (quote_chunk k) +:+ rest) = str_run SIn rest.
Proof.
  intros H. destruct k as [a|a|a b|a b c|a b c d]; [reflexivity|all_bytes a; reflexivity|..];
    unfold quote_chunk; do 2 (case_if; [reflexivity|]);
    unfold bytes_of; cbn [map concat_str]; rewrite app_str_nil_r;
    apply str_run_highs, high_bytes; done.
Qed.

Lemma quote_ok s : str_ok (quote s) = true.
Proof.
  unfold str_ok, quote. pose proof (chunks_pieces s) as H.
  assert (Hr : str_run SIn (bytes_of (List.concat (map quote_chunk (chunks s)))) = Some SIn); [|by rewrite Hr].
  induction (chunks s) as [|k l IH]; [done|]. simpl in *. apply andb_true_iff in H as [Hk Hl].
  rewrite bytes_of_app, str_run_quote_chunk by done. by apply IH.
Qed.

(** Escaping a raw message keeps every literal a literal. *)
Lemma str_run_escape_chunk st k rest : piece_ok k = true → str_run st (chunk_bytes k) ≠ None →
  str_run st (bytes_of (escape_chunk k) +:+ rest) = str_run st (chunk_bytes k +:+ rest).
Proof.
  intros Hk Hrun. destruct k as [a|a|a b|a b c|a b c d];
    try (unfold bytes_of; cbn [escape_chunk map concat_str]; by rewrite app_str_nil_r).
  - cbn [escape_chunk]. case_if;
      [|unfold bytes_of; cbn [map concat_str]; by rewrite app_str_nil_r].
    cbn [str_mem] in Heqb. repeat (apply orb_true_iff in Heqb as [Heqb|Heqb]; [apply Ascii.eqb_eq in Heqb; subst a|]);
      try done; destruct st; try reflexivity; by destruct Hrun.
  - cbn [escape_chunk]. case_if;
      [|unfold bytes_of; cbn [map concat_str]; by rewrite app_str_nil_r].
    assert (st = SIn) as ->.
    { destruct st; [done|exfalso..]; apply Hrun; cbn [chunk_bytes str_run];
        destruct (str_next _ a) eqn:E; try done;
        apply str_next_high in E as [? ?]; try done; simpl in Hk; byte_facts; range_hyps; lia. }
    rewrite str_run_quote_chunk by done. symmetry. apply str_run_highs, high_bytes; done.
Qed.

Lemma escape_lit_ok lit : str_ok lit = true → str_ok (escape_lit lit) = true.
Proof.
  unfold str_ok, escape_lit.
  assert (Hl : ∀ l st, forallb piece_ok l = true → str_run st (bytes_of l) ≠ None →
    str_run st (bytes_of (List.concat (map escape_chunk l))) = str_run st (bytes_of l)).
  { induction l as [|k l IH]; intros st Hp Hn; [done|]. cbn [map List.concat forallb] in *.
    apply andb_true_iff in Hp as [Hk Hp]. rewrite bytes_of_app, bytes_of_cons in *.
    rewrite str_run_app in Hn. destruct (str_run st (chunk_bytes k)) as [st'|] eqn:E; [|done].
    rewrite str_run_escape_chunk by (done || by rewrite E). rewrite !str_run_app, E. by apply IH. }
  intros H. rewrite Hl; rewrite ?bytes_of_chunks; [done|apply chunks_pieces|].
  intros E. by rewrite E in H.
Qed.

(** Nothing of an encoded string is left to escape. *)
Lemma escape_quote_chunk k : List.concat (map escape_chunk (quote_chunk k)) = quote_chunk k.
Proof.
  destruct k as [a|a|a b|a b c|a b c d]; [reflexivity|all_bytes a; reflexivity|..];
    unfold quote_chunk; repeat (case_if; [reflexivity|]); cbn [map List.concat escape_chunk]; try reflexivity.
  by repeat match goal with H : (rune _ =? _) = false |- _ => rewrite H; clear H end.
Qed.

Lemma escape_quote s : escape_lit (quote s) = quote s.
Proof.
  unfold escape_lit. rewrite chunks_quote. unfold quote. f_equal.
  induction (chunks s) as [|k l IH]; [done|]. simpl.
  by rewrite map_app, concat_app, escape_quote_chunk, IH.
Qed.

(** * Decoding a literal does not fail *)

Lemma str_run_high st k rest r : (∀ c, k ≠ R1 c) → piece_ok k = true →
  str_run st (chunk_bytes k +:+ rest) = Some r → st = SIn ∧ str_run SIn rest = Some r.
Proof.
  intros Hne Hk H. pose proof (high_bytes k Hk Hne) as Hh.
  assert (st = SIn) as ->; [|split; [done|by rewrite str_run_highs in H]].
  destruct k as [a|a|a b|a b c|a b c d]; [|by destruct (Hne a)|..];
    cbn [chunk_bytes str_forall] in *; apply andb_true_iff in Hh as [Ha%Z.leb_le _];
    rewrite app_str_cons in H; cbn [str_run] in H; destruct st; try done;
    destruct (str_next _ a) eqn:E; try done; apply str_next_high in E as [? ?]; done.
Qed.

Lemma str_run_R1 st c l r : str_run st (bytes_of (R1 c :: l)) = Some r →
  ∃ st', str_next st c = Some st' ∧ str_run st' (bytes_of l) = Some r
    ∧ (st = SIn → c ≠ dquote).
Proof.
  rewrite bytes_of_cons. cbn [chunk_bytes]. rewrite app_str_cons, app_str_nil_l. cbn [str_run].
  destruct (match st with SIn => Ascii.eqb c dquote | _ => false end) eqn:E; [done|].
  destruct (str_next st c) as [st'|]; [|done]. intros H. exists st'. split_and!; try done.
  intros ->. by apply Ascii.eqb_neq.
Qed.

Lemma hex_val_hex c : is_hex c = true → is_Some (hex_val c).
Proof.
  unfold is_hex, hex_val. destruct (is_digit c); [eauto|].
  destruct (in_range 97 102 c); [eauto|]. destruct (in_range 65 70 c); [eauto|done].
Qed.

(** Inside a [\u] escape the next piece is a hexadecimal digit. *)
Lemma str_run_hex n l : forallb piece_ok l = true → str_run (SU n) (bytes_of l) = Some SIn →
  ∃ c l', l = R1 c :: l' ∧ is_Some (hex_val c)
    ∧ str_run (match n with S (S k) => SU (S k) | _ => SIn end) (bytes_of l') = Some SIn
    ∧ forallb piece_ok l' = true.
Proof.
  destruct l as [|k l]; [done|]. simpl. intros [Hk Hl]%andb_true_iff H.
  destruct k as [a|a|a b|a b c|a b c d];
    try (rewrite bytes_of_cons in H; apply str_run_high in H as [? _]; done).
  apply str_run_R1 in H as (st' & Hn & Hr & _). simpl in Hn.
  destruct (is_hex a) eqn:Ha; [|done]. injection Hn as <-.
  exists a, l. split_and!; try done. by apply hex_val_hex.
Qed.

Lemma str_run_hex4 l : forallb piece_ok l = true → str_run (SU 4) (bytes_of l) = Some SIn →
  ∃ a b c d l' z, l = R1 a :: R1 b :: R1 c :: R1 d :: l' ∧ hex4 a b c d = Some z
    ∧ str_run SIn (bytes_of l') = Some SIn ∧ forallb piece_ok l' = true.
Proof.
  intros Hl H.
  apply str_run_hex in H as (a & l1 & -> & [xa Ha] & H & H1); [|done].
  apply str_run_hex in H as (b & l2 & -> & [xb Hb] & H & H2); [|done].
  apply str_run_hex in H as (c & l3 & -> & [xc Hc] & H & H3); [|done].
  apply str_run_hex in H as (d & l4 & -> & [xd Hd] & H & H4); [|done].
  eexists a, b, c, d, l4, _. unfold hex4. rewrite Ha, Hb, Hc, Hd. split_and!; done.
Qed.

Lemma simple_escape_some e : str_mem e (String dquote "\/bfnrt") = true → is_Some (simple_escape e).
Proof. all_bytes e; intros H; try done; vm_compute; eauto. Qed.

(** The six pieces of a second escape, when [getu4] accepts them. *)
Lemma getu4_some l r : getu4 l = Some r → ∃ s u a b c d l',
  l = R1 s :: R1 u :: R1 a :: R1 b :: R1 c :: R1 d :: l' ∧ s = backslash ∧ u = "u"%char.
Proof.
  unfold getu4. repeat (match goal with |- context [match ?l with _ => _ end] => is_var l; destruct l end; try done).
  case_if; [|done]. bool_hyps. intros _. eauto 12.
Qed.

(** A complete second escape leaves a literal behind it. *)
Lemma str_run_getu4 l r : forallb piece_ok l = true → str_run SIn (bytes_of l) = Some SIn →
  getu4 l = Some r → ∃ a1 a2 a3 a4 a5 a6 l', l = a1 :: a2 :: a3 :: a4 :: a5 :: a6 :: l'
    ∧ str_run SIn (bytes_of l') = Some SIn ∧ forallb piece_ok l' = true.
Proof.
  intros Hp H (s & u & a & b & c & d & l' & -> & -> & ->)%getu4_some.
  apply str_run_R1 in H as (st' & [= <-] & H & _).
  apply str_run_R1 in H as (st' & [= <-] & H & _).
  cbn [forallb] in Hp. apply andb_true_iff in Hp as [_ [_ Hp]%andb_true_iff].
  apply str_run_hex4 in H as (? & ? & ? & ? & l'' & z & [= <- <- <- <- <-] & _ & H & Hp'); [|done].
  eexists _, _, _, _, _, _, l'. split_and!; done.
Qed.

Lemma unq_some n l : (length l ≤ n)%nat → forallb piece_ok l = true →
  str_run SIn (bytes_of l) = Some SIn → is_Some (unq l).
Proof.
  revert l. induction n as [|n IH]; intros l Hn Hp H; (destruct l as [|k l]; [by eexists|]); simpl in Hn; [lia|].
  assert (Hmap : ∀ (x : list chunk) (z : Z), is_Some (unq x) → is_Some (cons z <$> unq x)).
  { intros x z [y ->]. by eexists. }
  simpl in Hp. apply andb_true_iff in Hp as [Hk Hp].
  destruct k as [a|a|a b|a b c|a b c d];
    try (rewrite bytes_of_cons in H; apply str_run_high in H as [_ H]; try done; apply Hmap, IH; done || lia).
  apply str_run_R1 in H as (st' & Hnx & H & Hq). specialize (Hq eq_refl).
  cbn [unq]. simpl in Hnx. destruct (Ascii.eqb a backslash) eqn:Ea.
  2: { destruct (byte a <? 32) eqn:Hb; [done|]. injection Hnx as <-.
       apply Ascii.eqb_neq in Hq. rewrite Hq. simpl. apply Hmap, IH; done || lia. }
  injection Hnx as <-. destruct l as [|k l]; [done|]. simpl in Hp, Hn.
  apply andb_true_iff in Hp as [Hk2 Hp].
  destruct k as [e|e|e b|e b c|e b c d];
    try (rewrite bytes_of_cons in H; apply str_run_high in H as [? _]; done).
  apply str_run_R1 in H as (st' & Hnx & H & _). cbn [str_next] in Hnx.
  destruct (Ascii.eqb_spec e "u") as [->|Hu].
  - injection Hnx as <-. apply str_run_hex4 in H as (x1 & x2 & x3 & x4 & l6 & z & -> & Hz & H & Hp6); [|done].
    simpl in Hn. rewrite Hz. case_if; [|apply Hmap, IH; done || lia].
    destruct (getu4 l6) as [rr1|] eqn:Hg; [|apply Hmap, IH; done || lia].
    pose proof (str_run_getu4 _ _ Hp6 H Hg) as (a1 & a2 & a3 & a4 & a5 & a6 & l12 & -> & H12 & Hp12).
    case_if; apply Hmap, IH; done || (simpl in *; lia).
  - destruct (str_mem e _) eqn:He; [|done]. injection Hnx as <-.
    destruct (simple_escape_some e He) as [r ->]. apply Hmap, IH; done || lia.
Qed.

Lemma unquote_total lit : str_ok lit = true → ∃ rs, unq (chunks lit) = Some rs ∧ unquote lit = string_of_runes rs.
Proof.
  unfold str_ok. intros H.
  destruct (unq_some (length (chunks lit)) (chunks lit)) as [rs Hrs]; [done|apply chunks_pieces| |].
  - rewrite bytes_of_chunks. by destruct (str_run SIn lit) as [[| |]|].
  - exists rs. split; [done|]. unfold unquote. by rewrite Hrs.
Qed.

(** * Maps in printing order *)

Lemma compare_lt_trans a b c : String.compare a b = Lt → String.compare b c = Lt → String.compare a c = Lt.
Proof.
  revert b c. induction a as [|x a IH]; intros [|y b] [|z c]; simpl; try done.
  unfold Ascii.compare.
  destruct (N.compare_spec (N_of_ascii x) (N_of_ascii y)) as [E1|E1|E1]; try done;
  destruct (N.compare_spec (N_of_ascii y) (N_of_ascii z)) as [E2|E2|E2]; try done;
  destruct (N.compare_spec (N_of_ascii x) (N_of_ascii z)) as [E3|E3|E3]; try done; try lia.
  apply IH.
Qed.

Lemma compare_refl a : String.compare a a = Eq.
Proof.
  induction a as [|x a IH]; simpl; [done|]. unfold Ascii.compare. by rewrite N.compare_refl.
Qed.

Lemma compare_gt_lt a b : String.compare a b = Gt → String.compare b a = Lt.
Proof. intros H. rewrite String.compare_antisym, H. done. Qed.

Definition key_lt {A} (x y : string * A) : Prop := String.compare x.1 y.1 = Lt.

(** A map lists its entries with strictly increasing keys. *)
Definition sorted_keys {A} (l : list (string * A)) : Prop := StronglySorted key_lt l.

Lemma insert_key_Forall {A} (P : string * A → Prop) k v l :
  P (k, v) → Forall P l → Forall P (insert_key k v l).
Proof.
  intros Hk Hl. induction Hl as [|[k' v'] l H Hl IH]; simpl; [by repeat constructor|].
  destruct (String.compare k k'); repeat (constructor; try done).
Qed.

Lemma insert_key_sorted {A} k (v : A) l : sorted_keys l → sorted_keys (insert_key k v l).
Proof.
  induction 1 as [|[k' v'] l Hs IH Hf]; simpl; [repeat constructor|].
  destruct (String.compare k k') eqn:E.
  - apply String.compare_eq_iff in E as ->. constructor; [done|]. eapply Forall_impl; [apply Hf|]. done.
  - constructor; [by constructor|]. constructor; [done|].
    eapply Forall_impl; [apply Hf|]. intros [k2 v2] H2. by eapply compare_lt_trans.
  - constructor; [done|]. apply insert_key_Forall; [|done]. by apply compare_gt_lt.
Qed.

Lemma go_map_sorted {A} (l : list (string * A)) : sorted_keys (go_map l).
Proof.
  unfold go_map. assert (H : ∀ acc, sorted_keys acc → sorted_keys (fold_left (λ acc kv, insert_key kv.1 kv.2 acc) l acc)).
  { induction l as [|kv l IH]; intros acc Hs; [done|]. by apply IH, insert_key_sorted. }
  apply H. constructor.
Qed.

Lemma insert_key_last {A} k (v : A) l : Forall (λ x, key_lt x (k, v)) l → insert_key k v l = l ++ [(k, v)].
Proof.
  induction 1 as [|[k' v'] l H Hl IH]; [done|]. simpl.
  rewrite String.compare_antisym. unfold key_lt in H. simpl in H. by rewrite H, IH.
Qed.

(** Building a map from entries that are already in order changes nothing. *)
Lemma go_map_id {A} (l : list (string * A)) : sorted_keys l → go_map l = l.
Proof.
  unfold go_map.
  assert (H : ∀ l2 l1 : list (string * A), sorted_keys (l1 ++ l2) →
    fold_left (λ acc kv, insert_key kv.1 kv.2 acc) l2 l1 = l1 ++ l2).
  { induction l2 as [|[k v] l2 IH]; intros l1 Hs; [by rewrite app_nil_r|]. simpl.
    rewrite insert_key_last.
    - rewrite IH; [by rewrite <-app_assoc|]. by rewrite <-app_assoc.
    - apply Forall_forall. intros x Hx.
      eapply StronglySorted_app_1_elem_of; [apply Hs|done|set_solver]. }
  apply (H l []).
Qed.

Lemma go_map_Forall {A} (P : string * A → Prop) l : Forall P l → Forall P (go_map l).
Proof.
  unfold go_map. intros Hl.
  assert (H : ∀ acc, Forall P acc → Forall P (fold_left (λ acc kv, insert_key kv.1 kv.2 acc) l acc)).
  { induction Hl as [|[k v] l Hk Hl IH]; intros acc Ha; [done|]. by apply IH, insert_key_Forall. }
  apply H. constructor.
Qed.

(** * Canonical documents *)

Lemma Forall_map_id {A} (f : A → A) l : Forall (λ x, f x = x) l → map f l = l.
Proof. induction 1 as [|x l Hx Hl IH]; [done|]. simpl. by rewrite Hx, IH. Qed.

Lemma canon_idem v : canon (canon v) = canon v.
Proof.
  induction v using json_nested_ind; try done.
  - cbn [canon]. by rewrite unquote_quote by apply unquote_valid.
  - cbn [canon]. f_equal. rewrite map_map. apply map_ext_in. intros v Hv.
    by eapply Forall_forall in H; [|apply list_elem_of_In].
  - cbn [canon]. f_equal. f_equal.
    set (L := map (λ '(k, v), (unquote k, canon v)) l).
    rewrite map_map. rewrite <-(go_map_id (go_map L)) at 2 by apply go_map_sorted. f_equal.
    apply Forall_map_id, go_map_Forall. unfold L. apply Forall_map.
    eapply Forall_impl; [apply H|]. intros [k v] Hv. simpl in *.
    by rewrite unquote_quote, Hv by apply unquote_valid.
Qed.

Lemma forallb_Forall {A} (f : A → bool) l : forallb f l = true ↔ Forall (λ x, f x = true) l.
Proof.
  rewrite forallb_forall, Forall_forall. split; intros H x Hx; apply H; by apply list_elem_of_In.
Qed.

Lemma canon_wf v : wf v = true → wf (canon v) = true.
Proof.
  induction v using json_nested_ind; intros Hw; try done; cbn [canon wf] in *.
  - apply quote_ok.
  - rewrite forallb_Forall in *. apply Forall_map.
    induction H as [|v l Hv Hl IH]; [done|]. inversion_clear Hw. constructor; [by apply Hv|by apply IH].
  - rewrite forallb_Forall in *. apply Forall_map, go_map_Forall, Forall_map.
    induction H as [|[k v] l Hv Hl IH]; [done|]. inversion_clear Hw as [|? ? Hkv Hw'].
    apply andb_true_iff in Hkv as [_ Hwv].
    constructor; [|by apply IH]. simpl in *. by rewrite quote_ok, Hv.
Qed.

Lemma canon_fits v : ∀ n, fits v n = true → fits (canon v) n = true.
Proof.
  induction v using json_nested_ind; intros n Hw; try done; cbn [canon fits] in *;
    apply andb_true_iff in Hw as [-> Hw]; cbn [andb].
  - rewrite forallb_Forall in *. apply Forall_map.
    induction H as [|v l Hv Hl IH]; [done|]. inversion_clear Hw. constructor; [by apply Hv|by apply IH].
  - rewrite forallb_Forall in *. apply Forall_map, go_map_Forall, Forall_map.
    induction H as [|[k v] l Hv Hl IH]; [done|]. inversion_clear Hw.
    constructor; [by apply Hv|by apply IH].
Qed.

(** Escaping keeps the shape of a value. *)
Lemma escape_html_wf v : wf v = true → wf (escape_html v) = true.
Proof.
  induction v using json_nested_ind; intros Hw; try done; cbn [escape_html wf] in *.
  - by apply escape_lit_ok.
  - rewrite forallb_Forall in *. apply Forall_map.
    induction H as [|v l Hv Hl IH]; [done|]. inversion_clear Hw. constructor; [by apply Hv|by apply IH].
  - rewrite forallb_Forall in *. apply Forall_map.
    induction H as [|[k v] l Hv Hl IH]; [done|]. inversion_clear Hw as [|? ? Hkv Hw'].
    apply andb_true_iff in Hkv as [Hk Hwv].
    constructor; [|by apply IH]. simpl in *. by rewrite escape_lit_ok, Hv.
Qed.

Lemma escape_html_fits v : ∀ n, fits (escape_html v) n = fits v n.
Proof.
  assert (Hm : ∀ {A B} (g : B → bool) (f : A → B) l, forallb g (map f l) = forallb (λ x, g (f x)) l).
  { intros A B g f l. induction l as [|x l IH]; [done|]. simpl. by rewrite IH. }
  induction v using json_nested_ind; intros n; try done; cbn [escape_html fits]; f_equal;
    rewrite Hm; induction H as [|x l Hx Hl IH]; try done; simpl.
  - by rewrite Hx, IH.
  - destruct x as [k v]. simpl in *. by rewrite Hx, IH.
Qed.

(** A canonical value has nothing left to escape. *)
Lemma escape_html_canon v : escape_html (canon v) = canon v.
Proof.
  induction v using json_nested_ind; try done; cbn [canon escape_html].
  - by rewrite escape_quote.
  - f_equal. rewrite map_map. apply map_ext_in. intros v Hv.
    by eapply Forall_forall in H; [|apply list_elem_of_In].
  - f_equal. rewrite map_map. apply map_ext_Forall. apply go_map_Forall, Forall_map.
    eapply Forall_impl; [apply H|]. intros [k v] Hv. simpl in *. by rewrite escape_quote, Hv.
Qed.

Lemma canonicalJSON_ok raw c : canonicalJSON raw = Ok c →
  ∃ v, c = print (canon v) ∧ wf v = true ∧ fits v 0 = true.
Proof.
  unfold canonicalJSON. destruct (parse_prefix raw) as [[v rest]|] eqn:Hp; [|done].
  destruct (parse_prefix rest); [done|]. intros [= <-]. exists v.
  split; [done|]. by eapply parse_prefix_good.
Qed.

Lemma canonicalJSON_print v : wf v = true → fits v 0 = true →
  canonicalJSON (print v) = Ok (print (canon v)).
Proof.
  intros Hw Hf. unfold canonicalJSON.
  rewrite <-(app_str_nil_r (print v)), parse_prefix_print, Hf by done. reflexivity.
Qed.

Lemma parse_all_canonical raw c : canonicalJSON raw = Ok c → ∃ v, c = print (canon v) ∧ parse_all c = Some (canon v).
Proof.
  intros (v & -> & Hw & Hf)%canonicalJSON_ok. exists v. split; [done|].
  rewrite parse_all_print by (by apply canon_wf). by rewrite canon_fits.
Qed.

(** [canonicalJSON] is idempotent: what the store saved is stored as normalized JSON, which is
    what the verifier compares it with. *)
Lemma canonicalJSON_canonical raw c : canonicalJSON raw = Ok c → canonicalJSON c = Ok c.
Proof.
  intros (v & -> & Hw & Hf)%canonicalJSON_ok.
  rewrite canonicalJSON_print by (by apply canon_wf || by apply canon_fits). by rewrite canon_idem.
Qed.
