(* ===== verification/Strconv.v ===== *)
(** The text encodings of the Go standard library the program uses: [strconv.FormatInt],
    [strconv.ParseInt], unpadded URL base64 and hexadecimal, each with its round trip. *)
From S2P Require Import Prelude.
Local Open Scope Z_scope.

(** * Decimal integers *)

Definition digit (n : Z) : ascii := chr (48 + n).
Definition is_dec (c : ascii) : bool := in_range 48 57 c.

(** The decimal digits of a natural number. *)
Fixpoint dec_digits (fuel : nat) (n : Z) : string :=
  match fuel with
  | O => ""
  | S f => if n <? 10 then String (digit n) "" else dec_digits f (n / 10) +:+ String (digit (n mod 10)) ""
  end.

(** [strconv.FormatInt(n, 10)], with digits enough for any 64-bit integer. *)
Definition int_fuel : nat := 20.
Definition format_int (n : Z) : string :=
  if n <? 0 then String "-" (dec_digits int_fuel (- n)) else dec_digits int_fuel n.

(** The value of a run of digits read after [acc]; [None] for anything else. *)
Fixpoint dec_value (acc : Z) (s : string) : option Z :=
  match s with
  | EmptyString => Some acc
  | String c s' => if is_dec c then dec_value (acc * 10 + (byte c - 48)) s' else None
  end.

Definition parse_digits (s : string) : option Z :=
  match s with EmptyString => None | _ => dec_value 0 s end.

Definition int64_min : Z := - 2 ^ 63.
Definition int64_max : Z := 2 ^ 63 - 1.
Definition in_int64 (n : Z) : bool := (int64_min <=? n) && (n <=? int64_max).

(** [strconv.ParseInt(s, 10, 64)] and [strconv.Atoi]. *)
Definition parse_int (s : string) : option Z :=
  let range (o : option Z) : option Z :=
    match o with Some n => if in_int64 n then Some n else None | None => None end in
  match s with
  | String c s' =>
    if Ascii.eqb c "-" then range (Z.opp <$> parse_digits s')
    else if Ascii.eqb c "+" then range (parse_digits s')
    else range (parse_digits s)
  | EmptyString => None
  end.

(** * Base64, [base64.RawURLEncoding] *)

Definition b64_char (n : Z) : ascii :=
  if n <? 26 then chr (65 + n)
  else if n <? 52 then chr (97 + (n - 26))
  else if n <? 62 then chr (48 + (n - 52))
  else if n =? 62 then "-"%char else "_"%char.

Definition b64_val (c : ascii) : option Z :=
  if in_range 65 90 c then Some (byte c - 65)
  else if in_range 97 122 c then Some (byte c - 97 + 26)
  else if in_range 48 57 c then Some (byte c - 48 + 52)
  else if Ascii.eqb c "-" then Some 62
  else if Ascii.eqb c "_" then Some 63
  else None.

Fixpoint b64_encode (s : string) : string :=
  match s with
  | String a (String b (String c s')) =>
    String (b64_char (byte a / 4)) (String (b64_char (byte a mod 4 * 16 + byte b / 16))
      (String (b64_char (byte b mod 16 * 4 + byte c / 64)) (String (b64_char (byte c mod 64)) (b64_encode s'))))
  | String a (String b EmptyString) =>
    String (b64_char (byte a / 4)) (String (b64_char (byte a mod 4 * 16 + byte b / 16))
      (String (b64_char (byte b mod 16 * 4)) ""))
  | String a EmptyString =>
    String (b64_char (byte a / 4)) (String (b64_char (byte a mod 4 * 16)) "")
  | EmptyString => ""
  end.

(** The decoder skips line breaks and refuses any other byte outside its alphabet. *)
Fixpoint b64_values (s : string) : option (list Z) :=
  match s with
  | EmptyString => Some []
  | String c s' =>
    if Ascii.eqb c "010" || Ascii.eqb c "013" then b64_values s'
    else match b64_val c with Some v => cons v <$> b64_values s' | None => None end
  end.

Fixpoint b64_groups (l : list Z) : option string :=
  match l with
  | a :: b :: c :: d :: l' =>
    (λ s, String (chr (a * 4 + b / 16)) (String (chr (b mod 16 * 16 + c / 4)) (String (chr (c mod 4 * 64 + d)) s)))
    <$> b64_groups l'
  | [a; b; c] => Some (String (chr (a * 4 + b / 16)) (String (chr (b mod 16 * 16 + c / 4)) ""))
  | [a; b] => Some (String (chr (a * 4 + b / 16)) "")
  | [_] => None
  | [] => Some ""
  end.

Definition b64_decode (s : string) : option string := b64_values s ≫= b64_groups.

(** * Hexadecimal, [hex.EncodeToString] *)

Definition hex_char (n : Z) : ascii := if n <? 10 then chr (48 + n) else chr (87 + n).

Fixpoint hex_encode (s : string) : string :=
  match s with
  | EmptyString => ""
  | String c s' => String (hex_char (byte c / 16)) (String (hex_char (byte c mod 16)) (hex_encode s'))
  end.

Definition hex_val (c : ascii) : option Z :=
  if in_range 48 57 c then Some (byte c - 48)
  else if in_range 97 102 c then Some (byte c - 87)
  else if in_range 65 70 c then Some (byte c - 55)
  else None.

(** [hex.DecodeString]. *)
Fixpoint hex_decode (s : string) : option string :=
  match s with
  | EmptyString => Some ""
  | String a (String b s') =>
    x ← hex_val a; y ← hex_val b; String (chr (x * 16 + y)) <$> hex_decode s'
  | String _ EmptyString => None
  end.

(** [base64.StdEncoding]: the same digits in another alphabet, padded. *)
Definition b64_std_char (c : ascii) : ascii := if Ascii.eqb c "-" then "+" else if Ascii.eqb c "_" then "/" else c.
Definition b64_std_encode (s : string) : string :=
  string_of_list_ascii (map b64_std_char (list_ascii_of_string (b64_encode s)))
  +:+ (if len s mod 3 =? 1 then "==" else if len s mod 3 =? 2 then "=" else "").

Example b64_std_example : b64_std_encode (String "251" "ab") = "+2Fi" ∧ b64_std_encode "a" = "YQ==" ∧ hex_decode "6a0B" = Some (String "j" (String "011" "")).
Proof. by vm_compute. Qed.

(** * Lemmas *)

Lemma dec_value_app a b : ∀ acc, dec_value acc (a +:+ b) = dec_value acc a ≫= λ n, dec_value n b.
Proof.
  induction a as [|c a IH]; intros acc; [done|]. rewrite app_str_cons. cbn [dec_value].
  destruct (is_dec c); [|done]. apply IH.
Qed.

Lemma digit_dec n : 0 ≤ n < 10 → is_dec (digit n) = true ∧ byte (digit n) = 48 + n.
Proof.
  intros H. unfold is_dec, digit. rewrite in_range_spec, byte_chr by lia. lia.
Qed.

Lemma dec_digits_value fuel : ∀ n, 0 ≤ n < 10 ^ Z.of_nat fuel → (0 < fuel)%nat →
  dec_value 0 (dec_digits fuel n) = Some n.
Proof.
  induction fuel as [|f IH]; intros n Hn Hf; [lia|]. cbn [dec_digits].
  case_if; bool_hyps.
  - destruct (digit_dec n) as [Hd Hb]; [lia|]. simpl. rewrite Hd, Hb. f_equal. lia.
  - rewrite Nat2Z.inj_succ, Z.pow_succ_r in Hn by lia.
    destruct f as [|f]; [simpl in Hn; lia|].
    rewrite dec_value_app, IH by lia. simpl.
    destruct (digit_dec (n mod 10)) as [Hd Hb]; [lia|]. rewrite Hd, Hb. f_equal. lia.
Qed.

Lemma dec_digits_head fuel n : 0 ≤ n → (0 < fuel)%nat →
  ∃ c s, dec_digits fuel n = String c s ∧ is_dec c = true.
Proof.
  revert n. induction fuel as [|f IH]; intros n Hn Hf; [lia|]. cbn [dec_digits]. case_if; bool_hyps.
  - destruct (digit_dec n) as [Hd Hb]; [lia|]. eauto.
  - destruct f as [|f].
    + destruct (digit_dec (n mod 10)) as [Hd Hb]; [lia|]. simpl. rewrite app_str_nil_l. eauto.
    + destruct (IH (n / 10)) as (c & s & -> & Hc); [lia..|]. rewrite app_str_cons. eauto.
Qed.

Lemma dec_not_sign c : is_dec c = true → Ascii.eqb c "-" = false ∧ Ascii.eqb c "+" = false.
Proof.
  unfold is_dec. rewrite in_range_spec. intros H.
  split; apply Ascii.eqb_neq; intros ->; vm_compute in H; by destruct H.
Qed.

Lemma parse_digits_format fuel n : 0 ≤ n < 10 ^ Z.of_nat fuel → (0 < fuel)%nat →
  parse_digits (dec_digits fuel n) = Some n.
Proof.
  intros Hn Hf. destruct (dec_digits_head fuel n) as (c & s & E & _); [lia..|].
  unfold parse_digits. rewrite <-(dec_digits_value fuel n) by done. by rewrite E.
Qed.

(** [ParseInt] reads back what [FormatInt] printed, for every 64-bit integer. *)
Lemma parse_format_int n : in_int64 n = true → parse_int (format_int n) = Some n.
Proof.
  intros Hr. pose proof Hr as Hr'. unfold in_int64, int64_min, int64_max in Hr'. bool_hyps.
  assert (Hp : ∀ m, 0 ≤ m ≤ 2 ^ 63 → parse_digits (dec_digits int_fuel m) = Some m).
  { intros m Hm. apply parse_digits_format; [|unfold int_fuel; lia].
    change (10 ^ Z.of_nat int_fuel) with 100000000000000000000. lia. }
  unfold format_int, parse_int. case_if; bool_hyps.
  - rewrite Ascii.eqb_refl, Hp by lia. simpl. by rewrite Z.opp_involutive, Hr.
  - destruct (dec_digits_head int_fuel n) as (c & s & E & Hc); [lia|unfold int_fuel; lia|].
    rewrite E. apply dec_not_sign in Hc as [-> ->]. rewrite <-E, Hp, Hr by lia. done.
Qed.

Lemma b64_val_char n : 0 ≤ n < 64 → b64_val (b64_char n) = Some n
  ∧ Ascii.eqb (b64_char n) "010" || Ascii.eqb (b64_char n) "013" = false.
Proof.
  intros Hn. assert (Hc : ∃ k, n = Z.of_nat k ∧ (k < 64)%nat) by (exists (Z.to_nat n); lia).
  destruct Hc as (k & -> & Hk). clear Hn.
  do 64 (destruct k as [|k]; [split; reflexivity|]). lia.
Qed.

Lemma b64_values_cons n s : 0 ≤ n < 64 → b64_values (String (b64_char n) s) = cons n <$> b64_values s.
Proof. intros Hn. destruct (b64_val_char n Hn) as [Hv He]. cbn [b64_values]. by rewrite He, Hv. Qed.

(** Two bytes are equal when their values are. *)
Ltac byte_eq := apply byte_inj; rewrite byte_chr by lia; lia.

Lemma b64_roundtrip s : b64_decode (b64_encode s) = Some s.
Proof.
  assert (H : ∀ n s, (String.length s ≤ n)%nat → b64_decode (b64_encode s) = Some s); [|by eapply H].
  clear s. unfold b64_decode. induction n as [|n IH]; intros s Hn.
  { destruct s; [reflexivity|simpl in Hn; lia]. }
  destruct s as [|a [|b [|c s]]]; [reflexivity|..]; cbn [b64_encode];
    pose proof (byte_bounds a); try (pose proof (byte_bounds b)); try (pose proof (byte_bounds c)).
  - rewrite !b64_values_cons by lia. simpl. do 2 f_equal. byte_eq.
  - rewrite !b64_values_cons by lia. simpl. do 2 f_equal; [byte_eq|]. f_equal. byte_eq.
  - specialize (IH s). simpl in Hn. rewrite !b64_values_cons by lia.
    destruct (b64_values (b64_encode s)) as [l|]; [|by discriminate IH; lia].
    simpl in *. rewrite IH by lia. simpl.
    do 2 f_equal; [byte_eq|]. f_equal; [byte_eq|]. f_equal. byte_eq.
Qed.

Lemma length_hex_encode s : len (hex_encode s) = 2 * len s.
Proof. induction s as [|c s IH]; [done|]. cbn [hex_encode]. rewrite !len_cons, IH. lia. Qed.
