(* ===== verification/GoTime.v ===== *)
(** Instants and their RFC 3339 text, as Go's [time] package prints and parses them.

    A [time.Time] is its instant: the nanoseconds since the Unix epoch (the source compares times
    with [Equal] and formats them in UTC only).  [format] is [t.UTC().Format(time.RFC3339Nano)] and
    [parse] is [time.Parse(time.RFC3339Nano, s)], which also decodes times in JSON documents.
    [parse_format] is the round trip on the years the format can carry, 0 to 9999; outside them the
    text has a sign or a fifth digit and does not parse. *)
From S2P Require Import Prelude Strconv.
Local Open Scope Z_scope.

Definition nanos : Z := 1000000000.
Definition day_nanos : Z := 86400 * nanos.

(** Days from 0000-01-01 to the Unix epoch. *)
Definition epoch_day : Z := 719528.

(** Go's zero time, 0001-01-01T00:00:00Z ([IsZero]). *)
Definition zero_time : Z := - 62135596800 * nanos.
Definition is_zero (t : Z) : bool := t =? zero_time.

(** * The calendar *)

Definition is_leap (y : Z) : bool := (y mod 4 =? 0) && (negb (y mod 100 =? 0) || (y mod 400 =? 0)).

(** Days from 0000-01-01 to the first day of year [y]. *)
Definition days_before_year (y : Z) : Z := 365 * y + (y + 3) / 4 - (y + 99) / 100 + (y + 399) / 400.

Definition month_lengths (y : Z) : list Z :=
  [31; if is_leap y then 29 else 28; 31; 30; 31; 30; 31; 31; 30; 31; 30; 31].

Definition days_in (y m : Z) : Z := nth (Z.to_nat (m - 1)) (month_lengths y) 0.
Definition days_before_month (y m : Z) : Z :=
  foldr Z.add 0 (firstn (Z.to_nat (m - 1)) (month_lengths y)).

(** The day number of a date, and the date of a day number. *)
Definition day_of_date (y m d : Z) : Z := days_before_year y + days_before_month y m + (d - 1).

Definition year_of_day (n : Z) : Z :=
  let y := n * 400 / 146097 in
  if n <? days_before_year y then y - 1
  else if days_before_year (y + 1) <=? n then y + 1 else y.

Fixpoint month_of (lens : list Z) (m r : Z) : Z * Z :=
  match lens with
  | [] => (m, r + 1)
  | n :: lens' => if r <? n then (m, r + 1) else month_of lens' (m + 1) (r - n)
  end.

Definition date_of_day (n : Z) : Z * (Z * Z) :=
  let y := year_of_day n in (y, month_of (month_lengths y) 1 (n - days_before_year y)).

(** * Formatting *)

Definition pad2 (n : Z) : string := String (digit (n / 10)) (String (digit (n mod 10)) "").
Definition pad4_nat (n : Z) : string := pad2 (n / 100) +:+ pad2 (n mod 100).
Definition pad4 (n : Z) : string :=
  if n <? 0 then String "-" (if - n <? 10000 then pad4_nat (- n) else format_int (- n))
  else if n <? 10000 then pad4_nat n else format_int n.

(** The digits of a fraction of [k] places without trailing zeros. *)
Fixpoint frac_digits (k : nat) (n : Z) : string :=
  match k with
  | O => ""
  | S k' =>
    if n =? 0 then ""
    else String (digit (n / 10 ^ Z.of_nat k')) (frac_digits k' (n mod 10 ^ Z.of_nat k'))
  end.

Definition format_frac (ns : Z) : string := if ns =? 0 then "" else String "." (frac_digits 9 ns).

Definition format (t : Z) : string :=
  let secs := t / nanos in
  let sod := secs mod 86400 in
  let '(y, (m, d)) := date_of_day (secs / 86400 + epoch_day) in
  pad4 y +:+ String "-" (pad2 m +:+ String "-" (pad2 d +:+ String "T" (pad2 (sod / 3600) +:+
    String ":" (pad2 (sod mod 3600 / 60) +:+ String ":" (pad2 (sod mod 60) +:+
    (format_frac (t mod nanos) +:+ "Z")))))).

(** [Time.MarshalJSON] refuses years the format cannot carry. *)
Definition year (t : Z) : Z := year_of_day (t / nanos / 86400 + epoch_day).
Definition marshal_time (t : Z) : option string :=
  if (0 <=? year t) && (year t <=? 9999) then Some (format t) else None.

(** * Parsing *)

Fixpoint read_digits (k : nat) (acc : Z) (s : string) : option (Z * string) :=
  match k with
  | O => Some (acc, s)
  | S k' =>
    match s with
    | String c s' => if is_dec c then read_digits k' (acc * 10 + (byte c - 48)) s' else None
    | EmptyString => None
    end
  end.

(** The hour may have one digit. *)
Definition read_hour (s : string) : option (Z * string) :=
  match read_digits 2 0 s with Some r => Some r | None => read_digits 1 0 s end.

Definition expect (c : ascii) (s : string) : option string :=
  match s with String d s' => if Ascii.eqb c d then Some s' else None | EmptyString => None end.

(** The digits of a fraction: nine count, the rest is dropped. *)
Fixpoint read_frac (k : nat) (s : string) : Z * string :=
  match s with
  | String c s' =>
    if is_dec c then
      match k with
      | O => read_frac O s'
      | S k' => let '(v, r) := read_frac k' s' in ((byte c - 48) * 10 ^ Z.of_nat k' + v, r)
      end
    else (0, s)
  | EmptyString => (0, s)
  end.

Definition parse_frac (s : string) : Z * string :=
  match s with
  | String p (String c s') =>
    if (Ascii.eqb p "." || Ascii.eqb p ",") && is_dec c then read_frac 9 (String c s') else (0, s)
  | _ => (0, s)
  end.

(** The zone: [Z], or a signed offset in seconds. *)
Definition parse_zone (s : string) : option Z :=
  match s with
  | EmptyString => None
  | String c s' =>
    if Ascii.eqb c "Z" then match s' with EmptyString => Some 0 | _ => None end else
    if Ascii.eqb c "+" || Ascii.eqb c "-" then
      '(hh, r) ← read_digits 2 0 s'; r ← expect ":" r; '(mm, r) ← read_digits 2 0 r;
      match r with
      | EmptyString =>
        if (hh <=? 24) && (mm <=? 60)
        then Some ((if Ascii.eqb c "-" then -1 else 1) * (hh * 60 + mm) * 60) else None
      | _ => None
      end
    else None
  end.

Definition date_ok (y m d : Z) : bool := (1 <=? m) && (m <=? 12) && (1 <=? d) && (d <=? days_in y m).

Definition parse (s : string) : option Z :=
  '(y, r) ← read_digits 4 0 s; r ← expect "-" r;
  '(m, r) ← read_digits 2 0 r; r ← expect "-" r;
  '(d, r) ← read_digits 2 0 r; r ← expect "T" r;
  '(hh, r) ← read_hour r; r ← expect ":" r;
  '(mm, r) ← read_digits 2 0 r; r ← expect ":" r;
  '(ss, r) ← read_digits 2 0 r;
  let '(ns, r) := parse_frac r in
  off ← parse_zone r;
  if date_ok y m d && (hh <? 24) && (mm <? 60) && (ss <? 60)
  then Some (((day_of_date y m d - epoch_day) * 86400 + hh * 3600 + mm * 60 + ss - off) * nanos + ns)
  else None.

Example parse_example : parse "2026-02-28T23:59:60Z" = None
  ∧ parse "2024-02-29T01:02:03.5+01:30" = Some 1709163123500000000.
Proof. split; vm_compute; reflexivity. Qed.

Example format_example : format 1709163123500000000 = "2024-02-28T23:32:03.5Z"
  ∧ format zero_time = "0001-01-01T00:00:00Z".
Proof. split; vm_compute; reflexivity. Qed.

(** The instants whose text parses back. *)
Definition time_ok (t : Z) : bool := (0 <=? year t) && (year t <=? 9999).

(** * Lemmas *)

Lemma year_of_day_spec n :
  days_before_year (year_of_day n) ≤ n < days_before_year (year_of_day n + 1).
Proof.
  unfold year_of_day. repeat case_if; bool_hyps; unfold days_before_year in *; lia.
Qed.

Lemma days_before_year_succ y :
  days_before_year (y + 1) = days_before_year y + foldr Z.add 0 (month_lengths y).
Proof.
  unfold days_before_year, month_lengths, is_leap.
  destruct (Z.eqb_spec (y mod 4) 0), (Z.eqb_spec (y mod 100) 0), (Z.eqb_spec (y mod 400) 0);
    simpl; lia.
Qed.

Lemma month_of_spec lens : ∀ m0 r, 0 ≤ r < foldr Z.add 0 lens →
  ∃ i d, month_of lens m0 r = (m0 + Z.of_nat i, d) ∧ (i < length lens)%nat
    ∧ 1 ≤ d ≤ nth i lens 0 ∧ r = foldr Z.add 0 (firstn i lens) + (d - 1).
Proof.
  induction lens as [|n lens IH]; intros m0 r Hr; simpl in Hr; [lia|]. cbn [month_of]. case_if; bool_hyps.
  - exists 0%nat, (r + 1). simpl. split_and!; try lia. f_equal. lia.
  - destruct (IH (m0 + 1) (r - n)) as (i & d & E & Hi & Hd & Hr'); [lia|].
    exists (S i), d. rewrite E. simpl. split_and!; try lia. f_equal. lia.
Qed.

(** The date of a day is a valid date and its day number is the day. *)
Lemma date_of_day_spec n y m d : date_of_day n = (y, (m, d)) →
  y = year_of_day n ∧ date_ok y m d = true ∧ 1 ≤ d ≤ 31 ∧ day_of_date y m d = n.
Proof.
  unfold date_of_day. pose proof (year_of_day_spec n) as Hy.
  rewrite days_before_year_succ in Hy.
  destruct (month_of_spec (month_lengths (year_of_day n)) 1 (n - days_before_year (year_of_day n)))
    as (i & d' & -> & Hi & Hd & Hr); [lia|].
  intros [= <- <- <-]. split; [done|]. simpl in Hi.
  assert (Hin : Z.to_nat (1 + Z.of_nat i - 1) = i) by lia.
  unfold date_ok, day_of_date, days_in, days_before_month. rewrite Hin.
  assert (nth i (month_lengths (year_of_day n)) 0 ≤ 31).
  { unfold month_lengths. destruct (is_leap _); do 12 (destruct i as [|i]; [simpl; lia|]); simpl; lia. }
  split_and!; [|lia..]. rewrite !andb_true_iff, !Z.leb_le. lia.
Qed.

Lemma digit_read n : 0 ≤ n < 10 → is_dec (digit n) = true ∧ byte (digit n) - 48 = n.
Proof. intros H. destruct (digit_dec n H) as [? ->]. split; [done|lia]. Qed.

Lemma read_digit k acc n s : 0 ≤ n < 10 →
  read_digits (S k) acc (String (digit n) s) = read_digits k (acc * 10 + n) s.
Proof. intros Hn. destruct (digit_read n Hn) as [Hd Hb]. cbn [read_digits]. by rewrite Hd, Hb. Qed.

Lemma read_pad2 n acc k s : 0 ≤ n < 100 →
  read_digits (S (S k)) acc (pad2 n +:+ s) = read_digits k (acc * 100 + n) s.
Proof.
  intros Hn. unfold pad2. rewrite !app_str_cons, app_str_nil_l, !read_digit by lia. f_equal. lia.
Qed.

Lemma read_two n s : 0 ≤ n < 100 → read_digits 2 0 (pad2 n +:+ s) = Some (n, s).
Proof. intros Hn. by rewrite read_pad2. Qed.

Lemma read_hour_pad2 n s : 0 ≤ n < 100 → read_hour (pad2 n +:+ s) = Some (n, s).
Proof. intros Hn. unfold read_hour. by rewrite read_pad2. Qed.

Lemma read_pad4 n s : 0 ≤ n < 10000 → read_digits 4 0 (pad4 n +:+ s) = Some (n, s).
Proof.
  intros Hn. unfold pad4. replace (n <? 0) with false by lia. replace (n <? 10000) with true by lia.
  unfold pad4_nat. rewrite app_str_assoc, !read_pad2 by lia. simpl. do 2 f_equal. lia.
Qed.

Lemma expect_cons c s : expect c (String c s) = Some s.
Proof. simpl. by rewrite Ascii.eqb_refl. Qed.

Lemma read_frac_digits k : ∀ n c s, 0 ≤ n < 10 ^ Z.of_nat k → is_dec c = false →
  read_frac k (frac_digits k n +:+ String c s) = (n, String c s).
Proof.
  induction k as [|k IH]; intros n c s Hn Hc.
  - change (10 ^ Z.of_nat 0) with 1 in Hn. cbn [frac_digits]. rewrite app_str_nil_l.
    cbn [read_frac]. rewrite Hc. f_equal. lia.
  - cbn [frac_digits]. destruct (Z.eqb_spec n 0) as [->|Hne].
    + rewrite app_str_nil_l. cbn [read_frac]. by rewrite Hc.
    + rewrite Nat2Z.inj_succ, Z.pow_succ_r in Hn by lia.
      assert (Hp : 0 < 10 ^ Z.of_nat k) by (apply Z.pow_pos_nonneg; lia).
      assert (Hd : 0 ≤ n / 10 ^ Z.of_nat k < 10).
      { split; [apply Z.div_pos; lia|apply Z.div_lt_upper_bound; lia]. }
      destruct (digit_read _ Hd) as [H1 H2]. rewrite app_str_cons. cbn [read_frac].
      rewrite H1, IH, H2 by (done || by apply Z.mod_pos_bound). f_equal.
      rewrite Z.mul_comm. symmetry. by apply Z.div_mod, Z.neq_sym, Z.lt_neq.
Qed.

Lemma frac_digits_head k n : 0 < n < 10 ^ Z.of_nat (S k) →
  ∃ d r, frac_digits (S k) n = String d r ∧ is_dec d = true.
Proof.
  intros Hn. cbn [frac_digits]. destruct (Z.eqb_spec n 0) as [->|Hne]; [lia|].
  rewrite Nat2Z.inj_succ, Z.pow_succ_r in Hn by lia.
  assert (Hp : 0 < 10 ^ Z.of_nat k) by (apply Z.pow_pos_nonneg; lia).
  eexists _, _. split; [done|]. apply digit_dec.
  split; [apply Z.div_pos; lia|apply Z.div_lt_upper_bound; lia].
Qed.

Lemma nanos_pow : nanos = 10 ^ Z.of_nat 9.
Proof. reflexivity. Qed.

Lemma parse_frac_format n s : 0 ≤ n < nanos → parse_frac (format_frac n +:+ String "Z" s) = (n, String "Z" s).
Proof.
  intros Hn. rewrite nanos_pow in Hn. unfold format_frac. destruct (Z.eqb_spec n 0) as [->|Hne].
  - rewrite app_str_nil_l. by destruct s.
  - rewrite app_str_cons. rewrite <-(read_frac_digits 9 n "Z" s) by done.
    destruct (frac_digits_head 8 n) as (d & r & -> & Hd); [lia|].
    rewrite app_str_cons. unfold parse_frac. by rewrite Hd.
Qed.

(** The text of an instant parses back to it, for every year the format can carry. *)
Lemma parse_format t : time_ok t = true → parse (format t) = Some t.
Proof.
  unfold time_ok, year, format. set (day := t / nanos / 86400 + epoch_day). set (sod := (t / nanos) mod 86400).
  intros Hy. bool_hyps. destruct (date_of_day day) as [y [m d]] eqn:Hd.
  apply date_of_day_spec in Hd as (-> & Hok & Hd31 & Hday).
  assert (Hsod : 0 ≤ sod < 86400) by (unfold sod; lia).
  pose proof Hok as Hm. unfold date_ok in Hm. bool_hyps.
  unfold parse.
  rewrite read_pad4 by lia. cbn [mbind option_bind]. rewrite expect_cons. cbn [mbind option_bind].
  do 2 (rewrite read_two by lia; cbn [mbind option_bind]; rewrite expect_cons; cbn [mbind option_bind]).
  rewrite read_hour_pad2 by lia. cbn [mbind option_bind]. rewrite expect_cons. cbn [mbind option_bind].
  rewrite read_two by lia. cbn [mbind option_bind]. rewrite expect_cons. cbn [mbind option_bind].
  rewrite read_two by lia. cbn [mbind option_bind].
  rewrite parse_frac_format by (unfold nanos; lia). cbn [parse_zone mbind option_bind].
  change (Ascii.eqb "Z" "Z") with true. cbn.
  rewrite Hok, Hday. unfold day, sod in *.
  replace (_ && _ && _) with true by (symmetry; rewrite !andb_true_iff, !Z.ltb_lt; lia).
  f_equal. unfold nanos. lia.
Qed.

#[global] Arguments format : simpl never.
#[global] Arguments parse : simpl never.
