(* ===== verification/Sha256.v ===== *)
(** SHA-256 (FIPS 180-4), what [crypto/sha256.Sum256] computes: the digest of captures, of backup
    files and of bearer tokens.  Words are 32-bit integers in [Z] with their wrap-around written
    out.  The proofs use only that the digest has 32 bytes. *)
From S2P Require Import Prelude Strconv.
Local Open Scope Z_scope.

Definition w32 (x : Z) : Z := Z.land x 4294967295.
Definition add32 (x y : Z) : Z := w32 (x + y).
Definition rotr (n x : Z) : Z := Z.lor (Z.shiftr x n) (w32 (Z.shiftl x (32 - n))).
Definition ch (x y z : Z) : Z := Z.lxor (Z.land x y) (Z.land (Z.lxor x 4294967295) z).
Definition maj (x y z : Z) : Z := Z.lxor (Z.land x y) (Z.lxor (Z.land x z) (Z.land y z)).
Definition big_sigma0 (x : Z) : Z := Z.lxor (rotr 2 x) (Z.lxor (rotr 13 x) (rotr 22 x)).
Definition big_sigma1 (x : Z) : Z := Z.lxor (rotr 6 x) (Z.lxor (rotr 11 x) (rotr 25 x)).
Definition small_sigma0 (x : Z) : Z := Z.lxor (rotr 7 x) (Z.lxor (rotr 18 x) (Z.shiftr x 3)).
Definition small_sigma1 (x : Z) : Z := Z.lxor (rotr 17 x) (Z.lxor (rotr 19 x) (Z.shiftr x 10)).

(** The constants are the first 32 bits of the fractional parts of the cube roots (of the first 64
    primes) and of the square roots (of the first 8). *)
Definition primes : list Z :=
  List.filter (λ n, forallb (λ d, negb (n mod d =? 0)) (seqZ 2 (n - 2))) (seqZ 2 310).

(** The integer cube root, bit by bit, below [2 ^ bits]. *)
Fixpoint cube_root (bits : nat) (acc n : Z) : Z :=
  match bits with
  | O => acc
  | S b => let next := acc + 2 ^ Z.of_nat b in cube_root b (if next ^ 3 <=? n then next else acc) n
  end.

Definition round_constants : list Z := Eval vm_compute in
  map (λ p, w32 (cube_root 36 0 (p * 2 ^ 96))) primes.

Record hash_state := mkHash { ha : Z; hb : Z; hc : Z; hd : Z; he : Z; hf : Z; hg : Z; hh : Z }.

Definition initial_hash : hash_state := Eval vm_compute in
  match map (λ p, w32 (Z.sqrt (p * 2 ^ 64))) primes with
  | a :: b :: c :: d :: e :: f :: g :: h :: _ => mkHash a b c d e f g h
  | _ => mkHash 0 0 0 0 0 0 0 0
  end.

(** The message schedule, latest word first. *)
Fixpoint extend (n : nat) (ws : list Z) : list Z :=
  match n with
  | O => ws
  | S n' =>
    extend n' (add32 (add32 (small_sigma1 (nth 1 ws 0)) (nth 6 ws 0))
                     (add32 (small_sigma0 (nth 14 ws 0)) (nth 15 ws 0)) :: ws)
  end.

Definition round (s : hash_state) (kw : Z * Z) : hash_state :=
  let t1 := add32 (hh s) (add32 (big_sigma1 (he s)) (add32 (ch (he s) (hf s) (hg s)) (add32 kw.1 kw.2))) in
  let t2 := add32 (big_sigma0 (ha s)) (maj (ha s) (hb s) (hc s)) in
  mkHash (add32 t1 t2) (ha s) (hb s) (hc s) (add32 (hd s) t1) (he s) (hf s) (hg s).

Definition compress (s : hash_state) (block : list Z) : hash_state :=
  let ws := rev (extend 48 (rev block)) in
  let r := fold_left round (combine round_constants ws) s in
  mkHash (add32 (ha s) (ha r)) (add32 (hb s) (hb r)) (add32 (hc s) (hc r)) (add32 (hd s) (hd r))
         (add32 (he s) (he r)) (add32 (hf s) (hf r)) (add32 (hg s) (hg r)) (add32 (hh s) (hh r)).

(** The big-endian bytes of a word of [n] bytes. *)
Fixpoint be_bytes (n : nat) (x : Z) : list Z :=
  match n with O => [] | S n' => be_bytes n' (x / 256) ++ [x mod 256] end.

Fixpoint be_words (l : list Z) : list Z :=
  match l with
  | a :: b :: c :: d :: l' => ((a * 256 + b) * 256 + c) * 256 + d :: be_words l'
  | _ => []
  end.

Definition pad_message (l : list Z) : list Z :=
  let n := Z.of_nat (length l) in
  l ++ 128 :: repeat 0 (Z.to_nat ((55 - n) mod 64)) ++ be_bytes 8 (n * 8).

(** Cuts the words into blocks of sixteen; [fuel] bounds the number of blocks. *)
Fixpoint blocks (fuel : nat) (ws : list Z) : list (list Z) :=
  match fuel, ws with
  | S f, _ :: _ => firstn 16 ws :: blocks f (skipn 16 ws)
  | _, _ => []
  end.

Definition sum256 (s : string) : string :=
  let ws := be_words (pad_message (map byte (list_ascii_of_string s))) in
  let h := fold_left compress (blocks (length ws) ws) initial_hash in
  string_of_list_ascii (map chr (flat_map (be_bytes 4)
    [ha h; hb h; hc h; hd h; he h; hf h; hg h; hh h])).

(** [hex.EncodeToString(sum[:])]. *)
Definition sha256_hex (s : string) : string := hex_encode (sum256 s).

Example sha256_abc :
  sha256_hex "abc" = "ba7816bf8f01cfea414140de5dae2223b00361a396177a9cb410ff61f20015ad".
Proof. vm_compute. reflexivity. Qed.

Example sha256_two_blocks :
  sha256_hex "abcdbcdecdefdefgefghfghighijhijkijkljklmklmnlmnomnopnopq" =
  "248d6a61d20638b8e5c026930c3e6039a33ce45964ff2167f6ecedd419db06c1".
Proof. vm_compute. reflexivity. Qed.

(** * Lemmas *)

Lemma length_be_bytes n x : length (be_bytes n x) = n.
Proof. revert x. induction n as [|n IH]; intros x; [done|]. simpl. rewrite length_app, IH. simpl. lia. Qed.

Lemma length_string_of_list l : String.length (string_of_list_ascii l) = length l.
Proof. induction l as [|a l IH]; [done|]. simpl. by rewrite IH. Qed.

Lemma len_sum256 s : len (sum256 s) = 32.
Proof.
  unfold sum256, len. rewrite length_string_of_list, length_map. cbn [flat_map].
  rewrite !length_app, !length_be_bytes. reflexivity.
Qed.

Lemma len_sha256_hex s : len (sha256_hex s) = 64.
Proof. unfold sha256_hex. rewrite length_hex_encode, len_sum256. reflexivity. Qed.

Lemma sha256_hex_nonempty s : sha256_hex s ≠ "".
Proof. intros H. pose proof (len_sha256_hex s) as Hl. by rewrite H in Hl. Qed.

#[global] Arguments sum256 : simpl never.
#[global] Arguments sha256_hex : simpl never.
