(* ===== verification/Duration.v ===== *)
(** [time.ParseDuration] of the Go standard library, which reads the durations of the configuration.

    A duration is a 64-bit number of nanoseconds.  A fraction is scaled as the library does it, in
    64-bit floating point; the power of ten that divides it is exact there. *)
From Stdlib Require Import SpecFloat.
From S2P Require Import Prelude Strconv.
Local Open Scope Z_scope.

(** * Floating point *)

Definition float_of (n : Z) : spec_float := binary_normalize 53 1024 n 0 false.

(** Conversion to an unsigned integer: towards zero. *)
Definition truncate (x : spec_float) : Z :=
  match x with
  | S754_finite false m e => if 0 <=? e then Z.shiftl (Zpos m) e else Z.shiftr (Zpos m) (- e)
  | _ => 0
  end.

(** [uint64(float64(f) * (float64(unit) / scale))]. *)
Definition scaled (f unit scale : Z) : Z := truncate (SFmul 53 1024 (float_of f) (SFdiv 53 1024 (float_of unit) (float_of scale))).

(** * Parsing *)

(** The digits that lead; nothing when they exceed 2^63. *)
Fixpoint leading_int (x : Z) (s : string) : option (Z * string) :=
  match s with
  | String c s' =>
    if is_dec c then
      if 2 ^ 63 / 10 <? x then None
      else let x' := x * 10 + (byte c - 48) in if 2 ^ 63 <? x' then None else leading_int x' s'
    else Some (x, s)
  | EmptyString => Some (x, s)
  end.

(** The digits of a fraction, with the power of ten that divides them; those beyond 63 bits are dropped. *)
Fixpoint leading_fraction (overflow : bool) (x scale : Z) (s : string) : Z * Z * string :=
  match s with
  | String c s' =>
    if is_dec c then
      if overflow then leading_fraction true x scale s'
      else if (2 ^ 63 - 1) / 10 <? x then leading_fraction true x scale s'
      else let y := x * 10 + (byte c - 48) in
           if 2 ^ 63 <? y then leading_fraction true x scale s' else leading_fraction false y (scale * 10) s'
    else (x, scale, s)
  | EmptyString => (x, scale, s)
  end.

(** The unit: what comes before the next digit or point. *)
Fixpoint take_unit (s : string) : string * string :=
  match s with
  | String c s' => if Ascii.eqb c "." || is_dec c then ("", s) else let '(u, rest) := take_unit s' in (String c u, rest)
  | EmptyString => ("", "")
  end.

Definition unit_of (u : string) : option Z :=
  if String.eqb u "ns" then Some 1
  else if String.eqb u "us" || String.eqb u (String "194" (String "181" "s")) || String.eqb u (String "206" (String "188" "s")) then Some 1000
  else if String.eqb u "ms" then Some 1000000
  else if String.eqb u "s" then Some 1000000000
  else if String.eqb u "m" then Some 60000000000
  else if String.eqb u "h" then Some 3600000000000
  else None.

(** One number with its unit, in nanoseconds, and what follows. *)
Definition parse_segment (s : string) : option (Z * string) :=
  match s with
  | EmptyString => None
  | String c _ =>
    if negb (Ascii.eqb c "." || is_dec c) then None
    else
      '(v, s1) ← leading_int 0 s;
      let pre := negb (String.length s1 =? String.length s)%nat in
      let '(f, scale, s2, post) :=
        match s1 with
        | String p s' =>
          if Ascii.eqb p "." then let '(f, scale, s2) := leading_fraction false 0 1 s' in (f, scale, s2, negb (String.length s2 =? String.length s')%nat)
          else (0, 1, s1, false)
        | EmptyString => (0, 1, s1, false)
        end in
      if negb pre && negb post then None
      else
        let '(u, s3) := take_unit s2 in
        unit ← unit_of u;
        if 2 ^ 63 / unit <? v then None
        else
          let v := v * unit in
          let v := if 0 <? f then v + scaled f unit scale else v in
          if 2 ^ 63 <? v then None else Some (v, s3)
  end.

(** The sum of the segments; the fuel is the length of the text, since a segment is not empty. *)
Fixpoint parse_segments (fuel : nat) (d : Z) (s : string) : option Z :=
  match s, fuel with
  | EmptyString, _ => Some d
  | _, O => None
  | _, S fuel' =>
    '(v, rest) ← parse_segment s;
    if 2 ^ 63 <? d + v then None else parse_segments fuel' (d + v) rest
  end.

Definition parse_duration (s : string) : option Z :=
  let '(neg, s) :=
    match s with
    | String c s' => if Ascii.eqb c "-" || Ascii.eqb c "+" then (Ascii.eqb c "-", s') else (false, s)
    | EmptyString => (false, s)
    end in
  if String.eqb s "0" then Some 0
  else if String.eqb s "" then None
  else
    d ← parse_segments (String.length s) 0 s;
    if (neg : bool) then Some (- d) else if int64_max <? d then None else Some d.

Example parse_duration_examples :
  parse_duration "1h30m" = Some 5400000000000 ∧ parse_duration "-1.5s" = Some (-1500000000) ∧ parse_duration "0.1h" = Some 360000000000
  ∧ parse_duration "1us" = Some 1000 ∧ parse_duration ".5m" = Some 30000000000 ∧ parse_duration "+2562047h47m16.854775807s" = Some int64_max
  ∧ parse_duration "2562047h47m16.854775808s" = None ∧ parse_duration "-2562047h47m16.854775808s" = Some int64_min
  ∧ parse_duration "3" = None ∧ parse_duration "1d" = None ∧ parse_duration "" = None ∧ parse_duration "-0" = Some 0 ∧ parse_duration ".s" = None
  ∧ parse_duration "0.3333333333333333333h" = Some 1200000000000 ∧ parse_duration "9007199254740993ns" = Some 9007199254740993.
Proof. by vm_compute. Qed.

(** * Lemmas *)

Lemma truncate_nonneg x : 0 ≤ truncate x.
Proof. destruct x as [| | |[] m e]; cbn; try lia. case_if; [apply Z.shiftl_nonneg|apply Z.shiftr_nonneg]; lia. Qed.

Lemma leading_int_bounds s : ∀ x v rest, 0 ≤ x → leading_int x s = Some (v, rest) → 0 ≤ v ∧ (String.length rest ≤ String.length s)%nat.
Proof.
  induction s as [|c s IH]; intros x v rest Hx; cbn [leading_int]; [by intros [= <- <-]|]. destruct (is_dec c) eqn:Hc; [|by intros [= <- <-]].
  case_if; [discriminate|]. case_if; [discriminate|]. intros Hr. apply IH in Hr as [Hv Hl]; [cbn [String.length]; lia|].
  unfold is_dec in Hc. apply in_range_spec in Hc. lia.
Qed.

Lemma leading_fraction_length s : ∀ o x k, (String.length (leading_fraction o x k s).2 ≤ String.length s)%nat.
Proof.
  induction s as [|c s IH]; intros o x k; cbn [leading_fraction]; [done|]. destruct (is_dec c); [|done]. cbn [String.length].
  destruct o; [specialize (IH true x k); lia|]. case_if; [specialize (IH true x k); lia|]. cbv zeta.
  case_if; [specialize (IH true x k); lia|]. specialize (IH false (x * 10 + (byte c - 48)) (k * 10)); lia.
Qed.

Lemma take_unit_length s : String.length s = (String.length (take_unit s).1 + String.length (take_unit s).2)%nat.
Proof. induction s as [|c s IH]; cbn [take_unit]; [done|]. case_if; [done|]. destruct (take_unit s) as [u r]. cbn in *. lia. Qed.

Lemma unit_positive u n : unit_of u = Some n → 0 < n ∧ u ≠ "".
Proof. unfold unit_of. intros Hu. split; [repeat case_if; try discriminate; injection Hu as <-; lia|intros ->; discriminate]. Qed.

(** A segment is nonnegative and at most 2^63, and takes at least one byte. *)
Lemma segment_bounds s v rest : parse_segment s = Some (v, rest) → 0 ≤ v ≤ 2 ^ 63 ∧ (String.length rest < String.length s)%nat.
Proof.
  unfold parse_segment. destruct s as [|c s0]; [discriminate|]. set (s := String c s0). case_if; [discriminate|].
  destruct (leading_int 0 s) as [[v0 s1]|] eqn:Ei; [|discriminate]. apply leading_int_bounds in Ei as [Hv0 Hl1]; [|lia]. cbn [mbind option_bind].
  assert (H2 : ∃ f k s2 post, (match s1 with
     | String p s' => if Ascii.eqb p "." then let '(f, scale, s2) := leading_fraction false 0 1 s' in (f, scale, s2, negb (String.length s2 =? String.length s')%nat) else (0, 1, s1, false)
     | EmptyString => (0, 1, s1, false) end) = (f, k, s2, post) ∧ (String.length s2 ≤ String.length s1)%nat).
  { destruct s1 as [|p s']; [by do 4 eexists|]. destruct (Ascii.eqb p "."); [|by do 4 eexists].
    pose proof (leading_fraction_length s' false 0 1) as Hl. destruct (leading_fraction false 0 1 s') as [[f k] s2]. cbn in Hl. do 4 eexists. split; [done|]. cbn. lia. }
  destruct H2 as (f & k & s2 & post & -> & Hl2). case_if; [discriminate|]. pose proof (take_unit_length s2) as Hl3. destruct (take_unit s2) as [u s3]. cbn in Hl3.
  destruct (unit_of u) as [unit|] eqn:Eu; [|discriminate]. apply unit_positive in Eu as [Hu Hne]. cbn [mbind option_bind]. case_if; [discriminate|]. cbv zeta.
  assert (Hu0 : (0 < String.length u)%nat) by (destruct u; [done|cbn; lia]).
  pose proof (truncate_nonneg (SFmul 53 1024 (float_of f) (SFdiv 53 1024 (float_of unit) (float_of k)))) as Hs. fold (scaled f unit k) in Hs.
  destruct (0 <? f); (case_if; [discriminate|]; intros [= <- <-]; bool_hyps; split; [nia|lia]).
Qed.

(** More fuel than the length changes nothing: the loop ends by itself. *)
Lemma segments_enough n : ∀ m d s, (String.length s ≤ n)%nat → (String.length s ≤ m)%nat → parse_segments n d s = parse_segments m d s.
Proof.
  induction n as [|n IH]; intros m d s Hn Hm; (destruct s as [|c s]; [by destruct m|]); [cbn in Hn; lia|]. destruct m as [|m]; [cbn in Hm; lia|].
  cbn [parse_segments]. destruct (parse_segment (String c s)) as [[v rest]|] eqn:E; [|done]. apply segment_bounds in E as [_ Hl]. cbn [mbind option_bind].
  case_if; [done|]. apply IH; cbn in *; lia.
Qed.

Lemma segments_bounds n : ∀ d s v, 0 ≤ d ≤ 2 ^ 63 → parse_segments n d s = Some v → 0 ≤ v ≤ 2 ^ 63.
Proof.
  induction n as [|n IH]; intros d s v Hd; (destruct s as [|c s]; [by intros [= <-]|]); [discriminate|]. cbn [parse_segments].
  destruct (parse_segment (String c s)) as [[x rest]|] eqn:E; [|discriminate]. apply segment_bounds in E as [Hx _]. cbn [mbind option_bind].
  case_if; [discriminate|]. bool_hyps. apply IH. lia.
Qed.

(** A duration fits in 64 bits. *)
Lemma duration_bounds s d : parse_duration s = Some d → int64_min ≤ d ≤ int64_max.
Proof.
  unfold parse_duration, int64_min, int64_max. destruct (match s with String c s' => _ | EmptyString => _ end) as [neg s'].
  case_if; [intros [= <-]; lia|]. case_if; [discriminate|]. destruct (parse_segments _ 0 s') as [v|] eqn:E; [|discriminate].
  apply segments_bounds in E; [|lia]. cbn [mbind option_bind]. destruct neg; [intros [= <-]; lia|]. case_if; [discriminate|]. intros [= <-]. bool_hyps.
  unfold int64_max in *. lia.
Qed.
