(* ===== verification/JsonDecode.v ===== *)
(** Decoding documents into Go structs ([json.Unmarshal]) and encoding structs ([json.Marshal]).

    [obj_members] and [arr_items] give the members and items of a document with the exact source
    text of each value, which is what a [json.RawMessage] holds and what [Decoder.Token] with
    [Decoder.Decode] reads.  [unmarshal_struct] is the decoder of a struct: members in document
    order, keys matched exactly and then with case folding, unknown keys skipped (or refused).
    Field decoders take the source text of the value and the field's old value, which [null]
    leaves alone.  The lemmas say what decoding does to a document that was printed. *)
From S2P Require Import Prelude Utf8 Json JsonText Strconv GoTime.
Local Open Scope Z_scope.

Fixpoint skip_ws (s : string) : string :=
  match s with
  | String c s' => if is_ws c then skip_ws s' else s
  | EmptyString => ""
  end.

(** The source text of the next value, and what follows it. *)
Definition raw_value (s : string) : option (string * string) :=
  let s := skip_ws s in
  match parse_prefix s with
  | Some (_, rest) => Some (str_take (String.length s - String.length rest) s, rest)
  | None => None
  end.

(** The members of an object from a key on; every round consumes at least one byte. *)
Fixpoint members_loop (fuel : nat) (s : string) : option (list (string * string) * string) :=
  match fuel with
  | O => None
  | S n =>
    match parse_prefix (skip_ws s) with
    | Some (JStr k, r1) =>
      r2 ← expect ":" (skip_ws r1);
      '(raw, r3) ← raw_value r2;
      match skip_ws r3 with
      | String d r4 =>
        if Ascii.eqb d "," then '(ms, rest) ← members_loop n r4; Some ((unquote k, raw) :: ms, rest)
        else if Ascii.eqb d "}" then Some ([(unquote k, raw)], r4)
        else None
      | EmptyString => None
      end
    | _ => None
    end
  end.

(** The members of the object at the head of [s] and what follows the object. *)
Definition obj_members (s : string) : option (list (string * string) * string) :=
  r ← expect "{" (skip_ws s);
  match skip_ws r with
  | String d r' => if Ascii.eqb d "}" then Some ([], r') else members_loop (String.length r) r
  | EmptyString => None
  end.

Fixpoint items_loop (fuel : nat) (s : string) : option (list string * string) :=
  match fuel with
  | O => None
  | S n =>
    '(raw, r3) ← raw_value s;
    match skip_ws r3 with
    | String d r4 =>
      if Ascii.eqb d "," then '(l, rest) ← items_loop n r4; Some (raw :: l, rest)
      else if Ascii.eqb d "]" then Some ([raw], r4)
      else None
    | EmptyString => None
    end
  end.

Definition arr_items (s : string) : option (list string * string) :=
  r ← expect "[" (skip_ws s);
  match skip_ws r with
  | String d r' => if Ascii.eqb d "]" then Some ([], r') else items_loop (String.length r) r
  | EmptyString => None
  end.

(** * Field decoders *)

(** Each takes the source text of a value and the old value of the field. *)
Definition decoder (A : Type) : Type := string → A → option A.

Definition dec_string : decoder string := λ raw old,
  match parse_all raw with
  | Some (JStr lit) => Some (unquote lit)
  | Some JNull => Some old
  | _ => None
  end.

Definition dec_int64 : decoder Z := λ raw old,
  match parse_all raw with
  | Some (JNum lit) => parse_int lit
  | Some JNull => Some old
  | _ => None
  end.

Definition dec_bool : decoder bool := λ raw old,
  match parse_all raw with
  | Some (JBool b) => Some b
  | Some JNull => Some old
  | _ => None
  end.

(** [json.RawMessage]: the text itself, [null] included. *)
Definition dec_raw : decoder string := λ raw _, Some raw.

(** [time.Time]: the text between the quotes, not unescaped. *)
Definition dec_time : decoder Z := λ raw old,
  match parse_all raw with
  | Some (JStr lit) => parse lit
  | Some JNull => Some old
  | _ => None
  end.

(** A pointer to a time: [null] sets it to nil. *)
Definition dec_time_ptr : decoder (option Z) := λ raw old,
  match parse_all raw with
  | Some JNull => Some None
  | _ => Some <$> dec_time raw zero_time
  end.

(** * Structs *)

(** [foldRune] as far as it matters for ASCII field names. *)
Definition fold_rune (r : Z) : Z :=
  if (97 <=? r) && (r <=? 122) then r - 32
  else if r =? 383 then 83
  else if r =? 8490 then 75
  else r.

Definition fold_name (s : string) : list Z := map fold_rune (runes s).

Definition fields (S : Type) : Type := list (string * decoder S).

(** The field a key selects: the one of that name, or the first that folds to the same. *)
Definition find_field {S} (fs : fields S) (key : string) : option (decoder S) :=
  match list_find (λ f, f.1 = key) fs with
  | Some (_, f) => Some f.2
  | None => snd ∘ snd <$> list_find (λ f, fold_name f.1 = fold_name key) fs
  end.

(** Decodes one member; [strict] is [DisallowUnknownFields]. *)
Definition set_member {S} (strict : bool) (fs : fields S) (acc : option S) (kv : string * string) : option S :=
  s ← acc;
  match find_field fs kv.1 with
  | Some d => d kv.2 s
  | None => if strict then None else Some s
  end.

(** [json.Unmarshal] of a document into a struct whose fields have the given values before. *)
Definition unmarshal_struct {S} (strict : bool) (fs : fields S) : decoder S := λ raw s0,
  match parse_all raw with
  | Some JNull => Some s0
  | Some (JObj _) => '(ms, _) ← obj_members raw; fold_left (set_member strict fs) ms (Some s0)
  | _ => None
  end.

(** A slice of structs; each element starts from the zero value.  [None]: nil ([null]). *)
Definition unmarshal_slice {S} (dec : decoder S) (zero : S) (raw : string) : option (option (list S)) :=
  match parse_all raw with
  | Some JNull => Some None
  | Some (JArr _) => '(l, _) ← arr_items raw; Some <$> mapM (λ r, dec r zero) l
  | _ => None
  end.

(** * Encoding *)

Definition jstring (s : string) : json := JStr (quote s).
Definition jint (n : Z) : json := JNum (format_int n).

(** A time is written as its text, without escaping. *)
Definition jtime (t : Z) : option json := JStr <$> marshal_time t.

(** A raw message is compacted and escaped; it must be a document. *)
Definition jraw (raw : string) : option json := escape_html <$> parse_all raw.

(** A member that is left out when empty ([omitempty]). *)
Definition omit_empty (empty : bool) (kv : string * json) : list (string * json) :=
  if empty then [] else [kv].

(** * Lemmas *)

Lemma fits_mono v : ∀ n m, m ≤ n → fits v n = true → fits v m = true.
Proof.
  induction v using json_nested_ind; intros n m Hnm Hf; try done; cbn [fits] in *;
    apply andb_true_iff in Hf as [Hn Hf]; bool_hyps; apply andb_true_iff; (split; [apply Z.leb_le; lia|]);
    rewrite forallb_Forall in *.
  - induction H as [|v l Hv Hl IH]; [done|]. inversion_clear Hf.
    constructor; [eapply Hv; [|done]; lia|by apply IH].
  - induction H as [|[k v] l Hv Hl IH]; [done|]. inversion_clear Hf.
    constructor; [simpl in *; eapply Hv; [|done]; lia|by apply IH].
Qed.

Lemma skip_ws_value s : starts_value s = true → skip_ws s = s.
Proof.
  destruct s as [|c s]; [done|]. cbn [starts_value skip_ws].
  intros [[H _]%andb_true_iff _]%andb_true_iff. bool_hyps. by rewrite H.
Qed.

Lemma skip_ws_print v rest : wf v = true → skip_ws (print v +:+ rest) = print v +:+ rest.
Proof. intros Hw. by apply skip_ws_value, print_starts. Qed.

Lemma raw_value_print v rest : wf v = true → fits v 0 = true → delim rest = true →
  raw_value (print v +:+ rest) = Some (print v, rest).
Proof.
  intros Hw Hf Hd. unfold raw_value. rewrite skip_ws_print, parse_prefix_print, Hf by done.
  by rewrite str_take_app_sub.
Qed.

Lemma parse_prefix_key k rest : str_ok k = true →
  parse_prefix (skip_ws (quoted k +:+ rest)) = Some (JStr k, rest).
Proof.
  intros Hk. assert (Hw : wf (JStr k) = true) by done.
  change (quoted k) with (print (JStr k)). rewrite skip_ws_print by done.
  unfold parse_prefix. cbn [print]. by rewrite run_string_value.
Qed.

(** The text of the members of a printed object. *)
Definition member_text (kv : string * json) : string * string := (unquote kv.1, print kv.2).

Definition member_ok (kv : string * json) : bool := str_ok kv.1 && (wf kv.2 && fits kv.2 0).

Lemma members_loop_print l : ∀ fuel kv rest, (length l < fuel)%nat →
  forallb member_ok (kv :: l) = true →
  members_loop fuel (join "," (map print_member (kv :: l)) +:+ String "}" rest)
  = Some (map member_text (kv :: l), rest).
Proof.
  induction l as [|kv2 l IH]; intros fuel [k v] rest Hf Hok; (destruct fuel as [|fuel]; [simpl in Hf; lia|]);
    cbn [forallb] in Hok; apply andb_true_iff in Hok as [[Hk [Hw Hfit]%andb_true_iff]%andb_true_iff Hl];
    simpl in Hk, Hw, Hfit; cbn [map]; rewrite join_cons; unfold print_member at 1; cbn [fst snd];
    rewrite app_str_assoc, app_str_cons; cbn [members_loop]; rewrite parse_prefix_key by done;
    change (skip_ws (String ":" ?r)) with (String ":" r); rewrite expect_cons; cbn [mbind option_bind].
  - rewrite raw_value_print by done. reflexivity.
  - rewrite app_str_cons, app_str_nil_l, raw_value_print by done. cbn [mbind option_bind].
    change (skip_ws (String "," ?r)) with (String "," r).
    change (print_member kv2 :: map print_member l) with (map print_member (kv2 :: l)).
    cbn iota. change (Ascii.eqb "," ",") with true. cbn iota.
    rewrite IH by (done || simpl in Hf; lia). reflexivity.
Qed.

Lemma members_ok l : wf (JObj l) = true → fits (JObj l) 0 = true → forallb member_ok l = true.
Proof.
  cbn [wf fits]. intros Hw [_ Hf]%andb_true_iff. rewrite forallb_forall in *.
  intros [k v] Hin. specialize (Hw _ Hin). specialize (Hf _ Hin). simpl in *.
  apply andb_true_iff in Hw as [Hk Hw]. unfold member_ok. simpl. rewrite Hk, Hw.
  by apply (fits_mono v 1 0).
Qed.

Lemma length_join_members kv l : (length l < String.length (join "," (map print_member (kv :: l))))%nat.
Proof.
  revert kv. induction l as [|kv2 l IH]; intros kv.
  - unfold print_member, quoted. simpl. lia.
  - change (map print_member (kv :: kv2 :: l)) with (print_member kv :: map print_member (kv2 :: l)).
    specialize (IH kv2). cbn [join]. cbn [map] in *. rewrite !length_app_str. cbn [length String.length]. lia.
Qed.

Lemma obj_members_print l rest : wf (JObj l) = true → fits (JObj l) 0 = true →
  obj_members (print (JObj l) +:+ rest) = Some (map member_text l, rest).
Proof.
  intros Hw Hf. pose proof (members_ok l Hw Hf) as Hok. unfold obj_members.
  rewrite skip_ws_print by done. rewrite print_obj, app_str_cons, app_str_assoc, expect_cons.
  cbn [mbind option_bind]. rewrite app_str_cons, app_str_nil_l.
  destruct l as [|kv l]; [reflexivity|].
  pose proof (join_members_quote kv l (String "}" rest)) as Hq.
  rewrite <-members_loop_print with (fuel := String.length (join "," (map print_member (kv :: l)) +:+ String "}" rest)); [|..|done].
  - destruct (join "," _ +:+ _) as [|c s]; [done|]. cbn [has_prefix] in Hq.
    apply andb_true_iff in Hq as [Hc _]. apply Ascii.eqb_eq in Hc. subst c. reflexivity.
  - rewrite length_app_str. pose proof (length_join_members kv l). lia.
Qed.

Lemma unmarshal_print {S} strict (fs : fields S) l s0 :
  wf (JObj l) = true → fits (JObj l) 0 = true →
  unmarshal_struct strict fs (print (JObj l)) s0 = fold_left (set_member strict fs) (map member_text l) (Some s0).
Proof.
  intros Hw Hf. unfold unmarshal_struct. rewrite parse_all_print, Hf by done.
  rewrite <-(app_str_nil_r (print (JObj l))), obj_members_print by done. done.
Qed.

(** * Plain text *)

(** Printable ASCII that neither the string encoder nor the HTML escaping changes. *)
Definition plain (s : string) : bool := str_forall (λ c, html_safe c && (byte c <? 128)) s.

Lemma html_safe_in c : html_safe c = true → str_next SIn c = Some SIn ∧ Ascii.eqb c dquote = false.
Proof. all_bytes c; intros H; first [discriminate H|split; reflexivity]. Qed.

Lemma plain_ascii s : plain s = true → is_ascii s = true.
Proof.
  unfold plain, is_ascii. induction s as [|c s IH]; [done|]. cbn [str_forall].
  intros [[_ Hc]%andb_true_iff Hs]%andb_true_iff. by rewrite Hc, IH.
Qed.

Lemma plain_str_ok s : plain s = true → str_ok s = true.
Proof.
  intros H. unfold str_ok. enough (str_run SIn s = Some SIn) as ->; [done|].
  revert H. unfold plain. induction s as [|c s IH]; [done|]. cbn [str_forall].
  intros [[Hc _]%andb_true_iff Hs]%andb_true_iff. destruct (html_safe_in c Hc) as [Hn Hq].
  rewrite (str_run_cons SIn c s SIn); auto.
Qed.

Lemma plain_quote s : plain s = true → quote s = s.
Proof.
  intros H. unfold quote. rewrite chunks_ascii by by apply plain_ascii.
  revert H. unfold plain. induction s as [|c s IH]; [done|]. cbn [str_forall].
  intros [[Hc _]%andb_true_iff Hs]%andb_true_iff.
  cbn [list_ascii_of_string map quote_chunk]. rewrite Hc. cbn [List.concat app].
  rewrite bytes_of_cons. rewrite IH by done. done.
Qed.

Lemma plain_unquote s : plain s = true → unquote s = s.
Proof.
  intros H. rewrite <-(plain_quote s) at 1 by done. apply unquote_quote, valid_ascii, plain_ascii, H.
Qed.

Lemma plain_app a b : plain (a +:+ b) = plain a && plain b.
Proof. apply str_forall_app. Qed.

Lemma plain_digit n : 0 ≤ n < 10 → html_safe (digit n) && (byte (digit n) <? 128) = true.
Proof.
  intros H. assert (n = 0 ∨ n = 1 ∨ n = 2 ∨ n = 3 ∨ n = 4 ∨ n = 5 ∨ n = 6 ∨ n = 7 ∨ n = 8 ∨ n = 9) as Hn by lia.
  repeat (destruct Hn as [->|Hn]; [reflexivity|]). by subst n.
Qed.

Lemma plain_cons c s : plain (String c s) = html_safe c && (byte c <? 128) && plain s.
Proof. done. Qed.

(** * What decoding does to encoded values *)

Lemma dec_string_jstring s old : valid_utf8 s = true → dec_string (print (jstring s)) old = Some s.
Proof.
  intros H. unfold dec_string. rewrite parse_all_print by apply quote_ok. cbn [fits jstring].
  by rewrite unquote_quote.
Qed.

(** Decoding never fails on a string that was encoded, valid UTF-8 or not. *)
Lemma dec_string_total s old : is_Some (dec_string (print (jstring s)) old).
Proof. unfold dec_string. rewrite parse_all_print by apply quote_ok. by eexists. Qed.

Lemma digit_cases (P : Z → Prop) n : 0 ≤ n < 10 →
  P 0 → P 1 → P 2 → P 3 → P 4 → P 5 → P 6 → P 7 → P 8 → P 9 → P n.
Proof.
  intros H. intros. assert (n = 0 ∨ n = 1 ∨ n = 2 ∨ n = 3 ∨ n = 4 ∨ n = 5 ∨ n = 6 ∨ n = 7 ∨ n = 8 ∨ n = 9) as Hn by lia.
  by repeat (destruct Hn as [->|Hn]; [done|]); subst.
Qed.

Lemma num_scan_digits fuel : ∀ n, 0 < n < 10 ^ Z.of_nat fuel → num_scan (dec_digits fuel n) = Some N1.
Proof.
  induction fuel as [|f IH]; intros n Hn; [simpl in Hn; lia|]. cbn [dec_digits].
  rewrite Nat2Z.inj_succ, Z.pow_succ_r in Hn by lia. case_if; bool_hyps.
  - assert (Hp : 0 < n) by lia. revert Hp.
    apply (digit_cases (λ n, 0 < n → num_scan (String (digit n) "") = Some N1)); first [lia|done].
  - erewrite num_scan_snoc by (apply IH; lia).
    apply (digit_cases (λ n, num_next N1 (digit n) = Some N1)); [lia|done..].
Qed.

Lemma num_run_neg fuel n st : 0 ≤ n → (0 < fuel)%nat → num_scan (dec_digits fuel n) = Some st →
  num_scan (String "-" (dec_digits fuel n)) = Some st.
Proof.
  intros Hn Hf. destruct (dec_digits_head fuel n Hn Hf) as (c & s & -> & Hc).
  unfold num_scan. change (num_start "-") with (Some NNeg). cbn [num_run].
  enough (num_start c = num_next NNeg c) as -> by done.
  revert Hc. all_bytes c; intros H; first [discriminate H|reflexivity].
Qed.

(** Every integer a Go [int64] holds is printed as a JSON number. *)
Lemma num_ok_format n : in_int64 n = true → num_ok (format_int n) = true.
Proof.
  unfold in_int64, int64_min, int64_max. intros H. bool_hyps. unfold num_ok.
  assert (Hp : ∀ m, 0 < m ≤ 2 ^ 63 → num_scan (dec_digits int_fuel m) = Some N1).
  { intros m Hm. apply num_scan_digits. change (10 ^ Z.of_nat int_fuel) with 100000000000000000000. lia. }
  unfold format_int. case_if; bool_hyps.
  - rewrite (num_run_neg int_fuel (- n) N1); [done|lia|unfold int_fuel; lia|apply Hp; lia].
  - destruct (decide (n = 0)) as [->|Hz]; [done|]. by rewrite Hp by lia.
Qed.

Lemma dec_int64_jint n old : in_int64 n = true → dec_int64 (print (jint n)) old = Some n.
Proof.
  intros H. unfold dec_int64. rewrite parse_all_print by by apply num_ok_format.
  by apply parse_format_int.
Qed.

Lemma plain_pad2 n : 0 ≤ n < 100 → plain (pad2 n) = true.
Proof.
  intros H. unfold pad2. rewrite !plain_cons, !plain_digit by lia. done.
Qed.

Lemma plain_frac k : ∀ n, 0 ≤ n < 10 ^ Z.of_nat k → plain (frac_digits k n) = true.
Proof.
  induction k as [|k IH]; intros n Hn; [done|]. cbn [frac_digits]. case_if; [done|].
  rewrite Nat2Z.inj_succ, Z.pow_succ_r in Hn by lia.
  assert (0 < 10 ^ Z.of_nat k) by (apply Z.pow_pos_nonneg; lia).
  assert (0 ≤ n / 10 ^ Z.of_nat k < 10) by (split; [apply Z.div_pos; lia|apply Z.div_lt_upper_bound; lia]).
  rewrite plain_cons, plain_digit by done. apply IH. by apply Z.mod_pos_bound.
Qed.

Lemma plain_format t : time_ok t = true → plain (format t) = true.
Proof.
  unfold time_ok, year, format. intros Hy. bool_hyps.
  destruct (date_of_day _) as [y [m d]] eqn:Hd.
  apply date_of_day_spec in Hd as (-> & Hok & Hd31 & _). unfold date_ok in Hok. bool_hyps.
  unfold pad4. rewrite (proj2 (Z.ltb_ge _ _)), (proj2 (Z.ltb_lt _ _)) by lia. unfold pad4_nat, format_frac.
  repeat rewrite ?plain_app, ?plain_cons. rewrite !plain_pad2 by lia.
  assert (Hf : plain (if t mod nanos =? 0 then "" else String "." (frac_digits 9 (t mod nanos))) = true).
  { case_if; [done|]. rewrite plain_cons, plain_frac; [done|]. change (10 ^ Z.of_nat 9) with nanos. unfold nanos; lia. }
  by rewrite Hf.
Qed.

Lemma dec_time_format t old : time_ok t = true → dec_time (print (JStr (format t))) old = Some t.
Proof.
  intros H. unfold dec_time. rewrite parse_all_print by by apply plain_str_ok, plain_format.
  by apply parse_format.
Qed.

Lemma marshal_time_ok t : time_ok t = true → marshal_time t = Some (format t).
Proof. unfold marshal_time, time_ok. by intros ->. Qed.

(** * What decoding keeps *)

(** A property of a struct that every field decoder keeps. *)

Lemma unmarshal_keeps {S} (P : S → Prop) strict (fs : fields S) raw s0 s : P s0 →
  (∀ k d, (k, d) ∈ fs → ∀ raw s s', P s → d raw s = Some s' → P s') → unmarshal_struct strict fs raw s0 = Some s → P s.
Proof.
  intros H0 Hd. unfold unmarshal_struct. destruct (parse_all raw) as [[]|]; try discriminate; [by intros [= <-]|].
  destruct (obj_members raw) as [[ms rest]|]; [|discriminate]. cbn [mbind option_bind].
  assert (Hnone : ∀ ms, fold_left (set_member strict fs) ms None = None) by (intros l; induction l; auto).
  revert s0 H0. induction ms as [|[k v] ms IH]; intros s0 H0; [by intros [= <-]|]. cbn [fold_left].
  destruct (set_member strict fs (Some s0) (k, v)) as [s1|] eqn:E; [|by rewrite Hnone]. apply IH. revert E.
  unfold set_member, find_field. cbn [mbind option_bind fst snd].
  destruct (list_find (λ f, f.1 = k) fs) as [[i [k' d]]|] eqn:Ef.
  - apply list_find_Some in Ef as (Hin & _). cbn. intros E. eapply Hd; [by eapply list_elem_of_lookup_2|exact H0|exact E].
  - destruct (list_find (λ f, fold_name f.1 = fold_name k) fs) as [[i [k' d]]|] eqn:Ef2; cbn.
    + apply list_find_Some in Ef2 as (Hin & _). intros E. eapply Hd; [by eapply list_elem_of_lookup_2|exact H0|exact E].
    + destruct strict; [discriminate|]. by intros [= <-].
Qed.

Lemma dec_string_valid raw old s : valid_utf8 old = true → dec_string raw old = Some s → valid_utf8 s = true.
Proof.
  unfold dec_string. intros Ho. destruct (parse_all raw) as [[]|]; try discriminate; intros [= <-]; [done|apply unquote_valid].
Qed.
