(* ===== verification/Indent.v ===== *)
(** [json.MarshalIndent(v, "", "  ")] for a struct whose fields are no containers, followed by a
    newline, as the manifest of a backup is written; decoding it gives the members back. *)
From S2P Require Import Prelude Json JsonText Strconv GoTime JsonDecode.
Local Open Scope Z_scope.

Definition newline : string := String "010" "".
Definition margin : string := newline +:+ "  ".
Definition indent_member (kv : string * json) : string := margin +:+ (quoted kv.1 +:+ ": " +:+ print kv.2).
Definition indent_object (l : list (string * json)) : string :=
  String "{" (join "," (map indent_member l) +:+ (newline +:+ String "}" newline)).

(** * The scanner *)

Lemma run_margin stk s : run BeginString stk (margin +:+ s) = run BeginString stk s.
Proof. reflexivity. Qed.

Lemma run_indent_member key v ms k rest : wf v = true → str_ok key = true → delim rest = true →
  run BeginString (FObj ms None :: k) (indent_member (key, v) +:+ rest) =
  if fits v (Z.of_nat (length k) + 1) then run EndValue (FObj ((key, v) :: ms) None :: k) rest else None.
Proof.
  intros Hw Hk Hd. unfold indent_member. cbn [fst snd]. rewrite app_str_assoc, run_margin, app_str_assoc, run_string_key by done.
  cbn [finish_str resume]. rewrite !app_str_cons, app_str_nil_l. cbn [run step].
  change (is_ws ":") with false. change (Ascii.eqb ":" ":") with true. cbn iota.
  change (step BeginValue (FObj ms (Some key) :: k) " ") with (Next BeginValue (FObj ms (Some key) :: k)). cbn iota.
  pose proof (run_print v Hw (FObj ms (Some key) :: k) rest eq_refl Hd) as Hv. rewrite Hv, length_frame. by case_if.
Qed.

Lemma run_close_indent ms k rest :
  run EndValue (FObj ms None :: k) (newline +:+ String "}" rest) = resume (finish (JObj (rev ms)) k) rest.
Proof. rewrite <-run_close_obj. reflexivity. Qed.

Lemma run_indent_members l : ∀ kv ms k rest, forallb (λ '(k, v), str_ok k && wf v) (kv :: l) = true →
  run BeginString (FObj ms None :: k) (join "," (map indent_member (kv :: l)) +:+ (newline +:+ String "}" rest)) =
  if forallb (λ '(_, v), fits v (Z.of_nat (length k) + 1)) (kv :: l)
  then resume (finish (JObj (rev ms ++ kv :: l)) k) rest else None.
Proof.
  induction l as [|w l IH]; intros [key v] ms k rest Hl; pose proof Hl as Hl';
    cbn [forallb] in Hl; apply andb_true_iff in Hl as [[Hk Hv]%andb_true_iff Hl]; cbn [map]; rewrite join_cons; cbn [forallb].
  - rewrite run_indent_member, andb_true_r by done. case_if; [|done]. apply run_close_indent.
  - rewrite app_str_cons, app_str_nil_l, run_indent_member by done. destruct (fits v _); [|done]. cbn [andb].
    rewrite run_comma_obj. change (indent_member w :: map indent_member l) with (map indent_member (w :: l)).
    rewrite IH by done. cbn [rev]. by rewrite <-app_assoc.
Qed.

Lemma parse_all_indent kv l : wf (JObj (kv :: l)) = true → fits (JObj (kv :: l)) 0 = true →
  parse_all (indent_object (kv :: l)) = Some (JObj (kv :: l)).
Proof.
  intros Hw Hf. unfold parse_all, parse_prefix, indent_object.
  rewrite run_push with (f := FObj [] None) (m := BeginStringOrEmpty) by done.
  cbn [fits length] in Hf. apply andb_true_iff in Hf as [_ Hf]. change (Z.of_nat (length []) + 1 <=? max_depth) with true. cbn iota.
  assert (Hm : run BeginStringOrEmpty [FObj [] None] (join "," (map indent_member (kv :: l)) +:+ (newline +:+ String "}" newline))
    = run BeginString [FObj [] None] (join "," (map indent_member (kv :: l)) +:+ (newline +:+ String "}" newline))).
  { cbn [map]. rewrite join_cons. reflexivity. }
  rewrite Hm, run_indent_members by exact Hw. cbn [length]. change (Z.of_nat 0 + 1) with 1.
  change (0 + 1) with 1 in Hf. rewrite Hf. reflexivity.
Qed.

(** * The members *)

Lemma members_loop_indent l : ∀ fuel kv rest, (length l < fuel)%nat → forallb member_ok (kv :: l) = true →
  members_loop fuel (join "," (map indent_member (kv :: l)) +:+ (newline +:+ String "}" rest)) = Some (map member_text (kv :: l), rest).
Proof.
  induction l as [|kv2 l IH]; intros fuel [k v] rest Hf Hok; (destruct fuel as [|fuel]; [cbn in Hf; lia|]);
    cbn [forallb] in Hok; apply andb_true_iff in Hok as [[Hk [Hw Hfit]%andb_true_iff]%andb_true_iff Hl];
    cbn [fst snd] in Hk, Hw, Hfit; cbn [map]; rewrite join_cons; unfold indent_member at 1; cbn [fst snd];
    rewrite !app_str_assoc; cbn [members_loop];
    change (skip_ws (margin +:+ ?s)) with (skip_ws s); rewrite parse_prefix_key by done;
    rewrite app_str_cons; change (skip_ws (String ":" ?r)) with (String ":" r); rewrite expect_cons; cbn [mbind option_bind];
    rewrite app_str_cons, app_str_nil_l.
  - assert (Hr : raw_value (String " " (print v +:+ (newline +:+ String "}" rest))) = Some (print v, newline +:+ String "}" rest)).
    { by apply raw_value_print. }
    rewrite Hr. reflexivity.
  - rewrite (app_str_cons ","), app_str_nil_l.
    change (indent_member kv2 :: map indent_member l) with (map indent_member (kv2 :: l)).
    specialize (IH fuel kv2 rest ltac:(cbn in Hf; lia) Hl). revert IH.
    generalize (join "," (map indent_member (kv2 :: l)) +:+ (newline +:+ String "}" rest)) as tail. intros tail IH.
    assert (Hr : raw_value (String " " (print v +:+ String "," tail)) = Some (print v, String "," tail)) by by apply raw_value_print.
    rewrite Hr. cbn [mbind option_bind]. change (skip_ws (String "," tail)) with (String "," tail). cbn iota.
    change (Ascii.eqb "," ",") with true. cbn iota. rewrite IH. reflexivity.
Qed.

Lemma length_join_indent kv l : (length l < String.length (join "," (map indent_member (kv :: l))))%nat.
Proof.
  revert kv. induction l as [|kv2 l IH]; intros kv.
  - unfold indent_member, margin, newline. cbn [map join length]. rewrite !length_app_str. cbn. lia.
  - change (map indent_member (kv :: kv2 :: l)) with (indent_member kv :: map indent_member (kv2 :: l)).
    specialize (IH kv2). cbn [join]. cbn [map] in *. rewrite !length_app_str. cbn [length String.length]. lia.
Qed.

Lemma obj_members_indent kv l : wf (JObj (kv :: l)) = true → fits (JObj (kv :: l)) 0 = true →
  obj_members (indent_object (kv :: l)) = Some (map member_text (kv :: l), newline).
Proof.
  intros Hw Hf. pose proof (members_ok _ Hw Hf) as Hok. unfold obj_members, indent_object.
  change (skip_ws (String "{" ?s)) with (String "{" s). rewrite expect_cons. cbn [mbind option_bind].
  set (body := join "," (map indent_member (kv :: l)) +:+ (newline +:+ String "}" newline)).
  assert (Hs : ∃ s, skip_ws body = String dquote s).
  { unfold body. cbn [map]. rewrite join_cons. unfold indent_member at 1, quoted. rewrite !app_str_assoc.
    change (skip_ws (margin +:+ ?s)) with (skip_ws s). rewrite app_str_cons. by eexists. }
  destruct Hs as [s Hs]. rewrite Hs. change (Ascii.eqb dquote "}") with false. cbn iota.
  apply members_loop_indent; [|done]. unfold body. rewrite length_app_str. pose proof (length_join_indent kv l). lia.
Qed.

Lemma unmarshal_indent {S} strict (fs : fields S) kv l s0 : wf (JObj (kv :: l)) = true → fits (JObj (kv :: l)) 0 = true →
  unmarshal_struct strict fs (indent_object (kv :: l)) s0 = unmarshal_struct strict fs (print (JObj (kv :: l))) s0.
Proof.
  intros Hw Hf. rewrite unmarshal_print by done. unfold unmarshal_struct. by rewrite parse_all_indent, obj_members_indent by done.
Qed.
