(* ===== verification/Text.v ===== *)
(** The functions of Go's [strings] package the program calls on text it compares or splits.

    Case is folded as far as ASCII patterns can tell: beside the letters, the Kelvin sign, the long
    s and the dotted capital I are the only runes whose case mappings reach ASCII. *)
From S2P Require Import Prelude Utf8 Strconv JsonDecode.
Local Open Scope Z_scope.

(** [unicode.ToLower] as far as it reaches ASCII. *)
Definition lower_rune (r : Z) : Z :=
  if (65 <=? r) && (r <=? 90) then r + 32
  else if r =? 8490 then 107
  else if r =? 304 then 105
  else r.

Definition lower (s : string) : list Z := map lower_rune (runes s).

Fixpoint prefix_of (p l : list Z) : bool :=
  match p, l with
  | [], _ => true
  | x :: p', y :: l' => (x =? y) && prefix_of p' l'
  | _, _ => false
  end.

Fixpoint occurs (p l : list Z) : bool :=
  prefix_of p l || match l with [] => false | _ :: l' => occurs p l' end.

(** [strings.Contains(strings.ToLower(s), p)] for an ASCII pattern. *)
Definition contains_lower (s p : string) : bool := occurs (runes p) (lower s).

(** [strings.EqualFold(s, t)] for an ASCII [t]. *)
Definition equal_fold (s t : string) : bool := bool_decide (fold_name s = fold_name t).

(** [strings.ContainsAny(s, set)] for an ASCII set. *)
Fixpoint contains_any (s set : string) : bool :=
  match s with
  | EmptyString => false
  | String c s' => str_mem c set || contains_any s' set
  end.

(** [strings.Split(s, sep)] for a separator of one byte. *)
Fixpoint split_on (sep : ascii) (s : string) : list string :=
  match s with
  | EmptyString => [""]
  | String c s' =>
    if Ascii.eqb c sep then "" :: split_on sep s'
    else match split_on sep s' with
         | w :: l => String c w :: l
         | [] => [String c ""]
         end
  end.

(** The value [strconv.Atoi] returns beside its error: 0 for a text that is no number, the nearest
    64-bit integer for one that is out of range. *)
Definition atoi_value (s : string) : Z :=
  let clamp n := Z.max int64_min (Z.min int64_max n) in
  match s with
  | EmptyString => 0
  | String c s' =>
    if Ascii.eqb c "-" then match parse_digits s' with Some n => clamp (- n) | None => 0 end
    else if Ascii.eqb c "+" then match parse_digits s' with Some n => clamp n | None => 0 end
    else match parse_digits s with Some n => clamp n | None => 0 end
  end.

(** * Lemmas *)

Lemma equal_fold_refl s : equal_fold s s = true.
Proof. by apply bool_decide_eq_true. Qed.

Lemma split_on_nonempty sep s : split_on sep s ≠ [].
Proof. destruct s as [|c s]; [done|]. cbn [split_on]. case_if; [done|]. by destruct (split_on sep s). Qed.

(** Splitting and joining are inverse. *)
Lemma join_split sep s : join (String sep "") (split_on sep s) = s.
Proof.
  induction s as [|c s IH]; [done|]. cbn [split_on]. destruct (split_on sep s) as [|w l] eqn:E.
  { by apply split_on_nonempty in E. }
  case_if.
  - apply Ascii.eqb_eq in Heqb as ->. cbn [join] in *. by rewrite app_str_nil_l, app_str_cons, app_str_nil_l, IH.
  - rewrite <-IH. by destruct l.
Qed.
