(* ===== verification/Auth.v ===== *)
(** Bearer tokens: internal/auth/auth.go.

    An [Authenticator] is its list of tokens in the order of the file.  Errors are the texts the
    source formats; where it ranges over a Go map the model reports the first key in the order of
    the line, and a key that is reported is not quoted.  The file system shows only as the mode and the
    content of the file. *)
From S2P Require Import Prelude Utf8 Json JsonText Strconv GoTime Sha256 JsonDecode Text.
Local Open Scope Z_scope.

(** * Roles *)

Definition RoleReader : string := "reader".
Definition RoleOperator : string := "operator".
Definition RoleAdmin : string := "admin".

Definition isRole (role : string) : bool :=
  String.eqb role RoleReader || String.eqb role RoleOperator || String.eqb role RoleAdmin.

Definition rank (role : string) : Z :=
  if String.eqb role RoleAdmin then 3
  else if String.eqb role RoleOperator then 2
  else if String.eqb role RoleReader then 1
  else 0.

Record Principal := mkPrincipal { P_Name : string; P_Role : string }.

Inductive auth_error := ErrUnauthorized | ErrForbidden.

Definition Require_ (principal : Principal) (minimum : string) : result auth_error () :=
  if rank principal.(P_Role) <? rank minimum then Err ErrForbidden else Ok ().

(** * Tokens *)

Record token := mkToken { tok_name : string; tok_role : string; tok_value : string }.
Definition Authenticator : Type := list token.

Definition maxTokenLen : Z := 4096.
Definition maxNameLen : Z := 200.

Definition tokenDigest (value : string) : string := sum256 value.

(** Fails with the text when the condition holds. *)
Definition refuse (b : bool) (text : string) : result string () := if b then Err text else Ok ().

(** The loop of [add] over the tokens it already has. *)
Fixpoint add_conflict (t : token) (a : list token) : result string () :=
  match a with
  | [] => Ok ()
  | existing :: a' =>
    refuse (String.eqb existing.(tok_name) t.(tok_name)) "duplicate token name" ;;
    refuse (String.eqb (tokenDigest t.(tok_value)) (tokenDigest existing.(tok_value))) "duplicate token value" ;;
    add_conflict t a'
  end.

Definition add (a : Authenticator) (t : token) : result string Authenticator :=
  refuse (negb (String.eqb t.(tok_value) (trim_space t.(tok_value)))) "token must not have leading or trailing whitespace" ;;
  refuse (String.eqb t.(tok_value) "") "empty token" ;;
  refuse (maxTokenLen <? len t.(tok_value)) "token exceeds 4096 bytes" ;;
  refuse (negb (isRole t.(tok_role))) "role must be reader, operator, or admin" ;;
  refuse (String.eqb t.(tok_name) "") "name is required" ;;
  refuse (maxNameLen <? len t.(tok_name)) "name exceeds 200 bytes" ;;
  add_conflict t a ;;
  Ok (a ++ [t]).

(** [New]: the map in the order it is ranged over, the tokens named by their place. *)
Fixpoint add_configured (a : Authenticator) (index : Z) (values : list (string * string)) : result string Authenticator :=
  match values with
  | [] => Ok a
  | (value, role) :: values' =>
    a' ← add a (mkToken ("configured-token-" +:+ format_int (index + 1)) role (trim_space value));
    add_configured a' (index + 1) values'
  end.

Definition New (values : list (string * string)) : result string Authenticator :=
  a ← add_configured [] 0 values;
  refuse (match a with [] => true | _ => false end) "no tokens configured" ;;
  Ok a.

(** * Token records *)

(** The first key that occurs twice. *)
Fixpoint duplicate_key (seen : list string) (l : list (string * string)) : option string :=
  match l with
  | [] => None
  | (k, _) :: l' => if existsb (String.eqb k) seen then Some k else duplicate_key (k :: seen) l'
  end.

(** Exactly one object, without a duplicate key, and nothing but white space behind it. *)
Definition decodeJSONObject (line : string) : result string (list (string * string)) :=
  match obj_members line with
  | None => Err "invalid JSON token record"
  | Some (fields, rest) =>
    match duplicate_key [] fields with
    | Some k => Err ("duplicate token record field " +:+ k)
    | None => if String.eqb (skip_ws rest) "" then Ok fields else Err "token record contains trailing JSON"
    end
  end.

Fixpoint field_of (key : string) (l : list (string * string)) : option string :=
  match l with
  | [] => None
  | (k, raw) :: l' => if String.eqb k key then Some raw else field_of key l'
  end.

Definition known_field (key : string) : bool :=
  String.eqb key "name" || String.eqb key "role" || String.eqb key "token".

(** [json.Unmarshal] into a new string. *)
Definition string_field (key : string) (raw : string) : result string string :=
  of_option (key +:+ " field must be a string") (dec_string raw "").

Definition parseLine (line : string) : result string token :=
  refuse (String.eqb (trim_space line) "") "empty token record" ;;
  refuse (negb (has_prefix (trim_space line) "{")) "token record must be a JSON object" ;;
  fields ← decodeJSONObject line;
  match find (λ kv, negb (known_field kv.1)) fields with
  | Some (key, _) => Err ("unknown token record field " +:+ key)
  | None =>
    rawToken ← of_option "token field is required" (field_of "token" fields);
    rawRole ← of_option "role field is required" (field_of "role" fields);
    value ← string_field "token" rawToken;
    role ← string_field "role" rawRole;
    refuse (negb (isRole role)) "role must be reader, operator, or admin" ;;
    rawName ← of_option "name field is required" (field_of "name" fields);
    name ← string_field "name" rawName;
    refuse (String.eqb name "") "name field must not be empty" ;;
    refuse (negb (String.eqb name (trim_space name))) "name must not have leading or trailing whitespace" ;;
    Ok (mkToken name role value)
  end.

(** * The token file *)

Record file_info := mkFileInfo { is_regular : bool; perm : Z }.

(** The largest line [bufio.Scanner] holds in its buffer, with its line break. *)
Definition maxLine : Z := 1048576.

Definition drop_cr (line : string) : string := trim_suffix line (String "013" "").

(** The loop over the lines, [line] the number of the one before. *)
Fixpoint load_lines (a : Authenticator) (line : Z) (l : list string) : result string Authenticator :=
  match l with
  | [] => Ok a
  | raw :: l' =>
    if maxLine <=? len raw then Err "read token file: bufio.Scanner: token too long"
    else
      let text := trim_space (drop_cr raw) in
      if String.eqb text "" then load_lines a (line + 1) l'
      else match parseLine text ≫= add a with
           | Ok a' => load_lines a' (line + 1) l'
           | Err e => Err ("token file line " +:+ format_int (line + 1) +:+ ": " +:+ e)
           end
  end.

Definition LoadFile (info : file_info) (content : string) : result string Authenticator :=
  refuse (negb info.(is_regular) || negb (Z.land info.(perm) 31 =? 0))
    "token file must be regular, group-read-only at most, and inaccessible to other users" ;;
  a ← load_lines [] 0 (split_on "010" content);
  refuse (match a with [] => true | _ => false end) "token file contains no tokens" ;;
  Ok a.

(** * Authentication *)

Fixpoint find_digest (digest : string) (a : Authenticator) : result auth_error Principal :=
  match a with
  | [] => Err ErrUnauthorized
  | candidate :: a' =>
    if String.eqb digest (tokenDigest candidate.(tok_value))
    then Ok (mkPrincipal candidate.(tok_name) candidate.(tok_role))
    else find_digest digest a'
  end.

Definition blanks : string := String " " (String "009" (String "013" (String "010" ""))).

(** [rawHeader] is the request's Authorization header, empty when there is none. *)
Definition Authenticate (a : option Authenticator) (rawHeader : string) : result auth_error Principal :=
  match a with
  | None => Err ErrUnauthorized
  | Some a =>
    if 7 + maxTokenLen <? len rawHeader then Err ErrUnauthorized
    else
      let header := trim_space rawHeader in
      if (len header <? 7) || negb (equal_fold (str_take 7 header) "Bearer ") then Err ErrUnauthorized
      else
        let provided := trim_space (str_drop 7 header) in
        if String.eqb provided "" || contains_any provided blanks then Err ErrUnauthorized
        else find_digest (tokenDigest provided) a
  end.

(** * Lemmas *)

Lemma refuse_ok b text u : refuse b text = Ok u → b = false.
Proof. unfold refuse. by destruct b. Qed.

(** Takes a chain of refusals that succeeded apart. *)
Ltac refusals H :=
  repeat match type of H with
  | (refuse _ _ ≫= _) = Ok _ =>
    let u := fresh "u" in let H1 := fresh "Hr" in apply bind_ok in H as (u & H1%refuse_ok & H)
  end.

Record token_ok (t : token) : Prop := {
  tok_value_ok : tok_value t ≠ "" ∧ trim_space (tok_value t) = tok_value t ∧ len (tok_value t) ≤ maxTokenLen ∧ valid_utf8 (tok_value t) = true;
  tok_role_ok : isRole (tok_role t) = true;
  tok_name_ok : tok_name t ≠ "" ∧ len (tok_name t) ≤ maxNameLen
}.

Record tokens_ok (a : Authenticator) : Prop := {
  toks_each : Forall token_ok a;
  toks_names : NoDup (map tok_name a);
  toks_digests : NoDup (map (λ t, tokenDigest (tok_value t)) a)
}.

Lemma add_conflict_ok t a u : add_conflict t a = Ok u →
  Forall (λ e, tok_name e ≠ tok_name t ∧ tokenDigest (tok_value e) ≠ tokenDigest (tok_value t)) a.
Proof.
  revert u. induction a as [|e a IH]; intros u; [constructor|]. cbn [add_conflict]. intros H. refusals H. bool_hyps.
  constructor; [split; congruence|by eapply IH].
Qed.

Lemma nodup_snoc {A B} (f : A → B) a t : NoDup (map f a) → Forall (λ e, f e ≠ f t) a → NoDup (map f (a ++ [t])).
Proof.
  intros Hn Hf. rewrite List.map_app. apply NoDup_app. split_and!; [done| |cbn; apply NoDup_singleton].
  intros x (e & <- & He)%list_elem_of_In%in_map_iff Hx. cbn in Hx. apply list_elem_of_singleton in Hx.
  rewrite Forall_forall in Hf. apply list_elem_of_In in He. by apply (Hf e He).
Qed.

Lemma add_ok a t a' : valid_utf8 (tok_value t) = true → tokens_ok a → add a t = Ok a' → tokens_ok a' ∧ a' = a ++ [t].
Proof.
  intros Hv [H1 H2 H3] H. unfold add in H. refusals H. apply bind_ok in H as (u' & Hc%add_conflict_ok & [= <-]). bool_hyps.
  rewrite Forall_forall in Hc. split; [|done]. constructor.
  - apply Forall_app. split; [done|]. apply Forall_singleton. constructor; [split_and!; done|done|done].
  - apply nodup_snoc; [done|]. apply Forall_forall. intros e He. by apply Hc.
  - apply nodup_snoc; [done|]. apply Forall_forall. intros e He. by apply Hc.
Qed.

Lemma string_field_valid key raw s : string_field key raw = Ok s → valid_utf8 s = true.
Proof.
  unfold string_field, dec_string. destruct (parse_all raw) as [[]|]; cbn; try discriminate; intros [= <-]; [done|].
  apply unquote_valid.
Qed.

Lemma parseLine_valid text t : parseLine text = Ok t → valid_utf8 (tok_value t) = true.
Proof.
  unfold parseLine. intros H. refusals H. apply bind_ok in H as (fields & _ & H). destruct (find _ fields) as [[]|]; [discriminate|].
  apply bind_ok in H as (rt & _ & H). apply bind_ok in H as (rr & _ & H). apply bind_ok in H as (v & Hv & H).
  apply bind_ok in H as (r & _ & H). refusals H. apply bind_ok in H as (rn & _ & H). apply bind_ok in H as (n & _ & H). refusals H.
  injection H as <-. by eapply string_field_valid.
Qed.

Lemma load_lines_ok l : ∀ a line a', tokens_ok a → load_lines a line l = Ok a' → tokens_ok a' ∧ ∃ b, a' = a ++ b.
Proof.
  induction l as [|raw l IH]; intros a line a' Ha; cbn [load_lines].
  - intros [= <-]. split; [done|]. exists []. by rewrite app_nil_r.
  - case_if; [discriminate|]. cbn zeta. case_if; [by apply IH|].
    destruct (parseLine _ ≫= add a) as [a1|] eqn:E; [|discriminate]. apply bind_ok in E as (t & Ht & Hadd). intros H.
    destruct (add_ok a t a1 (parseLine_valid _ _ Ht) Ha Hadd) as [Ha1 ->]. destruct (IH _ _ _ Ha1 H) as [? [b ->]].
    split; [done|]. exists ([t] ++ b). by rewrite app_assoc.
Qed.

Lemma load_file_ok info content a : LoadFile info content = Ok a → tokens_ok a.
Proof.
  unfold LoadFile. intros H. refusals H. apply bind_ok in H as (a1 & Hl & H). refusals H. injection H as <-.
  eapply load_lines_ok; [|exact Hl]. constructor; constructor.
Qed.

Lemma add_configured_ok l : Forall (λ v, valid_utf8 v.1 = true) l → ∀ a index a', tokens_ok a → add_configured a index l = Ok a' →
  tokens_ok a' ∧ length a' = (length a + length l)%nat.
Proof.
  induction 1 as [|[value role] l Hv _ IH]; intros a index a' Ha; cbn [add_configured].
  - intros [= <-]. split; [done|]. cbn. lia.
  - intros (a1 & H1 & Hl)%bind_ok. apply add_ok in H1 as [Ha1 ->]; [|apply trim_space_chunks, Hv|done].
    apply IH in Hl as [Ha' ->]; [|done]. split; [done|]. rewrite length_app. cbn. lia.
Qed.

(** What [New] makes of a map: one token for each of its values, with distinct names and digests. *)
Lemma new_ok l a : Forall (λ v, valid_utf8 v.1 = true) l → New l = Ok a → tokens_ok a ∧ length a = length l ∧ a ≠ [].
Proof.
  intros Hv H. unfold New in H. apply bind_ok in H as (a1 & Hl & H). refusals H. injection H as <-.
  destruct (add_configured_ok l Hv [] 0 a1) as [Ha Hn]; [constructor; constructor|done|]. split_and!; [done|done|by destruct a1].
Qed.

(** ** Trimming the header *)

Lemma trim_left_fixed l x : trim_left l = l → l ≠ [] → trim_left (l ++ x) = l ++ x.
Proof.
  destruct l as [|k l]; [done|]. intros Ht _. cbn in *. destruct (is_space (rune k)); [|done].
  destruct (trim_left_suffix l) as [p Hp]. apply (f_equal (@List.length chunk)) in Ht, Hp. rewrite length_app in Hp. simpl in Ht. lia.
Qed.

Lemma trim_both_fixed l : trim_both l = l → trim_left l = l ∧ trim_left (rev l) = rev l.
Proof.
  intros Ht. assert (Hl : trim_left l = l) by (rewrite <-Ht; apply trim_left_both). split; [done|].
  unfold trim_both in Ht. rewrite Hl in Ht. apply (f_equal (@rev chunk)) in Ht. by rewrite rev_involutive in Ht.
Qed.

Lemma trim_prefix p l : trim_left p = p → p ≠ [] → trim_both l = l → l ≠ [] → trim_both (p ++ l) = p ++ l.
Proof.
  intros Hp Hpn Hl Hln. destruct (trim_both_fixed l Hl) as [_ Hr]. unfold trim_both. rewrite trim_left_fixed by done.
  rewrite rev_app_distr, trim_left_fixed, <-rev_app_distr, rev_involutive; [done|done|].
  intros E. apply (f_equal (@rev chunk)) in E. by rewrite rev_involutive in E.
Qed.

Lemma trim_bearer v : valid_utf8 v = true → trim_space v = v → v ≠ "" → trim_space ("Bearer " +:+ v) = "Bearer " +:+ v.
Proof.
  intros Hv Ht Hn. destruct (trim_space_chunks v Hv) as [Hc _]. rewrite Ht in Hc.
  assert (He : chunks ("Bearer " +:+ v) = chunks "Bearer " ++ chunks v) by reflexivity.
  unfold trim_space. fold (trim_both (chunks ("Bearer " +:+ v))). rewrite He, trim_prefix; [|reflexivity|done|done|].
  - rewrite <-He. apply bytes_of_chunks.
  - intros E. apply Hn. by rewrite <-(bytes_of_chunks v), E.
Qed.

Lemma find_digest_unique a t : NoDup (map (λ t, tokenDigest (tok_value t)) a) → t ∈ a →
  find_digest (tokenDigest (tok_value t)) a = Ok (mkPrincipal (tok_name t) (tok_role t)).
Proof.
  induction a as [|e a IH]; [by intros _ ?%elem_of_nil|]. cbn [map find_digest]. intros [Hn Hd]%NoDup_cons [->|Hin]%elem_of_cons.
  - by rewrite String.eqb_refl.
  - destruct (String.eqb_spec (tokenDigest (tok_value t)) (tokenDigest (tok_value e))) as [E|]; [|auto].
    exfalso. apply Hn. rewrite <-E. apply list_elem_of_In, (in_map (λ t, tokenDigest (tok_value t))), list_elem_of_In, Hin.
Qed.

Lemma find_digest_sound digest a p : find_digest digest a = Ok p →
  ∃ t, t ∈ a ∧ digest = tokenDigest (tok_value t) ∧ p = mkPrincipal (tok_name t) (tok_role t).
Proof.
  induction a as [|e a IH]; [discriminate|]. cbn [find_digest]. destruct (String.eqb_spec digest (tokenDigest (tok_value e))) as [->|].
  - intros [= <-]. exists e. split; [apply list_elem_of_here|done].
  - intros (t & Hin & ? & ?)%IH. exists t. split; [by apply list_elem_of_further|done].
Qed.

(** A credential in the form RFC 6750 gives it reaches the comparison of digests. *)
Lemma authenticate_bearer a v : valid_utf8 v = true → trim_space v = v → v ≠ "" → len v ≤ maxTokenLen → contains_any v blanks = false →
  Authenticate (Some a) ("Bearer " +:+ v) = find_digest (tokenDigest v) a.
Proof.
  intros Hv Ht Hn Hl Hb. unfold Authenticate. rewrite len_app. change (len "Bearer ") with 7.
  rewrite (proj2 (Z.ltb_ge _ _)) by lia. rewrite trim_bearer by done. cbn zeta. rewrite len_app. change (len "Bearer ") with 7.
  pose proof (len_nonneg v). rewrite (proj2 (Z.ltb_ge _ _)) by lia.
  change (str_take 7 ("Bearer " +:+ v)) with "Bearer ". change (str_drop 7 ("Bearer " +:+ v)) with v.
  rewrite Ht, Hb, (proj2 (String.eqb_neq _ _)) by done. reflexivity.
Qed.

(** * What authentication promises *)

(** C35.  A token file is accepted only when no other user can read it and it holds at least one
    token; the tokens then have distinct names and distinct digests, and each has a known role, a
    name of at most 200 bytes and a trimmed value of at most 4096 bytes. *)
Theorem loaded_tokens info content a : LoadFile info content = Ok a →
  is_regular info = true ∧ Z.land (perm info) 31 = 0 ∧ a ≠ [] ∧ NoDup (map tok_name a) ∧ NoDup (map (λ t, tokenDigest (tok_value t)) a)
  ∧ Forall (λ t, isRole (tok_role t) = true ∧ tok_name t ≠ "" ∧ len (tok_name t) ≤ 200
      ∧ tok_value t ≠ "" ∧ trim_space (tok_value t) = tok_value t ∧ len (tok_value t) ≤ 4096) a.
Proof.
  intros H. destruct (load_file_ok _ _ _ H) as [H1 H2 H3]. unfold LoadFile in H. refusals H.
  apply bind_ok in H as (a1 & _ & H). refusals H. injection H as <-. bool_hyps. split_and!; try done; [by destruct a1|].
  eapply Forall_impl; [exact H1|]. intros t [(?&?&?&?) ? (?&?)]. done.
Qed.

(** C37.  Every token of an accepted file that holds no blank authenticates as itself: its bearer
    header gives its own name and role, never another token's. *)
Theorem token_authenticates info content a t : LoadFile info content = Ok a → t ∈ a → contains_any (tok_value t) blanks = false →
  Authenticate (Some a) ("Bearer " +:+ tok_value t) = Ok (mkPrincipal (tok_name t) (tok_role t)).
Proof.
  intros Hl Ht Hb. destruct (load_file_ok _ _ _ Hl) as [H1 _ H3]. rewrite Forall_forall in H1. destruct (H1 t Ht) as [(?&?&?&?) _ _].
  rewrite authenticate_bearer by done. by apply find_digest_unique.
Qed.

(** C36.  A request is authenticated only by a bearer credential without blanks whose SHA-256 digest
    is that of a token of the file, and it gets that token's name and role. *)
Theorem authenticate_sound a header p : Authenticate a header = Ok p →
  ∃ l t, a = Some l ∧ t ∈ l ∧ p = mkPrincipal (tok_name t) (tok_role t)
  ∧ len header ≤ 4103 ∧ equal_fold (str_take 7 (trim_space header)) "Bearer " = true
  ∧ let provided := trim_space (str_drop 7 (trim_space header)) in
    provided ≠ "" ∧ contains_any provided blanks = false ∧ sum256 provided = sum256 (tok_value t).
Proof.
  unfold Authenticate. destruct a as [l|]; [|discriminate]. cbn zeta. destruct (_ <? len header) eqn:E1; [discriminate|].
  destruct (_ || negb (equal_fold _ _)) eqn:E2; [discriminate|]. destruct (_ || contains_any _ _) eqn:E3; [discriminate|].
  intros (t & Ht & Hd & ->)%find_digest_sound. bool_hyps. exists l, t. unfold maxTokenLen in *. split_and!; done || lia.
Qed.

(** A token with a blank inside is accepted from the file but can never be used: its own
    bearer header is refused. *)
Theorem blank_token_unusable info content a t : LoadFile info content = Ok a → t ∈ a → contains_any (tok_value t) blanks = true →
  Authenticate (Some a) ("Bearer " +:+ tok_value t) = Err ErrUnauthorized.
Proof.
  intros Hl Ht Hb. destruct (load_file_ok _ _ _ Hl) as [H1 _ _]. rewrite Forall_forall in H1. destruct (H1 t Ht) as [(?&Htr&?&?) _ _].
  unfold Authenticate. rewrite trim_bearer by done. cbn zeta. change (str_drop 7 ("Bearer " +:+ tok_value t)) with (tok_value t).
  rewrite Htr, Hb, orb_true_r. by repeat case_if.
Qed.

Lemma rank_cases r : (r = "admin" ∧ rank r = 3) ∨ (r = "operator" ∧ rank r = 2) ∨ (r = "reader" ∧ rank r = 1)
  ∨ (isRole r = false ∧ rank r = 0).
Proof.
  unfold rank, isRole, RoleAdmin, RoleOperator, RoleReader.
  destruct (String.eqb_spec r "admin"); [auto|]. destruct (String.eqb_spec r "operator"); [auto|].
  destruct (String.eqb_spec r "reader"); auto 6.
Qed.

Lemma require_rank p minimum : Require_ p minimum = Ok () ↔ rank minimum ≤ rank (P_Role p).
Proof. unfold Require_. destruct (Z.ltb_spec (rank (P_Role p)) (rank minimum)); split; try done; lia. Qed.

(** The roles are ordered reader, operator, admin: a principal passes a check exactly when its
    role is at least the required one, and a name that is no role passes only the check for no role. *)
Theorem role_order p minimum : Require_ p minimum = Ok () ↔
  minimum = RoleAdmin ∧ P_Role p = RoleAdmin
  ∨ minimum = RoleOperator ∧ (P_Role p = RoleOperator ∨ P_Role p = RoleAdmin)
  ∨ minimum = RoleReader ∧ isRole (P_Role p) = true
  ∨ isRole minimum = false.
Proof.
  rewrite require_rank. destruct p as [n r]. cbn [P_Role]. unfold RoleAdmin, RoleOperator, RoleReader.
  destruct (rank_cases minimum) as [(-> & ->)|[(-> & ->)|[(-> & ->)|[Hm ->]]]],
    (rank_cases r) as [(-> & ->)|[(-> & ->)|[(-> & ->)|[Hp ->]]]];
    split; intros Hx; try lia; destruct_or?; destruct_and?; subst; try discriminate; auto 6; try (destruct_or?; subst; discriminate || congruence).
Qed.

(** * Instances *)

Definition token_file : string := json_text "{'token':'s3cret','role':'admin','name':'ops'}
  {'name':'viewer','token':'read me','role':'reader'}
".
Definition secret_mode : file_info := mkFileInfo true 288.
Definition ops_token : token := mkToken "ops" "admin" "s3cret".
Definition viewer_token : token := mkToken "viewer" "reader" "read me".

Lemma loaded_tokens_witness : LoadFile secret_mode token_file = Ok [ops_token; viewer_token] ∧ NoDup ["ops"; "viewer"].
Proof.
  assert (E : LoadFile secret_mode token_file = Ok [ops_token; viewer_token]) by (vm_compute; reflexivity).
  split; [exact E|]. destruct (loaded_tokens _ _ _ E) as (_ & _ & _ & Hn & _). exact Hn.
Defined.

Lemma token_authenticates_witness : LoadFile secret_mode token_file = Ok [ops_token; viewer_token]
  ∧ Authenticate (Some [ops_token; viewer_token]) "Bearer s3cret" = Ok (mkPrincipal "ops" "admin").
Proof.
  assert (E : LoadFile secret_mode token_file = Ok [ops_token; viewer_token]) by (vm_compute; reflexivity).
  split; [exact E|]. apply (token_authenticates _ _ _ ops_token E); [apply list_elem_of_here|reflexivity].
Defined.

Lemma authenticate_sound_witness : Authenticate (Some [ops_token; viewer_token]) " bearer  s3cret" = Ok (mkPrincipal "ops" "admin")
  ∧ ∃ l t, Some [ops_token; viewer_token] = Some l ∧ t ∈ l ∧ mkPrincipal "ops" "admin" = mkPrincipal (tok_name t) (tok_role t).
Proof.
  assert (E : Authenticate (Some [ops_token; viewer_token]) " bearer  s3cret" = Ok (mkPrincipal "ops" "admin")) by (vm_compute; reflexivity).
  split; [exact E|]. destruct (authenticate_sound _ _ _ E) as (l & t & H1 & H2 & H3 & _). exists l, t. split_and!; [exact H1|exact H2|exact H3].
Defined.

Lemma blank_token_unusable_witness : LoadFile secret_mode token_file = Ok [ops_token; viewer_token]
  ∧ Authenticate (Some [ops_token; viewer_token]) "Bearer read me" = Err ErrUnauthorized.
Proof.
  assert (E : LoadFile secret_mode token_file = Ok [ops_token; viewer_token]) by (vm_compute; reflexivity).
  split; [exact E|]. apply (blank_token_unusable _ _ _ viewer_token E); [|reflexivity].
  apply list_elem_of_further, list_elem_of_here.
Defined.
