(* ===== verification/Errors.v ===== *)
(** The errors of internal/store (store.go): sentinels, sentinels wrapped with a message, conflicts
    with their details, and failed SQL statements.

    A Go [error] is a value of [error]; [errors_is] is [errors.Is] for the sentinels, which is all
    the callers ask.  [SQLite] names what the model takes from the SQLite engine: its [json_valid]
    and [length] functions and the text of its errors, none of which is code of the repository. *)
From S2P Require Import Prelude Utf8 Strconv Text.
Local Open Scope Z_scope.

Inductive sentinel :=
  | ErrNotFound
  | ErrConflict
  | ErrVersionConflict
  | ErrPreconditionRequired
  | ErrForbidden
  | ErrInvalid
  | ErrCorrupt.

#[export] Instance sentinel_eq_dec : EqDecision sentinel.
Proof. solve_decision. Defined.

Definition sentinel_text (e : sentinel) : string :=
  match e with
  | ErrNotFound => "resource not found"
  | ErrConflict => "operation conflicts with current state"
  | ErrVersionConflict => "resource changed since it was read"
  | ErrPreconditionRequired => "precondition required"
  | ErrForbidden => "operation forbidden"
  | ErrInvalid => "invalid resource"
  | ErrCorrupt => "database verification failed"
  end.

Record ConflictError := mkConflictError {
  Base : option sentinel;
  Reason : string;
  ResourceType : string;
  ResourceID : string;
  ExpectedVersion : Z;
  CurrentVersion : Z;
  CurrentState : string;
  RequestedState : string;
  Holder : string
}.

(** Why the engine refuses a statement, with the constraint or the trigger's message. *)
Inductive sql_error :=
  | UniqueViolation (columns : string)
  | CheckViolation (table : string)
  | ForeignKeyViolation
  | TriggerAbort (message : string).

Class SQLite := {
  sqlite_json_valid : string → bool;
  sqlite_length : string → Z;
  sqlite_error_text : sql_error → string
}.

Inductive error :=
  | ESentinel (e : sentinel)
  | EWrapped (e : sentinel) (message : string)
  | EConflict (e : ConflictError)
  | ESql (e : sql_error)
  | EText (message : string)
  | EPrefixed (message : string) (e : error).

(** [fmt.Sprintf] pieces of [ConflictError.Error]. *)
Definition conflict_parts (e : ConflictError) : list string :=
  (if String.eqb e.(Reason) "" then [] else [e.(Reason)])
  ++ (if negb (String.eqb e.(ResourceType) "") && negb (String.eqb e.(ResourceID) "")
      then [e.(ResourceType) +:+ " " +:+ e.(ResourceID)] else [])
  ++ (if String.eqb e.(CurrentState) "" then [] else ["current state=" +:+ e.(CurrentState)])
  ++ (if 0 <? e.(CurrentVersion) then ["current version=" +:+ format_int e.(CurrentVersion)] else [])
  ++ (if String.eqb e.(Holder) "" then [] else ["holder=" +:+ e.(Holder)]).

(** [ConflictError.Error] on a pointer that may be nil. *)
Definition conflict_text (e : option ConflictError) : string :=
  match e with
  | None => "conflict"
  | Some e =>
    let base := default ErrConflict e.(Base) in
    match conflict_parts e with
    | [] => sentinel_text base
    | parts => sentinel_text base +:+ ": " +:+ join ", " parts
    end
  end.

(** [ConflictError.Unwrap]. *)
Definition unwrap (e : option ConflictError) : sentinel :=
  match e with
  | Some e => default ErrConflict e.(Base)
  | None => ErrConflict
  end.

Definition conflictError (base : option sentinel) (reason resourceType resourceID : string)
    (expected current : Z) (currentState requested : string) : error :=
  EConflict (mkConflictError (Some (default ErrConflict base)) reason resourceType resourceID
    expected current currentState requested "").

(** [errors.Is(err, target)] for a sentinel. *)
Fixpoint errors_is (err : error) (target : sentinel) : bool :=
  match err with
  | ESentinel e | EWrapped e _ => bool_decide (e = target)
  | EConflict e => bool_decide (unwrap (Some e) = target)
  | ESql _ | EText _ => false
  | EPrefixed _ e => errors_is e target
  end.

(** [err.Error()]. *)
Fixpoint error_text `{SQLite} (err : error) : string :=
  match err with
  | ESentinel e => sentinel_text e
  | EWrapped e message => sentinel_text e +:+ ": " +:+ message
  | EConflict e => conflict_text (Some e)
  | ESql e => sqlite_error_text e
  | EText message => message
  | EPrefixed message e => message +:+ ": " +:+ error_text e
  end.

(** [isUnique]: the engine's text says that a unique constraint or a primary key was violated. *)
Definition isUnique `{SQLite} (err : error) : bool :=
  contains_lower (error_text err) "unique constraint"
  || contains_lower (error_text err) "constraint failed" && contains_lower (error_text err) "primary key".

(** * Lemmas *)

(** A conflict made by [conflictError] is an [ErrConflict] or [ErrVersionConflict] as asked, and
    nothing else. *)
Lemma conflictError_is base reason rt rid ex cur st req target :
  errors_is (conflictError base reason rt rid ex cur st req) target = bool_decide (default ErrConflict base = target).
Proof. reflexivity. Qed.
