(* ===== verification/Values.v ===== *)
(** The small rules of internal/store/store.go on values: identifiers, version preconditions, page
    limits, cursors, audit identities, the runtime version check, raw documents. *)
From S2P Require Import Prelude Utf8 Json JsonText Strconv JsonDecode Text Errors.
Local Open Scope Z_scope.

(** * Identifiers *)

Definition id_first (r : Z) : bool :=
  (97 <=? r) && (r <=? 122) || (65 <=? r) && (r <=? 90) || (48 <=? r) && (r <=? 57).

(** [strings.ContainsRune("._:@+-", r)]. *)
Definition id_punct (r : Z) : bool := existsb (Z.eqb r) (runes "._:@+-").

Definition id_rest (r : Z) : bool := id_first r || id_punct r.

Definition validID (v : string) : bool :=
  (1 <=? len v) && (len v <=? 200)
  && match runes v with
     | [] => true
     | r :: rs => id_first r && forallb id_rest rs
     end.

(** * Audit identities *)

Record AuditContext := mkAudit { Actor : string; Role : string; RequestID : string }.

Definition or_system (s : string) : string := if String.eqb s "" then "system" else s.

Definition auditValues (a : AuditContext) : AuditContext :=
  mkAudit (or_system a.(Actor)) (or_system a.(Role)) (or_system a.(RequestID)).

Definition isAdmin (role : string) : bool := String.eqb role "admin".

(** * Version preconditions *)

Record VersionPrecondition := mkPrecondition { Any : bool; Versions : list Z }.

Definition match_version (p : VersionPrecondition) (version : Z) : bool :=
  p.(Any) || existsb (λ candidate, candidate =? version) p.(Versions).

Definition require_version (p : VersionPrecondition) (version : Z)
    (resourceType resourceID state requested : string) : result error () :=
  if negb p.(Any) && match p.(Versions) with [] => true | _ => false end
  then Err (ESentinel ErrPreconditionRequired)
  else if negb (match_version p version)
  then Err (conflictError (Some ErrVersionConflict) (resourceType +:+ "_version_changed") resourceType
    resourceID 0 version state requested)
  else Ok ().

Definition VersionETag (version : Z) : string :=
  String dquote (format_int version +:+ String dquote "").

(** * Pages *)

Definition pageLimit (value : Z) : Z :=
  if value <=? 0 then 100 else if 200 <? value then 200 else value.

Definition encodeCursor (value : string) : string := b64_encode value.

Definition decodeCursor (value : string) : result error string :=
  if String.eqb (trim_space value) "" then Ok ""
  else match b64_decode value with
       | Some decoded =>
         if len decoded =? 0 then Err (EWrapped ErrInvalid "invalid cursor") else Ok decoded
       | None => Err (EWrapped ErrInvalid "invalid cursor")
       end.

(** * Versions of the SQLite runtime *)

Definition minimumSQLite : string := "3.51.3".

(** The first three parts of a version, missing ones 0. *)
Definition version_parts (v : string) : list Z :=
  let parts := map atoi_value (split_on "." v) in
  [nth 0 parts 0; nth 1 parts 0; nth 2 parts 0].

Fixpoint compare_parts (x y : list Z) : Z :=
  match x, y with
  | a :: x', b :: y' => if a <? b then -1 else if b <? a then 1 else compare_parts x' y'
  | _, _ => 0
  end.

Definition compareVersions (a b : string) : Z := compare_parts (version_parts a) (version_parts b).

Definition isMemoryPath (path : string) : bool :=
  String.eqb path ":memory:" || has_prefix path "file::memory:" || has_prefix path "file:memdb".

(** * Raw documents *)

Definition normalizeJSON (raw : string) : result error string :=
  let raw := if len raw =? 0 then "{}" else raw in
  if negb (valid raw) then Err (EWrapped ErrInvalid "payload must be valid JSON") else Ok raw.

(** [canonicalJSON] with the store's errors. *)
Definition canonical_json (raw : string) : result error string :=
  match canonicalJSON raw with
  | Ok c => Ok c
  | Err InvalidJSON => Err (EWrapped ErrInvalid "invalid JSON")
  | Err MultipleValues => Err (EWrapped ErrInvalid "multiple JSON values")
  end.

Definition canonicalJSONDefault (raw : string) : result error string :=
  normalized ← normalizeJSON raw;
  canonical_json normalized.

(** Decoding into [map[string]json.RawMessage]: a JSON object, or [null], which leaves the map nil. *)
Definition canonicalJSONObject (raw : string) : result error string :=
  canonical ← canonicalJSONDefault raw;
  match parse_all canonical with
  | Some (JObj _) => Ok canonical
  | _ => Err (EWrapped ErrInvalid "payload must be a JSON object")
  end.

(** * Lemmas *)

Lemma id_rest_spec r : id_rest r = true → 0 ≤ r < 128.
Proof.
  unfold id_rest, id_first, id_punct. intros H.
  change (runes "._:@+-") with [46; 95; 58; 64; 43; 45] in H. cbn [existsb] in H.
  rewrite !orb_true_iff, !andb_true_iff, !Z.leb_le, !Z.eqb_eq in H. lia.
Qed.

Lemma id_first_rest r : id_first r = true → id_rest r = true.
Proof. unfold id_rest. by intros ->. Qed.

Lemma small_rune_ok k : piece_ok k = true → 0 ≤ rune k < 128 → chunk_ok k = true.
Proof. destruct k; intros H Hr; try done. cbn [rune] in Hr. unfold rune_error in Hr. lia. Qed.

Lemma runes_small_valid s : Forall (λ r, 0 ≤ r < 128) (runes s) → valid_utf8 s = true.
Proof.
  unfold valid_utf8, runes. pose proof (chunks_pieces s) as Hp. revert Hp. generalize (chunks s) as l.
  induction l as [|k l IH]; [done|]. cbn [forallb map]. intros [Hk Hl]%andb_true_iff Hf.
  inversion_clear Hf. rewrite small_rune_ok by done. by apply IH.
Qed.

Lemma validID_spec v : validID v = true → v ≠ "" ∧ valid_utf8 v = true ∧ len v ≤ 200.
Proof.
  unfold validID. intros [[H1 H2]%andb_true_iff H]%andb_true_iff. bool_hyps. split_and!; [|..|done].
  - intros ->. by vm_compute in H1.
  - apply runes_small_valid. destruct (runes v) as [|r rs]; [done|].
    apply andb_true_iff in H as [Hr Hrs]. constructor; [by apply id_rest_spec, id_first_rest|].
    rewrite forallb_Forall in Hrs. eapply Forall_impl; [done|]. intros r'. apply id_rest_spec.
Qed.

Lemma canonical_json_ok raw c : canonical_json raw = Ok c ↔ canonicalJSON raw = Ok c.
Proof. unfold canonical_json. destruct (canonicalJSON raw) as [?|[]]; split; congruence. Qed.

Lemma canonical_fixed raw c : canonicalJSON raw = Ok c →
  len c ≠ 0 ∧ valid c = true ∧ canonicalJSON c = Ok c.
Proof.
  intros H. pose proof (canonicalJSON_canonical raw c H) as Hc.
  destruct (parse_all_canonical raw c H) as (v & -> & Hp). split_and!; [|by unfold valid; rewrite Hp|done].
  intros Hz%len_zero. rewrite Hz in Hp. done.
Qed.

(** A canonical document is what the default rule makes of itself. *)
Lemma canonicalJSONDefault_fixed raw c : canonicalJSON raw = Ok c → canonicalJSONDefault c = Ok c.
Proof.
  intros H. destruct (canonical_fixed raw c H) as (Hz & Hv & Hc).
  unfold canonicalJSONDefault, normalizeJSON. rewrite (proj2 (Z.eqb_neq _ _) Hz), Hv.
  by apply canonical_json_ok.
Qed.

Lemma canonicalJSONDefault_ok raw c : canonicalJSONDefault raw = Ok c → ∃ raw', canonicalJSON raw' = Ok c.
Proof. intros (n & _ & H%canonical_json_ok)%bind_ok. eauto. Qed.

Lemma canonicalJSONObject_ok raw c : canonicalJSONObject raw = Ok c →
  canonicalJSON c = Ok c ∧ valid c = true ∧ canonicalJSONObject c = Ok c ∧ ∃ l, parse_all c = Some (JObj l).
Proof.
  unfold canonicalJSONObject. intros (c' & Hc & H)%bind_ok.
  destruct (parse_all c') as [[]|] eqn:Hp; try discriminate H. injection H as <-.
  destruct (canonicalJSONDefault_ok _ _ Hc) as [raw' Hr].
  destruct (canonical_fixed _ _ Hr) as (_ & Hv & Hf). split_and!; [done..| |by eauto].
  rewrite (canonicalJSONDefault_fixed _ _ Hf). cbn. by rewrite Hp.
Qed.

Lemma auditValues_nonempty a :
  (auditValues a).(Actor) ≠ "" ∧ (auditValues a).(Role) ≠ "" ∧ (auditValues a).(RequestID) ≠ "".
Proof. unfold auditValues, or_system; simpl. split_and!; case_if; bool_hyps; done. Qed.

Lemma or_system_idem s : or_system (or_system s) = or_system s.
Proof. unfold or_system. destruct (String.eqb_spec s "") as [->|Hs]; [done|]. by rewrite (proj2 (String.eqb_neq _ _) Hs). Qed.

Lemma auditValues_idem a : auditValues (auditValues a) = auditValues a.
Proof. destruct a as [x y z]. unfold auditValues, or_system. simpl. f_equal; repeat (case_if; bool_hyps); congruence. Qed.

Lemma or_system_admin r : isAdmin (or_system r) = isAdmin r.
Proof. unfold isAdmin, or_system. destruct (String.eqb_spec r "") as [->|]; done. Qed.

(** What an accepted precondition says: a wildcard or a listed version. *)
Lemma require_version_ok p v rt rid st req u :
  require_version p v rt rid st req = Ok u → p.(Any) = true ∨ v ∈ p.(Versions).
Proof.
  unfold require_version, match_version. case_if; [done|]. case_if; [done|]. intros _.
  bool_hyps. apply orb_true_iff in Heqb0 as [H|H]; [by left|right].
  apply existsb_exists in H as (x & Hx & E). bool_hyps. subst x. by apply list_elem_of_In.
Qed.
