(* ===== verification/Lifecycle.v ===== *)
(** The state machines of internal/store/lifecycle.go: the tables of maintenance and target
    transitions, the functions that read them, and the rules that tie a target's state to its
    maintenance.

    The source keeps states as strings and the tables as maps; so do the definitions.  The
    specification is a pair of inductive types with their step relations, and the lemmas say that
    the tables are those relations and nothing else. *)
From S2P Require Import Prelude.
Local Open Scope Z_scope.

(** * Tables *)

(** A Go map literal with string keys: a missing key reads as the zero value. *)
Definition string_map (A : Type) : Type := list (string * A).

Fixpoint map_get {A} (m : string_map A) (key : string) : option A :=
  match m with
  | [] => None
  | (k, v) :: m' => if String.eqb k key then Some v else map_get m' key
  end.

Definition transitions : Type := string_map (string_map bool).

Definition to (l : list string) : string_map bool := map (λ s, (s, true)) l.

Definition maintenanceTransitions : transitions := [
  ("new", to ["captured"; "cancelled"; "failed"]);
  ("captured", to ["stopping"; "cancelled"; "failed"]);
  ("stopping", to ["stopped"; "failed"]);
  ("stopped", to ["waiting"; "failed"]);
  ("waiting", to ["starting"; "failed"]);
  ("starting", to ["completed"; "failed"]);
  ("failed", to ["new"; "captured"; "stopping"; "stopped"; "waiting"; "starting"])].

Definition targetTransitions : transitions := [
  ("captured", to ["stopping"; "skipped"]);
  ("stopping", to ["stopped"; "failed"; "skipped"]);
  ("stopped", to ["starting"; "skipped"]);
  ("starting", to ["healthy"; "failed"; "skipped"]);
  ("failed", to ["stopping"; "starting"; "skipped"])].

(** [table[from][to]]. *)
Definition allowed (table : transitions) (from to : string) : bool :=
  match map_get table from with
  | Some row => default false (map_get row to)
  | None => false
  end.

Definition known (table : transitions) (state : string) : bool :=
  match map_get table state with Some _ => true | None => false end.

(** * Functions *)

Definition ValidMaintenanceState (state : string) : bool :=
  String.eqb state "completed" || String.eqb state "cancelled" || known maintenanceTransitions state.

Definition ValidMaintenanceTransition (from to : string) : bool := allowed maintenanceTransitions from to.

Definition IsMaintenanceTerminal (state : string) : bool :=
  String.eqb state "completed" || String.eqb state "failed" || String.eqb state "cancelled".

Definition ValidTargetState (state : string) : bool :=
  String.eqb state "healthy" || String.eqb state "skipped" || known targetTransitions state.

Definition ValidTargetTransition (from to : string) : bool := allowed targetTransitions from to.

Definition targetCompletionAllowed (original current : string) : bool :=
  if String.eqb current "skipped" then true
  else if String.eqb original "running" then String.eqb current "healthy"
  else if String.eqb original "stopped" then String.eqb current "stopped"
  else false.

Definition targetPhaseAllowed (maintenanceState targetState : string) : bool :=
  if String.eqb targetState "stopping" || String.eqb targetState "stopped"
  then String.eqb maintenanceState "stopping"
  else if String.eqb targetState "starting" || String.eqb targetState "healthy"
  then String.eqb maintenanceState "starting"
  else if String.eqb targetState "failed"
  then String.eqb maintenanceState "stopping" || String.eqb maintenanceState "starting"
  else false.

(** * Specification *)

Inductive mstate := New | Captured | Stopping | Stopped | Waiting | Starting | Failed | Completed | Cancelled.

Inductive tstate := TCaptured | TStopping | TStopped | TStarting | THealthy | TFailed | TSkipped.

#[export] Instance mstate_eq_dec : EqDecision mstate.
Proof. solve_decision. Defined.
#[export] Instance tstate_eq_dec : EqDecision tstate.
Proof. solve_decision. Defined.

Definition mname (s : mstate) : string :=
  match s with
  | New => "new" | Captured => "captured" | Stopping => "stopping" | Stopped => "stopped"
  | Waiting => "waiting" | Starting => "starting" | Failed => "failed"
  | Completed => "completed" | Cancelled => "cancelled"
  end.

Definition tname (s : tstate) : string :=
  match s with
  | TCaptured => "captured" | TStopping => "stopping" | TStopped => "stopped" | TStarting => "starting"
  | THealthy => "healthy" | TFailed => "failed" | TSkipped => "skipped"
  end.

(** The phases of a maintenance in their order. *)
Inductive next_phase : mstate → mstate → Prop :=
  | phase_capture : next_phase New Captured
  | phase_stop : next_phase Captured Stopping
  | phase_stopped : next_phase Stopping Stopped
  | phase_wait : next_phase Stopped Waiting
  | phase_start : next_phase Waiting Starting
  | phase_complete : next_phase Starting Completed.

Inductive mstep : mstate → mstate → Prop :=
  | mstep_phase a b : next_phase a b → mstep a b
  | mstep_cancel a : a = New ∨ a = Captured → mstep a Cancelled
  | mstep_fail a b : next_phase a b → mstep a Failed
  | mstep_reopen b : b ≠ Failed → b ≠ Completed → b ≠ Cancelled → mstep Failed b.

Inductive tstep : tstate → tstate → Prop :=
  | tstep_stop : tstep TCaptured TStopping
  | tstep_stopped : tstep TStopping TStopped
  | tstep_start : tstep TStopped TStarting
  | tstep_healthy : tstep TStarting THealthy
  | tstep_fail a : a = TStopping ∨ a = TStarting → tstep a TFailed
  | tstep_retry b : b = TStopping ∨ b = TStarting → tstep TFailed b
  | tstep_skip a : a ≠ THealthy → a ≠ TSkipped → tstep a TSkipped.

(** * Lemmas *)

Lemma map_get_In {A} (m : string_map A) k v : map_get m k = Some v → In (k, v) m.
Proof.
  induction m as [|[k' v'] m IH]; [done|]. cbn [map_get].
  destruct (String.eqb_spec k' k) as [->|]; [intros [= ->]; by left|right; auto].
Qed.

(** A table whose keys and entries all satisfy [f] allows only moves between such strings. *)
Lemma allowed_names (f : string → bool) table from t :
  forallb (λ kv, f kv.1 && forallb f (map fst kv.2)) table = true →
  allowed table from t = true → f from = true ∧ f t = true.
Proof.
  rewrite forallb_forall. intros Hall. unfold allowed.
  match goal with |- match ?m with _ => _ end = _ → _ => destruct m as [row|] eqn:Hr end; [|discriminate].
  destruct (map_get row t) as [[]|] eqn:Ht; try discriminate; intros _.
  apply map_get_In, Hall in Hr as [Hf Hl]%andb_true_iff. split; [done|].
  rewrite forallb_forall in Hl. apply Hl. apply map_get_In in Ht. by apply (in_map fst) in Ht.
Qed.

Definition all_mstates : list mstate := [New; Captured; Stopping; Stopped; Waiting; Starting; Failed; Completed; Cancelled].
Definition all_tstates : list tstate := [TCaptured; TStopping; TStopped; TStarting; THealthy; TFailed; TSkipped].

Lemma named {A} (name : A → string) l s : existsb (λ a, String.eqb (name a) s) l = true → ∃ a, s = name a.
Proof. intros (a & _ & H)%existsb_exists. exists a. by apply String.eqb_eq in H. Qed.

Lemma mname_inj a b : mname a = mname b → a = b.
Proof. by destruct a, b. Qed.

Lemma tname_inj a b : tname a = tname b → a = b.
Proof. by destruct a, b. Qed.

Lemma mstep_dec a b : allowed maintenanceTransitions (mname a) (mname b) = true ↔ mstep a b.
Proof.
  split.
  - destruct a, b; intros H; vm_compute in H; try discriminate H;
      first [ by apply mstep_phase; constructor | by apply mstep_cancel; auto
            | by eapply mstep_fail; constructor | by apply mstep_reopen ].
  - intros [? ? []|? [-> | ->]|? ? []|[]]; done || reflexivity.
Qed.

Lemma tstep_dec a b : allowed targetTransitions (tname a) (tname b) = true ↔ tstep a b.
Proof.
  split.
  - destruct a, b; intros H; vm_compute in H; try discriminate H; by constructor; auto.
  - intros [| | | |? [-> | ->]|? [-> | ->]|[]]; done || reflexivity.
Qed.

Lemma maintenance_table from t : ValidMaintenanceTransition from t = true ↔
  ∃ a b, from = mname a ∧ t = mname b ∧ mstep a b.
Proof.
  split.
  - intros H. destruct (allowed_names (λ s, existsb (λ a, String.eqb (mname a) s) all_mstates) maintenanceTransitions _ _ eq_refl H)
      as [[a ->]%named [b ->]%named]. exists a, b. by rewrite <-mstep_dec.
  - intros (a & b & -> & -> & H). by apply mstep_dec.
Qed.

Lemma target_table from t : ValidTargetTransition from t = true ↔
  ∃ a b, from = tname a ∧ t = tname b ∧ tstep a b.
Proof.
  split.
  - intros H. destruct (allowed_names (λ s, existsb (λ a, String.eqb (tname a) s) all_tstates) targetTransitions _ _ eq_refl H)
      as [[a ->]%named [b ->]%named]. exists a, b. by rewrite <-tstep_dec.
  - intros (a & b & -> & -> & H). by apply tstep_dec.
Qed.

Lemma known_names (f : string → bool) table s :
  forallb (λ kv, f kv.1) table = true → known table s = true → f s = true.
Proof.
  rewrite forallb_forall. intros H. unfold known. destruct (map_get table s) eqn:E; [|done].
  intros _. apply map_get_In in E. by apply H in E.
Qed.

Lemma ValidMaintenanceState_spec s : ValidMaintenanceState s = true ↔ ∃ a, s = mname a.
Proof.
  split.
  - unfold ValidMaintenanceState. intros [[H|H]%orb_true_iff|H]%orb_true_iff.
    + apply String.eqb_eq in H as ->. by exists Completed.
    + apply String.eqb_eq in H as ->. by exists Cancelled.
    + apply (known_names (λ s, existsb (λ a, String.eqb (mname a) s) all_mstates) maintenanceTransitions _ eq_refl), named in H. done.
  - by intros [[] ->].
Qed.

Lemma ValidTargetState_spec s : ValidTargetState s = true ↔ ∃ a, s = tname a.
Proof.
  split.
  - unfold ValidTargetState. intros [[H|H]%orb_true_iff|H]%orb_true_iff.
    + apply String.eqb_eq in H as ->. by exists THealthy.
    + apply String.eqb_eq in H as ->. by exists TSkipped.
    + apply (known_names (λ s, existsb (λ a, String.eqb (tname a) s) all_tstates) targetTransitions _ eq_refl), named in H. done.
  - by intros [[] ->].
Qed.

Lemma terminal_spec s : IsMaintenanceTerminal s = true ↔ ∃ a, s = mname a ∧ (a = Completed ∨ a = Failed ∨ a = Cancelled).
Proof.
  unfold IsMaintenanceTerminal. rewrite !orb_true_iff, !String.eqb_eq. split.
  - intros [[-> | ->] | ->]; [exists Completed|exists Failed|exists Cancelled]; auto.
  - intros (a & -> & [-> | [-> | ->]]); auto.
Qed.

(** Nothing leaves a completed or cancelled maintenance. *)
Lemma closed_no_exit from t : from = "completed" ∨ from = "cancelled" → ValidMaintenanceTransition from t = false.
Proof. by intros [-> | ->]. Qed.

(** How far a maintenance that never failed has come. *)
Definition phase_rank (s : mstate) : nat :=
  match s with
  | New => 0 | Captured => 1 | Stopping => 2 | Stopped => 3 | Waiting => 4 | Starting => 5
  | Completed => 6 | Failed => 0 | Cancelled => 0
  end.

Lemma phase_rank_step a b : next_phase a b ↔ phase_rank b = S (phase_rank a) ∧ a ≠ Failed ∧ a ≠ Cancelled.
Proof. split; [by intros []|]. destruct a, b; intros (H & H1 & H2); try done; constructor. Qed.
