(* ===== verification/Db.v ===== *)
(** The database of internal/store/schema.sql and the statements the store executes on it.

    A [db] is the four tables.  [maintenance] and [maintenance_captures] are maps from the primary
    key, [targets] a map from the pair of its key, and the journal the list of its rows in the order
    of [journal_id], which only grows.  Times are stored as text, as the source stores them.

    Every statement of the source that writes is one function from a state to a new state or an
    error, with the constraints, foreign keys, unique indexes and triggers of the schema that apply
    to it.  SQL's three-valued logic shows only in the journal's CHECK constraints: a CHECK refuses
    a row when it is false, not when it is NULL. *)
From S2P Require Import Prelude Text Errors.
Local Open Scope Z_scope.

(** * Rows *)

Record maintenance_row := mkMaintenanceRow {
  m_rowid : Z;
  m_state : string;
  m_change_ticket : string;
  m_workflow_version : string;
  m_metadata : string;
  m_version : Z;
  m_created_at : string;
  m_updated_at : string
}.

Record capture_row := mkCaptureRow {
  c_captured_at : string;
  c_payload : string;
  c_sha256 : string
}.

Record target_row := mkTargetRow {
  t_lock_key : string;
  t_state : string;
  t_original_state : string;
  t_kind : string;
  t_host : string;
  t_observed_at : option string;
  t_metadata : string;
  t_version : Z;
  t_created_at : string;
  t_updated_at : string
}.

Record event_row := mkEventRow {
  e_id : Z;
  e_type : string;
  e_occurred_at : string;
  e_request_id : string;
  e_actor : string;
  e_role : string;
  e_resource_type : string;
  e_resource_id : string;
  e_maintenance_id : option string;
  e_target_id : option string;
  e_from_state : option string;
  e_to_state : option string;
  e_from_version : option Z;
  e_to_version : option Z;
  e_aggregate_version : option Z;
  e_payload : string
}.

(** What [sqlite_master] and the two identity pragmas say. *)
Record schema := mkSchema {
  application_id : Z;
  user_version : Z;
  tables : list (string * list string);
  triggers : list string;
  indexes : list string
}.

Record db := mkDb {
  db_schema : schema;
  maintenance : gmap string maintenance_row;
  captures : gmap string capture_row;
  targets : gmap (string * string) target_row;
  journal : list event_row
}.

#[export] Instance event_row_eq_dec : EqDecision event_row.
Proof. solve_decision. Defined.
#[export] Instance target_row_eq_dec : EqDecision target_row.
Proof. solve_decision. Defined.

(** * The schema *)

Definition applicationID : Z := 1279351378.
Definition currentSchema : Z := 1.

Definition required_columns : list (string * list string) := [
  ("maintenance", ["id"; "state"; "change_ticket"; "workflow_version"; "metadata_json"; "version"; "created_at"; "updated_at"]);
  ("maintenance_captures", ["maintenance_id"; "captured_at"; "payload_json"; "sha256"]);
  ("targets", ["maintenance_id"; "id"; "lock_key"; "state"; "original_state"; "kind"; "host"; "observed_at"; "metadata_json"; "version"; "created_at"; "updated_at"]);
  ("journal_events", ["journal_id"; "event_type"; "occurred_at"; "request_id"; "actor"; "role"; "resource_type"; "resource_id"; "maintenance_id"; "target_id"; "from_state"; "to_state"; "from_version"; "to_version"; "aggregate_version"; "payload_json"])].

Definition required_triggers : list string := [
  "maintenance_identity_immutable"; "maintenance_captures_immutable_update"; "maintenance_captures_immutable_delete";
  "targets_identity_immutable"; "targets_immutable_delete"; "targets_lock_exclusive";
  "journal_events_append_only_update"; "journal_events_append_only_delete"].

Definition required_indexes : list string := [
  "idx_maintenance_list"; "idx_targets_lock"; "idx_events_scope"; "idx_events_type"; "idx_events_resource";
  "idx_events_aggregate_version"; "idx_events_observation_request"].

(** The objects schema.sql creates, in its order. *)
Definition schemaSQL : schema := mkSchema 0 0
  required_columns
  ["maintenance_identity_immutable"; "maintenance_captures_immutable_update"; "maintenance_captures_immutable_delete";
   "targets_identity_immutable"; "targets_lock_exclusive"; "targets_immutable_delete";
   "journal_events_append_only_update"; "journal_events_append_only_delete"]
  ["idx_maintenance_list"; "idx_targets_lock"; "idx_events_scope"; "idx_events_type"; "idx_events_resource";
   "idx_events_aggregate_version"; "idx_events_observation_request"].

(** [initializeSchema]: schema.sql and the two identity pragmas, in one transaction. *)
Definition initializeSchema : db :=
  mkDb (mkSchema applicationID currentSchema schemaSQL.(tables) schemaSQL.(triggers) schemaSQL.(indexes))
    ∅ ∅ ∅ [].

(** * Updates of the record *)

Definition set_maintenance (f : gmap string maintenance_row → gmap string maintenance_row) (d : db) : db :=
  mkDb d.(db_schema) (f d.(maintenance)) d.(captures) d.(targets) d.(journal).
Definition set_captures (f : gmap string capture_row → gmap string capture_row) (d : db) : db :=
  mkDb d.(db_schema) d.(maintenance) (f d.(captures)) d.(targets) d.(journal).
Definition set_targets (f : gmap (string * string) target_row → gmap (string * string) target_row) (d : db) : db :=
  mkDb d.(db_schema) d.(maintenance) d.(captures) (f d.(targets)) d.(journal).
Definition set_journal (f : list event_row → list event_row) (d : db) : db :=
  mkDb d.(db_schema) d.(maintenance) d.(captures) d.(targets) (f d.(journal)).

(** * Three-valued conditions *)

(** A condition of SQL: [None] is NULL. *)
Definition cond : Type := option bool.

Definition sql_and (a b : cond) : cond :=
  match a, b with
  | Some false, _ | _, Some false => Some false
  | Some true, Some true => Some true
  | _, _ => None
  end.

Definition sql_or (a b : cond) : cond :=
  match a, b with
  | Some true, _ | _, Some true => Some true
  | Some false, Some false => Some false
  | _, _ => None
  end.

Definition is_null {A} (v : option A) : cond := Some (match v with Some _ => false | None => true end).
Definition not_null {A} (v : option A) : cond := Some (match v with Some _ => true | None => false end).

(** A CHECK refuses only what is false. *)
Definition check (c : cond) : bool := match c with Some false => false | _ => true end.

(** * Queries on locks *)

(** [state NOT IN ('completed','cancelled')]: the maintenance holds its locks. *)
Definition holds_locks (state : string) : bool :=
  negb (String.eqb state "completed" || String.eqb state "cancelled").

Definition active (d : db) (mid : string) : bool :=
  match d.(maintenance) !! mid with Some m => holds_locks m.(m_state) | None => false end.

(** The maintenances that hold a lock, one entry per target: the rows of
    [SELECT t.maintenance_id FROM targets t JOIN maintenance m ...]. *)
Definition lock_owners (d : db) (lock : string) : list string :=
  map (λ kt, kt.1.1) (List.filter (λ kt, String.eqb kt.2.(t_lock_key) lock && active d kt.1.1) (map_to_list d.(targets))).

(** * Statements *)

Section statements.
Context `{SQLite}.

Definition between (lo hi n : Z) : bool := (lo <=? n) && (n <=? hi).

(** The next [rowid] of a table without deletions: one more than the largest. *)
Definition next_rowid (d : db) : Z := 1 + map_fold (λ _ m acc, Z.max m.(m_rowid) acc) 0 d.(maintenance).

Definition insert_maintenance (id : string) (row : Z → maintenance_row) (d : db) : result error db :=
  let row := row (next_rowid d) in
  if negb ((0 <? row.(m_version)) && between 1 200 (sqlite_length id) && sqlite_json_valid row.(m_metadata))
  then Err (ESql (CheckViolation "maintenance"))
  else match d.(maintenance) !! id with
  | Some _ => Err (ESql (UniqueViolation "maintenance.id"))
  | None => Ok (set_maintenance <[id := row]> d)
  end.

Definition insert_capture (mid : string) (row : capture_row) (d : db) : result error db :=
  if negb (sqlite_json_valid row.(c_payload)) then Err (ESql (CheckViolation "maintenance_captures"))
  else match d.(captures) !! mid, d.(maintenance) !! mid with
  | Some _, _ => Err (ESql (UniqueViolation "maintenance_captures.maintenance_id"))
  | None, None => Err (ESql ForeignKeyViolation)
  | None, Some _ => Ok (set_captures <[mid := row]> d)
  end.

(** The trigger [targets_lock_exclusive]. *)
Definition lock_exclusive_violated (mid : string) (row : target_row) (d : db) : bool :=
  existsb (λ owner, negb (String.eqb owner mid)) (lock_owners d row.(t_lock_key)).

Definition insert_target (mid tid : string) (row : target_row) (d : db) : result error db :=
  if lock_exclusive_violated mid row d
  then Err (ESql (TriggerAbort "lock_key is held by another maintenance"))
  else if negb ((0 <? row.(t_version)) && between 1 200 (sqlite_length tid)
                && between 1 512 (sqlite_length row.(t_lock_key)) && sqlite_json_valid row.(t_metadata))
  then Err (ESql (CheckViolation "targets"))
  else match d.(targets) !! (mid, tid), d.(maintenance) !! mid with
  | Some _, _ => Err (ESql (UniqueViolation "targets.maintenance_id, targets.id"))
  | None, None => Err (ESql ForeignKeyViolation)
  | None, Some _ => Ok (set_targets <[(mid, tid) := row]> d)
  end.

(** The trigger [maintenance_identity_immutable] ([id] is the key, which no statement sets). *)
Definition maintenance_identity_changed (old new : maintenance_row) : bool :=
  negb (String.eqb new.(m_change_ticket) old.(m_change_ticket)
    && String.eqb new.(m_workflow_version) old.(m_workflow_version)
    && String.eqb new.(m_metadata) old.(m_metadata)
    && String.eqb new.(m_created_at) old.(m_created_at)).

(** [UPDATE maintenance SET ... WHERE id=? AND version=?]: the rows affected and the new state. *)
Definition update_maintenance (id : string) (version : Z) (f : maintenance_row → maintenance_row) (d : db)
    : result error (Z * db) :=
  match d.(maintenance) !! id with
  | Some row =>
    if row.(m_version) =? version then
      if maintenance_identity_changed row (f row) then Err (ESql (TriggerAbort "maintenance identity is immutable"))
      else if negb (0 <? (f row).(m_version)) then Err (ESql (CheckViolation "maintenance"))
      else Ok (1, set_maintenance <[id := f row]> d)
    else Ok (0, d)
  | None => Ok (0, d)
  end.

(** The trigger [targets_identity_immutable]. *)
Definition target_identity_changed (old new : target_row) : bool :=
  negb (String.eqb new.(t_lock_key) old.(t_lock_key)
    && String.eqb new.(t_original_state) old.(t_original_state)
    && String.eqb new.(t_kind) old.(t_kind)
    && String.eqb new.(t_host) old.(t_host)
    && String.eqb (default "" new.(t_observed_at)) (default "" old.(t_observed_at))
    && String.eqb new.(t_metadata) old.(t_metadata)
    && String.eqb new.(t_created_at) old.(t_created_at)).

(** [UPDATE targets SET ... WHERE maintenance_id=? AND id=? AND version=?]. *)
Definition update_target (mid tid : string) (version : Z) (f : target_row → target_row) (d : db)
    : result error (Z * db) :=
  match d.(targets) !! (mid, tid) with
  | Some row =>
    if row.(t_version) =? version then
      if target_identity_changed row (f row) then Err (ESql (TriggerAbort "target identity is immutable"))
      else if negb (0 <? (f row).(t_version)) then Err (ESql (CheckViolation "targets"))
      else Ok (1, set_targets <[(mid, tid) := f row]> d)
    else Ok (0, d)
  | None => Ok (0, d)
  end.

(** [UPDATE targets SET ... WHERE maintenance_id=?]. *)
Definition update_targets (mid : string) (f : target_row → target_row) (d : db) : result error db :=
  let mine := List.filter (λ kt, String.eqb kt.1.1 mid) (map_to_list d.(targets)) in
  if existsb (λ kt, target_identity_changed kt.2 (f kt.2)) mine
  then Err (ESql (TriggerAbort "target identity is immutable"))
  else if existsb (λ kt, negb (0 <? (f kt.2).(t_version))) mine then Err (ESql (CheckViolation "targets"))
  else Ok (set_targets (map_imap (λ k row, Some (if String.eqb k.1 mid then f row else row))) d).

(** * The journal *)

(** The CHECK on the states and versions of a row. *)
Definition transition_columns (row : event_row) : cond :=
  sql_or
    (sql_and (is_null row.(e_from_state)) (sql_and (is_null row.(e_to_state))
      (sql_and (is_null row.(e_from_version)) (is_null row.(e_to_version)))))
    (sql_and (not_null row.(e_from_state)) (sql_and (not_null row.(e_to_state))
      (sql_and (v ← row.(e_from_version); Some (0 <? v))
        (v ← row.(e_from_version); w ← row.(e_to_version); Some (w =? v + 1))))).

Definition event_checks (row : event_row) : bool :=
  sqlite_json_valid row.(e_payload)
  && check (sql_or (is_null row.(e_target_id)) (not_null row.(e_maintenance_id)))
  && check (transition_columns row).

(** The key of a row in a unique index; rows without a key, or with a NULL in it, never collide. *)
Definition aggregate_key (row : event_row) : option (string * Z) :=
  v ← row.(e_aggregate_version); m ← row.(e_maintenance_id); Some (m, v).

Definition observation_key (row : event_row) : option (string * (string * string)) :=
  if String.eqb row.(e_type) "target.observed"
  then m ← row.(e_maintenance_id); t ← row.(e_target_id); Some (m, (t, row.(e_request_id)))
  else None.

Definition collides {K} `{EqDecision K} (key : event_row → option K) (row : event_row) (l : list event_row) : bool :=
  match key row with
  | Some k => existsb (λ e, bool_decide (key e = Some k)) l
  | None => false
  end.

Definition event_references (row : event_row) (d : db) : bool :=
  match row.(e_maintenance_id) with
  | None => true
  | Some m =>
    bool_decide (is_Some (d.(maintenance) !! m))
    && match row.(e_target_id) with
       | None => true
       | Some t => bool_decide (is_Some (d.(targets) !! (m, t)))
       end
  end.

Definition next_journal_id (d : db) : Z :=
  match last d.(journal) with Some e => e.(e_id) + 1 | None => 1 end.

Definition insert_event (row : Z → event_row) (d : db) : result error db :=
  let row := row (next_journal_id d) in
  if negb (event_checks row) then Err (ESql (CheckViolation "journal_events"))
  else if collides aggregate_key row d.(journal)
  then Err (ESql (UniqueViolation "journal_events.maintenance_id, journal_events.aggregate_version"))
  else if collides observation_key row d.(journal)
  then Err (ESql (UniqueViolation "journal_events.maintenance_id, journal_events.target_id, journal_events.request_id"))
  else if negb (event_references row d) then Err (ESql ForeignKeyViolation)
  else Ok (set_journal (λ l, l ++ [row]) d).
End statements.

(** * Queries *)

(** [SELECT ... FROM journal_events WHERE maintenance_id=? ORDER BY journal_id]. *)
Definition events_of (mid : string) (l : list event_row) : list event_row :=
  List.filter (λ e, bool_decide (e.(e_maintenance_id) = Some mid)) l.

(** [SELECT ... FROM targets WHERE maintenance_id=? ORDER BY id]. *)
Definition targets_of (d : db) (mid : string) : list (string * target_row) :=
  merge_sort (λ a b, String.leb a.1 b.1)
    (map (λ kt, (kt.1.2, kt.2)) (List.filter (λ kt, String.eqb kt.1.1 mid) (map_to_list d.(targets)))).

(** * What a statement that succeeds did *)

Section facts.
Context `{SQLite}.

Lemma insert_maintenance_ok id row d d' : insert_maintenance id row d = Ok d' →
  d.(maintenance) !! id = None ∧ d' = set_maintenance <[id := row (next_rowid d)]> d.
Proof.
  unfold insert_maintenance. case_if; [discriminate|]. destruct (_ !! id) eqn:E; [discriminate|]. by intros [= <-].
Qed.

Lemma insert_capture_ok mid row d d' : insert_capture mid row d = Ok d' →
  d.(captures) !! mid = None ∧ is_Some (d.(maintenance) !! mid) ∧ d' = set_captures <[mid := row]> d.
Proof.
  unfold insert_capture. case_if; [discriminate|].
  destruct (captures d !! mid) eqn:E, (maintenance d !! mid) eqn:E'; try discriminate. intros [= <-]. eauto.
Qed.

Lemma insert_target_ok mid tid row d d' : insert_target mid tid row d = Ok d' →
  d.(targets) !! (mid, tid) = None ∧ is_Some (d.(maintenance) !! mid)
  ∧ Forall (λ owner, owner = mid) (lock_owners d row.(t_lock_key))
  ∧ d' = set_targets <[(mid, tid) := row]> d.
Proof.
  unfold insert_target, lock_exclusive_violated. case_if; [discriminate|]. case_if; [discriminate|].
  destruct (targets d !! _) eqn:E, (maintenance d !! mid) eqn:E'; try discriminate. intros [= <-].
  split_and!; eauto. apply List.Forall_forall. intros owner Hin.
  destruct (String.eqb_spec owner mid) as [|Hne]; [done|].
  exfalso.
  enough (existsb (λ owner, negb (String.eqb owner mid)) (lock_owners d (t_lock_key row)) = true) by congruence.
  apply existsb_exists. exists owner. split; [done|]. by apply negb_true_iff, String.eqb_neq.
Qed.

Lemma update_maintenance_ok id version f d d' : update_maintenance id version f d = Ok (1, d') →
  ∃ row, d.(maintenance) !! id = Some row ∧ row.(m_version) = version ∧ d' = set_maintenance <[id := f row]> d.
Proof.
  unfold update_maintenance. destruct (_ !! id) as [row|]; [|discriminate]. case_if; [|discriminate]. bool_hyps.
  case_if; [discriminate|]. case_if; [discriminate|]. intros [= <-]. eauto.
Qed.

Lemma update_target_ok mid tid version f d d' : update_target mid tid version f d = Ok (1, d') →
  ∃ row, d.(targets) !! (mid, tid) = Some row ∧ row.(t_version) = version
    ∧ d' = set_targets <[(mid, tid) := f row]> d.
Proof.
  unfold update_target. destruct (_ !! (mid, tid)) as [row|]; [|discriminate]. case_if; [|discriminate]. bool_hyps.
  case_if; [discriminate|]. case_if; [discriminate|]. intros [= <-]. eauto.
Qed.

Lemma update_targets_ok mid f d d' : update_targets mid f d = Ok d' →
  d' = set_targets (map_imap (λ k row, Some (if String.eqb k.1 mid then f row else row))) d.
Proof. unfold update_targets. case_if; [discriminate|]. case_if; [discriminate|]. by intros [= <-]. Qed.

Lemma insert_event_ok row d d' : insert_event row d = Ok d' →
  let row := row (next_journal_id d) in
  d' = set_journal (λ l, l ++ [row]) d ∧ event_references row d = true
  ∧ collides aggregate_key row d.(journal) = false ∧ collides observation_key row d.(journal) = false.
Proof.
  unfold insert_event. case_if; [discriminate|]. case_if; [discriminate|]. case_if; [discriminate|].
  case_if; [discriminate|]. bool_hyps. by intros [= <-].
Qed.
End facts.

(** * The targets of one maintenance *)

Definition slice (mid : string) (ts : gmap (string * string) target_row) : gmap string target_row :=
  list_to_map (map (λ kt, (kt.1.2, kt.2)) (List.filter (λ kt, String.eqb kt.1.1 mid) (map_to_list ts))).

Lemma elem_of_filter_bool {A} (f : A → bool) l x : x ∈ List.filter f l ↔ x ∈ l ∧ f x = true.
Proof. by rewrite !list_elem_of_In, filter_In. Qed.

Lemma NoDup_slice_keys (mid : string) (ts : gmap (string * string) target_row) :
  NoDup (map (λ kt : (string * string) * target_row, kt.1.2)
    (List.filter (λ kt : (string * string) * target_row, String.eqb kt.1.1 mid) (map_to_list ts))).
Proof.
  pose proof (NoDup_fst_map_to_list ts) as Hnd. revert Hnd. generalize (map_to_list ts) as l.
  induction l as [|[[m t] row] l IH]; [constructor|]. cbn [List.filter fmap list_fmap fst snd].
  intros [Hni Hnd]%NoDup_cons. destruct (String.eqb_spec m mid) as [->|]; [|by apply IH].
  cbn [map]. apply NoDup_cons. split; [|by apply IH].
  intros ([[m' t'] row'] & Ht & Hin)%list_elem_of_fmap. apply Hni. cbn in Ht. subst t'.
  apply elem_of_filter_bool in Hin as [Hin Hm]. bool_hyps. cbn in Hm. subst m'.
  apply list_elem_of_fmap. by eexists (_, _, _).
Qed.

Lemma slice_lookup mid ts tid : slice mid ts !! tid = ts !! (mid, tid).
Proof.
  apply option_eq. intros row. unfold slice. rewrite <-elem_of_list_to_map.
  - rewrite <-elem_of_map_to_list, list_elem_of_fmap. split.
    + intros ([[m t] r] & [= -> ->] & Hin). apply elem_of_filter_bool in Hin as [Hin Hm].
      bool_hyps. cbn in Hm. by subst m.
    + intros Hin. exists ((mid, tid), row). split; [done|]. apply elem_of_filter_bool.
      split; [done|]. apply String.eqb_refl.
  - rewrite <-list_fmap_compose. apply NoDup_slice_keys.
Qed.

Lemma targets_of_perm d mid : targets_of d mid ≡ₚ map_to_list (slice mid d.(targets)).
Proof.
  unfold targets_of. rewrite merge_sort_Permutation. unfold slice. rewrite map_to_list_to_map; [done|].
  rewrite <-list_fmap_compose. apply NoDup_slice_keys.
Qed.

Lemma elem_of_targets_of d mid tid row : (tid, row) ∈ targets_of d mid ↔ d.(targets) !! (mid, tid) = Some row.
Proof. by rewrite targets_of_perm, elem_of_map_to_list, slice_lookup. Qed.

Lemma slice_insert mid tid row ts : slice mid (<[(mid, tid) := row]> ts) = <[tid := row]> (slice mid ts).
Proof.
  apply map_eq. intros t. rewrite slice_lookup, !lookup_insert, slice_lookup. repeat case_decide; congruence.
Qed.

Lemma slice_insert_ne mid mid' tid row ts : mid' ≠ mid → slice mid' (<[(mid, tid) := row]> ts) = slice mid' ts.
Proof. intros Hne. apply map_eq. intros t. rewrite !slice_lookup, lookup_insert_ne by congruence. done. Qed.

Lemma slice_imap mid mid' f ts :
  slice mid' (map_imap (λ k row, Some (if String.eqb k.1 mid then f row else row)) ts)
  = if decide (mid' = mid) then f <$> slice mid' ts else slice mid' ts.
Proof.
  apply map_eq. intros t. rewrite slice_lookup, map_lookup_imap. case_decide as Hm.
  - subst. rewrite lookup_fmap, slice_lookup. cbn. rewrite String.eqb_refl. by destruct (ts !! (mid, t)).
  - rewrite slice_lookup. cbn. rewrite (proj2 (String.eqb_neq _ _) Hm). by destruct (ts !! (mid', t)).
Qed.

(** * Locks *)

Lemma elem_of_lock_owners d lock mid : mid ∈ lock_owners d lock ↔
  ∃ tid row, d.(targets) !! (mid, tid) = Some row ∧ row.(t_lock_key) = lock ∧ active d mid = true.
Proof.
  unfold lock_owners. rewrite list_elem_of_fmap. split.
  - intros ([[m t] row] & -> & Hin). apply elem_of_filter_bool in Hin as [Hin Hb]. cbn in *. bool_hyps.
    apply elem_of_map_to_list in Hin. eauto.
  - intros (tid & row & Ht & <- & Ha). exists ((mid, tid), row). split; [done|]. apply elem_of_filter_bool.
    split; [by apply elem_of_map_to_list|]. cbn. by rewrite String.eqb_refl, Ha.
Qed.

(** * The events of one maintenance *)

Lemma events_of_app mid l1 l2 : events_of mid (l1 ++ l2) = events_of mid l1 ++ events_of mid l2.
Proof. apply List.filter_app. Qed.

Lemma events_of_one mid row : events_of mid [row] = if bool_decide (row.(e_maintenance_id) = Some mid) then [row] else [].
Proof. reflexivity. Qed.
