(* ===== verification/Model.v ===== *)
(** The structs of internal/store (store.go, mutations.go, verify.go), the rows they are scanned
    from (reads.go, verify.go) and their JSON forms.

    A [time.Time] is its instant and a [json.RawMessage] its text.  Scanning a time that does not
    parse gives the zero time, since the source ignores the error. *)
From S2P Require Import Prelude Utf8 Json JsonText Strconv GoTime JsonDecode Text Errors Values Db.
Local Open Scope Z_scope.

(** * Structs *)

Record Capture := mkCapture {
  C_MaintenanceID : string;
  C_CapturedAt : Z;
  C_Payload : string;
  C_SHA256 : string
}.

Record CaptureResult := mkCaptureResult { CR_Capture : Capture; CR_Created : bool }.

Record Maintenance := mkMaintenance {
  M_ID : string;
  M_State : string;
  M_ChangeTicket : string;
  M_WorkflowVersion : string;
  M_Metadata : string;
  M_Version : Z;
  M_CreatedAt : Z;
  M_UpdatedAt : Z
}.

Record Target := mkTarget {
  T_ID : string;
  T_MaintenanceID : string;
  T_LockKey : string;
  T_State : string;
  T_OriginalState : string;
  T_Kind : string;
  T_Host : string;
  T_ObservedAt : option Z;
  T_Metadata : string;
  T_Version : Z;
  T_CreatedAt : Z;
  T_UpdatedAt : Z
}.

Record MaintenanceAggregate := mkAggregate { MA_Maintenance : Maintenance; MA_Targets : list Target }.

Record TargetTransitionResult := mkTransitionResult { TR_Target : Target; TR_MaintenanceVersion : Z }.

Record Event := mkEvent {
  E_ID : Z;
  E_Type : string;
  E_OccurredAt : Z;
  E_RequestID : string;
  E_Actor : string;
  E_Role : string;
  E_ResourceType : string;
  E_ResourceID : string;
  E_MaintenanceID : string;
  E_TargetID : string;
  E_FromState : string;
  E_ToState : string;
  E_FromVersion : Z;
  E_ToVersion : Z;
  E_AggregateVersion : Z;
  E_Payload : string
}.

Record StateChange := mkChange { SC_State : string; SC_Justification : string; SC_Detail : string }.

Record captureTarget := mkCaptureTarget {
  CT_TargetID : string;
  CT_LockKey : string;
  CT_Kind : string;
  CT_Host : string;
  CT_OriginalState : string;
  CT_ObservedAt : option Z;
  CT_Metadata : string
}.

Record BackupManifest := mkManifest {
  B_Filename : string;
  B_CreatedAt : Z;
  B_Bytes : Z;
  B_SHA256 : string;
  B_SQLiteVersion : string;
  B_IntegrityCheck : string;
  B_ForeignKeys : string;
  B_Application : string;
  B_AuditRecorded : bool
}.

(** * Scanning rows *)

(** [t, _ = time.Parse(time.RFC3339Nano, s)]. *)
Definition parse_or_zero (s : string) : Z := default zero_time (parse s).

Definition scanMaintenance (id : string) (row : maintenance_row) : Maintenance :=
  mkMaintenance id row.(m_state) row.(m_change_ticket) row.(m_workflow_version) row.(m_metadata) row.(m_version)
    (parse_or_zero row.(m_created_at)) (parse_or_zero row.(m_updated_at)).

Definition scanTarget (mid tid : string) (row : target_row) : Target :=
  mkTarget tid mid row.(t_lock_key) row.(t_state) row.(t_original_state) row.(t_kind) row.(t_host)
    (parse_or_zero <$> row.(t_observed_at)) row.(t_metadata) row.(t_version)
    (parse_or_zero row.(t_created_at)) (parse_or_zero row.(t_updated_at)).

Definition scanCapture (mid : string) (row : capture_row) : Capture :=
  mkCapture mid (parse_or_zero row.(c_captured_at)) row.(c_payload) row.(c_sha256).

(** [scanEvent]: a NULL column reads as the zero value. *)
Definition scanEvent (row : event_row) : Event :=
  mkEvent row.(e_id) row.(e_type) (parse_or_zero row.(e_occurred_at)) row.(e_request_id) row.(e_actor) row.(e_role)
    row.(e_resource_type) row.(e_resource_id) (default "" row.(e_maintenance_id)) (default "" row.(e_target_id))
    (default "" row.(e_from_state)) (default "" row.(e_to_state)) (default 0 row.(e_from_version))
    (default 0 row.(e_to_version)) (default 0 row.(e_aggregate_version)) row.(e_payload).

(** [listTargets]. *)
Definition listTargets (d : db) (mid : string) : list Target :=
  map (λ '(tid, row), scanTarget mid tid row) (targets_of d mid).

(** * JSON forms *)

(** Decodes one field of a struct. *)
Definition at_field {S A} (dec : decoder A) (get : S → A) (set : A → S → S) : decoder S :=
  λ raw s, (λ a, set a s) <$> dec raw (get s).

Definition maintenance_fields : fields Maintenance := [
  ("id", at_field dec_string M_ID (λ a m, mkMaintenance a m.(M_State) m.(M_ChangeTicket) m.(M_WorkflowVersion) m.(M_Metadata) m.(M_Version) m.(M_CreatedAt) m.(M_UpdatedAt)));
  ("state", at_field dec_string M_State (λ a m, mkMaintenance m.(M_ID) a m.(M_ChangeTicket) m.(M_WorkflowVersion) m.(M_Metadata) m.(M_Version) m.(M_CreatedAt) m.(M_UpdatedAt)));
  ("change_ticket", at_field dec_string M_ChangeTicket (λ a m, mkMaintenance m.(M_ID) m.(M_State) a m.(M_WorkflowVersion) m.(M_Metadata) m.(M_Version) m.(M_CreatedAt) m.(M_UpdatedAt)));
  ("workflow_version", at_field dec_string M_WorkflowVersion (λ a m, mkMaintenance m.(M_ID) m.(M_State) m.(M_ChangeTicket) a m.(M_Metadata) m.(M_Version) m.(M_CreatedAt) m.(M_UpdatedAt)));
  ("metadata", at_field dec_raw M_Metadata (λ a m, mkMaintenance m.(M_ID) m.(M_State) m.(M_ChangeTicket) m.(M_WorkflowVersion) a m.(M_Version) m.(M_CreatedAt) m.(M_UpdatedAt)));
  ("version", at_field dec_int64 M_Version (λ a m, mkMaintenance m.(M_ID) m.(M_State) m.(M_ChangeTicket) m.(M_WorkflowVersion) m.(M_Metadata) a m.(M_CreatedAt) m.(M_UpdatedAt)));
  ("created_at", at_field dec_time M_CreatedAt (λ a m, mkMaintenance m.(M_ID) m.(M_State) m.(M_ChangeTicket) m.(M_WorkflowVersion) m.(M_Metadata) m.(M_Version) a m.(M_UpdatedAt)));
  ("updated_at", at_field dec_time M_UpdatedAt (λ a m, mkMaintenance m.(M_ID) m.(M_State) m.(M_ChangeTicket) m.(M_WorkflowVersion) m.(M_Metadata) m.(M_Version) m.(M_CreatedAt) a))].

Definition zero_maintenance : Maintenance := mkMaintenance "" "" "" "" "" 0 zero_time zero_time.

(** [json.Marshal] of a [Maintenance]; an error when a time has no RFC 3339 form. *)
Definition maintenance_members (m : Maintenance) : option (list (string * json)) :=
  metadata ← (if len m.(M_Metadata) =? 0 then Some [] else (λ v, [("metadata", v)]) <$> jraw m.(M_Metadata));
  created ← jtime m.(M_CreatedAt);
  updated ← jtime m.(M_UpdatedAt);
  Some ([("id", jstring m.(M_ID)); ("state", jstring m.(M_State))]
    ++ omit_empty (String.eqb m.(M_ChangeTicket) "") ("change_ticket", jstring m.(M_ChangeTicket))
    ++ omit_empty (String.eqb m.(M_WorkflowVersion) "") ("workflow_version", jstring m.(M_WorkflowVersion))
    ++ metadata
    ++ [("version", jint m.(M_Version)); ("created_at", created); ("updated_at", updated)]).

Definition marshal_maintenance (m : Maintenance) : option string :=
  (λ l, print (JObj l)) <$> maintenance_members m.

Definition capture_target_fields : fields captureTarget := [
  ("target_id", at_field dec_string CT_TargetID (λ a c, mkCaptureTarget a c.(CT_LockKey) c.(CT_Kind) c.(CT_Host) c.(CT_OriginalState) c.(CT_ObservedAt) c.(CT_Metadata)));
  ("lock_key", at_field dec_string CT_LockKey (λ a c, mkCaptureTarget c.(CT_TargetID) a c.(CT_Kind) c.(CT_Host) c.(CT_OriginalState) c.(CT_ObservedAt) c.(CT_Metadata)));
  ("kind", at_field dec_string CT_Kind (λ a c, mkCaptureTarget c.(CT_TargetID) c.(CT_LockKey) a c.(CT_Host) c.(CT_OriginalState) c.(CT_ObservedAt) c.(CT_Metadata)));
  ("host", at_field dec_string CT_Host (λ a c, mkCaptureTarget c.(CT_TargetID) c.(CT_LockKey) c.(CT_Kind) a c.(CT_OriginalState) c.(CT_ObservedAt) c.(CT_Metadata)));
  ("original_state", at_field dec_string CT_OriginalState (λ a c, mkCaptureTarget c.(CT_TargetID) c.(CT_LockKey) c.(CT_Kind) c.(CT_Host) a c.(CT_ObservedAt) c.(CT_Metadata)));
  ("observed_at", at_field dec_time_ptr CT_ObservedAt (λ a c, mkCaptureTarget c.(CT_TargetID) c.(CT_LockKey) c.(CT_Kind) c.(CT_Host) c.(CT_OriginalState) a c.(CT_Metadata)));
  ("metadata", at_field dec_raw CT_Metadata (λ a c, mkCaptureTarget c.(CT_TargetID) c.(CT_LockKey) c.(CT_Kind) c.(CT_Host) c.(CT_OriginalState) c.(CT_ObservedAt) a))].

Definition zero_capture_target : captureTarget := mkCaptureTarget "" "" "" "" "" None "".

Definition manifest_fields : fields BackupManifest := [
  ("filename", at_field dec_string B_Filename (λ a b, mkManifest a b.(B_CreatedAt) b.(B_Bytes) b.(B_SHA256) b.(B_SQLiteVersion) b.(B_IntegrityCheck) b.(B_ForeignKeys) b.(B_Application) b.(B_AuditRecorded)));
  ("created_at", at_field dec_time B_CreatedAt (λ a b, mkManifest b.(B_Filename) a b.(B_Bytes) b.(B_SHA256) b.(B_SQLiteVersion) b.(B_IntegrityCheck) b.(B_ForeignKeys) b.(B_Application) b.(B_AuditRecorded)));
  ("bytes", at_field dec_int64 B_Bytes (λ a b, mkManifest b.(B_Filename) b.(B_CreatedAt) a b.(B_SHA256) b.(B_SQLiteVersion) b.(B_IntegrityCheck) b.(B_ForeignKeys) b.(B_Application) b.(B_AuditRecorded)));
  ("sha256", at_field dec_string B_SHA256 (λ a b, mkManifest b.(B_Filename) b.(B_CreatedAt) b.(B_Bytes) a b.(B_SQLiteVersion) b.(B_IntegrityCheck) b.(B_ForeignKeys) b.(B_Application) b.(B_AuditRecorded)));
  ("sqlite_version", at_field dec_string B_SQLiteVersion (λ a b, mkManifest b.(B_Filename) b.(B_CreatedAt) b.(B_Bytes) b.(B_SHA256) a b.(B_IntegrityCheck) b.(B_ForeignKeys) b.(B_Application) b.(B_AuditRecorded)));
  ("integrity_check", at_field dec_string B_IntegrityCheck (λ a b, mkManifest b.(B_Filename) b.(B_CreatedAt) b.(B_Bytes) b.(B_SHA256) b.(B_SQLiteVersion) a b.(B_ForeignKeys) b.(B_Application) b.(B_AuditRecorded)));
  ("foreign_key_check", at_field dec_string B_ForeignKeys (λ a b, mkManifest b.(B_Filename) b.(B_CreatedAt) b.(B_Bytes) b.(B_SHA256) b.(B_SQLiteVersion) b.(B_IntegrityCheck) a b.(B_Application) b.(B_AuditRecorded)));
  ("application_check", at_field dec_string B_Application (λ a b, mkManifest b.(B_Filename) b.(B_CreatedAt) b.(B_Bytes) b.(B_SHA256) b.(B_SQLiteVersion) b.(B_IntegrityCheck) b.(B_ForeignKeys) a b.(B_AuditRecorded)));
  ("audit_recorded", at_field dec_bool B_AuditRecorded (λ a b, mkManifest b.(B_Filename) b.(B_CreatedAt) b.(B_Bytes) b.(B_SHA256) b.(B_SQLiteVersion) b.(B_IntegrityCheck) b.(B_ForeignKeys) b.(B_Application) a))].

Definition zero_manifest : BackupManifest := mkManifest "" zero_time 0 "" "" "" "" "" false.

Definition manifest_members (b : BackupManifest) : option (list (string * json)) :=
  created ← jtime b.(B_CreatedAt);
  Some [("filename", jstring b.(B_Filename)); ("created_at", created); ("bytes", jint b.(B_Bytes));
    ("sha256", jstring b.(B_SHA256)); ("sqlite_version", jstring b.(B_SQLiteVersion));
    ("integrity_check", jstring b.(B_IntegrityCheck)); ("foreign_key_check", jstring b.(B_ForeignKeys));
    ("application_check", jstring b.(B_Application)); ("audit_recorded", JBool b.(B_AuditRecorded))].

Definition marshal_manifest (b : BackupManifest) : option string := (λ l, print (JObj l)) <$> manifest_members b.

(** * Lemmas *)

(** Case analysis on the fields of a struct, for a property of its string fields. *)
Ltac decoded_strings :=
  intros k d Hin raw s s' Hs;
  repeat (apply elem_of_cons in Hin as [[= -> ->]|Hin]; [unfold at_field; intros E; simplify_option_eq; cbn in *; naive_solver eauto using dec_string_valid|]);
  by apply elem_of_nil in Hin.

(** A time the store wrote reads back as the instant it was. *)
Lemma parse_or_zero_format t : time_ok t = true → parse_or_zero (format t) = t.
Proof. intros Ht. unfold parse_or_zero. by rewrite parse_format. Qed.

#[global] Arguments parse_or_zero : simpl never.
