(* ===== verification/Events.v ===== *)
(** Transactions and journal events: [Store.write] of internal/store/store.go and
    internal/store/events.go.

    The body of a transaction is a program of statements ([tx]); what a statement returns, an error
    included, goes to the rest of the body.  A [connection] holds the committed database and that of
    an open transaction.  [write_on] is [Store.write] with its [BeginTx], deferred [Rollback] and
    [Commit] on a connection, where every command sent to SQLite may meet a [mishap]; [write] is the
    same call when none does.  [perform] is what a body does to a state by itself, and [write_on_spec]
    relates the three: with mishaps the call is atomic, without them it is [perform].  Writers hold
    the store's mutex, so bodies run one after the other. *)
From S2P Require Import Prelude Utf8 Json JsonText Strconv GoTime JsonDecode Text Errors Values Db Model.
Local Open Scope Z_scope.

(** * Programs of statements *)

Inductive tx (A : Type) : Type :=
  | Return (a : A)
  | Throw (e : error)
  | Query (k : result error db → tx A)
  | Exec (f : db → result error (Z * db)) (k : result error Z → tx A).
Arguments Return {A} a.
Arguments Throw {A} e.
Arguments Query {A} k.
Arguments Exec {A} f k.

Fixpoint tx_then {A B} (f : A → tx B) (m : tx A) : tx B :=
  match m with
  | Return a => f a
  | Throw e => Throw e
  | Query k => Query (λ r, tx_then f (k r))
  | Exec g k => Exec g (λ r, tx_then f (k r))
  end.

#[export] Instance tx_ret : MRet tx := λ A a, Return a.
#[export] Instance tx_bind : MBind tx := λ A B f m, tx_then f m.

Definition fail {A} (e : error) : tx A := Throw e.
Definition lift {A} (r : result error A) : tx A := match r with Ok a => Return a | Err e => Throw e end.

(** A statement that reads; its error is returned. *)
Definition query {A} (f : db → A) : tx A := Query (λ r, match r with Ok d => Return (f d) | Err e => Throw e end).

(** A statement whose number of affected rows the source looks at. *)
Definition exec_rows (f : db → result error (Z * db)) : tx Z := Exec f lift.

(** A statement for its effect. *)
Definition no_rows (f : db → result error db) (d : db) : result error (Z * db) :=
  match f d with Ok d' => Ok (0, d') | Err e => Err e end.
Definition exec (f : db → result error db) : tx () := Exec (no_rows f) (λ r, match r with Ok _ => Return () | Err e => Throw e end).

(** Fails with [e] unless the condition holds. *)
Definition ensure (b : bool) (e : error) : tx () := if b then Return () else Throw e.

(** What a body does to the state of its transaction, or its error. *)
Fixpoint perform {A} (m : tx A) (d : db) : result error (A * db) :=
  match m with
  | Return a => Ok (a, d)
  | Throw e => Err e
  | Query k => perform (k (Ok d)) d
  | Exec f k => match f d with Ok (n, d') => perform (k (Ok n)) d' | Err e => perform (k (Err e)) d end
  end.
Coercion perform : tx >-> Funclass.

(** * Connections *)

Record connection := mkConnection { stored_db : db; open_tx : option db }.

Definition idle (d : db) : connection := mkConnection d None.
Definition visible (c : connection) : db := default c.(stored_db) c.(open_tx).

(** What a command may meet: it is refused with its transaction left as it was, or with an error for
    which SQLite rolls the transaction back by itself (a full disk, an I/O error, a cancelled context). *)
Inductive mishap := Works | Refused (e : error) | Aborted (e : error).

Definition first_of (l : list mishap) : mishap := default Works (head l).

(** A statement's new state: that of the open transaction, or committed at once when there is none. *)
Definition stage (c : connection) (d : db) : connection :=
  match c.(open_tx) with Some _ => mkConnection c.(stored_db) (Some d) | None => idle d end.

Definition Rollback (c : connection) : connection := idle c.(stored_db).

Definition BeginTx (m : mishap) (c : connection) : result error () * connection :=
  match m, c.(open_tx) with
  | Works, None => (Ok (), mkConnection c.(stored_db) (Some c.(stored_db)))
  | Works, Some _ => (Err (EText "cannot start a transaction within a transaction"), c)
  | (Refused e | Aborted e), _ => (Err e, c)
  end.

(** A writer of a database in WAL mode waits for its locks at its first statement, not at COMMIT, so a
    COMMIT that fails has ended the transaction; the [Rollback] that follows then finds none. *)
Definition Commit (m : mishap) (c : connection) : result error () * connection :=
  match m with
  | Works => (Ok (), idle (visible c))
  | Refused e | Aborted e => (Err e, Rollback c)
  end.

(** One command with what it meets: the answer it gives and the connection after it. *)
Definition command {R} (m : mishap) (r : result error R) (c c' : connection) : result error R * connection :=
  match m with
  | Works => (r, c')
  | Refused e => (Err e, c)
  | Aborted e => (Err e, Rollback c)
  end.

(** The statements of a body on a connection. *)
Fixpoint execute {A} (body : tx A) (l : list mishap) (c : connection) : result error A * list mishap * connection :=
  match body with
  | Return a => (Ok a, l, c)
  | Throw e => (Err e, l, c)
  | Query k =>
    let '(r, c') := command (first_of l) (Ok (visible c)) c c in execute (k r) (tail l) c'
  | Exec f k =>
    let '(r, c') := match f (visible c) with
                    | Ok (n, d) => command (first_of l) (Ok n) c (stage c d)
                    | Err e => command (first_of l) (Err e) c c
                    end in
    execute (k r) (tail l) c'
  end.

(** [Store.write]. *)
Definition write_on {A} (fn : tx A) (l : list mishap) (c : connection) : result error A * connection :=
  match BeginTx (first_of l) c with
  | (Err e, c) => (Err e, c)
  | (Ok _, c) =>
    match execute fn (tail l) c with
    | (Err e, _, c) => (Err e, Rollback c)
    | (Ok a, l, c) =>
      match Commit (first_of l) c with
      | (Err e, c) => (Err e, Rollback c)
      | (Ok _, c) => (Ok a, Rollback c)
      end
    end
  end.

(** [Store.write] when nothing fails but the body. *)
Definition write {A} (fn : tx A) (d : db) : result error A * db :=
  let '(r, c) := write_on fn [] (idle d) in (r, c.(stored_db)).

(** Checks a method makes before it opens a transaction. *)
Definition validated {A B} (r : result error A) (k : A → db → result error B * db) (d : db) : result error B * db :=
  match r with Ok a => k a d | Err e => (Err e, d) end.

(** * Events *)

Definition nullText (value : string) : option string := if String.eqb value "" then None else Some value.
Definition nullInt (value : Z) : option Z := if value =? 0 then None else Some value.

Definition maxJSON : Z := 64 * 1024.

(** [eventPayload]: the members of [{justification, detail}] and their text. *)
Definition payload_members (justification : string) (detail : json) : list (string * json) :=
  omit_empty (String.eqb justification "") ("justification", jstring justification)
  ++ [("detail", escape_html detail)].

Definition eventPayload (detail justification : string) : result error string :=
  let detail := if len detail =? 0 then "{}" else detail in
  match parse_all detail with
  | None => Err (EWrapped ErrInvalid "detail must be valid JSON")
  | Some v =>
    if maxJSON <? len detail then Err (EWrapped ErrInvalid "detail exceeds 64 KiB")
    else Ok (print (JObj (payload_members justification v)))
  end.

Section events.
Context `{SQLite}.

(** The row [appendEvent] inserts; the journal id is the table's next. *)
Definition event_row_of (event : Event) (id : Z) : event_row :=
  mkEventRow id event.(E_Type) (format event.(E_OccurredAt)) event.(E_RequestID) event.(E_Actor) event.(E_Role)
    event.(E_ResourceType) event.(E_ResourceID) (nullText event.(E_MaintenanceID)) (nullText event.(E_TargetID))
    (nullText event.(E_FromState)) (nullText event.(E_ToState)) (nullInt event.(E_FromVersion))
    (nullInt event.(E_ToVersion)) (nullInt event.(E_AggregateVersion)) event.(E_Payload).

(** The event with the defaults [appendEvent] fills in. *)
Definition with_defaults (event : Event) : Event :=
  let audit := auditValues (mkAudit event.(E_Actor) event.(E_Role) event.(E_RequestID)) in
  mkEvent event.(E_ID) event.(E_Type) event.(E_OccurredAt) audit.(RequestID) audit.(Actor) audit.(Role)
    event.(E_ResourceType) event.(E_ResourceID) event.(E_MaintenanceID) event.(E_TargetID) event.(E_FromState)
    event.(E_ToState) event.(E_FromVersion) event.(E_ToVersion) event.(E_AggregateVersion)
    (if len event.(E_Payload) =? 0 then "{}" else event.(E_Payload)).

Definition appendEvent (event : Event) : tx () :=
  if String.eqb event.(E_Type) "" || String.eqb event.(E_ResourceType) "" || String.eqb event.(E_ResourceID) ""
     || is_zero event.(E_OccurredAt)
  then fail (EWrapped ErrInvalid "event identity is required")
  else
    let event := with_defaults event in
    if negb (valid event.(E_Payload)) then fail (EWrapped ErrInvalid "event payload must be valid JSON")
    else exec (insert_event (event_row_of event)).
End events.

(** * Inversion of transactions that succeed *)

Lemma perform_bind {A B} (m : tx A) (f : A → tx B) d :
  perform (m ≫= f) d = match perform m d with Ok (a, d') => perform (f a) d' | Err e => Err e end.
Proof.
  unfold mbind, tx_bind. revert d. induction m as [a|e|k IH|g k IH]; intros d; cbn; [done|done|apply IH|].
  destruct (g d) as [[n d']|e]; apply IH.
Qed.

Lemma tx_bind_inv {A B} (m : tx A) (f : A → tx B) d b d2 : perform (m ≫= f) d = Ok (b, d2) →
  ∃ a d1, perform m d = Ok (a, d1) ∧ perform (f a) d1 = Ok (b, d2).
Proof. rewrite perform_bind. destruct (perform m d) as [[a d1]|]; [eauto|discriminate]. Qed.

Lemma query_inv {A} (f : db → A) d a d1 : query f d = Ok (a, d1) → a = f d ∧ d1 = d.
Proof. cbn. by intros [= -> ->]. Qed.

Lemma ensure_inv b e d u d1 : ensure b e d = Ok (u, d1) → b = true ∧ d1 = d.
Proof. unfold ensure. destruct b; [|discriminate]. by intros [= _ ->]. Qed.

Lemma exec_inv f d u d1 : exec f d = Ok (u, d1) → f d = Ok d1.
Proof. cbn. unfold no_rows. destruct (f d); cbn; [|discriminate]. by intros [= _ ->]. Qed.

Lemma exec_rows_inv f d n d1 : exec_rows f d = Ok (n, d1) → f d = Ok (n, d1).
Proof. cbn. destruct (f d) as [[n' d']|]; cbn; [|discriminate]. by intros [= -> ->]. Qed.

Lemma lift_inv {A} (r : result error A) d a d1 : lift r d = Ok (a, d1) → r = Ok a ∧ d1 = d.
Proof. unfold lift. destruct r; [|discriminate]. by intros [= -> ->]. Qed.

Lemma ret_inv {A} (a b : A) (d d1 : db) : (mret a : tx A) d = Ok (b, d1) → b = a ∧ d1 = d.
Proof. unfold mret, tx_ret. by intros [= -> ->]. Qed.

(** Takes a transaction body that succeeded apart into its steps. *)
Ltac tx_inv H :=
  lazymatch type of H with
  | perform (_ ≫= _) _ = Ok _ =>
    let a := fresh "x" in let d1 := fresh "st" in let Hm := fresh "Htx" in
    apply tx_bind_inv in H as (a & d1 & Hm & H); tx_inv Hm; tx_inv H
  | perform (query _) _ = Ok _ => apply query_inv in H as [-> ->]
  | perform (ensure _ _) _ = Ok _ => apply ensure_inv in H as [H ->]
  | perform (exec _) _ = Ok _ => apply exec_inv in H
  | perform (exec_rows _) _ = Ok _ => apply exec_rows_inv in H
  | perform (lift _) _ = Ok _ => apply lift_inv in H as [H ->]
  | perform (mret _) _ = Ok _ => apply ret_inv in H as [-> ->]
  | perform (fail _) _ = Ok _ => discriminate H
  | _ => idtac
  end.

(** * Atomicity *)

(** A body that ends with an error when one of its statements gives one. *)
Fixpoint strict {A} (m : tx A) : Prop :=
  match m with
  | Return _ | Throw _ => True
  | Query k => (∀ e, ∃ e', k (Err e) = Throw e') ∧ ∀ d, strict (k (Ok d))
  | Exec _ k => (∀ e, ∃ e', k (Err e) = Throw e') ∧ ∀ n, strict (k (Ok n))
  end.

Lemma strict_bind {A B} (m : tx A) (f : A → tx B) : strict m → (∀ a, strict (f a)) → strict (m ≫= f).
Proof.
  unfold mbind, tx_bind. intros Hm Hf. induction m as [a|e|k IH|g k IH]; cbn in *; [apply Hf|done|..];
    destruct Hm as [He Hk]; (split; [|intros x; apply IH, Hk]); intros e; destruct (He e) as [e' ->]; by exists e'.
Qed.

Lemma strict_query {A} (f : db → A) : strict (query f).
Proof. split; [by eexists|done]. Qed.

Lemma strict_exec f : strict (exec f).
Proof. split; [by eexists|done]. Qed.

Lemma strict_exec_rows f : strict (exec_rows f).
Proof. split; [by eexists|done]. Qed.

Lemma strict_ensure b e : strict (ensure b e).
Proof. by destruct b. Qed.

Lemma strict_lift {A} (r : result error A) : strict (lift r).
Proof. by destruct r. Qed.

(** A body on an open transaction commits nothing, and when it succeeds it has done what it does to the
    state of the transaction by itself. *)
Lemma execute_spec {A} (body : tx A) : strict body → ∀ l d0 d,
  let '(r, _, c) := execute body l (mkConnection d0 (Some d)) in
  c.(stored_db) = d0 ∧ ∀ a, r = Ok a → ∃ d', c.(open_tx) = Some d' ∧ perform body d = Ok (a, d').
Proof.
  induction body as [a|e|k IH|f k IH]; intros Hs l d0 d; cbn [execute perform].
  - split; [done|]. intros a' [= <-]. by exists d.
  - split; [done|]. by intros a [=].
  - destruct Hs as [He Hk]. unfold command. destruct (first_of l) as [|e|e].
    + apply IH, Hk.
    + destruct (He e) as [e' ->]. by split.
    + destruct (He e) as [e' ->]. by split.
  - destruct Hs as [He Hk]. cbn [visible open_tx default from_option]. unfold Datatypes.id, command.
    destruct (f d) as [[n d']|ef]; destruct (first_of l) as [|e|e];
      try (destruct (He e) as [e' ->]; by split); [apply IH, Hk|destruct (He ef) as [e' ->]; by split].
Qed.

(** Without mishaps a body does on a connection what it does by itself. *)
Lemma execute_works {A} (body : tx A) : ∀ d0 d, let '(r, l, c) := execute body [] (mkConnection d0 (Some d)) in
  l = [] ∧ c.(stored_db) = d0 ∧ match perform body d with Ok (a, d') => r = Ok a ∧ c.(open_tx) = Some d' | Err e => r = Err e end.
Proof.
  induction body as [a|e|k IH|f k IH]; intros d0 d; cbn [execute perform]; [done|done|apply IH|].
  cbn [visible open_tx default from_option]. unfold Datatypes.id, command.
  destruct (f d) as [[n d']|ef]; cbn [first_of head default from_option tail]; apply IH.
Qed.

(** A call with any mishaps is atomic and ends its transaction: it fails and leaves the database as it
    was, or it is the call without them. *)
Lemma write_on_spec {A} (fn : tx A) l d : strict fn → let '(r, c) := write_on fn l (idle d) in
  c.(open_tx) = None ∧ ((∃ e, r = Err e ∧ c.(stored_db) = d) ∨ (∃ a, r = Ok a ∧ perform fn d = Ok (a, c.(stored_db)))).
Proof.
  intros Hs. unfold write_on. destruct (first_of l) as [|e|e]; cbn [BeginTx idle open_tx stored_db]; [|split; [done|]; left; by exists e..].
  pose proof (execute_spec fn Hs (tail l) d d) as He. destruct (execute fn _ _) as [[r l'] c]. destruct He as [Hc Hr].
  destruct r as [a|e]; [|split; [done|]; left; by exists e].
  destruct (Hr a eq_refl) as (d' & Hp & Hf). destruct (first_of l') as [|e|e]; cbn [Commit Rollback idle open_tx stored_db];
    (split; [done|]); [|left; by exists e..].
  right. exists a. split; [done|]. unfold visible. by rewrite Hp.
Qed.

(** What [write] does to the state: the body's state when it succeeds, nothing otherwise. *)
Lemma write_perform {A} (fn : tx A) d : write fn d = match perform fn d with Ok (a, d') => (Ok a, d') | Err e => (Err e, d) end.
Proof.
  unfold write, write_on. cbn [first_of head default from_option tail BeginTx idle open_tx stored_db].
  pose proof (execute_works fn d d) as He. destruct (execute fn [] _) as [[r l] c]. destruct He as (-> & Hc & He).
  destruct (perform fn d) as [[a d']|e]; [destruct He as [-> Hp]|subst r]; cbn; unfold visible; [by rewrite Hp|by rewrite Hc].
Qed.

Lemma write_spec {A} (fn : tx A) d :
  (∃ a d', fn d = Ok (a, d') ∧ write fn d = (Ok a, d')) ∨ (∃ e, fn d = Err e ∧ write fn d = (Err e, d)).
Proof. rewrite write_perform. destruct (perform fn d) as [[a d']|e]; [left|right]; eauto. Qed.

(** The state after a method that validates its input and then writes. *)
Lemma validated_write {A B} (r : result error A) (fn : A → tx B) (P : db → Prop) d :
  P d → (∀ a b d', r = Ok a → fn a d = Ok (b, d') → P d') → P (validated r (λ a, write (fn a)) d).2.
Proof.
  intros Hd Hs. unfold validated. destruct r as [a|e]; [|done].
  destruct (write_spec (fn a) d) as [(b & d' & Hf & ->)|(e & _ & ->)]; [|done]. cbn. eauto.
Qed.

Lemma validated_ok {A B} (r : result error A) (fn : A → tx B) d b d' :
  validated r (λ a, write (fn a)) d = (Ok b, d') → ∃ a, r = Ok a ∧ fn a d = Ok (b, d').
Proof.
  unfold validated. destruct r as [a|]; [|discriminate]. destruct (write_spec (fn a) d) as [(x & d1 & Hf & ->)|(e & _ & ->)].
  - intros [= -> ->]. eauto.
  - discriminate.
Qed.

Section append.
Context `{SQLite}.

(** An event whose optional parts are filled in already. *)
Definition complete (event : Event) : Prop :=
  event.(E_Actor) ≠ "" ∧ event.(E_Role) ≠ "" ∧ event.(E_RequestID) ≠ "" ∧ event.(E_Payload) ≠ "".

Lemma with_defaults_id event : complete event → with_defaults event = event.
Proof.
  destruct event as [i ty at_ rq ac ro rt ri mi ti fs ts fv tv av pl]. unfold complete, with_defaults, auditValues, or_system. cbn.
  intros (H1 & H2 & H3 & H4). rewrite !(proj2 (String.eqb_neq _ _)) by done.
  rewrite (proj2 (Z.eqb_neq _ _)); [done|]. by intros ?%len_zero.
Qed.

Lemma appendEvent_ok event d u d' : complete event → appendEvent event d = Ok (u, d') →
  let row := event_row_of event (next_journal_id d) in
  d' = set_journal (λ l, l ++ [row]) d ∧ valid event.(E_Payload) = true ∧ is_zero event.(E_OccurredAt) = false
  ∧ event.(E_ResourceID) ≠ "" ∧ event_references row d = true.
Proof.
  intros Hc. unfold appendEvent. rewrite with_defaults_id by done. case_if; [discriminate|]. bool_hyps.
  case_if; [discriminate|]. bool_hyps. intros Hx%exec_inv%insert_event_ok. cbn zeta in *.
  destruct Hx as (-> & Href & _). done.
Qed.

Definition with_id (id : Z) (e : Event) : Event :=
  mkEvent id e.(E_Type) e.(E_OccurredAt) e.(E_RequestID) e.(E_Actor) e.(E_Role) e.(E_ResourceType) e.(E_ResourceID)
    e.(E_MaintenanceID) e.(E_TargetID) e.(E_FromState) e.(E_ToState) e.(E_FromVersion) e.(E_ToVersion)
    e.(E_AggregateVersion) e.(E_Payload).

Lemma default_nullText s : default "" (nullText s) = s.
Proof. unfold nullText. by destruct (String.eqb_spec s "") as [->|]. Qed.

Lemma default_nullInt n : default 0 (nullInt n) = n.
Proof. unfold nullInt. by destruct (Z.eqb_spec n 0) as [->|]. Qed.

(** An event is read back as it was written. *)
Lemma scan_event_row event id : time_ok event.(E_OccurredAt) = true →
  scanEvent (event_row_of event id) = with_id id event.
Proof.
  intros Ht. unfold scanEvent, event_row_of, with_id. cbn -[format parse_or_zero nullText nullInt].
  rewrite parse_or_zero_format by done. by rewrite !default_nullText, !default_nullInt.
Qed.
End append.
