(* ===== verification/Mutations.v ===== *)
(** The operations that change the store: internal/store/mutations.go, and the two journal entries
    of internal/store/backup.go and artifacts.go.

    Each method is a function of its arguments, of the instants its calls of [s.now()] return and
    of the state; it gives the method's result and the state it leaves.  The part outside the
    transaction and the body given to [Store.write] are separate definitions, named after the
    method. *)
From S2P Require Import Prelude Utf8 Json JsonText Strconv GoTime Sha256 JsonDecode Text Errors Values Lifecycle Db Model Events.
Local Open Scope Z_scope.

Section mutations.
Context `{SQLite}.

(** The row of a maintenance; [ErrNotFound] for [sql.ErrNoRows]. *)
Definition load_maintenance (id : string) : tx Maintenance :=
  row ← query (λ d, d.(maintenance) !! id);
  match row with
  | Some row => mret (scanMaintenance id row)
  | None => fail (ESentinel ErrNotFound)
  end.

Definition load_target (mid tid : string) : tx Target :=
  row ← query (λ d, d.(targets) !! (mid, tid));
  match row with
  | Some row => mret (scanTarget mid tid row)
  | None => fail (ESentinel ErrNotFound)
  end.

(** The number of captures of a maintenance. *)
Definition capture_count (id : string) : tx Z :=
  query (λ d, match d.(captures) !! id with Some _ => 1 | None => 0 end).

(** * CreateMaintenance *)

Definition create_input (now : Z) (m : Maintenance) : result error Maintenance :=
  let state := if String.eqb m.(M_State) "" then "new" else m.(M_State) in
  if negb (validID m.(M_ID)) || negb (String.eqb state "new")
  then Err (EWrapped ErrInvalid "invalid maintenance fields")
  else if (200 <? len m.(M_ChangeTicket)) || (100 <? len m.(M_WorkflowVersion))
  then Err (EWrapped ErrInvalid "metadata fields too long")
  else
    metadata ← canonicalJSONDefault m.(M_Metadata);
    if maxJSON <? len metadata then Err (EWrapped ErrInvalid "metadata exceeds 64 KiB")
    else Ok (mkMaintenance m.(M_ID) state m.(M_ChangeTicket) m.(M_WorkflowVersion) metadata 1 now now).

Definition insert_maintenance_row (now : Z) (m : Maintenance) : tx () :=
  let row rowid := mkMaintenanceRow rowid m.(M_State) m.(M_ChangeTicket) m.(M_WorkflowVersion) m.(M_Metadata)
    m.(M_Version) (format now) (format now) in
  Exec (no_rows (insert_maintenance m.(M_ID) row)) (λ inserted,
    match inserted with
    | Ok _ => mret ()
    | Err e =>
      if isUnique e
      then fail (conflictError (Some ErrConflict) "maintenance_id_exists" "maintenance" m.(M_ID) 0 1 "" "new")
      else fail e
    end).

Definition created_event (now : Z) (m : Maintenance) (audit : AuditContext) : Event :=
  let a := auditValues audit in
  mkEvent 0 "maintenance.created" now a.(RequestID) a.(Actor) a.(Role) "maintenance" m.(M_ID) m.(M_ID) "" "" ""
    0 0 1 (default "" (marshal_maintenance m)).

Definition create_tx (now : Z) (m : Maintenance) (audit : AuditContext) : tx Maintenance :=
  insert_maintenance_row now m ;;
  appendEvent (created_event now m audit) ;;
  mret m.

Definition CreateMaintenance (now : Z) (m : Maintenance) (audit : AuditContext) : db → result error Maintenance * db :=
  validated (create_input now m) (λ m, write (create_tx now m audit)).

(** * CaptureMaintenance *)

Definition valid_original (state : string) : bool :=
  existsb (String.eqb state) ["running"; "stopped"; "degraded"; "unknown"].

(** One round of the loop of [parseCaptureTargets]. *)
Definition check_target (seen : list string) (t : captureTarget) : result error captureTarget :=
  if negb (validID t.(CT_TargetID)) || existsb (String.eqb t.(CT_TargetID)) seen
  then Err (EWrapped ErrInvalid "capture target id is missing or duplicated")
  else
    let lock := trim_space t.(CT_LockKey) in
    if String.eqb lock "" || (512 <? len lock)
    then Err (EWrapped ErrInvalid "capture target lock_key is required")
    else if (100 <? len t.(CT_Kind)) || (512 <? len t.(CT_Host))
    then Err (EWrapped ErrInvalid "capture target fields too long")
    else if negb (valid_original t.(CT_OriginalState))
    then Err (EWrapped ErrInvalid ("capture target " +:+ t.(CT_TargetID) +:+ " has invalid original_state"))
    else
      metadata ← canonicalJSONDefault t.(CT_Metadata);
      if maxJSON <? len metadata then Err (EWrapped ErrInvalid "target metadata exceeds 64 KiB")
      else Ok (mkCaptureTarget t.(CT_TargetID) lock t.(CT_Kind) t.(CT_Host) t.(CT_OriginalState) t.(CT_ObservedAt) metadata).

Fixpoint check_targets (seen : list string) (l : list captureTarget) : result error (list captureTarget) :=
  match l with
  | [] => Ok []
  | t :: l' =>
    t' ← check_target seen t;
    ts ← check_targets (t.(CT_TargetID) :: seen) l';
    Ok (t' :: ts)
  end.

Definition parseCaptureTargets (payload : string) : result error (list captureTarget) :=
  match unmarshal_struct false [("targets", at_field dec_raw id (λ a _, a))] payload "" with
  | None => Err (EWrapped ErrInvalid "invalid capture envelope")
  | Some raw =>
    if len raw =? 0 then Ok []
    else match unmarshal_slice (unmarshal_struct false capture_target_fields) zero_capture_target raw with
         | Some (Some l) => check_targets [] l
         | _ => Err (EWrapped ErrInvalid "capture targets must be an array")
         end
  end.

(** What [CaptureMaintenance] computes before its transaction. *)
Definition capture_input (now : Z) (maintenanceID : string) (capture : Capture) : result error (Capture * list captureTarget) :=
  if negb (validID maintenanceID) then Err (EWrapped ErrInvalid "invalid maintenance id")
  else
    payload ← canonicalJSONObject capture.(C_Payload);
    targets ← parseCaptureTargets payload;
    let at_ := if is_zero capture.(C_CapturedAt) then now else capture.(C_CapturedAt) in
    Ok (mkCapture maintenanceID at_ payload (sha256_hex payload), targets).

(** The locks must be free in every maintenance that is not closed. *)
Fixpoint check_locks (l : list captureTarget) : tx () :=
  match l with
  | [] => mret ()
  | t :: l' =>
    owners ← query (λ d, lock_owners d t.(CT_LockKey));
    match owners with
    | owner :: _ => fail (EConflict (mkConflictError (Some ErrConflict) "lock_in_use" "lock" t.(CT_LockKey) 0 0 "" "" owner))
    | [] => check_locks l'
    end
  end.

(** The state a target starts in. *)
Definition captured_state (original : string) : string :=
  if String.eqb original "stopped" then "stopped" else "captured".

Definition target_row_of (stamp : string) (t : captureTarget) : target_row :=
  mkTargetRow t.(CT_LockKey) (captured_state t.(CT_OriginalState)) t.(CT_OriginalState) t.(CT_Kind) t.(CT_Host)
    (format <$> t.(CT_ObservedAt)) t.(CT_Metadata) 1 stamp stamp.

Fixpoint insert_targets (mid stamp : string) (l : list captureTarget) : tx () :=
  match l with
  | [] => mret ()
  | t :: l' =>
    exec (insert_target mid t.(CT_TargetID) (target_row_of stamp t)) ;;
    insert_targets mid stamp l'
  end.

Definition set_maintenance_state (state : string) (version now : Z) (row : maintenance_row) : maintenance_row :=
  mkMaintenanceRow row.(m_rowid) state row.(m_change_ticket) row.(m_workflow_version) row.(m_metadata)
    version row.(m_created_at) (format now).

Definition capture_detail (hash : string) (count : nat) : string :=
  print (JObj [("sha256", jstring hash); ("targets", jint (Z.of_nat count))]).

Definition captured_event (now : Z) (m : Maintenance) (capture : Capture) (count : nat) (audit : AuditContext) : Event :=
  let a := auditValues audit in
  mkEvent 0 "maintenance.captured" now a.(RequestID) a.(Actor) a.(Role) "maintenance" m.(M_ID) m.(M_ID) "" "new"
    "captured" m.(M_Version) (m.(M_Version) + 1) (m.(M_Version) + 1) (capture_detail capture.(C_SHA256) count).

Definition capture_row_of (capture : Capture) : capture_row :=
  mkCaptureRow (format capture.(C_CapturedAt)) capture.(C_Payload) capture.(C_SHA256).

Definition capture_tx (now : Z) (maintenanceID : string) (capture : Capture) (targets : list captureTarget)
    (audit : AuditContext) : tx CaptureResult :=
  m ← load_maintenance maintenanceID;
  existing ← query (λ d, d.(captures) !! maintenanceID);
  match existing with
  | Some row =>
    if String.eqb row.(c_sha256) capture.(C_SHA256) && String.eqb row.(c_payload) capture.(C_Payload)
    then mret (mkCaptureResult (scanCapture maintenanceID row) false)
    else fail (conflictError (Some ErrConflict) "immutable_capture_mismatch" "capture" maintenanceID 0 0 m.(M_State) "captured")
  | None =>
    ensure (String.eqb m.(M_State) "new")
      (conflictError (Some ErrConflict) "capture_requires_new_maintenance" "maintenance" maintenanceID 0 m.(M_Version) m.(M_State) "captured") ;;
    check_locks targets ;;
    exec (insert_capture maintenanceID (capture_row_of capture)) ;;
    insert_targets maintenanceID (format capture.(C_CapturedAt)) targets ;;
    n ← exec_rows (update_maintenance maintenanceID m.(M_Version) (set_maintenance_state "captured" (m.(M_Version) + 1) now));
    ensure (n =? 1)
      (conflictError (Some ErrVersionConflict) "maintenance_version_changed" "maintenance" maintenanceID m.(M_Version) m.(M_Version) m.(M_State) "captured") ;;
    appendEvent (captured_event now m capture (length targets) audit) ;;
    mret (mkCaptureResult capture true)
  end.

Definition CaptureMaintenance (now0 now : Z) (maintenanceID : string) (capture : Capture) (audit : AuditContext)
    : db → result error CaptureResult * db :=
  validated (capture_input now0 maintenanceID capture)
    (λ '(capture, targets), write (capture_tx now maintenanceID capture targets audit)).
End mutations.

Definition validJustification (value : string) : result error () :=
  let value := trim_space value in
  if String.eqb value "" || (4096 <? len value)
  then Err (EWrapped ErrInvalid "justification must be between 1 and 4096 characters")
  else Ok ().

Section transitions.
Context `{SQLite}.

(** * TransitionMaintenance *)

Definition transition_input (id : string) (change : StateChange) : result error string :=
  if negb (validID id) || negb (ValidMaintenanceState change.(SC_State))
  then Err (EWrapped ErrInvalid "invalid maintenance transition")
  else eventPayload change.(SC_Detail) (trim_space change.(SC_Justification)).

(** [validateCompletion]: a capture, at least one target, and every target reconciled. *)
Definition validateCompletion (mid : string) : tx () :=
  captured ← capture_count mid;
  ensure (captured =? 1)
    (conflictError (Some ErrConflict) "maintenance_has_no_capture" "maintenance" mid 0 0 "" "completed") ;;
  rows ← query (λ d, targets_of d mid);
  match List.filter (λ kt, negb (targetCompletionAllowed kt.2.(t_original_state) kt.2.(t_state))) rows with
  | (tid, row) :: _ =>
    fail (conflictError (Some ErrConflict) "target_not_reconciled" "target" tid 0 row.(t_version) row.(t_state) "completed")
  | [] =>
    ensure (negb (length rows =? 0)%nat)
      (conflictError (Some ErrConflict) "maintenance_has_no_targets" "maintenance" mid 0 0 "" "completed")
  end.

(** The CASE of the query of [validateStoppedBarrier]. *)
Definition unresolved (original state : string) : bool :=
  if String.eqb original "running" || String.eqb original "stopped"
  then negb (String.eqb state "stopped" || String.eqb state "skipped")
  else negb (String.eqb state "skipped").

Definition validateStoppedBarrier (mid : string) : tx () :=
  count ← query (λ d, length (List.filter (λ kt, unresolved kt.2.(t_original_state) kt.2.(t_state)) (targets_of d mid)));
  ensure (count =? 0)%nat
    (conflictError (Some ErrConflict) "targets_not_stopped" "maintenance" mid 0 0 "stopping" "stopped").

(** The checks on a failed maintenance, which only an administrator reopens. *)
Definition check_reopen (m : Maintenance) (change : StateChange) (role : string) : tx () :=
  ensure (isAdmin role) (ESentinel ErrForbidden) ;;
  lift (validJustification change.(SC_Justification)) ;;
  captured ← capture_count m.(M_ID);
  ensure (negb ((captured =? 0) && negb (String.eqb change.(SC_State) "new")))
    (conflictError (Some ErrConflict) "uncaptured_failure_reopens_to_new" "maintenance" m.(M_ID) 0 m.(M_Version) m.(M_State) change.(SC_State)) ;;
  ensure (negb ((captured =? 1) && (String.eqb change.(SC_State) "new" || String.eqb change.(SC_State) "completed"
      || String.eqb change.(SC_State) "cancelled")))
    (conflictError (Some ErrConflict) "captured_failure_reopens_to_active_phase" "maintenance" m.(M_ID) 0 m.(M_Version) m.(M_State) change.(SC_State)).

(** The number of [target.transitioned] events of a maintenance. *)
Definition exercised (mid : string) (d : db) : nat :=
  length (List.filter (λ e, String.eqb e.(e_type) "target.transitioned") (events_of mid d.(journal))).

(** The guards of the transition, in the order of the source; they write nothing. *)
Definition transition_guards (m : Maintenance) (change : StateChange) (role : string) : tx () :=
  (if String.eqb m.(M_State) "failed" then check_reopen m change role
   else ensure (negb (IsMaintenanceTerminal m.(M_State)))
     (conflictError (Some ErrConflict) "maintenance_terminal" "maintenance" m.(M_ID) 0 m.(M_Version) m.(M_State) change.(SC_State))) ;;
  ensure (negb (String.eqb change.(SC_State) "captured" && negb (String.eqb m.(M_State) "failed")))
    (EWrapped ErrInvalid "capture owns the captured transition") ;;
  ensure (ValidMaintenanceTransition m.(M_State) change.(SC_State))
    (EWrapped ErrInvalid (m.(M_State) +:+ " -> " +:+ change.(SC_State) +:+ " is not allowed")) ;;
  (if String.eqb change.(SC_State) "cancelled" && String.eqb m.(M_State) "captured" then
     count ← query (exercised m.(M_ID));
     ensure (count =? 0)%nat
       (conflictError (Some ErrConflict) "cancel_requires_unexercised_targets" "maintenance" m.(M_ID) 0 m.(M_Version) m.(M_State) change.(SC_State))
   else mret ()) ;;
  (if String.eqb change.(SC_State) "stopped" then validateStoppedBarrier m.(M_ID) else mret ()) ;;
  (if String.eqb change.(SC_State) "completed" then validateCompletion m.(M_ID) else mret ()).

Definition transition_type (m : Maintenance) (change : StateChange) : string :=
  if String.eqb change.(SC_State) "completed" then "maintenance.completed"
  else if String.eqb m.(M_State) "failed" then "maintenance.reopened"
  else "maintenance.transitioned".

Definition bump_target (now : Z) (row : target_row) : target_row :=
  mkTargetRow row.(t_lock_key) row.(t_state) row.(t_original_state) row.(t_kind) row.(t_host) row.(t_observed_at)
    row.(t_metadata) (row.(t_version) + 1) row.(t_created_at) (format now).

Definition transitioned_event (now : Z) (m : Maintenance) (change : StateChange) (payload : string) (audit : AuditContext) : Event :=
  let a := auditValues audit in
  mkEvent 0 (transition_type m change) now a.(RequestID) a.(Actor) a.(Role) "maintenance" m.(M_ID) m.(M_ID) ""
    m.(M_State) change.(SC_State) m.(M_Version) (m.(M_Version) + 1) (m.(M_Version) + 1) payload.

Definition transition_tx (now : Z) (id : string) (change : StateChange) (payload : string)
    (precondition : VersionPrecondition) (audit : AuditContext) : tx MaintenanceAggregate :=
  m ← load_maintenance id;
  lift (require_version precondition m.(M_Version) "maintenance" id m.(M_State) change.(SC_State)) ;;
  transition_guards m change audit.(Role) ;;
  captured ← capture_count id;
  (if captured =? 1 then exec (update_targets id (bump_target now)) else mret ()) ;;
  n ← exec_rows (update_maintenance id m.(M_Version) (set_maintenance_state change.(SC_State) (m.(M_Version) + 1) now));
  ensure (n =? 1)
    (conflictError (Some ErrVersionConflict) "maintenance_version_changed" "maintenance" id m.(M_Version) m.(M_Version) m.(M_State) change.(SC_State)) ;;
  appendEvent (transitioned_event now m change payload audit) ;;
  targets ← query (λ d, listTargets d id);
  mret (mkAggregate (mkMaintenance m.(M_ID) change.(SC_State) m.(M_ChangeTicket) m.(M_WorkflowVersion) m.(M_Metadata)
    (m.(M_Version) + 1) m.(M_CreatedAt) now) targets).

Definition TransitionMaintenance (now : Z) (id : string) (change : StateChange) (precondition : VersionPrecondition)
    (audit : AuditContext) : db → result error MaintenanceAggregate * db :=
  validated (transition_input id change) (λ payload, write (transition_tx now id change payload precondition audit)).

(** * TransitionTarget *)

Definition target_input (maintenanceID targetID : string) (change : StateChange) : result error string :=
  if negb (validID maintenanceID) || negb (validID targetID) || negb (ValidTargetState change.(SC_State))
  then Err (EWrapped ErrInvalid "invalid target transition")
  else eventPayload change.(SC_Detail) (trim_space change.(SC_Justification)).

Definition target_conflict (reason : string) (target : Target) (change : StateChange) : error :=
  conflictError (Some ErrConflict) reason "target" target.(T_ID) 0 target.(T_Version) target.(T_State) change.(SC_State).

Definition target_guards (m : Maintenance) (target : Target) (change : StateChange) (role : string) : result error () :=
  let skip := String.eqb change.(SC_State) "skipped" in
  (if skip then
     if isAdmin role then validJustification change.(SC_Justification) else Err (ESentinel ErrForbidden)
   else if String.eqb target.(T_OriginalState) "degraded" || String.eqb target.(T_OriginalState) "unknown"
   then Err (target_conflict "unresolved_target_requires_skip" target change)
   else Ok ()) ;;
  if String.eqb target.(T_State) "healthy" || String.eqb target.(T_State) "skipped"
  then Err (target_conflict "target_terminal" target change)
  else if negb (ValidTargetTransition target.(T_State) change.(SC_State))
  then Err (EWrapped ErrInvalid (target.(T_State) +:+ " -> " +:+ change.(SC_State) +:+ " is not allowed"))
  else if String.eqb target.(T_OriginalState) "stopped" && negb skip
  then Err (target_conflict "originally_stopped_target" target change)
  else if negb skip && negb (targetPhaseAllowed m.(M_State) change.(SC_State))
  then Err (target_conflict "target_phase_mismatch" target change)
  else Ok ().

Definition set_target_state (state : string) (version now : Z) (row : target_row) : target_row :=
  mkTargetRow row.(t_lock_key) state row.(t_original_state) row.(t_kind) row.(t_host) row.(t_observed_at)
    row.(t_metadata) version row.(t_created_at) (format now).

Definition set_maintenance_version (version now : Z) (row : maintenance_row) : maintenance_row :=
  mkMaintenanceRow row.(m_rowid) row.(m_state) row.(m_change_ticket) row.(m_workflow_version) row.(m_metadata)
    version row.(m_created_at) (format now).

Definition target_event (now : Z) (m : Maintenance) (target : Target) (change : StateChange) (payload : string)
    (audit : AuditContext) : Event :=
  let a := auditValues audit in
  mkEvent 0 (if String.eqb change.(SC_State) "skipped" then "target.skipped" else "target.transitioned") now
    a.(RequestID) a.(Actor) a.(Role) "target" target.(T_ID) m.(M_ID) target.(T_ID) target.(T_State) change.(SC_State)
    target.(T_Version) (target.(T_Version) + 1) (m.(M_Version) + 1) payload.

Definition transition_target_tx (now : Z) (maintenanceID targetID : string) (change : StateChange) (payload : string)
    (precondition : VersionPrecondition) (audit : AuditContext) : tx TargetTransitionResult :=
  m ← load_maintenance maintenanceID;
  ensure (negb (IsMaintenanceTerminal m.(M_State)))
    (conflictError (Some ErrConflict) "parent_maintenance_terminal" "maintenance" maintenanceID 0 m.(M_Version) m.(M_State) change.(SC_State)) ;;
  target ← load_target maintenanceID targetID;
  lift (require_version precondition target.(T_Version) "target" targetID target.(T_State) change.(SC_State)) ;;
  lift (target_guards m target change audit.(Role)) ;;
  n ← exec_rows (update_target maintenanceID targetID target.(T_Version)
    (set_target_state change.(SC_State) (target.(T_Version) + 1) now));
  ensure (n =? 1)
    (conflictError (Some ErrVersionConflict) "target_version_changed" "target" targetID target.(T_Version) target.(T_Version) target.(T_State) change.(SC_State)) ;;
  p ← exec_rows (update_maintenance maintenanceID m.(M_Version) (set_maintenance_version (m.(M_Version) + 1) now));
  ensure (p =? 1)
    (conflictError (Some ErrVersionConflict) "maintenance_version_changed" "maintenance" maintenanceID m.(M_Version) m.(M_Version) m.(M_State) change.(SC_State)) ;;
  appendEvent (target_event now m target change payload audit) ;;
  mret (mkTransitionResult (mkTarget target.(T_ID) target.(T_MaintenanceID) target.(T_LockKey) change.(SC_State)
    target.(T_OriginalState) target.(T_Kind) target.(T_Host) target.(T_ObservedAt) target.(T_Metadata)
    (target.(T_Version) + 1) target.(T_CreatedAt) now) (m.(M_Version) + 1)).

Definition TransitionTarget (now : Z) (maintenanceID targetID : string) (change : StateChange)
    (precondition : VersionPrecondition) (audit : AuditContext) : db → result error TargetTransitionResult * db :=
  validated (target_input maintenanceID targetID change)
    (λ payload, write (transition_target_tx now maintenanceID targetID change payload precondition audit)).

(** * AddObservation *)

Definition observation_input (maintenanceID targetID payload : string) : result error string :=
  if negb (validID maintenanceID) || negb (validID targetID) then Err (EWrapped ErrInvalid "invalid target identity")
  else
    canonical ← canonicalJSONObject payload;
    if maxJSON <? len canonical then Err (EWrapped ErrInvalid "observation exceeds 64 KiB") else Ok canonical.

(** The observation a request already made: the unique index admits one at most. *)
Definition saved_observation (maintenanceID targetID requestID : string) (d : db) : option string :=
  e_payload <$> find (λ e, bool_decide (observation_key e = Some (maintenanceID, (targetID, requestID)))) d.(journal).

Definition observed_event (now : Z) (maintenanceID targetID payload : string) (a : AuditContext) : Event :=
  mkEvent 0 "target.observed" now a.(RequestID) a.(Actor) a.(Role) "target" targetID maintenanceID targetID "" "" 0 0 0 payload.

Definition observation_tx (now : Z) (maintenanceID targetID payload : string) (precondition : VersionPrecondition)
    (a : AuditContext) : tx () :=
  existing ← query (saved_observation maintenanceID targetID a.(RequestID));
  match existing with
  | Some saved =>
    ensure (String.eqb saved payload)
      (conflictError (Some ErrConflict) "observation_request_id_reused" "target" targetID 0 0 "" "observed")
  | None =>
    m ← load_maintenance maintenanceID;
    target ← load_target maintenanceID targetID;
    ensure (negb (IsMaintenanceTerminal m.(M_State)))
      (conflictError (Some ErrConflict) "parent_maintenance_terminal" "maintenance" maintenanceID 0 m.(M_Version) m.(M_State) "observed") ;;
    lift (require_version precondition target.(T_Version) "target" targetID target.(T_State) "observed") ;;
    appendEvent (observed_event now maintenanceID targetID payload a)
  end.

Definition AddObservation (now : Z) (maintenanceID targetID payload : string) (precondition : VersionPrecondition)
    (audit : AuditContext) : db → result error () * db :=
  validated (observation_input maintenanceID targetID payload)
    (λ canonical, write (observation_tx now maintenanceID targetID canonical precondition (auditValues audit))).

(** * Backup events *)

Definition with_audit (manifest : BackupManifest) (recorded : bool) : BackupManifest :=
  mkManifest manifest.(B_Filename) manifest.(B_CreatedAt) manifest.(B_Bytes) manifest.(B_SHA256) manifest.(B_SQLiteVersion)
    manifest.(B_IntegrityCheck) manifest.(B_ForeignKeys) manifest.(B_Application) recorded.

Definition backup_event (type : string) (now : Z) (filename payload : string) (audit : AuditContext) : Event :=
  let a := auditValues audit in
  mkEvent 0 type now a.(RequestID) a.(Actor) a.(Role) "backup" filename "" "" "" "" 0 0 0 payload.

Definition RecordBackupCreated (manifest : BackupManifest) (audit : AuditContext) : db → result error () * db :=
  let manifest := with_audit manifest true in
  write (appendEvent (backup_event "backup.created" manifest.(B_CreatedAt) manifest.(B_Filename)
    (default "" (marshal_manifest manifest)) audit)).

(** [json.Marshal] prints the map's keys in order. *)
Definition download_detail (manifest : BackupManifest) (artifact : string) : json :=
  JObj [("artifact", jstring artifact); ("bytes", jint manifest.(B_Bytes));
        ("filename", jstring manifest.(B_Filename)); ("sha256", jstring manifest.(B_SHA256))].

Definition RecordBackupDownload (now : Z) (manifest : BackupManifest) (artifact : string) (audit : AuditContext)
    : db → result error () * db :=
  write (appendEvent (backup_event "backup.downloaded" now manifest.(B_Filename) (print (download_detail manifest artifact)) audit)).
End transitions.
