(* ===== verification/JsonSize.v ===== *)
(** How many values a document holds: never more than it has bytes, no more after it is put into
    its canonical form, and a printed array is decoded into as many items as it has.  So a capture has no more targets
    than its payload has bytes ([capture_input_count]). *)
From S2P Require Import Prelude Utf8 Json JsonText Strconv GoTime JsonDecode Text Errors Values Db Model Events Mutations.

(** The values of a document, itself included. *)
Fixpoint nodes (v : json) : nat :=
  match v with
  | JArr l => S (sum_list (map nodes l))
  | JObj l => S (sum_list (map (λ '(_, v), nodes v) l))
  | _ => 1
  end.

Definition member_nodes (kv : string * json) : nat := nodes kv.2.

Lemma nodes_obj l : nodes (JObj l) = S (sum_list (map member_nodes l)).
Proof. cbn [nodes]. do 2 f_equal. apply map_ext. by intros [k v]. Qed.

Lemma sum_list_rev l : sum_list (rev l) = sum_list l.
Proof. induction l as [|n l IH]; cbn [rev sum_list]; [done|]. rewrite sum_list_with_app. cbn. unfold id in *. lia. Qed.

(** * Scanning *)

(** The values a scanner that has come this far has seen. *)
Definition frame_nodes (f : frame) : nat :=
  match f with FArr l => S (sum_list (map nodes l)) | FObj l _ => S (sum_list (map member_nodes l)) end.
Definition stack_nodes (stk : list frame) : nat := sum_list (map frame_nodes stk).
Definition mode_nodes (m : mode) : nat := 
  match m with InStr _ _ | InNum _ _ => 1 | InLit _ v => nodes v | _ => 0 end.

Definition outcome_nodes (o : outcome) : nat :=
  match o with Next m stk => mode_nodes m + stack_nodes stk | Done v | DoneBefore v => nodes v | Bad => 0 end.

Lemma finish_nodes v stk : outcome_nodes (finish v stk) ≤ nodes v + stack_nodes stk.
Proof. destruct stk as [|[l|l [k|]] stk]; cbn; unfold member_nodes; cbn; lia. Qed.

Lemma finish_str_nodes lit stk : outcome_nodes (finish_str lit stk) ≤ 1 + stack_nodes stk.
Proof.
  unfold finish_str. destruct stk as [|[l|l [k|]] stk]; try apply (finish_nodes (JStr lit)). cbn. lia.
Qed.

Lemma close_arr_nodes l stk : outcome_nodes (finish (JArr (rev l)) stk) ≤ stack_nodes (FArr l :: stk).
Proof. etrans; [apply finish_nodes|]. cbn. rewrite map_rev, sum_list_rev. unfold stack_nodes. lia. Qed.

Lemma close_obj_nodes l k stk : outcome_nodes (finish (JObj (rev l)) stk) ≤ stack_nodes (FObj l k :: stk).
Proof. etrans; [apply finish_nodes|]. rewrite nodes_obj, map_rev, sum_list_rev. unfold stack_nodes. cbn. lia. Qed.

Lemma push_nodes f m stk : mode_nodes m = 0 → frame_nodes f = 1 → outcome_nodes (push f m stk) ≤ 1 + stack_nodes stk.
Proof. intros Hm Hf. unfold push. case_if; cbn [outcome_nodes]; [|lia]. unfold stack_nodes. cbn. lia. Qed.

Lemma step_value_nodes stk c : outcome_nodes (step_value stk c) ≤ 1 + stack_nodes stk.
Proof. unfold step_value. repeat case_if; try (by apply push_nodes); cbn; lia. Qed.

Lemma step_end_nodes stk c : outcome_nodes (step_end stk c) ≤ stack_nodes stk.
Proof.
  unfold step_end. case_if; [done|]. destruct stk as [|[l|l [k|]] stk]; try (cbn; lia); repeat case_if; try (cbn; lia).
  - apply close_arr_nodes.
  - apply close_obj_nodes.
Qed.

(** A byte begins one value at the most. *)
Lemma step_nodes m stk c : outcome_nodes (step m stk c) ≤ S (mode_nodes m + stack_nodes stk).
Proof.
  destruct m as [| | | | | |acc st|acc st|l v]; cbn [step mode_nodes plus].
  - apply step_value_nodes.
  - repeat case_if; [cbn; lia| |apply step_value_nodes].
    destruct stk as [|[l|l [k|]] stk]; try (cbn; lia). pose proof (close_arr_nodes l stk). lia.
  - unfold step_string. repeat case_if; cbn; lia.
  - unfold step_string. repeat case_if; try (cbn; lia).
    destruct stk as [|[l|l [k|]] stk]; try (cbn; lia). pose proof (close_obj_nodes l None stk). lia.
  - repeat case_if; cbn; lia.
  - pose proof (step_end_nodes stk c). lia.
  - case_if; [pose proof (finish_str_nodes (of_rev acc) stk); lia|]. destruct (str_next st c); cbn; lia.
  - destruct (num_next st c); [cbn; lia|]. destruct (num_final st); [|cbn; lia].
    pose proof (finish_nodes (JNum (of_rev acc)) stk) as Hf. destruct (finish _ stk) as [m' stk'|v|v|]; cbn in *; try lia.
    pose proof (step_end_nodes stk' c). lia.
  - destruct l as [|d l]; [cbn; lia|]. case_if; [|cbn; lia]. destruct l; [|cbn; lia].
    pose proof (finish_nodes v stk). lia.
Qed.

Lemma run_nodes m stk s v rest : run m stk s = Some (v, rest) → nodes v ≤ mode_nodes m + stack_nodes stk + String.length s.
Proof.
  revert m stk. induction s as [|c s IH]; intros m stk; cbn [run String.length].
  - destruct m; try done. destruct stk; [|done]. cbn [at_eof]. destruct (num_final st); [|done]. intros [= <- _]. cbn. lia.
  - pose proof (step_nodes m stk c) as Hs. destruct (step m stk c) as [m' stk'|v'|v'|]; cbn [outcome_nodes] in Hs; [|..|done].
    + intros Hr%IH. lia.
    + intros [= <- _]. lia.
    + intros [= <- _]. lia.
Qed.

Lemma parse_prefix_nodes s v rest : parse_prefix s = Some (v, rest) → nodes v ≤ String.length s.
Proof. intros Hr. apply run_nodes in Hr. cbn in Hr. lia. Qed.

(** * Canonical documents *)

Lemma insert_key_nodes k v l : sum_list (map member_nodes (insert_key k v l)) ≤ nodes v + sum_list (map member_nodes l).
Proof. induction l as [|[k' v'] l IH]; cbn; [lia|]. destruct (String.compare k k'); cbn; unfold member_nodes in *; cbn in *; lia. Qed.

Lemma go_map_nodes l : sum_list (map member_nodes (go_map l)) ≤ sum_list (map member_nodes l).
Proof.
  unfold go_map. enough (∀ acc, sum_list (map member_nodes (fold_left (λ acc kv, insert_key kv.1 kv.2 acc) l acc))
    ≤ sum_list (map member_nodes acc) + sum_list (map member_nodes l)) as Hg by (etrans; [apply Hg|cbn; lia]).
  induction l as [|[k v] l IH]; intros acc; cbn [fold_left map sum_list]; [cbn; lia|].
  etrans; [apply IH|]. pose proof (insert_key_nodes k v acc). unfold member_nodes in *. cbn in *. lia.
Qed.

Lemma sum_list_le {A} (f g : A → nat) l : Forall (λ a, f a ≤ g a) l → sum_list (map f l) ≤ sum_list (map g l).
Proof. induction 1; cbn; lia. Qed.

Lemma canon_nodes v : nodes (canon v) ≤ nodes v.
Proof.
  induction v using json_nested_ind; try done; cbn [canon].
  - cbn [nodes]. rewrite map_map. apply le_n_S, sum_list_le. done.
  - rewrite !nodes_obj, map_map. apply le_n_S. etrans; [apply (go_map_nodes (map (λ '(k, v), (unquote k, canon v)) l))|].
    rewrite map_map. apply sum_list_le. eapply Forall_impl; [exact H|]. by intros [k v].
Qed.

Lemma canonicalJSON_nodes raw c : canonicalJSON raw = Ok c →
  ∃ v, c = print v ∧ wf v = true ∧ fits v 0 = true ∧ nodes v ≤ String.length raw.
Proof.
  unfold canonicalJSON. destruct (parse_prefix raw) as [[v rest]|] eqn:Hp; [|done]. destruct (parse_prefix rest); [done|].
  intros [= <-]. exists (canon v). destruct (parse_prefix_good _ _ _ Hp). split_and!; [done|by apply canon_wf|by apply canon_fits|].
  etrans; [apply canon_nodes|by eapply parse_prefix_nodes].
Qed.

(** * Decoding arrays *)

Lemma items_loop_print l : ∀ fuel v rest, length l < fuel → forallb (λ v, wf v && fits v 0) (v :: l) = true →
  items_loop fuel (join "," (map print (v :: l)) +:+ String "]" rest) = Some (map print (v :: l), rest).
Proof.
  induction l as [|v2 l IH]; intros fuel v rest Hf Hok; (destruct fuel as [|fuel]; [simpl in Hf; lia|]);
    cbn [forallb] in Hok; apply andb_true_iff in Hok as [[Hw Hfit]%andb_true_iff Hl]; cbn [map]; rewrite join_cons; cbn [items_loop].
  - rewrite raw_value_print by done. reflexivity.
  - rewrite app_str_cons, app_str_nil_l, raw_value_print by done. cbn [mbind option_bind].
    change (skip_ws (String "," ?r)) with (String "," r). cbn iota. change (Ascii.eqb "," ",") with true. cbn iota.
    change (print v2 :: map print l) with (map print (v2 :: l)). rewrite IH by (done || simpl in Hf; lia). reflexivity.
Qed.

Lemma length_join_prints l v : length l < String.length (join "," (map print (v :: l)) +:+ String "]" "").
Proof.
  revert v. induction l as [|v2 l IH]; intros v; [rewrite length_app_str; cbn; lia|].
  cbn [map]. rewrite join_cons. cbn [length]. rewrite length_app_str, app_str_cons, app_str_nil_l. specialize (IH v2). cbn [map length String.length] in *. lia.
Qed.

Lemma arr_items_print l : wf (JArr l) = true → fits (JArr l) 0 = true → arr_items (print (JArr l)) = Some (map print l, "").
Proof.
  intros Hw Hf. unfold arr_items. rewrite <-(app_str_nil_r (print (JArr l))), skip_ws_print by done. rewrite app_str_nil_r.
  cbn [print]. rewrite expect_cons. cbn [mbind option_bind]. destruct l as [|v l]; [reflexivity|].
  assert (Hok : forallb (λ v, wf v && fits v 0) (v :: l) = true).
  { cbn [wf fits] in *. apply andb_true_iff in Hf as [_ Hf]. rewrite forallb_forall in *. intros x Hx. rewrite (Hw x Hx).
    apply (fits_mono x 1 0); [lia|by apply Hf]. }
  rewrite <-(items_loop_print l (String.length (join "," (map print (v :: l)) +:+ String "]" "")) v "") at 1; [|by apply length_join_prints|done].
  change "]" with (String "]" "").
  assert (Hst : starts_value (join "," (map print (v :: l)) +:+ String "]" "") = true).
  { apply join_values_start. cbn [forallb] in Hok. by apply andb_true_iff in Hok as [[? _]%andb_true_iff _]. }
  rewrite skip_ws_value by done. destruct (join "," _ +:+ _) as [|c s]; [done|].
  cbn [starts_value] in Hst. case_if; [|done]. by rewrite andb_false_r in Hst.
Qed.

Lemma mapM_length {A B} (f : A → option B) l k : mapM f l = Some k → length k = length l.
Proof. intros H%mapM_Some. by apply Forall2_length in H. Qed.

Lemma unmarshal_slice_length {S} (dec : decoder S) zero v l : wf v = true → fits v 0 = true →
  unmarshal_slice dec zero (print v) = Some (Some l) → length l ≤ nodes v.
Proof.
  intros Hw Hf. unfold unmarshal_slice. rewrite parse_all_print, Hf by done. destruct v as [| | | |vs|]; try discriminate.
  rewrite arr_items_print by done. cbn [mbind option_bind].
  destruct (mapM _ _) as [l'|] eqn:Hm; [|discriminate]. intros [= <-]. apply mapM_length in Hm. rewrite Hm, length_map.
  cbn [nodes]. clear. induction vs as [|v vs IH]; cbn in *; [lia|]. assert (1 ≤ nodes v) by (destruct v; cbn; lia). lia.
Qed.

(** A raw member of a printed document is the text of one of its values. *)
Lemma unmarshal_raw_member key v raw : wf v = true → fits v 0 = true →
  unmarshal_struct false [(key, at_field dec_raw id (λ a _, a))] (print v) "" = Some raw →
  raw = "" ∨ ∃ w, wf w = true ∧ fits w 0 = true ∧ nodes w ≤ nodes v ∧ raw = print w.
Proof.
  intros Hw Hf. destruct v as [| | | | |l]; try (unfold unmarshal_struct; rewrite parse_all_print, Hf by done; (discriminate || (intros [= <-]; by left))).
  rewrite unmarshal_print by done. pose proof (members_ok l Hw Hf) as Hok. rewrite nodes_obj.
  enough (∀ raw0, (raw0 = "" ∨ ∃ w, wf w = true ∧ fits w 0 = true ∧ nodes w ≤ S (sum_list (map member_nodes l)) ∧ raw0 = print w) →
    fold_left (set_member false [(key, at_field dec_raw id (λ a _, a))]) (map member_text l) (Some raw0) = Some raw →
    raw = "" ∨ ∃ w, wf w = true ∧ fits w 0 = true ∧ nodes w ≤ S (sum_list (map member_nodes l)) ∧ raw = print w) as Hg by (apply Hg; by left).
  assert (Hall : ∀ kv, kv ∈ l → member_nodes kv ≤ S (sum_list (map member_nodes l)) ∧ member_ok kv = true).
  { intros kv Hin. rewrite forallb_forall in Hok. split; [|by apply Hok, list_elem_of_In].
    clear -Hin. induction Hin; cbn; lia. }
  clear Hok Hw Hf. revert Hall. generalize (S (sum_list (map member_nodes l))) as n. intros n.
  induction l as [|[k w] l IH]; intros Hall raw0 H0; cbn [map fold_left]; [by intros [= <-]|].
  destruct (Hall (k, w)) as [Hn Hm]; [left|]. unfold set_member at 2. cbn [mbind option_bind].
  apply andb_true_iff in Hm as [_ [Hw Hf]%andb_true_iff].
  destruct (find_field _ _) as [d|] eqn:Hd.
  - assert (d = at_field dec_raw id (λ a _, a)) as ->.
    { unfold find_field in Hd. cbn in Hd. repeat case_decide; cbn in Hd; congruence. }
    cbn. apply IH; [intros kv Hin; apply Hall; by right|]. right. by exists w.
  - apply IH; [intros kv Hin; apply Hall; by right|done].
Qed.

(** * Captures *)

Lemma check_targets_length l : ∀ seen l', check_targets seen l = Ok l' → length l' = length l.
Proof.
  induction l as [|t l IH]; intros seen l'; cbn [check_targets]; [by intros [= <-]|].
  intros (t' & _ & (ts & Hts & [= <-])%bind_ok)%bind_ok. cbn. by rewrite (IH _ _ Hts).
Qed.

Lemma parseCaptureTargets_length v l : wf v = true → fits v 0 = true → parseCaptureTargets (print v) = Ok l → length l ≤ nodes v.
Proof.
  intros Hw Hf. unfold parseCaptureTargets. destruct (unmarshal_struct _ _ _ _) as [raw|] eqn:Hr; [|discriminate].
  case_if; [intros [= <-]; cbn; lia|]. apply unmarshal_raw_member in Hr as [->|(w & Hww & Hwf & Hn & ->)]; [done| |done..].
  destruct (unmarshal_slice _ _ _) as [[l0|]|] eqn:Hs; try discriminate. intros Hl%check_targets_length.
  apply unmarshal_slice_length in Hs; [|done..]. lia.
Qed.

Lemma canonicalJSONObject_nodes raw c : canonicalJSONObject raw = Ok c →
  ∃ v, c = print v ∧ wf v = true ∧ fits v 0 = true ∧ nodes v ≤ 2 + String.length raw.
Proof.
  unfold canonicalJSONObject, canonicalJSONDefault, normalizeJSON. cbn zeta.
  intros (c' & (n & Hn & Hc%canonical_json_ok)%bind_ok & H)%bind_ok.
  destruct (parse_all c') as [[]|]; try discriminate H. injection H as <-.
  destruct (negb _); [discriminate|]. injection Hn as <-. apply canonicalJSON_nodes in Hc as (v & -> & Hw & Hf & Hv).
  exists v. split_and!; [done..|]. revert Hv. case_if; cbn; lia.
Qed.

(** The number of captured targets is bounded by the length of the payload the client sent. *)
Lemma capture_input_count now mid capture c l : capture_input now mid capture = Ok (c, l) →
  length l ≤ 2 + String.length capture.(C_Payload).
Proof.
  unfold capture_input. case_if; [discriminate|]. intros (p & Hp & (ts & Hts & [= <- <-])%bind_ok)%bind_ok.
  apply canonicalJSONObject_nodes in Hp as (v & -> & Hw & Hf & Hv). apply parseCaptureTargets_length in Hts; [lia|done..].
Qed.
