(* ===== verification/Verify.v ===== *)
(** The verifier of internal/store/verify.go: the schema it requires, the exclusivity of locks, the
    replay of every maintenance from its events and its capture, and the global events.

    [replay_apply] is [replayMaintenance.apply]: the state machine the journal is checked against,
    written independently of the operations that append to it. *)
From S2P Require Import Prelude Utf8 Json JsonText Strconv GoTime Sha256 JsonDecode Text Errors Values Lifecycle Db Model Events Mutations.
Local Open Scope Z_scope.

Section verify.
Context `{SQLite}.

(** Fails with the message when the condition holds. *)
Definition reject (b : bool) (message : string) : result error () := if b then Err (EText message) else Ok ().
Definition corrupt (b : bool) (message : string) : result error () := if b then Err (EWrapped ErrCorrupt message) else Ok ().

(** * The schema *)

Definition requireSchemaIdentity (s : schema) : result error () :=
  corrupt (negb (s.(application_id) =? applicationID) || negb (s.(user_version) =? currentSchema))
    "unsupported database identity or schema".

(** [name NOT LIKE 'sqlite_%']: LIKE folds ASCII letters and [_] stands for any character. *)
Definition ascii_lower (c : ascii) : ascii := if in_range 65 90 c then chr (byte c + 32) else c.
Definition internal_table (name : string) : bool :=
  String.eqb (string_of_list_ascii (map ascii_lower (list_ascii_of_string (str_take 6 name)))) "sqlite"
  && (7 <=? len name).

Definition application_tables (s : schema) : list string :=
  merge_sort String.leb (List.filter (λ n, negb (internal_table n)) (map fst s.(tables))).

(** [SELECT columns FROM table LIMIT 0] compiles. *)
Definition has_columns (s : schema) (required : string * list string) : bool :=
  existsb (λ t, String.eqb t.1 required.1 && forallb (λ c, existsb (String.eqb c) t.2) required.2) s.(tables).

Definition count_name (name : string) (l : list string) : nat := length (List.filter (String.eqb name) l).

Fixpoint check_all {A} (f : A → result error ()) (l : list A) : result error () :=
  match l with
  | [] => Ok ()
  | a :: l' => f a ;; check_all f l'
  end.

Definition verifyRequiredSchema (s : schema) : result error () :=
  requireSchemaIdentity s ;;
  reject (match application_tables s with [] => true | _ => false end) "converting NULL to string is unsupported" ;;
  corrupt (negb (String.eqb (join "," (application_tables s)) "journal_events,maintenance,maintenance_captures,targets"))
    "unexpected application tables" ;;
  check_all (λ t, corrupt (negb (has_columns s t)) ("required schema is missing: " +:+ t.1)) required_columns ;;
  check_all (λ t, corrupt (negb (count_name t s.(triggers) =? 1)%nat) ("required trigger " +:+ t +:+ " is missing")) required_triggers ;;
  check_all (λ i, corrupt (negb (count_name i s.(indexes) =? 1)%nat) ("required index " +:+ i +:+ " is missing")) required_indexes.

(** * Locks *)

(** The lock keys held by more than one maintenance. *)
Definition overlapping_locks (d : db) : list string :=
  List.filter (λ lock, (1 <? length (remove_dups (lock_owners d lock)))%nat)
    (remove_dups (map (λ kt, kt.2.(t_lock_key)) (map_to_list d.(targets)))).

Definition verifyLockExclusivity (d : db) : result error () :=
  corrupt (negb (length (overlapping_locks d) =? 0)%nat) "the same lock_key is active in more than one maintenance".

(** * Captures *)

(** The saved capture and its targets; [None]: there is none. *)
Definition loadCaptureForVerify (d : db) (mid : string) : result error (option (Capture * list captureTarget)) :=
  match d.(captures) !! mid with
  | None => Ok None
  | Some row =>
    let capture := scanCapture mid row in
    match canonicalJSON row.(c_payload) with
    | Ok canonical =>
      if negb (String.eqb canonical row.(c_payload))
      then Err (EWrapped ErrCorrupt ("capture " +:+ mid +:+ " payload is not stored as normalized JSON"))
      else if negb (equal_fold capture.(C_SHA256) (sha256_hex row.(c_payload)))
      then Err (EWrapped ErrCorrupt ("capture " +:+ mid +:+ " hash mismatch"))
      else match parseCaptureTargets capture.(C_Payload) with
           | Ok targets => Ok (Some (capture, targets))
           | Err _ => Err (EWrapped ErrCorrupt ("invalid capture " +:+ mid))
           end
    | Err _ => Err (EWrapped ErrCorrupt ("capture " +:+ mid +:+ " payload is not stored as normalized JSON"))
    end
  end.

(** * Event payloads *)

Definition justification_fields : fields string := [("justification", at_field dec_string id (λ a _, a))].

Definition validEventJustification (payload : string) : result error () :=
  match unmarshal_struct false justification_fields payload "" with
  | None => Err (ESentinel ErrInvalid)
  | Some justification => validJustification justification
  end.

Definition transition_payload_fields : fields (string * string) := [
  ("justification", at_field dec_string fst (λ a p, (a, p.2)));
  ("detail", at_field dec_raw snd (λ a p, (p.1, a)))].

Definition validTransitionPayload (payload : string) : result error () :=
  match unmarshal_struct false transition_payload_fields payload ("", "") with
  | Some (_, detail) => if (len detail =? 0) || negb (valid detail) then Err (ESentinel ErrInvalid) else Ok ()
  | None => Err (ESentinel ErrInvalid)
  end.

Definition capture_detail_fields : fields (string * Z) := [
  ("sha256", at_field dec_string fst (λ a p, (a, p.2)));
  ("targets", at_field dec_int64 snd (λ a p, (p.1, a)))].

Definition validateEventShape (event : Event) : result error () :=
  reject ((event.(E_ID) <? 1) || String.eqb event.(E_Type) "" || is_zero event.(E_OccurredAt) || String.eqb event.(E_RequestID) ""
      || String.eqb event.(E_Actor) "" || String.eqb event.(E_Role) "" || String.eqb event.(E_ResourceType) ""
      || String.eqb event.(E_ResourceID) "" || negb (valid event.(E_Payload)))
    "event identity is incomplete" ;;
  if has_prefix event.(E_Type) "maintenance." then
    reject (negb (String.eqb event.(E_ResourceType) "maintenance") || String.eqb event.(E_MaintenanceID) ""
        || negb (String.eqb event.(E_ResourceID) event.(E_MaintenanceID)) || negb (String.eqb event.(E_TargetID) ""))
      "maintenance event identifies the wrong resource"
  else if has_prefix event.(E_Type) "target." then
    reject (negb (String.eqb event.(E_ResourceType) "target") || String.eqb event.(E_MaintenanceID) ""
        || String.eqb event.(E_TargetID) "" || negb (String.eqb event.(E_ResourceID) event.(E_TargetID)))
      "target event identifies the wrong resource"
  else if has_prefix event.(E_Type) "backup." then
    reject (negb (String.eqb event.(E_ResourceType) "backup") || negb (String.eqb event.(E_MaintenanceID) "")
        || negb (String.eqb event.(E_TargetID) "") || negb (String.eqb event.(E_FromState) "")
        || negb (String.eqb event.(E_ToState) "") || negb (event.(E_FromVersion) =? 0) || negb (event.(E_ToVersion) =? 0)
        || negb (event.(E_AggregateVersion) =? 0))
      "backup event identifies the wrong resource"
  else Err (EText ("unknown event type " +:+ event.(E_Type))).
End verify.

(** * Replay *)

Record replayTarget := mkReplayTarget { rt_state : string; rt_version : Z; rt_original : string }.

Record replayMaintenance := mkReplay {
  r_state : string;
  r_revision : Z;
  r_captured : bool;
  r_targets : gmap string replayTarget;
  r_physical : bool;
  r_created : option Maintenance
}.

Definition empty_replay : replayMaintenance := mkReplay "" 0 false ∅ false None.

(** The captured targets in their starting states. *)
Definition replay_captured (l : list captureTarget) (m : gmap string replayTarget) : gmap string replayTarget :=
  fold_left (λ m t, <[t.(CT_TargetID) := mkReplayTarget (captured_state t.(CT_OriginalState)) 1 t.(CT_OriginalState)]> m) l m.

Definition bump_replay (t : replayTarget) : replayTarget := mkReplayTarget t.(rt_state) (t.(rt_version) + 1) t.(rt_original).

Section replay.
Context `{SQLite}.
Context (capturedTargets : list captureTarget) (captureHash : string) (hasCapture : bool).

Definition apply_created (r : replayMaintenance) (event : Event) : result error replayMaintenance :=
  reject (negb (r.(r_revision) =? 0) || negb (String.eqb event.(E_ResourceType) "maintenance") || negb (String.eqb event.(E_TargetID) "")
      || negb (event.(E_AggregateVersion) =? 1) || negb (String.eqb event.(E_FromState) "") || negb (String.eqb event.(E_ToState) "")
      || negb (event.(E_FromVersion) =? 0) || negb (event.(E_ToVersion) =? 0))
    "invalid creation event" ;;
  match unmarshal_struct false maintenance_fields event.(E_Payload) zero_maintenance with
  | Some created =>
    reject (negb (String.eqb created.(M_ID) event.(E_MaintenanceID)) || negb (String.eqb created.(M_State) "new")
        || negb (created.(M_Version) =? 1) || negb (created.(M_CreatedAt) =? event.(E_OccurredAt)))
      "invalid creation payload" ;;
    Ok (mkReplay "new" 1 r.(r_captured) r.(r_targets) r.(r_physical) (Some created))
  | None => Err (EText "invalid creation payload")
  end.

Definition apply_captured (r : replayMaintenance) (event : Event) : result error replayMaintenance :=
  reject (negb hasCapture || r.(r_captured) || negb (String.eqb event.(E_FromState) r.(r_state))
      || negb (event.(E_FromVersion) =? r.(r_revision)) || negb (String.eqb event.(E_ToState) "captured")
      || negb (event.(E_ToVersion) =? r.(r_revision) + 1) || negb (event.(E_AggregateVersion) =? event.(E_ToVersion)))
    "invalid capture event" ;;
  match unmarshal_struct false capture_detail_fields event.(E_Payload) ("", 0) with
  | Some (hash, count) =>
    reject (negb (String.eqb hash captureHash) || negb (count =? Z.of_nat (length capturedTargets)))
      "capture event does not match the saved capture" ;;
    Ok (mkReplay "captured" event.(E_ToVersion) true (replay_captured capturedTargets r.(r_targets)) r.(r_physical) r.(r_created))
  | None => Err (EText "capture event does not match the saved capture")
  end.

(** A captured target that is not stopped when its maintenance is. *)
Definition replay_unresolved (t : replayTarget) : bool := unresolved t.(rt_original) t.(rt_state).

Definition replay_targets (r : replayMaintenance) : list replayTarget := map snd (map_to_list r.(r_targets)).

Definition apply_transition (r : replayMaintenance) (event : Event) : result error replayMaintenance :=
  let reopened := String.eqb event.(E_Type) "maintenance.reopened" in
  let completed := String.eqb event.(E_Type) "maintenance.completed" in
  let destination := event.(E_ToState) in
  reject ((r.(r_revision) =? 0) || negb (String.eqb event.(E_ResourceType) "maintenance") || negb (String.eqb event.(E_TargetID) "")
      || negb (String.eqb event.(E_FromState) r.(r_state)) || negb (event.(E_FromVersion) =? r.(r_revision))
      || negb (event.(E_ToVersion) =? r.(r_revision) + 1) || negb (event.(E_AggregateVersion) =? event.(E_ToVersion))
      || negb (ValidMaintenanceTransition r.(r_state) destination))
    "invalid maintenance transition" ;;
  (if reopened then
     reject (negb (String.eqb r.(r_state) "failed") || negb (isAdmin event.(E_Role)) || negb (is_ok (validEventJustification event.(E_Payload))))
       "invalid reopen event" ;;
     reject (negb r.(r_captured) && negb (String.eqb destination "new")
         || r.(r_captured) && (String.eqb destination "new" || String.eqb destination "completed" || String.eqb destination "cancelled"))
       "invalid reopen destination"
   else reject (String.eqb r.(r_state) "failed") "failed maintenance was not explicitly reopened") ;;
  reject (negb (is_ok (validTransitionPayload event.(E_Payload)))) "invalid transition payload" ;;
  reject (String.eqb destination "captured" && negb reopened) "capture transition used ordinary event" ;;
  reject (String.eqb destination "cancelled" && r.(r_captured) && r.(r_physical)) "cancel released an exercised lock" ;;
  (if String.eqb destination "stopped" then
     match List.filter replay_unresolved (replay_targets r) with
     | t :: _ =>
       if String.eqb t.(rt_original) "running" || String.eqb t.(rt_original) "stopped"
       then Err (EText "maintenance reached stopped while a target was unresolved")
       else Err (EText "maintenance reached stopped without valid capture data")
     | [] => Ok ()
     end
   else Ok ()) ;;
  (if String.eqb destination "completed" then
     reject (negb completed || (length (replay_targets r) =? 0)%nat) "invalid completion event" ;;
     reject (existsb (λ t, negb (targetCompletionAllowed t.(rt_original) t.(rt_state))) (replay_targets r))
       "maintenance completed before every target was restored or skipped"
   else reject completed "misclassified completion event") ;;
  Ok (mkReplay destination event.(E_ToVersion) r.(r_captured)
    (if r.(r_captured) then bump_replay <$> r.(r_targets) else r.(r_targets)) r.(r_physical) r.(r_created)).

Definition apply_target (r : replayMaintenance) (event : Event) : result error replayMaintenance :=
  reject ((r.(r_revision) =? 0) || IsMaintenanceTerminal r.(r_state) || negb (String.eqb event.(E_ResourceType) "target")
      || String.eqb event.(E_TargetID) "" || negb (event.(E_AggregateVersion) =? r.(r_revision) + 1))
    "target event identifies the wrong resource" ;;
  match r.(r_targets) !! event.(E_TargetID) with
  | None => Err (EText "invalid target transition")
  | Some target =>
    reject (negb (String.eqb event.(E_FromState) target.(rt_state)) || negb (event.(E_FromVersion) =? target.(rt_version))
        || negb (event.(E_ToVersion) =? target.(rt_version) + 1) || negb (ValidTargetTransition target.(rt_state) event.(E_ToState)))
      "invalid target transition" ;;
    (if String.eqb event.(E_ToState) "skipped" then
       reject (negb (String.eqb event.(E_Type) "target.skipped") || negb (isAdmin event.(E_Role))
           || negb (is_ok (validEventJustification event.(E_Payload))))
         "invalid skip event"
     else
       reject (negb (String.eqb event.(E_Type) "target.transitioned") || String.eqb target.(rt_original) "degraded"
           || String.eqb target.(rt_original) "unknown" || String.eqb target.(rt_original) "stopped"
           || negb (targetPhaseAllowed r.(r_state) event.(E_ToState)))
         "invalid ordinary target transition") ;;
    reject (negb (is_ok (validTransitionPayload event.(E_Payload)))) "invalid transition payload" ;;
    Ok (mkReplay r.(r_state) event.(E_AggregateVersion) r.(r_captured)
      (<[event.(E_TargetID) := mkReplayTarget event.(E_ToState) event.(E_ToVersion) target.(rt_original)]> r.(r_targets))
      (r.(r_physical) || negb (String.eqb event.(E_ToState) "skipped")) r.(r_created))
  end.

Definition apply_observed (r : replayMaintenance) (event : Event) : result error replayMaintenance :=
  reject (IsMaintenanceTerminal r.(r_state) || String.eqb event.(E_TargetID) ""
      || match r.(r_targets) !! event.(E_TargetID) with Some _ => false | None => true end
      || negb (event.(E_AggregateVersion) =? 0) || negb (String.eqb event.(E_FromState) "") || negb (String.eqb event.(E_ToState) "")
      || negb (event.(E_FromVersion) =? 0) || negb (event.(E_ToVersion) =? 0))
    "invalid observation" ;;
  reject (match canonicalJSONObject event.(E_Payload) with Ok c => negb (String.eqb c event.(E_Payload)) | Err _ => true end)
    "invalid observation payload" ;;
  Ok r.

Definition replay_apply (r : replayMaintenance) (event : Event) : result error replayMaintenance :=
  let type := event.(E_Type) in
  if String.eqb type "maintenance.created" then apply_created r event
  else if String.eqb type "maintenance.captured" then apply_captured r event
  else if String.eqb type "maintenance.transitioned" || String.eqb type "maintenance.reopened"
          || String.eqb type "maintenance.completed" then apply_transition r event
  else if String.eqb type "target.transitioned" || String.eqb type "target.skipped" then apply_target r event
  else if String.eqb type "target.observed" then apply_observed r event
  else Err (EText ("unknown maintenance event type " +:+ type)).

(** One round of the loop over the events of a maintenance. *)
Definition replay_row (r : replayMaintenance) (row : event_row) : result error replayMaintenance :=
  let event := scanEvent row in
  match (validateEventShape event ;; replay_apply r event) with
  | Ok r' => Ok r'
  | Err e => Err (EWrapped ErrCorrupt ("event " +:+ format_int event.(E_ID) +:+ ": " +:+ error_text e))
  end.

Fixpoint replay_rows (r : replayMaintenance) (rows : list event_row) : result error replayMaintenance :=
  match rows with
  | [] => Ok r
  | row :: rows' => r' ← replay_row r row; replay_rows r' rows'
  end.
End replay.

(** * The whole verifier *)

Definition sameTime (a b : option Z) : bool :=
  match a, b with
  | Some x, Some y => x =? y
  | None, None => true
  | _, _ => false
  end.

Section application.
Context `{SQLite}.

(** The comparison of the row of a maintenance with the replay. *)
Definition maintenance_matches (actual : Maintenance) (hasCapture : bool) (eventCount : nat) (r : replayMaintenance) : bool :=
  negb (eventCount =? 0)%nat && String.eqb r.(r_state) actual.(M_State) && (r.(r_revision) =? actual.(M_Version))
  && Bool.eqb r.(r_captured) hasCapture
  && match r.(r_created) with
     | None => false
     | Some created =>
       String.eqb created.(M_ID) actual.(M_ID) && String.eqb created.(M_ChangeTicket) actual.(M_ChangeTicket)
       && String.eqb created.(M_WorkflowVersion) actual.(M_WorkflowVersion)
       && String.eqb created.(M_Metadata) actual.(M_Metadata) && (created.(M_CreatedAt) =? actual.(M_CreatedAt))
     end.

(** The comparison of the row of a target with its capture and the replay.  The source indexes
    the captured targets by id, the last of equal ids winning. *)
Definition target_matches (inputs : gmap string captureTarget) (r : replayMaintenance) (target : Target) : bool :=
  match inputs !! target.(T_ID), r.(r_targets) !! target.(T_ID) with
  | Some input, Some replayed =>
    String.eqb target.(T_LockKey) input.(CT_LockKey) && String.eqb target.(T_OriginalState) input.(CT_OriginalState)
    && String.eqb target.(T_Kind) input.(CT_Kind) && String.eqb target.(T_Host) input.(CT_Host)
    && sameTime target.(T_ObservedAt) input.(CT_ObservedAt) && String.eqb target.(T_Metadata) input.(CT_Metadata)
    && String.eqb target.(T_State) replayed.(rt_state) && (target.(T_Version) =? replayed.(rt_version))
  | _, _ => false
  end.

Definition inputs_of (l : list captureTarget) : gmap string captureTarget :=
  fold_left (λ m t, <[t.(CT_TargetID) := t]> m) l ∅.

Definition verifyMaintenanceReplay (d : db) (mid : string) : result error () :=
  match d.(maintenance) !! mid with
  | None => Err (EText "sql: no rows in result set")
  | Some row =>
    loaded ← loadCaptureForVerify d mid;
    let hasCapture := match loaded with Some _ => true | None => false end in
    let capturedTargets := match loaded with Some (_, l) => l | None => [] end in
    let captureHash := match loaded with Some (c, _) => c.(C_SHA256) | None => "" end in
    let rows := events_of mid d.(journal) in
    r ← replay_rows capturedTargets captureHash hasCapture empty_replay rows;
    corrupt (negb (maintenance_matches (scanMaintenance mid row) hasCapture (length rows) r))
      ("maintenance " +:+ mid +:+ " state does not match its events") ;;
    let actual := listTargets d mid in
    corrupt (negb (length actual =? length capturedTargets)%nat || negb (length actual =? size r.(r_targets))%nat)
      ("maintenance " +:+ mid +:+ " target count does not match its capture and events") ;;
    check_all (λ t, corrupt (negb (target_matches (inputs_of capturedTargets) r t))
      ("target " +:+ mid +:+ ":" +:+ t.(T_ID) +:+ " state does not match its capture and events")) actual
  end.

Record download := mkDownload { D_Filename : string; D_SHA256 : string; D_Bytes : Z; D_Artifact : string }.

Definition download_fields : fields download := [
  ("filename", at_field dec_string D_Filename (λ a x, mkDownload a x.(D_SHA256) x.(D_Bytes) x.(D_Artifact)));
  ("sha256", at_field dec_string D_SHA256 (λ a x, mkDownload x.(D_Filename) a x.(D_Bytes) x.(D_Artifact)));
  ("bytes", at_field dec_int64 D_Bytes (λ a x, mkDownload x.(D_Filename) x.(D_SHA256) a x.(D_Artifact)));
  ("artifact", at_field dec_string D_Artifact (λ a x, mkDownload x.(D_Filename) x.(D_SHA256) x.(D_Bytes) a))].

(** One round of [verifyGlobalEvents]. *)
Definition verify_global_row (row : event_row) : result error () :=
  let event := scanEvent row in
  let id := format_int event.(E_ID) in
  match validateEventShape event with
  | Err e => Err (EWrapped ErrCorrupt ("event " +:+ id +:+ ": " +:+ error_text e))
  | Ok _ =>
    if String.eqb event.(E_Type) "backup.created" then
      match unmarshal_struct false manifest_fields event.(E_Payload) zero_manifest with
      | Some m =>
        corrupt (negb (String.eqb m.(B_Filename) event.(E_ResourceID)) || String.eqb m.(B_SHA256) "" || (m.(B_Bytes) <? 1)
            || negb m.(B_AuditRecorded))
          ("invalid backup.created event " +:+ id)
      | None => Err (EWrapped ErrCorrupt ("invalid backup.created event " +:+ id))
      end
    else if String.eqb event.(E_Type) "backup.downloaded" then
      match unmarshal_struct false download_fields event.(E_Payload) (mkDownload "" "" 0 "") with
      | Some x =>
        corrupt (negb (String.eqb x.(D_Filename) event.(E_ResourceID)) || String.eqb x.(D_SHA256) "" || (x.(D_Bytes) <? 1)
            || String.eqb x.(D_Artifact) "")
          ("invalid backup.downloaded event " +:+ id)
      | None => Err (EWrapped ErrCorrupt ("invalid backup.downloaded event " +:+ id))
      end
    else Err (EWrapped ErrCorrupt ("unknown global event " +:+ event.(E_Type)))
  end.

Definition global_events (l : list event_row) : list event_row :=
  List.filter (λ e, bool_decide (e.(e_maintenance_id) = None)) l.

Definition verifyGlobalEvents (d : db) : result error () := check_all verify_global_row (global_events d.(journal)).

Definition maintenance_ids (d : db) : list string := merge_sort String.leb (map fst (map_to_list d.(maintenance))).

Definition verifyApplicationData (d : db) : result error () :=
  verifyRequiredSchema d.(db_schema) ;;
  verifyLockExclusivity d ;;
  check_all (verifyMaintenanceReplay d) (maintenance_ids d) ;;
  verifyGlobalEvents d.
End application.
