(* ===== verification/Payloads.v ===== *)
(** What the verifier reads in the payloads the operations write.

    Each event carries a document printed by the operation and decoded by the verifier; the lemmas
    follow a document through both. *)
From S2P Require Import Prelude Utf8 Json JsonText Strconv GoTime Sha256 JsonDecode Text Errors Values Lifecycle Db Model Events Mutations Verify.
Local Open Scope Z_scope.

(** * Decoding member by member *)

Lemma valid_fits v : wf v = true → valid (print v) = true → fits v 0 = true.
Proof. intros Hw. unfold valid. rewrite parse_all_print by done. by destruct (fits v 0). Qed.

Lemma unmarshal_members {S} strict (fs : fields S) l s0 : wf (JObj l) = true → valid (print (JObj l)) = true →
  unmarshal_struct strict fs (print (JObj l)) s0 = fold_left (set_member strict fs) (map member_text l) (Some s0).
Proof. intros Hw Hv. by apply unmarshal_print, valid_fits. Qed.

Lemma fold_member {S} strict (fs : fields S) l k v d s s' :
  plain k = true → find_field fs k = Some d → d (print v) s = Some s' →
  fold_left (set_member strict fs) (map member_text ((k, v) :: l)) (Some s)
  = fold_left (set_member strict fs) (map member_text l) (Some s').
Proof.
  intros Hk Hf Hd. cbn [map fold_left]. f_equal. unfold set_member, member_text. cbn [fst snd mbind option_bind].
  by rewrite plain_unquote, Hf.
Qed.

(** A key the struct does not have. *)
Lemma fold_unknown {S} (fs : fields S) l k v s : plain k = true → find_field fs k = None →
  fold_left (set_member false fs) (map member_text ((k, v) :: l)) (Some s)
  = fold_left (set_member false fs) (map member_text l) (Some s).
Proof.
  intros Hk Hf. cbn [map fold_left]. f_equal. unfold set_member, member_text. cbn [fst snd mbind option_bind].
  by rewrite plain_unquote, Hf.
Qed.

Lemma at_field_some {S A} (dec : decoder A) get set raw (s : S) a :
  dec raw (get s) = Some a → at_field dec get set raw s = Some (set a s).
Proof. unfold at_field. by intros ->. Qed.

Lemma wf_cons k v l : str_ok k = true → wf v = true → wf (JObj l) = true → wf (JObj ((k, v) :: l)) = true.
Proof. cbn [wf forallb]. by intros -> -> ->. Qed.

Lemma wf_jstring s : wf (jstring s) = true.
Proof. apply quote_ok. Qed.

Lemma wf_jint n : in_int64 n = true → wf (jint n) = true.
Proof. apply num_ok_format. Qed.

Lemma wf_jtime t : time_ok t = true → wf (JStr (format t)) = true.
Proof. intros H. by apply plain_str_ok, plain_format. Qed.

Lemma jtime_ok t : time_ok t = true → jtime t = Some (JStr (format t)).
Proof. intros H. unfold jtime. by rewrite marshal_time_ok. Qed.

(** A canonical document is embedded as it is. *)
Lemma jraw_canonical raw c : canonicalJSON raw = Ok c → ∃ v, jraw c = Some v ∧ print v = c ∧ wf v = true.
Proof.
  intros H. destruct (parse_all_canonical raw c H) as (v & -> & Hp). exists (canon v).
  unfold jraw. rewrite Hp. cbn. rewrite escape_html_canon. split_and!; [done..|].
  by apply parse_all_good in Hp as [? _].
Qed.

(** Reads one printed value. *)
Ltac decode_value :=
  lazymatch goal with
  | |- dec_string _ _ = _ => apply dec_string_jstring; assumption
  | |- dec_int64 _ _ = _ => apply dec_int64_jint; assumption || reflexivity
  | |- dec_time _ _ = _ => apply dec_time_format; assumption
  | |- dec_bool _ _ = _ => reflexivity
  | |- dec_raw _ _ = _ => reflexivity
  end.

(** Decodes the next member: the key and the field's decoder are computed. *)
Ltac next_member :=
  lazymatch goal with
  | |- context [fold_left _ (map member_text ((_, _) :: _)) _] =>
    erewrite fold_member; [|reflexivity|reflexivity|apply at_field_some; decode_value];
    cbn [M_ID M_State M_ChangeTicket M_WorkflowVersion M_Metadata M_Version M_CreatedAt M_UpdatedAt zero_maintenance
      B_Filename B_CreatedAt B_Bytes B_SHA256 B_SQLiteVersion B_IntegrityCheck B_ForeignKeys B_Application B_AuditRecorded
      zero_manifest D_Filename D_SHA256 D_Bytes D_Artifact fst snd]
  end.

Ltac wf_members :=
  repeat lazymatch goal with
  | |- wf (JObj ((_, _) :: _)) = true => apply wf_cons; [reflexivity| |]
  | |- wf (JObj []) = true => reflexivity
  | |- wf (jstring _) = true => apply wf_jstring
  | |- wf (jint _) = true => apply wf_jint; assumption || reflexivity
  | |- wf (JStr (format _)) = true => apply wf_jtime; assumption
  | |- wf (JBool _) = true => reflexivity
  | |- wf _ = true => assumption
  end.

(** * The creation event *)

Lemma created_payload now m p : (M_CreatedAt m = now ∧ M_UpdatedAt m = now) → time_ok now = true →
  valid_utf8 (M_ID m) = true → M_State m = "new" → M_Version m = 1 →
  valid_utf8 (M_ChangeTicket m) = true → valid_utf8 (M_WorkflowVersion m) = true →
  (∃ raw, canonicalJSON raw = Ok (M_Metadata m)) →
  p = default "" (marshal_maintenance m) → valid p = true →
  unmarshal_struct false maintenance_fields p zero_maintenance = Some m.
Proof.
  intros [<- Hu] Ht Hid Hs Hv Htk Hwf [raw Hraw] -> Hval.
  destruct m as [id state ticket workflow metadata version created updated].
  cbn [M_ID M_State M_ChangeTicket M_WorkflowVersion M_Metadata M_Version M_CreatedAt M_UpdatedAt] in *. subst.
  destruct (canonical_fixed _ _ Hraw) as (Hlen & _ & _).
  destruct (jraw_canonical _ _ Hraw) as (v & Hj & Hp & Hw). subst metadata.
  unfold marshal_maintenance, maintenance_members in *. cbn [M_Metadata M_CreatedAt M_UpdatedAt] in *.
  rewrite (proj2 (Z.eqb_neq _ _) Hlen), Hj, !jtime_ok in * by done.
  cbn [fmap option_fmap option_map mbind option_bind default from_option M_ID M_State M_ChangeTicket M_WorkflowVersion M_Version] in *.
  unfold Datatypes.id in *.
  assert (Hn : valid_utf8 "new" = true) by reflexivity.
  rewrite unmarshal_members; [|clear Hval; unfold omit_empty; repeat case_if; cbn [app]; wf_members|exact Hval].
  clear Hval. cbn [app]. do 2 next_member. unfold omit_empty.
  destruct (String.eqb_spec ticket "") as [->|_], (String.eqb_spec workflow "") as [->|_]; cbn [app];
    repeat next_member; reflexivity.
Qed.

(** * The capture event *)

Lemma hex_char_plain n : 0 ≤ n < 16 → html_safe (hex_char n) && (byte (hex_char n) <? 128) = true.
Proof.
  intros H. destruct (decide (n < 10)) as [Hn|Hn].
  - unfold hex_char. rewrite (proj2 (Z.ltb_lt _ _) Hn). apply plain_digit. lia.
  - assert (n = 10 ∨ n = 11 ∨ n = 12 ∨ n = 13 ∨ n = 14 ∨ n = 15) as H' by lia.
    repeat (destruct H' as [->|H']; [reflexivity|]). by subst n.
Qed.

Lemma hex_plain s : plain (hex_encode s) = true.
Proof.
  induction s as [|c s IH]; [done|]. cbn [hex_encode]. pose proof (byte_bounds c).
  rewrite !plain_cons, !hex_char_plain, IH by lia. done.
Qed.

Lemma sha256_hex_valid s : valid_utf8 (sha256_hex s) = true.
Proof. by apply valid_ascii, plain_ascii, hex_plain. Qed.

(** A digest is never empty, not even up to case. *)
Lemma fold_empty s : equal_fold "" s = true → s = "".
Proof.
  unfold equal_fold, fold_name, runes. intros E%bool_decide_eq_true. cbn in E. symmetry in E.
  apply fmap_nil_inv, fmap_nil_inv in E. by rewrite <-(bytes_of_chunks s), E.
Qed.

Lemma sha256_hex_fold s : equal_fold "" (sha256_hex s) = true → False.
Proof. intros E%fold_empty. by apply sha256_hex_nonempty in E. Qed.

Lemma capture_payload s n : in_int64 (Z.of_nat n) = true → valid (capture_detail (sha256_hex s) n) = true →
  unmarshal_struct false capture_detail_fields (capture_detail (sha256_hex s) n) ("", 0)
  = Some (sha256_hex s, Z.of_nat n).
Proof.
  intros Hn Hv. unfold capture_detail in *. pose proof (sha256_hex_valid s).
  rewrite unmarshal_members by (done || wf_members). repeat next_member. reflexivity.
Qed.

(** * The events of transitions *)

Lemma payload_wf j v : wf v = true → wf (JObj (payload_members j v)) = true.
Proof.
  intros Hw. apply escape_html_wf in Hw. unfold payload_members, omit_empty. case_if; cbn [app]; wf_members.
Qed.

(** Every payload [eventPayload] builds passes [validTransitionPayload]. *)
Lemma transition_payload detail j p : eventPayload detail j = Ok p → valid p = true →
  validTransitionPayload p = Ok ().
Proof.
  unfold eventPayload. intros H Hv. destruct (parse_all _) as [v|] eqn:Hp; [|discriminate].
  destruct (maxJSON <? _); [discriminate|].
  match type of H with Ok ?x = _ => assert (p = x) as -> by congruence end.
  apply parse_all_good in Hp as [Hw Hf]. pose proof (escape_html_wf v Hw) as Hw'.
  unfold validTransitionPayload. rewrite unmarshal_members by (done || by apply payload_wf).
  assert (Hlen : (len (print (escape_html v)) =? 0) = false).
  { apply Z.eqb_neq. intros Hz%len_zero. pose proof (print_starts (escape_html v) "" Hw') as Hs.
    rewrite Hz in Hs. discriminate Hs. }
  assert (Hval : valid (print (escape_html v)) = true).
  { unfold valid. by rewrite parse_all_print, escape_html_fits, Hf. }
  unfold payload_members, omit_empty. case_if; cbn [app].
  - next_member. cbn [map fold_left]. by rewrite Hlen, Hval.
  - destruct (dec_string_total j "") as [x Hx].
    erewrite fold_member; [|reflexivity|reflexivity|apply at_field_some; exact Hx].
    next_member. cbn [map fold_left]. by rewrite Hlen, Hval.
Qed.

(** A justification the operation accepted is found again in the event. *)
Lemma justification_payload detail j p u : validJustification j = Ok u → valid_utf8 j = true →
  eventPayload detail (trim_space j) = Ok p → valid p = true → validEventJustification p = Ok ().
Proof.
  unfold eventPayload. intros Hj Hu H Hv. destruct (parse_all _) as [v|] eqn:Hp; [|discriminate].
  destruct (maxJSON <? _); [discriminate|].
  match type of H with Ok ?x = _ => assert (p = x) as -> by congruence end.
  apply parse_all_good in Hp as [Hw _]. destruct (trim_space_chunks j Hu) as [_ Ht].
  unfold validEventJustification. rewrite unmarshal_members by (done || by apply payload_wf).
  unfold validJustification in *. destruct (String.eqb_spec (trim_space j) "") as [|Hne]; [discriminate|].
  unfold payload_members, omit_empty. rewrite (proj2 (String.eqb_neq _ _) Hne) in *. cbn [app].
  next_member. rewrite fold_unknown by reflexivity. cbn [map fold_left].
  rewrite trim_space_idem by done. rewrite (proj2 (String.eqb_neq _ _) Hne). cbn [orb] in *.
  destruct (4096 <? _); [discriminate|done].
Qed.

(** * Backup events *)

(** A manifest whose fields JSON can carry. *)
Definition manifest_ok (m : BackupManifest) : bool :=
  valid_utf8 m.(B_Filename) && time_ok m.(B_CreatedAt) && in_int64 m.(B_Bytes) && valid_utf8 m.(B_SHA256)
  && valid_utf8 m.(B_SQLiteVersion) && valid_utf8 m.(B_IntegrityCheck) && valid_utf8 m.(B_ForeignKeys)
  && valid_utf8 m.(B_Application).

Lemma manifest_payload m p : manifest_ok m = true → p = default "" (marshal_manifest m) → valid p = true →
  unmarshal_struct false manifest_fields p zero_manifest = Some m.
Proof.
  unfold manifest_ok. intros Hm -> Hv. bool_hyps. destruct m as [f c b s q i k a r].
  cbn [B_Filename B_CreatedAt B_Bytes B_SHA256 B_SQLiteVersion B_IntegrityCheck B_ForeignKeys B_Application B_AuditRecorded] in *.
  unfold marshal_manifest, manifest_members in *.
  cbn [B_Filename B_CreatedAt B_Bytes B_SHA256 B_SQLiteVersion B_IntegrityCheck B_ForeignKeys B_Application B_AuditRecorded] in *.
  rewrite jtime_ok in * by done. cbn [fmap option_fmap option_map mbind option_bind default from_option] in *.
  unfold Datatypes.id in *. rewrite unmarshal_members; [|clear Hv; wf_members|exact Hv]. clear Hv.
  do 8 next_member. destruct r; next_member; reflexivity.
Qed.

(** The strings of a manifest that was read are UTF-8. *)
Lemma manifest_strings p m : unmarshal_struct false manifest_fields p zero_manifest = Some m →
  valid_utf8 m.(B_Filename) = true ∧ valid_utf8 m.(B_SHA256) = true.
Proof.
  apply (unmarshal_keeps (λ m, valid_utf8 m.(B_Filename) = true ∧ valid_utf8 m.(B_SHA256) = true)); [done|]. unfold manifest_fields. decoded_strings.
Qed.

Lemma download_payload m artifact : valid_utf8 m.(B_Filename) = true → valid_utf8 m.(B_SHA256) = true →
  in_int64 m.(B_Bytes) = true → valid_utf8 artifact = true → valid (print (download_detail m artifact)) = true →
  unmarshal_struct false download_fields (print (download_detail m artifact)) (mkDownload "" "" 0 "")
  = Some (mkDownload m.(B_Filename) m.(B_SHA256) m.(B_Bytes) artifact).
Proof.
  intros H1 H2 H3 H4 Hv. unfold download_detail in *.
  rewrite unmarshal_members; [|clear Hv; wf_members|exact Hv]. repeat next_member. reflexivity.
Qed.
