(* ===== verification/Invariant.v ===== *)
(** What the journal and the tables of a store have in common at every moment.

    [db_inv] says that every maintenance row is what the replay of its events gives ([consistent]),
    that rows refer to existing maintenances, that no lock is held twice and that the global events
    are well-formed.  [inv_verifies] derives from it that the verifier accepts the database;
    [inv_append] reduces the preservation of the invariant by an operation to the maintenance the
    operation changes. *)
From S2P Require Import Prelude Utf8 Json JsonText Strconv GoTime Sha256 JsonDecode Text Errors Values Lifecycle Db Model Events Mutations Verify.
Local Open Scope Z_scope.

(** * Views *)

Definition row_replay (t : target_row) : replayTarget := mkReplayTarget t.(t_state) t.(t_version) t.(t_original_state).

Definition row_view (t : target_row) : string * (string * (string * (string * (option string * string)))) :=
  (t.(t_lock_key), (t.(t_original_state), (t.(t_kind), (t.(t_host), (t.(t_observed_at), t.(t_metadata)))))).

Definition input_view (c : captureTarget) : string * (string * (string * (string * (option string * string)))) :=
  (c.(CT_LockKey), (c.(CT_OriginalState), (c.(CT_Kind), (c.(CT_Host), (format <$> c.(CT_ObservedAt), c.(CT_Metadata)))))).

(** The text a captured observation time is stored as is read back as the same instant. *)
Definition observed_ok (c : captureTarget) : Prop :=
  match c.(CT_ObservedAt) with Some t => parse_or_zero (format t) = t | None => True end.

(** Every saved capture is such that its observation times survive being stored. *)
Definition observations_kept (d : db) : Prop :=
  ∀ mid row l, d.(captures) !! mid = Some row → parseCaptureTargets row.(c_payload) = Ok l → Forall observed_ok l.

Lemma observed_years c t : c.(CT_ObservedAt) = Some t → time_ok t = true → observed_ok c.
Proof. unfold observed_ok. intros ->. apply parse_or_zero_format. Qed.

Definition is_exercise (e : event_row) : bool := String.eqb e.(e_type) "target.transitioned".

(** * The invariant *)

(** What a maintenance's capture row says. *)
Definition capture_view (cap : option capture_row) (has : bool) (hash : string) (l : list captureTarget) : Prop :=
  match cap with
  | None => has = false ∧ hash = "" ∧ l = []
  | Some row =>
    has = true ∧ hash = row.(c_sha256) ∧ row.(c_sha256) = sha256_hex row.(c_payload)
    ∧ canonicalJSON row.(c_payload) = Ok row.(c_payload) ∧ parseCaptureTargets row.(c_payload) = Ok l
  end.

Record agrees (mid : string) (row : maintenance_row) (has : bool) (l : list captureTarget)
    (ts : gmap string target_row) (evs : list event_row) (r : replayMaintenance) : Prop := {
  ag_state : r.(r_state) = row.(m_state);
  ag_revision : r.(r_revision) = row.(m_version);
  ag_captured : r.(r_captured) = has;
  ag_created : ∃ c, r.(r_created) = Some c ∧ c.(M_ID) = mid ∧ c.(M_ChangeTicket) = row.(m_change_ticket)
    ∧ c.(M_WorkflowVersion) = row.(m_workflow_version) ∧ c.(M_Metadata) = row.(m_metadata)
    ∧ c.(M_CreatedAt) = parse_or_zero row.(m_created_at);
  ag_targets : row_replay <$> ts = r.(r_targets);
  ag_inputs : row_view <$> ts = input_view <$> inputs_of l;
  ag_physical : r.(r_physical) = existsb is_exercise evs;
  ag_version : 0 < row.(m_version);
  ag_new : row.(m_state) = "new" → has = false
}.

Definition lock_inv (d : db) : Prop :=
  ∀ m1 t1 r1 m2 t2 r2,
    d.(targets) !! (m1, t1) = Some r1 → d.(targets) !! (m2, t2) = Some r2 → r1.(t_lock_key) = r2.(t_lock_key) →
    active d m1 = true → active d m2 = true → m1 = m2.

Section invariant.
Context `{SQLite}.

Definition consistent (mid : string) (row : maintenance_row) (cap : option capture_row) (evs : list event_row)
    (ts : gmap string target_row) : Prop :=
  ∃ has hash l r, capture_view cap has hash l ∧ replay_rows l hash has empty_replay evs = Ok r
    ∧ agrees mid row has l ts evs r.

Record db_inv (d : db) : Prop := {
  inv_schema : verifyRequiredSchema d.(db_schema) = Ok ();
  inv_ids : ∀ i e, d.(journal) !! i = Some e → e.(e_id) = Z.of_nat i + 1;
  inv_capture_owner : ∀ mid, is_Some (d.(captures) !! mid) → is_Some (d.(maintenance) !! mid);
  inv_target_owner : ∀ mid tid, is_Some (d.(targets) !! (mid, tid)) → is_Some (d.(maintenance) !! mid);
  inv_event_owner : ∀ mid, events_of mid d.(journal) ≠ [] → is_Some (d.(maintenance) !! mid);
  inv_locks : lock_inv d;
  inv_maintenance : ∀ mid row, d.(maintenance) !! mid = Some row →
    consistent mid row (d.(captures) !! mid) (events_of mid d.(journal)) (slice mid d.(targets));
  inv_global : check_all verify_global_row (global_events d.(journal)) = Ok ()
}.

(** * The replay of a growing journal *)

Lemma replay_rows_snoc l hash has evs e : ∀ r,
  replay_rows l hash has r (evs ++ [e]) = (r' ← replay_rows l hash has r evs; replay_row l hash has r' e).
Proof.
  induction evs as [|e' evs IH]; intros r; cbn [app replay_rows].
  - cbn. by destruct (replay_row l hash has r e).
  - destruct (replay_row l hash has r e') as [r1|]; [cbn; apply IH|done].
Qed.

Lemma replay_row_ok l hash has r e : validateEventShape (scanEvent e) = Ok () →
  replay_row l hash has r e = match replay_apply l hash has r (scanEvent e) with
    | Ok r' => Ok r'
    | Err x => Err (EWrapped ErrCorrupt ("event " +:+ format_int (scanEvent e).(E_ID) +:+ ": " +:+ error_text x))
    end.
Proof. unfold replay_row. by intros ->. Qed.

(** Events replayed without a capture replay the same whatever the capture. *)
Lemma replay_uncaptured l hash has evs : ∀ r r',
  replay_rows [] "" false r evs = Ok r' → replay_rows l hash has r evs = Ok r'.
Proof.
  induction evs as [|e evs IH]; intros r r'; cbn [replay_rows]; [done|].
  intros (r1 & H1 & H2)%bind_ok. apply bind_ok. exists r1. split; [|by apply IH].
  unfold replay_row, replay_apply in *.
  destruct (String.eqb (E_Type (scanEvent e)) "maintenance.captured") eqn:Ht; [|exact H1].
  bool_hyps. rewrite Ht in *. cbn [String.eqb] in *.
  destruct (validateEventShape (scanEvent e)); cbn in H1; discriminate H1.
Qed.

(** * The captured targets *)

Lemma check_targets_ids l : ∀ seen l', check_targets seen l = Ok l' →
  NoDup (map CT_TargetID l') ∧ Forall (λ t, (CT_TargetID t ∉ seen) ∧ validID (CT_TargetID t) = true) l'.
Proof.
  induction l as [|t l IH]; intros seen l'; cbn [check_targets].
  - intros [= <-]. split; constructor.
  - intros (t' & Ht & (ts & Hts & [= <-])%bind_ok)%bind_ok.
    apply IH in Hts as [Hnd Hf].
    assert (CT_TargetID t' = CT_TargetID t ∧ (CT_TargetID t ∉ seen) ∧ validID (CT_TargetID t) = true) as (Hid & Hns & Hv).
    { unfold check_target in Ht. case_if; [discriminate|]. do 3 (case_if; [discriminate|]).
      apply bind_ok in Ht as (md & _ & Ht). case_if; [discriminate|]. injection Ht as <-. cbn. bool_hyps.
      split_and!; [done| |done]. intros Hin.
      enough (existsb (String.eqb (CT_TargetID t)) seen = true) by congruence.
      apply existsb_exists. exists (CT_TargetID t). split; [by apply list_elem_of_In|apply String.eqb_refl]. }
    rewrite <-Hid in *. split.
    + cbn [map]. apply NoDup_cons. split; [|done]. intros (x & Hx & Hin)%list_elem_of_fmap.
      rewrite Forall_forall in Hf. destruct (Hf x Hin) as [Hn _]. apply Hn. rewrite <-Hx. left.
    + constructor; [done|]. eapply Forall_impl; [exact Hf|]. cbn. intros x [Hx ?]. split; [|done]. by intros ?; apply Hx; right.
Qed.

Lemma parseCaptureTargets_ids payload l : parseCaptureTargets payload = Ok l →
  NoDup (map CT_TargetID l) ∧ Forall (λ t, validID (CT_TargetID t) = true) l.
Proof.
  unfold parseCaptureTargets. destruct (unmarshal_struct _ _ _ _); [|discriminate].
  case_if; [intros [= <-]; split; constructor|].
  destruct (unmarshal_slice _ _ _) as [[l0|]|]; try discriminate.
  intros [Hnd Hf]%check_targets_ids. split; [done|]. eapply Forall_impl; [exact Hf|]. by intros x [_ ?].
Qed.

Lemma size_inputs_of l : NoDup (map CT_TargetID l) → size (inputs_of l) = length l.
Proof.
  unfold inputs_of.
  assert (Hgen : ∀ m : gmap string captureTarget, NoDup (map CT_TargetID l) → Forall (λ t, m !! CT_TargetID t = None) l →
    size (fold_left (λ m t, <[CT_TargetID t := t]> m) l m) = (size m + length l)%nat).
  { induction l as [|t l IH]; intros m; cbn [map fold_left]; [intros; cbn; lia|].
    intros [Hni Hnd]%NoDup_cons [Ht Hl]%Forall_cons. rewrite IH; [|done|].
    - rewrite map_size_insert_None by done. cbn. lia.
    - apply Forall_forall. intros x Hx. rewrite Forall_forall in Hl. rewrite lookup_insert_ne; [auto|].
      intros Heq. apply Hni. rewrite Heq. by apply list_elem_of_fmap_2. }
  intros Hnd. rewrite Hgen; [by rewrite map_size_empty|done|]. apply Forall_forall. intros. apply lookup_empty.
Qed.

Lemma replay_captured_inputs l :
  replay_captured l ∅ = (λ t, mkReplayTarget (captured_state t.(CT_OriginalState)) 1 t.(CT_OriginalState)) <$> inputs_of l.
Proof.
  unfold inputs_of. rewrite <-(fmap_empty (λ t, mkReplayTarget (captured_state t.(CT_OriginalState)) 1 t.(CT_OriginalState))) at 1.
  generalize (∅ : gmap string captureTarget) as m. induction l as [|t l IH]; intros m; cbn [fold_left]; [done|].
  rewrite <-IH, fmap_insert. done.
Qed.

Lemma inputs_of_lookup l tid c : inputs_of l !! tid = Some c → c ∈ l.
Proof.
  unfold inputs_of. enough (∀ m : gmap string captureTarget, fold_left (λ m t, <[CT_TargetID t := t]> m) l m !! tid = Some c →
    c ∈ l ∨ m !! tid = Some c) as Hg.
  { intros [?|Hc]%Hg; [done|]. by rewrite lookup_empty in Hc. }
  induction l as [|t l IH]; intros m; cbn [fold_left]; [auto|]. intros [Hin|Hm]%IH; [left; by right|].
  rewrite lookup_insert in Hm. case_decide; [left; injection Hm as <-; left|by right].
Qed.

(** Captured targets with different ids are all there. *)
Lemma inputs_of_member l c : NoDup (map CT_TargetID l) → c ∈ l → inputs_of l !! CT_TargetID c = Some c.
Proof.
  unfold inputs_of. enough (∀ m : gmap string captureTarget, NoDup (map CT_TargetID l) →
    (c ∈ l → fold_left (λ m t, <[CT_TargetID t := t]> m) l m !! CT_TargetID c = Some c)
    ∧ ∀ tid, tid ∉ map CT_TargetID l → fold_left (λ m t, <[CT_TargetID t := t]> m) l m !! tid = m !! tid) as Hg by (intros; by apply Hg).
  induction l as [|t l IH]; intros m Hnd; cbn [fold_left map] in *; [split; [by intros ?%elem_of_nil|done]|].
  apply NoDup_cons in Hnd as [Hni Hnd]. destruct (IH (<[CT_TargetID t := t]> m) Hnd) as [IH1 IH2]. split.
  - intros [->|Hin]%elem_of_cons; [|by apply IH1]. rewrite IH2 by done. apply lookup_insert_eq.
  - intros tid [Hne Hn]%not_elem_of_cons. rewrite IH2 by done. by apply lookup_insert_ne.
Qed.

(** * What the verifier says of a database that satisfies the invariant *)

Lemma check_all_ok {A} (f : A → result error ()) l : (∀ a, a ∈ l → f a = Ok ()) → check_all f l = Ok ().
Proof.
  induction l as [|a l IH]; intros Hf; cbn [check_all]; [done|]. rewrite (Hf a) by left. cbn. apply IH.
  intros b Hb. apply Hf. by right.
Qed.

Lemma check_all_iff {A} (f : A → result error ()) l : check_all f l = Ok () ↔ ∀ a, a ∈ l → f a = Ok ().
Proof.
  split; [|apply check_all_ok]. induction l as [|b l IH]; [by intros _ a ?%elem_of_nil|]. cbn [check_all].
  intros ([] & Hb & Hl)%bind_ok a [->|Ha]%elem_of_cons; [done|by apply IH].
Qed.

Lemma elem_of_maintenance_ids d mid : mid ∈ maintenance_ids d ↔ is_Some (d.(maintenance) !! mid).
Proof.
  unfold maintenance_ids. rewrite merge_sort_Permutation, list_elem_of_fmap. split.
  - intros ([m row] & -> & Hin%elem_of_map_to_list). eauto.
  - intros [row Hrow]. exists (mid, row). by rewrite elem_of_map_to_list.
Qed.

Lemma length_same {A} (l : list A) : NoDup l → (∀ a b, a ∈ l → b ∈ l → a = b) → (length l ≤ 1)%nat.
Proof.
  destruct l as [|a [|b l]]; cbn; [lia..|]. intros [Hn _]%NoDup_cons Hs. exfalso. apply Hn.
  rewrite (Hs a b); [left|left|right; left].
Qed.

Lemma lock_owner_unique d lock a b : lock_inv d → a ∈ lock_owners d lock → b ∈ lock_owners d lock → a = b.
Proof.
  intros Hl (t1 & r1 & H1 & E1 & A1)%elem_of_lock_owners (t2 & r2 & H2 & E2 & A2)%elem_of_lock_owners.
  eapply Hl; eauto. congruence.
Qed.

Lemma locks_verify d : lock_inv d → verifyLockExclusivity d = Ok ().
Proof.
  intros Hl. unfold verifyLockExclusivity, overlapping_locks. generalize (remove_dups (map (λ kt : (string * string) * target_row, t_lock_key kt.2) (map_to_list (targets d)))) as l.
  intros l. replace (List.filter _ l) with (@nil string); [done|]. symmetry.
  induction l as [|lock l IH]; cbn [List.filter]; [done|]. rewrite IH.
  rewrite (proj2 (Nat.ltb_ge _ _)); [done|]. apply length_same; [apply NoDup_remove_dups|].
  intros a b Ha Hb. rewrite elem_of_remove_dups in Ha, Hb. by eapply lock_owner_unique.
Qed.

Lemma capture_view_load d mid has hash l : capture_view (d.(captures) !! mid) has hash l →
  ∃ o, loadCaptureForVerify d mid = Ok o ∧ match o with
    | None => has = false ∧ hash = "" ∧ l = []
    | Some (c, l') => has = true ∧ hash = c.(C_SHA256) ∧ l = l'
    end ∧ NoDup (map CT_TargetID l).
Proof.
  unfold capture_view, loadCaptureForVerify. destruct (captures d !! mid) as [row|].
  - intros (-> & -> & Hsha & Hcan & Hp). rewrite Hcan, String.eqb_refl. cbn [negb scanCapture C_SHA256 C_Payload].
    rewrite Hsha, equal_fold_refl. cbn [negb]. rewrite Hp. eexists. split; [done|]. split; [done|].
    by apply parseCaptureTargets_ids in Hp as [? _].
  - intros (-> & -> & ->). exists None. split_and!; [done..|constructor].
Qed.

Lemma captured_observed cap has hash l : capture_view cap has hash l →
  (∀ crow l', cap = Some crow → parseCaptureTargets crow.(c_payload) = Ok l' → Forall observed_ok l') ↔ Forall observed_ok l.
Proof.
  unfold capture_view. destruct cap as [row|].
  - intros (_ & _ & _ & _ & Hp). split; [intros Hall; by apply (Hall row)|]. intros Hl crow l' [= <-] Hp'. congruence.
  - intros (_ & _ & ->). by split.
Qed.

Lemma listTargets_length d mid : length (listTargets d mid) = size (slice mid d.(targets)).
Proof. unfold listTargets. rewrite length_map, targets_of_perm. apply length_map_to_list. Qed.

Lemma observed_same c : sameTime (parse_or_zero <$> (format <$> c.(CT_ObservedAt))) c.(CT_ObservedAt) = true ↔ observed_ok c.
Proof. unfold observed_ok. destruct (CT_ObservedAt c) as [t|]; [|done]. apply Z.eqb_eq. Qed.

(** A target row that agrees with its capture and the replay passes the comparison exactly when
    its observation time survived. *)
Lemma target_agrees mid tid row l (ts : gmap string target_row) r :
  row_view <$> ts = input_view <$> inputs_of l → row_replay <$> ts = r.(r_targets) → ts !! tid = Some row →
  ∃ c, inputs_of l !! tid = Some c ∧ (target_matches (inputs_of l) r (scanTarget mid tid row) = true ↔ observed_ok c).
Proof.
  intros Hi Hr Ht. unfold target_matches. cbn [scanTarget T_ID].
  assert (Hv : (row_view <$> ts) !! tid = (input_view <$> inputs_of l) !! tid) by by rewrite Hi.
  rewrite !lookup_fmap, Ht in Hv. cbn in Hv. destruct (inputs_of l !! tid) as [c|] eqn:Hc; [|discriminate Hv].
  exists c. split; [done|]. rewrite <-Hr, lookup_fmap, Ht. cbn [fmap option_fmap option_map].
  cbn in Hv. injection Hv as H1 H2 H3 H4 H5 H6.
  unfold scanTarget. cbn [T_LockKey T_OriginalState T_Kind T_Host T_ObservedAt T_Metadata T_State T_Version row_replay rt_state rt_version].
  rewrite H1, H2, H3, H4, H5, H6, !String.eqb_refl, Z.eqb_refl, <-observed_same. by rewrite !andb_true_r, !andb_true_l.
Qed.

Lemma maintenance_verifies d mid row : d.(maintenance) !! mid = Some row →
  consistent mid row (d.(captures) !! mid) (events_of mid d.(journal)) (slice mid d.(targets)) →
  verifyMaintenanceReplay d mid = Ok () ↔
  (∀ crow l, d.(captures) !! mid = Some crow → parseCaptureTargets crow.(c_payload) = Ok l → Forall observed_ok l).
Proof.
  intros Hrow (has & hash & l & r & Hcap & Hreplay & Hag). unfold verifyMaintenanceReplay. rewrite Hrow.
  destruct (capture_view_load d mid has hash l Hcap) as (o & -> & Ho & Hnd). cbn [mbind result_bind].
  assert (match o with Some _ => true | None => false end = has ∧ match o with Some (_, l) => l | None => [] end = l
    ∧ match o with Some (c, _) => C_SHA256 c | None => "" end = hash) as (-> & -> & ->).
  { destruct o as [[c l']|]; destruct Ho as (-> & -> & ->); done. }
  rewrite Hreplay. cbn [mbind result_bind]. destruct Hag as [Hst Hrev Hc (c & Hcr & Hid & Htk & Hwf & Hmd & Hat) Hts Hin _ _ _].
  replace (maintenance_matches _ _ _ _) with true.
  2:{ unfold maintenance_matches. rewrite Hcr, Hst, Hrev, Hc, Hid, Htk, Hwf, Hmd, Hat. cbn [scanMaintenance M_ID M_State M_Version M_ChangeTicket M_WorkflowVersion M_Metadata M_CreatedAt].
      rewrite !String.eqb_refl, !Z.eqb_refl, Bool.eqb_reflx. destruct (events_of mid (journal d)); [|done].
      cbn in Hreplay. injection Hreplay as <-. discriminate Hcr. }
  cbn [negb corrupt mbind result_bind]. rewrite listTargets_length.
  replace (size (r_targets r)) with (size (slice mid (targets d))) by by rewrite <-Hts, map_size_fmap.
  replace (length l) with (size (slice mid (targets d))).
  2:{ rewrite <-(size_inputs_of l) by done. rewrite <-(map_size_fmap row_view), Hin. apply map_size_fmap. }
  rewrite Nat.eqb_refl. cbn [negb orb corrupt mbind result_bind].
  rewrite check_all_iff, (captured_observed _ _ _ _ Hcap), Forall_forall. unfold listTargets. split.
  - intros Hall c0 Hc0. pose proof (inputs_of_member l c0 Hnd Hc0) as Hi.
    assert (is_Some (slice mid (targets d) !! CT_TargetID c0)) as [trow Ht].
    { apply (fmap_is_Some row_view). rewrite <-lookup_fmap, Hin, lookup_fmap, Hi. eauto. }
    destruct (target_agrees mid _ trow l _ r Hin Hts Ht) as (c1 & Hc1 & Hm). rewrite Hi in Hc1. injection Hc1 as <-.
    apply Hm. specialize (Hall (scanTarget mid (CT_TargetID c0) trow)). unfold corrupt in Hall.
    destruct (target_matches _ _ _); [done|]. discriminate Hall.
    apply list_elem_of_fmap. exists (CT_TargetID c0, trow). split; [done|]. by rewrite targets_of_perm, elem_of_map_to_list.
  - intros Hall t Ht. apply list_elem_of_fmap in Ht as ([tid trow] & -> & Hin'). rewrite targets_of_perm, elem_of_map_to_list in Hin'.
    destruct (target_agrees mid tid trow l _ r Hin Hts Hin') as (c1 & Hc1 & Hm). rewrite (proj2 Hm); [done|].
    by apply Hall, (inputs_of_lookup l tid).
Qed.

(** The verifier accepts what satisfies the invariant exactly when the observation times of every
    capture survived. *)
Lemma inv_verifies d : db_inv d → verifyApplicationData d = Ok () ↔ observations_kept d.
Proof.
  intros Hd. unfold verifyApplicationData, observations_kept. rewrite (inv_schema _ Hd). cbn [mbind result_bind].
  rewrite locks_verify by apply Hd. cbn [mbind result_bind].
  transitivity (check_all (verifyMaintenanceReplay d) (maintenance_ids d) = Ok ()).
  { destruct (check_all _ (maintenance_ids d)) as [[]|]; [|done]. cbn. unfold verifyGlobalEvents. by rewrite (inv_global _ Hd). }
  rewrite check_all_iff. split.
  - intros Hall mid crow l Hc. destruct (inv_capture_owner _ Hd mid) as [row Hrow]; [by rewrite Hc|]. revert Hc.
    apply maintenance_verifies with row; [done|by apply (inv_maintenance _ Hd)|]. apply Hall. by apply elem_of_maintenance_ids.
  - intros Hall mid [row Hrow]%elem_of_maintenance_ids. apply (maintenance_verifies d mid row); [done|by apply (inv_maintenance _ Hd)|].
    apply Hall.
Qed.

(** * Preservation *)

Lemma next_journal_id_spec d : db_inv d → next_journal_id d = Z.of_nat (length d.(journal)) + 1.
Proof.
  intros Hd. unfold next_journal_id. destruct (last (journal d)) as [e|] eqn:E.
  - rewrite last_lookup in E. rewrite (inv_ids _ Hd _ _ E).
    destruct (journal d) as [|x l]; [discriminate E|]. cbn. lia.
  - apply last_None in E. by rewrite E.
Qed.

Lemma ids_snoc d e : db_inv d → e.(e_id) = next_journal_id d →
  ∀ i x, (d.(journal) ++ [e]) !! i = Some x → x.(e_id) = Z.of_nat i + 1.
Proof.
  intros Hd He i x [Hx|[Hge Hx]]%lookup_app_Some; [by apply (inv_ids _ Hd)|].
  apply list_lookup_singleton_Some in Hx as [Hi <-]. rewrite He, next_journal_id_spec by done. lia.
Qed.

Lemma global_events_app l1 l2 : global_events (l1 ++ l2) = global_events l1 ++ global_events l2.
Proof. apply List.filter_app. Qed.

(** An operation on one maintenance that appends one event to its journal. *)
Lemma inv_append d d' mid row e : db_inv d → d'.(db_schema) = d.(db_schema) →
  d'.(journal) = d.(journal) ++ [e] → e.(e_id) = next_journal_id d → e.(e_maintenance_id) = Some mid →
  (∀ m, m ≠ mid → d'.(maintenance) !! m = d.(maintenance) !! m ∧ d'.(captures) !! m = d.(captures) !! m
    ∧ slice m d'.(targets) = slice m d.(targets)) →
  d'.(maintenance) !! mid = Some row →
  consistent mid row (d'.(captures) !! mid) (events_of mid d.(journal) ++ [e]) (slice mid d'.(targets)) →
  lock_inv d' → db_inv d'.
Proof.
  intros Hd Hs Hj Hid He Hf Hrow Hc Hl. constructor.
  - rewrite Hs. apply Hd.
  - rewrite Hj. by apply ids_snoc.
  - intros m Hm. destruct (decide (m = mid)) as [->|Hne]; [eauto|]. destruct (Hf m Hne) as (-> & Hcm & _).
    rewrite Hcm in Hm. by apply (inv_capture_owner _ Hd).
  - intros m t Hm. destruct (decide (m = mid)) as [->|Hne]; [eauto|]. destruct (Hf m Hne) as (-> & _ & Hsm).
    apply (inv_target_owner _ Hd m t). by rewrite <-slice_lookup, <-Hsm, slice_lookup.
  - intros m Hm. destruct (decide (m = mid)) as [->|Hne]; [eauto|]. destruct (Hf m Hne) as (-> & _ & _).
    apply (inv_event_owner _ Hd). rewrite Hj, events_of_app, events_of_one, He in Hm.
    rewrite bool_decide_eq_false_2, app_nil_r in Hm by congruence. done.
  - done.
  - intros m row' Hm. destruct (decide (m = mid)) as [->|Hne].
    + rewrite Hrow in Hm. injection Hm as <-. rewrite Hj, events_of_app, events_of_one, bool_decide_eq_true_2 by done. done.
    + destruct (Hf m Hne) as (Hm' & -> & ->). rewrite Hm' in Hm.
      rewrite Hj, events_of_app, events_of_one, He, bool_decide_eq_false_2, app_nil_r by congruence.
      by apply (inv_maintenance _ Hd).
  - rewrite Hj, global_events_app. unfold global_events at 2. cbn [List.filter]. rewrite He.
    rewrite bool_decide_eq_false_2, app_nil_r by done. apply Hd.
Qed.

(** An operation that appends one global event and changes nothing else. *)
Lemma inv_append_global d e : db_inv d → e.(e_id) = next_journal_id d → e.(e_maintenance_id) = None →
  verify_global_row e = Ok () → db_inv (set_journal (λ l, l ++ [e]) d).
Proof.
  intros Hd Hid He Hv.
  assert (Hev : ∀ m, events_of m (journal (set_journal (λ l, l ++ [e]) d)) = events_of m (journal d)).
  { intros m. cbn [journal set_journal]. rewrite events_of_app, events_of_one, He, bool_decide_eq_false_2, app_nil_r by done. done. }
  constructor; try apply Hd.
  - cbn [journal set_journal]. by apply ids_snoc.
  - intros m. rewrite Hev. apply Hd.
  - intros m row Hm. rewrite Hev. by apply (inv_maintenance _ Hd).
  - cbn [journal set_journal]. rewrite global_events_app. unfold global_events at 2. cbn [List.filter].
    rewrite He, bool_decide_eq_true_2 by done.
    apply check_all_ok. intros x [Hx|Hx]%elem_of_app.
    + pose proof (inv_global _ Hd) as Hg. revert Hx Hg. generalize (global_events (journal d)) as l. clear.
      induction l as [|a l IH]; cbn [check_all]; [by intros ?%elem_of_nil|].
      intros [->|Hx]%elem_of_cons (u & Hu & Hr)%bind_ok; [by destruct u|by apply IH].
    + apply list_elem_of_singleton in Hx as ->. done.
Qed.
End invariant.
