(* ===== verification/Preserve.v ===== *)
(** Every operation that changes the store keeps the invariant of [Invariant].

    For each operation, the effect of the transaction that commits is stated first (which rows it
    changed and which event it appended), then the replay accepts the event and gives the new row. *)
From S2P Require Import Prelude Utf8 Json JsonText Strconv GoTime Sha256 JsonDecode Text Errors Values Lifecycle Db Model Events Mutations JsonSize Verify Payloads Invariant.
Local Open Scope Z_scope.

Section preserve.
Context `{SQLite}.

(** * Shapes of events *)

Lemma reject_false b message : b = false → reject b message = Ok ().
Proof. by intros ->. Qed.

Lemma identity_complete id e : 1 ≤ id → complete e → is_zero e.(E_OccurredAt) = false → valid e.(E_Payload) = true →
  e.(E_Type) ≠ "" → e.(E_ResourceType) ≠ "" → e.(E_ResourceID) ≠ "" →
  (E_ID (with_id id e) <? 1) || String.eqb (E_Type (with_id id e)) "" || is_zero (E_OccurredAt (with_id id e))
  || String.eqb (E_RequestID (with_id id e)) "" || String.eqb (E_Actor (with_id id e)) "" || String.eqb (E_Role (with_id id e)) ""
  || String.eqb (E_ResourceType (with_id id e)) "" || String.eqb (E_ResourceID (with_id id e)) ""
  || negb (valid (E_Payload (with_id id e))) = false.
Proof.
  intros Hid (Ha & Hr & Hq & Hp) Hz Hv Ht Hrt Hri.
  cbn [with_id E_ID E_Type E_OccurredAt E_RequestID E_Actor E_Role E_ResourceType E_ResourceID E_Payload].
  rewrite Hz, Hv, !(proj2 (String.eqb_neq _ _)), (proj2 (Z.ltb_ge _ _)) by done. done.
Qed.

Lemma shape_maintenance id e suffix : 1 ≤ id → complete e → is_zero e.(E_OccurredAt) = false → valid e.(E_Payload) = true →
  e.(E_Type) = "maintenance." +:+ suffix → e.(E_ResourceType) = "maintenance" → e.(E_MaintenanceID) ≠ "" →
  e.(E_ResourceID) = e.(E_MaintenanceID) → e.(E_TargetID) = "" → validateEventShape (with_id id e) = Ok ().
Proof.
  intros Hid Hc Hz Hv Ht Hrt Hm Hri Hti. unfold validateEventShape. rewrite identity_complete; try done; try congruence.
  - cbn [with_id E_Type E_ResourceType E_ResourceID E_MaintenanceID E_TargetID]. rewrite Ht, Hrt, Hri, Hti, !String.eqb_refl.
    rewrite (proj2 (String.eqb_neq _ _) Hm). reflexivity.
  - rewrite Ht. done.
Qed.

Lemma shape_target id e suffix : 1 ≤ id → complete e → is_zero e.(E_OccurredAt) = false → valid e.(E_Payload) = true →
  e.(E_Type) = "target." +:+ suffix → e.(E_ResourceType) = "target" → e.(E_MaintenanceID) ≠ "" →
  e.(E_ResourceID) = e.(E_TargetID) → e.(E_TargetID) ≠ "" → validateEventShape (with_id id e) = Ok ().
Proof.
  intros Hid Hc Hz Hv Ht Hrt Hm Hri Hti. unfold validateEventShape. rewrite identity_complete; try done; try congruence.
  - cbn [with_id E_Type E_ResourceType E_ResourceID E_MaintenanceID E_TargetID]. rewrite Ht, Hrt, Hri, !String.eqb_refl.
    rewrite (proj2 (String.eqb_neq _ _) Hm), (proj2 (String.eqb_neq _ _) Hti). reflexivity.
  - rewrite Ht. done.
Qed.

Lemma shape_backup id type now filename payload audit suffix : 1 ≤ id → is_zero now = false → valid payload = true →
  type = "backup." +:+ suffix → filename ≠ "" →
  validateEventShape (with_id id (backup_event type now filename payload audit)) = Ok ().
Proof.
  intros Hid Hz Hv -> Hf. unfold validateEventShape.
  destruct (auditValues_nonempty audit) as (? & ? & ?).
  rewrite identity_complete; try done. split_and!; try done. cbn. intros ->. discriminate Hv.
Qed.

Lemma next_id_pos d : db_inv d → 1 ≤ next_journal_id d.
Proof. intros Hd. rewrite next_journal_id_spec by done. lia. Qed.

(** The replay of a journal that grew by one event, from the replay of what was there. *)
Lemma replay_append l hash has evs r event id r' : time_ok event.(E_OccurredAt) = true →
  replay_rows l hash has empty_replay evs = Ok r →
  validateEventShape (with_id id event) = Ok () → replay_apply l hash has r (with_id id event) = Ok r' →
  replay_rows l hash has empty_replay (evs ++ [event_row_of event id]) = Ok r'.
Proof.
  intros Ht Hr Hs Ha. rewrite replay_rows_snoc, Hr. cbn [mbind result_bind].
  unfold replay_row. rewrite scan_event_row by done. cbn zeta. rewrite Hs. cbn. by rewrite Ha.
Qed.

Lemma no_targets d mid : db_inv d → d.(maintenance) !! mid = None → slice mid d.(targets) = ∅.
Proof.
  intros Hd Hm. apply map_eq. intros tid. rewrite slice_lookup, lookup_empty.
  destruct (targets d !! (mid, tid)) eqn:E; [|done].
  destruct (inv_target_owner _ Hd mid tid) as [row Hrow]; [eauto|congruence].
Qed.

Lemma no_capture d mid : db_inv d → d.(maintenance) !! mid = None → d.(captures) !! mid = None.
Proof.
  intros Hd Hm. destruct (captures d !! mid) eqn:E; [|done].
  destruct (inv_capture_owner _ Hd mid) as [row Hrow]; [eauto|congruence].
Qed.

Lemma no_events d mid : db_inv d → d.(maintenance) !! mid = None → events_of mid d.(journal) = [].
Proof.
  intros Hd Hm. destruct (events_of mid (journal d)) eqn:E; [done|].
  destruct (inv_event_owner _ Hd mid) as [row Hrow]; [by rewrite E|congruence].
Qed.

(** Locks stay exclusive when no target is new, locks keep their names and no closed maintenance
    becomes active. *)
Lemma lock_inv_mono d d' : lock_inv d →
  (∀ m t r', d'.(targets) !! (m, t) = Some r' →
    ∃ r, d.(targets) !! (m, t) = Some r ∧ r.(t_lock_key) = r'.(t_lock_key) ∧ (active d' m = true → active d m = true)) →
  lock_inv d'.
Proof.
  intros Hl Hf m1 t1 r1 m2 t2 r2 H1 H2 Heq A1 A2.
  destruct (Hf _ _ _ H1) as (s1 & S1 & E1 & B1), (Hf _ _ _ H2) as (s2 & S2 & E2 & B2).
  eapply (Hl m1 t1 s1 m2 t2 s2); eauto. congruence.
Qed.

(** * CreateMaintenance *)

Lemma create_input_ok now m0 m : create_input now m0 = Ok m →
  validID m.(M_ID) = true ∧ m.(M_State) = "new" ∧ m.(M_Version) = 1 ∧ m.(M_CreatedAt) = now ∧ m.(M_UpdatedAt) = now
  ∧ m.(M_ID) = m0.(M_ID) ∧ m.(M_ChangeTicket) = m0.(M_ChangeTicket) ∧ m.(M_WorkflowVersion) = m0.(M_WorkflowVersion)
  ∧ ∃ raw, canonicalJSON raw = Ok m.(M_Metadata).
Proof.
  unfold create_input. set (state := if String.eqb m0.(M_State) "" then "new" else m0.(M_State)).
  case_if; [discriminate|]. case_if; [discriminate|].
  intros (md & Hmd & Hm)%bind_ok. case_if; [discriminate|]. injection Hm as <-.
  cbn. bool_hyps. split_and!; try done. by eapply canonicalJSONDefault_ok.
Qed.

Lemma insert_maintenance_row_ok now m d u d' : insert_maintenance_row now m d = Ok (u, d') →
  d.(maintenance) !! m.(M_ID) = None ∧ d' = set_maintenance <[m.(M_ID) := mkMaintenanceRow (next_rowid d) m.(M_State)
    m.(M_ChangeTicket) m.(M_WorkflowVersion) m.(M_Metadata) m.(M_Version) (format now) (format now)]> d.
Proof.
  unfold insert_maintenance_row. cbn [perform]. unfold no_rows. destruct (insert_maintenance _ _ d) as [d1|] eqn:E; [cbn|by case_if].
  intros [= _ <-]. by apply insert_maintenance_ok in E as [Hn ->].
Qed.

Lemma create_preserves now m0 m audit d res d' : db_inv d → time_ok now = true →
  valid_utf8 m0.(M_ChangeTicket) = true → valid_utf8 m0.(M_WorkflowVersion) = true →
  create_input now m0 = Ok m → create_tx now m audit d = Ok (res, d') → db_inv d'.
Proof.
  intros Hd Ht Htk Hwf Hin Htx.
  apply create_input_ok in Hin as (Hid & Hst & Hv & Hc & Hu & _ & Hm1 & Hm2 & Hmd). rewrite <-Hm1 in Htk. rewrite <-Hm2 in Hwf.
  destruct (validID_spec _ Hid) as (Hne & Hidu & _).
  unfold create_tx in Htx. tx_inv Htx. apply insert_maintenance_row_ok in Htx0 as (Hn & ->).
  assert (Hpay : default "" (marshal_maintenance m) ≠ "").
  { destruct Hmd as [raw Hraw]. destruct (jraw_canonical _ _ Hraw) as (v & Hj & _ & _).
    unfold marshal_maintenance, maintenance_members. rewrite Hj, Hc, Hu, jtime_ok by done.
    by destruct (_ =? 0). }
  destruct (auditValues_nonempty audit) as (Ha1 & Ha2 & Ha3).
  assert (Hcomp : complete (created_event now m audit)) by done.
  apply appendEvent_ok in Htx1 as (-> & Hval & Hz & _ & _); [|done].
  pose proof (created_payload now m _ (conj Hc Hu) Ht Hidu Hst Hv Htk Hwf Hmd eq_refl Hval) as Hdec.
  eapply (inv_append d _ (M_ID m)); [done|reflexivity|reflexivity|reflexivity| | | | |].
  - cbn. unfold nullText. by rewrite (proj2 (String.eqb_neq _ _) Hne).
  - intros m' Hne'. cbn. by rewrite lookup_insert_ne.
  - cbn. apply lookup_insert_eq.
  - exists false, "", [], (mkReplay "new" 1 false ∅ false (Some m)).
    rewrite no_events by done. cbn [captures set_maintenance set_journal targets].
    split; [by rewrite no_capture|]. split.
    + eapply replay_append; [done|reflexivity| |].
      * eapply (shape_maintenance _ _ "created"); try done. by apply (next_id_pos d).
      * unfold replay_apply. cbn -[unmarshal_struct maintenance_fields marshal_maintenance].
        unfold apply_created. cbn -[unmarshal_struct maintenance_fields marshal_maintenance].
        rewrite Hdec, !String.eqb_refl, Hst, Hv, Hc, !Z.eqb_refl. reflexivity.
    + rewrite no_targets by done. constructor; cbn; rewrite ?Hst, ?Hv; try done.
      exists m. by rewrite parse_or_zero_format.
  - eapply lock_inv_mono; [apply (inv_locks _ Hd)|]. intros m' t r Hr. exists r. split_and!; [done..|].
    unfold active. cbn. rewrite lookup_insert_ne; [done|]. intros <-.
    destruct (inv_target_owner _ Hd (M_ID m) t) as [? ?]; [eauto|congruence].
Qed.

(** * CaptureMaintenance *)

Lemma check_locks_ok l d u d' : check_locks l d = Ok (u, d') → d' = d ∧ Forall (λ t, lock_owners d t.(CT_LockKey) = []) l.
Proof.
  induction l as [|t l IH]; cbn [check_locks]; intros Hx; [tx_inv Hx; auto|].
  tx_inv Hx. destruct (lock_owners d (CT_LockKey t)) eqn:E; [|discriminate].
  apply IH in Hx as [-> ?]. auto.
Qed.

Definition insert_row (mid stamp : string) (ts : gmap (string * string) target_row) (c : captureTarget) :=
  <[(mid, c.(CT_TargetID)) := target_row_of stamp c]> ts.

Lemma insert_target_locks mid tid row d d' : lock_inv d → insert_target mid tid row d = Ok d' → lock_inv d'.
Proof.
  intros Hl (Hn & _ & Hf & ->)%insert_target_ok m1 t1 r1 m2 t2 r2 H1 H2 Heq A1 A2.
  rewrite Forall_forall in Hf. change (active d m1 = true) in A1. change (active d m2 = true) in A2.
  cbn in H1, H2. rewrite lookup_insert in H1, H2.
  assert (Ho : ∀ m t r, targets d !! (m, t) = Some r → t_lock_key r = t_lock_key row → active d m = true → m = mid).
  { intros m t r Hr Hk Ha. apply Hf, elem_of_lock_owners. eauto. }
  repeat case_decide; simplify_eq; eauto using eq_sym.
Qed.

Lemma insert_targets_ok mid stamp l : ∀ d u d', insert_targets mid stamp l d = Ok (u, d') →
  d' = set_targets (λ ts, fold_left (insert_row mid stamp) l ts) d ∧ (lock_inv d → lock_inv d').
Proof.
  induction l as [|t l IH]; intros d u d'; cbn [insert_targets fold_left]; intros Hx.
  - tx_inv Hx. by destruct d.
  - tx_inv Hx. apply IH in Hx as [-> Hlx].
    split; [|intros Hd; eapply Hlx, insert_target_locks; done].
    apply insert_target_ok in Htx as (_ & _ & _ & ->). done.
Qed.

Lemma slice_insert_rows mid stamp l : ∀ ts, slice mid ts = ∅ →
  slice mid (fold_left (insert_row mid stamp) l ts) = target_row_of stamp <$> inputs_of l.
Proof.
  intros ts Hts. rewrite <-(fmap_empty (target_row_of stamp)) in Hts. unfold inputs_of. revert Hts.
  generalize (∅ : gmap string captureTarget) as m. revert ts.
  induction l as [|c l IH]; intros ts m Hts; cbn [fold_left]; [done|].
  apply IH. unfold insert_row. by rewrite slice_insert, Hts, fmap_insert.
Qed.

Lemma slice_insert_rows_ne mid m' stamp l : m' ≠ mid → ∀ ts,
  slice m' (fold_left (insert_row mid stamp) l ts) = slice m' ts.
Proof.
  intros Hne. induction l as [|c l IH]; intros ts; cbn [fold_left]; [done|].
  rewrite IH. by apply slice_insert_ne.
Qed.

Lemma capture_input_ok now0 mid capture c l : capture_input now0 mid capture = Ok (c, l) →
  validID mid = true ∧ c.(C_MaintenanceID) = mid ∧ canonicalJSON c.(C_Payload) = Ok c.(C_Payload)
  ∧ c.(C_SHA256) = sha256_hex c.(C_Payload) ∧ parseCaptureTargets c.(C_Payload) = Ok l.
Proof.
  unfold capture_input. case_if; [discriminate|]. bool_hyps.
  intros (p & Hp & (ts & Hts & Hc)%bind_ok)%bind_ok. injection Hc as <- <-. cbn.
  by apply canonicalJSONObject_ok in Hp as (? & _).
Qed.

Lemma capture_count_int64 now mid capture c l : len capture.(C_Payload) ≤ 2 ^ 62 → capture_input now mid capture = Ok (c, l) →
  in_int64 (Z.of_nat (length l)) = true.
Proof. intros Hlen Hin%capture_input_count. unfold len in Hlen. unfold in_int64, int64_min, int64_max. lia. Qed.

Lemma load_maintenance_ok id d m d' : load_maintenance id d = Ok (m, d') →
  d' = d ∧ ∃ row, d.(maintenance) !! id = Some row ∧ m = scanMaintenance id row.
Proof.
  unfold load_maintenance. intros Hx. tx_inv Hx. destruct (maintenance d !! id) eqn:E; [|discriminate Hx].
  tx_inv Hx. eauto.
Qed.

(** What a capture that is new did. *)
Lemma capture_tx_ok now mid c l audit d res d' : capture_tx now mid c l audit d = Ok (res, d') →
  (d' = d ∧ res.(CR_Created) = false ∧ ∃ row, d.(captures) !! mid = Some row ∧ res.(CR_Capture) = scanCapture mid row
     ∧ row.(c_sha256) = c.(C_SHA256) ∧ row.(c_payload) = c.(C_Payload)) ∨
  (∃ row, let d1 := set_maintenance <[mid := set_maintenance_state "captured" (row.(m_version) + 1) now row]>
      (set_targets (λ ts, fold_left (insert_row mid (format c.(C_CapturedAt))) l ts) (set_captures <[mid := capture_row_of c]> d)) in
    d.(maintenance) !! mid = Some row ∧ row.(m_state) = "new" ∧ d.(captures) !! mid = None ∧ (lock_inv d → lock_inv d1)
    ∧ Forall (λ t, lock_owners d t.(CT_LockKey) = []) l
    ∧ appendEvent (captured_event now (scanMaintenance mid row) c (length l) audit) d1 = Ok ((), d')
    ∧ res = mkCaptureResult c true).
Proof.
  unfold capture_tx. intros Hx. tx_inv Hx. apply load_maintenance_ok in Htx as (-> & row & Hrow & ->).
  destruct (captures d !! mid) as [cr|] eqn:Hc.
  - case_if; [|discriminate Hx]. tx_inv Hx. bool_hyps. left. split_and!; [done..|]. by exists cr.
  - right. tx_inv Hx. bool_hyps. cbn [scanMaintenance M_State M_Version] in *. apply check_locks_ok in Htx0 as [-> Hlk].
    apply insert_capture_ok in Htx1 as (_ & _ & ->). apply insert_targets_ok in Htx2 as [-> Hl].
    subst. apply update_maintenance_ok in Htx3 as (row' & Hrow' & _ & ->). cbn in Hrow'. rewrite Hrow in Hrow'. injection Hrow' as <-.
    exists row. destruct x5. split_and!; try done. intros Hd. eapply lock_inv_mono; [apply Hl, Hd|].
    intros m t r Hr. exists r. split_and!; [done..|]. unfold active. cbn.
    destruct (decide (m = mid)) as [->|Hne]; [|by rewrite lookup_insert_ne].
    rewrite Hrow. intros _. unfold holds_locks. by rewrite Htx.
Qed.

(** The identity columns of a row are what the replay saw when it was created. *)
Lemma existsb_snoc {A} (f : A → bool) l a : f a = false → existsb f (l ++ [a]) = existsb f l.
Proof. intros Hf. rewrite existsb_app. cbn. by rewrite Hf, !orb_false_r. Qed.

Lemma capture_preserves now0 now mid c0 c l audit d res d' : db_inv d → time_ok now = true →
  len c0.(C_Payload) ≤ 2 ^ 62 →
  capture_input now0 mid c0 = Ok (c, l) → capture_tx now mid c l audit d = Ok (res, d') → db_inv d'.
Proof.
  intros Hd Ht Hlen Hin Htx. pose proof (capture_count_int64 _ _ _ _ _ Hlen Hin) as Hcount.
  apply capture_input_ok in Hin as (Hid & _ & Hcan & Hsha & Hparse).
  destruct (validID_spec _ Hid) as (Hne & _ & _).
  apply capture_tx_ok in Htx as [(-> & _)|(row & Hrow & Hst & Hnc & Hlk & _ & Happ & _)]; [done|].
  destruct (auditValues_nonempty audit) as (Ha1 & Ha2 & Ha3).
  apply appendEvent_ok in Happ as (-> & Hval & Hz & _ & _); [|done].
  destruct (inv_maintenance _ Hd mid row Hrow) as (has & hash & l0 & r & Hcv & Hreplay & Hag).
  rewrite Hnc in Hcv. destruct Hcv as (-> & -> & ->).
  destruct Hag as [Gst Grev Gcap Gcr Gts Gin Gph Gv Gnew].
  assert (Hts : slice mid (targets d) = ∅) by (eapply fmap_empty_inv; rewrite Gin; done).
  rewrite Hts, fmap_empty in Gts.
  eapply (inv_append d _ mid); [done|reflexivity|reflexivity|reflexivity| | | | |].
  - cbn. unfold nullText. by rewrite (proj2 (String.eqb_neq _ _) Hne).
  - intros m' Hne'. cbn. rewrite !lookup_insert_ne, slice_insert_rows_ne by done. done.
  - cbn. apply lookup_insert_eq.
  - exists true, (C_SHA256 c), l, (mkReplay "captured" (m_version row + 1) true (replay_captured l ∅) (r_physical r) (r_created r)).
    cbn [captures set_maintenance set_targets set_captures set_journal targets]. rewrite lookup_insert_eq, slice_insert_rows by done.
    split; [|split].
    + cbn. by split_and!.
    + eapply replay_append; [done|by apply (replay_uncaptured l (C_SHA256 c) true)| |].
      * eapply (shape_maintenance _ _ "captured"); try done. by apply (next_id_pos d).
      * unfold replay_apply. cbn -[capture_detail capture_detail_fields].
        unfold apply_captured. cbn -[capture_detail capture_detail_fields].
        rewrite Gcap, Gst, Hst, Grev, !Z.eqb_refl. cbn -[capture_detail capture_detail_fields].
        cbn -[capture_detail] in Hval. rewrite Hsha in *.
        rewrite capture_payload by done. rewrite String.eqb_refl, Z.eqb_refl, <-Gts. reflexivity.
    + constructor; cbn; try done.
      * by rewrite replay_captured_inputs, <-map_fmap_compose.
      * by rewrite <-map_fmap_compose.
      * rewrite existsb_snoc; done.
      * lia.
  - by apply Hlk, Hd.
Qed.
End preserve.
