(* ===== verification/PreserveTransitions.v ===== *)
(** The transitions of maintenances and targets, the observations and the backup events keep the
    invariant of [Invariant]. *)
From S2P Require Import Prelude Utf8 Json JsonText Strconv GoTime Sha256 JsonDecode Text Errors Values Lifecycle Db Model Events Mutations Verify Payloads Invariant Preserve.
Local Open Scope Z_scope.

(** * Where transitions can come from *)

Lemma to_new s : ValidMaintenanceTransition s "new" = true → s = "failed".
Proof.
  intros (a & b & -> & Hb & Hs)%maintenance_table. change "new" with (mname New) in Hb. apply mname_inj in Hb as <-.
  inversion Hs as [? ? Hp| | |]; subst; [inversion Hp|done].
Qed.

Lemma to_cancelled s : ValidMaintenanceTransition s "cancelled" = true → s = "new" ∨ s = "captured".
Proof.
  intros (a & b & -> & Hb & Hs)%maintenance_table. change "cancelled" with (mname Cancelled) in Hb. apply mname_inj in Hb as <-.
  inversion Hs as [? ? Hp|? [-> | ->]| |]; subst; [inversion Hp|auto|auto|done].
Qed.

Lemma to_completed s : ValidMaintenanceTransition s "completed" = true → s = "starting".
Proof.
  intros (a & b & -> & Hb & Hs)%maintenance_table. change "completed" with (mname Completed) in Hb. apply mname_inj in Hb as <-.
  inversion Hs as [? ? Hp| | |]; subst; [inversion Hp; done|done].
Qed.

(** * Guards *)

Lemma filter_nil {A} (f : A → bool) l : List.filter f l = [] ↔ Forall (λ a, f a = false) l.
Proof.
  induction l as [|a l IH]; cbn [List.filter]; [done|]. rewrite Forall_cons. destruct (f a); [|tauto].
  split; [discriminate|by intros [[=] _]].
Qed.

Lemma existsb_false {A} (f : A → bool) l : existsb f l = false ↔ Forall (λ a, f a = false) l.
Proof. induction l as [|a l IH]; cbn [existsb]; [done|]. by rewrite Forall_cons, orb_false_iff, IH. Qed.

Section transitions.
Context `{SQLite}.

(** What the guards of [TransitionMaintenance] establish. *)
Record guard_facts (d : db) (m : Maintenance) (change : StateChange) (role : string) : Prop := {
  gf_failed : m.(M_State) = "failed" → isAdmin role = true ∧ validJustification change.(SC_Justification) = Ok ()
    ∧ (d.(captures) !! m.(M_ID) = None → change.(SC_State) = "new")
    ∧ (is_Some (d.(captures) !! m.(M_ID)) →
        change.(SC_State) ≠ "new" ∧ change.(SC_State) ≠ "completed" ∧ change.(SC_State) ≠ "cancelled");
  gf_terminal : m.(M_State) ≠ "failed" → IsMaintenanceTerminal m.(M_State) = false;
  gf_captured : change.(SC_State) = "captured" → m.(M_State) = "failed";
  gf_valid : ValidMaintenanceTransition m.(M_State) change.(SC_State) = true;
  gf_cancel : change.(SC_State) = "cancelled" → m.(M_State) = "captured" →
    existsb is_exercise (events_of m.(M_ID) d.(journal)) = false;
  gf_stopped : change.(SC_State) = "stopped" →
    Forall (λ kt, unresolved kt.2.(t_original_state) kt.2.(t_state) = false) (targets_of d m.(M_ID));
  gf_completed : change.(SC_State) = "completed" → is_Some (d.(captures) !! m.(M_ID)) ∧ targets_of d m.(M_ID) ≠ []
    ∧ Forall (λ kt, targetCompletionAllowed kt.2.(t_original_state) kt.2.(t_state) = true) (targets_of d m.(M_ID))
}.

Lemma check_reopen_ok m change role d u d' : check_reopen m change role d = Ok (u, d') →
  d' = d ∧ isAdmin role = true ∧ validJustification change.(SC_Justification) = Ok ()
  ∧ (d.(captures) !! m.(M_ID) = None → change.(SC_State) = "new")
  ∧ (is_Some (d.(captures) !! m.(M_ID)) →
      change.(SC_State) ≠ "new" ∧ change.(SC_State) ≠ "completed" ∧ change.(SC_State) ≠ "cancelled").
Proof.
  unfold check_reopen, capture_count. intros Hx. tx_inv Hx. destruct x0. split_and!; try done.
  - intros E. rewrite E in *. cbn in *. bool_hyps. by destruct (String.eqb_spec (SC_State change) "new").
  - intros [c E]. rewrite E in *. cbn in *. bool_hyps. split_and!; by intros ?.
Qed.

Lemma validateStoppedBarrier_ok mid d u d' : validateStoppedBarrier mid d = Ok (u, d') →
  d' = d ∧ Forall (λ kt, unresolved kt.2.(t_original_state) kt.2.(t_state) = false) (targets_of d mid).
Proof.
  unfold validateStoppedBarrier. intros Hx. tx_inv Hx. split; [done|]. apply filter_nil.
  apply Nat.eqb_eq in Hx. by apply length_zero_iff_nil.
Qed.

Lemma validateCompletion_ok mid d u d' : validateCompletion mid d = Ok (u, d') →
  d' = d ∧ is_Some (d.(captures) !! mid) ∧ targets_of d mid ≠ []
  ∧ Forall (λ kt, targetCompletionAllowed kt.2.(t_original_state) kt.2.(t_state) = true) (targets_of d mid).
Proof.
  unfold validateCompletion, capture_count. intros Hx. tx_inv Hx.
  destruct (List.filter _ _) as [|[tid row] l] eqn:E; [|discriminate Hx]. tx_inv Hx.
  split_and!; [done|..].
  - destruct (captures d !! mid); [eauto|discriminate].
  - intros Hn. rewrite Hn in Hx. discriminate Hx.
  - apply filter_nil in E. eapply Forall_impl; [exact E|]. intros kt Hk. by apply negb_false_iff in Hk.
Qed.

Lemma transition_guards_ok m change role d u d' : transition_guards m change role d = Ok (u, d') →
  d' = d ∧ guard_facts d m change role.
Proof.
  unfold transition_guards. intros Hx. apply tx_bind_inv in Hx as (u1 & d1 & H1 & Hx).
  assert (d1 = d ∧ (m.(M_State) = "failed" → isAdmin role = true ∧ validJustification change.(SC_Justification) = Ok ()
    ∧ (d.(captures) !! m.(M_ID) = None → change.(SC_State) = "new")
    ∧ (is_Some (d.(captures) !! m.(M_ID)) →
        change.(SC_State) ≠ "new" ∧ change.(SC_State) ≠ "completed" ∧ change.(SC_State) ≠ "cancelled"))
    ∧ (m.(M_State) ≠ "failed" → IsMaintenanceTerminal m.(M_State) = false)) as (-> & Hf & Hnf).
  { destruct (String.eqb_spec m.(M_State) "failed") as [Hs|Hs]; [by apply check_reopen_ok in H1 as (-> & ?)|].
    tx_inv H1. bool_hyps. by split_and!. }
  clear H1. apply tx_bind_inv in Hx as (u2 & d2 & H2 & Hx). tx_inv H2.
  apply tx_bind_inv in Hx as (u3 & d3 & H3 & Hx). tx_inv H3.
  apply tx_bind_inv in Hx as (u4 & d4 & H4 & Hx).
  assert (d4 = d ∧ (change.(SC_State) = "cancelled" → m.(M_State) = "captured" →
    existsb is_exercise (events_of m.(M_ID) d.(journal)) = false)) as [-> Hcan].
  { destruct (String.eqb (SC_State change) "cancelled" && String.eqb (M_State m) "captured") eqn:E.
    2:{ tx_inv H4. split; [done|]. intros E1 E2. by rewrite E1, E2 in E. }
    tx_inv H4. split; [done|]. intros _ _. apply Nat.eqb_eq, length_zero_iff_nil, filter_nil in H4. by apply existsb_false. }
  clear H4. apply tx_bind_inv in Hx as (u5 & d5 & H5 & Hx).
  assert (d5 = d ∧ (change.(SC_State) = "stopped" →
    Forall (λ kt, unresolved kt.2.(t_original_state) kt.2.(t_state) = false) (targets_of d m.(M_ID)))) as [-> Hstop].
  { destruct (String.eqb_spec (SC_State change) "stopped"); [by apply validateStoppedBarrier_ok in H5 as [-> ?]|].
    tx_inv H5. done. }
  assert (d' = d ∧ (change.(SC_State) = "completed" → is_Some (d.(captures) !! m.(M_ID)) ∧ targets_of d m.(M_ID) ≠ []
    ∧ Forall (λ kt, targetCompletionAllowed kt.2.(t_original_state) kt.2.(t_state) = true) (targets_of d m.(M_ID)))) as [-> Hcomp].
  { destruct (String.eqb_spec (SC_State change) "completed"); [by apply validateCompletion_ok in Hx as (-> & ?)|].
    tx_inv Hx. done. }
  split; [done|]. constructor; try done. intros E. rewrite E in H2. cbn in H2. bool_hyps.
  by destruct (String.eqb_spec (M_State m) "failed").
Qed.

(** A maintenance that passes the guards holds its locks. *)
Lemma guard_active d m change role : guard_facts d m change role →
  negb (String.eqb m.(M_State) "completed" || String.eqb m.(M_State) "cancelled") = true.
Proof.
  intros Hg. destruct (String.eqb_spec (M_State m) "failed") as [->|Hf]; [done|].
  pose proof (gf_terminal _ _ _ _ Hg Hf) as Ht. unfold IsMaintenanceTerminal in Ht. bool_hyps.
  by rewrite !(proj2 (String.eqb_neq _ _)).
Qed.

Lemma seq_ok {A} (m : result error ()) (k b : result error A) : m = Ok () → k = b → (m ;; k) = b.
Proof. by intros -> ->. Qed.

Lemma eventPayload_nonempty detail j : eventPayload detail j ≠ Ok "".
Proof. unfold eventPayload. destruct (parse_all _); [|done]. by destruct (maxJSON <? _). Qed.

(** * The replay of a transition *)

Lemma Forall_replay_targets (P : replayTarget → Prop) r (ts : gmap string target_row) :
  r.(r_targets) = row_replay <$> ts → (∀ tid row, ts !! tid = Some row → P (row_replay row)) →
  Forall P (replay_targets r).
Proof.
  intros Hr HP. unfold replay_targets. rewrite Hr. apply Forall_forall. intros t ([tid t'] & -> & Hin)%list_elem_of_fmap.
  apply elem_of_map_to_list in Hin. rewrite lookup_fmap in Hin. destruct (ts !! tid) eqn:E; [|discriminate Hin].
  injection Hin as <-. cbn. eauto.
Qed.

Lemma Forall_targets_of d mid (P : target_row → Prop) : Forall (λ kt, P kt.2) (targets_of d mid) →
  ∀ tid row, slice mid d.(targets) !! tid = Some row → P row.
Proof.
  intros Hf tid row Hr. rewrite Forall_forall in Hf. apply (Hf (tid, row)).
  by rewrite targets_of_perm, elem_of_map_to_list.
Qed.

(** The state the replay reaches with the event of a transition. *)
Definition replay_transitioned (r : replayMaintenance) (state : string) : replayMaintenance :=
  mkReplay state (r.(r_revision) + 1) r.(r_captured)
    (if r.(r_captured) then bump_replay <$> r.(r_targets) else r.(r_targets)) r.(r_physical) r.(r_created).

Lemma replay_targets_nonempty d mid r : r.(r_targets) = row_replay <$> slice mid d.(targets) →
  targets_of d mid ≠ [] → (length (replay_targets r) =? 0)%nat = false.
Proof.
  intros Hr Hne. apply Nat.eqb_neq. unfold replay_targets. rewrite length_map, length_map_to_list, Hr, map_size_fmap.
  rewrite <-length_map_to_list, <-targets_of_perm. intros Hz. by apply length_zero_iff_nil in Hz.
Qed.

(** The event's type says what the transition was, in the way the replay reads it. *)
Lemma transition_type_spec m change l hash has r e :
  ValidMaintenanceTransition m.(M_State) change.(SC_State) = true → e.(E_Type) = transition_type m change →
  (∃ suffix, transition_type m change = "maintenance." +:+ suffix)
  ∧ String.eqb e.(E_Type) "maintenance.reopened" = String.eqb m.(M_State) "failed"
  ∧ String.eqb e.(E_Type) "maintenance.completed" = String.eqb change.(SC_State) "completed"
  ∧ replay_apply l hash has r e = apply_transition r e ∧ is_exercise (event_row_of e 0) = false.
Proof.
  intros Hv He. unfold replay_apply, is_exercise. cbn [event_row_of e_type]. rewrite He. unfold transition_type.
  destruct (String.eqb_spec (SC_State change) "completed") as [Hc|_].
  - rewrite Hc in Hv. apply to_completed in Hv as ->. split; [by exists "completed"|]. done.
  - destruct (String.eqb (M_State m) "failed"); (split; [eexists; reflexivity|done]).
Qed.

Lemma transition_accepted d m change payload audit now id r :
  guard_facts d m change audit.(Role) →
  r.(r_state) = m.(M_State) → r.(r_revision) = m.(M_Version) → 0 < m.(M_Version) →
  r.(r_captured) = match d.(captures) !! m.(M_ID) with Some _ => true | None => false end →
  r.(r_targets) = row_replay <$> slice m.(M_ID) d.(targets) →
  r.(r_physical) = existsb is_exercise (events_of m.(M_ID) d.(journal)) →
  (m.(M_State) = "new" → r.(r_captured) = false) →
  (m.(M_State) = "failed" → validEventJustification payload = Ok ()) → validTransitionPayload payload = Ok () →
  apply_transition r (with_id id (transitioned_event now m change payload audit))
  = Ok (replay_transitioned r change.(SC_State)).
Proof.
  intros [Gf Gt Gc Gv Gcan Gst Gco] Hs Hr Hpos Hcap Hts Hph Hnew Hj Hp.
  destruct (transition_type_spec m change [] "" false r (with_id id (transitioned_event now m change payload audit)) Gv eq_refl)
    as (_ & Hre & Hcomp & _ & _).
  unfold apply_transition. rewrite Hre, Hcomp. clear Hre Hcomp.
  cbn [with_id transitioned_event E_ToState E_FromState E_FromVersion E_ToVersion E_AggregateVersion E_ResourceType E_TargetID E_Role E_Payload].
  change (Role (auditValues audit)) with (or_system (Role audit)). rewrite Hs, Hr, Hp, or_system_admin.
  apply seq_ok; [|apply seq_ok; [|apply seq_ok; [done|apply seq_ok; [|apply seq_ok; [|apply seq_ok; [|apply seq_ok; [|]]]]]]].
  - rewrite Gv, !String.eqb_refl, !Z.eqb_refl, (proj2 (Z.eqb_neq _ _)) by lia. done.
  - destruct (String.eqb_spec (M_State m) "failed") as [E|E]; [|done].
    destruct (Gf E) as (-> & _ & Hn & Hy). rewrite Hj, Hcap by done.
    destruct (captures d !! M_ID m); [|by rewrite Hn]. destruct Hy as (H1 & H2 & H3); [eauto|].
    by rewrite !(proj2 (String.eqb_neq _ _)).
  - apply reject_false. destruct (String.eqb_spec (SC_State change) "captured") as [E|]; [|done]. by rewrite Gc.
  - apply reject_false. destruct (String.eqb_spec (SC_State change) "cancelled") as [E|]; [|done].
    rewrite E in Gv. apply to_cancelled in Gv as [Hm|Hm]; [by rewrite Hnew|]. by rewrite Hph, Gcan, andb_false_r.
  - destruct (String.eqb_spec (SC_State change) "stopped") as [E|]; [|done].
    replace (List.filter replay_unresolved (replay_targets r)) with (@nil replayTarget); [done|].
    symmetry. apply filter_nil. eapply Forall_replay_targets; [done|]. by apply (Forall_targets_of d (M_ID m)), Gst.
  - destruct (String.eqb_spec (SC_State change) "completed") as [E|]; [|done].
    destruct (Gco E) as (_ & Hne & Hf). apply seq_ok; apply reject_false.
    + cbn. by eapply replay_targets_nonempty.
    + apply existsb_false. eapply Forall_replay_targets; [done|].
      apply (Forall_targets_of d (M_ID m) (λ row, negb (targetCompletionAllowed (t_original_state row) (t_state row)) = false)).
      eapply Forall_impl; [exact Hf|]. by intros kt ->.
  - unfold replay_transitioned. by rewrite Hr.
Qed.

(** * TransitionMaintenance *)

(** The targets of a maintenance after a transition of it. *)
Definition bump_rows (mid : string) (now : Z) : gmap (string * string) target_row → gmap (string * string) target_row :=
  map_imap (λ (k : string * string) row, Some (if String.eqb k.1 mid then bump_target now row else row)).

Lemma bump_slice (b : bool) (mid m' : string) (now : Z) (ts : gmap (string * string) target_row) :
  slice m' (if b then bump_rows mid now ts else ts)
  = if b then (if decide (m' = mid) then bump_target now <$> slice m' ts else slice m' ts) else slice m' ts.
Proof. destruct b; [apply slice_imap|done]. Qed.

(** What a transition that commits did. *)
Lemma transition_tx_ok now id change payload p audit d res d' :
  transition_tx now id change payload p audit d = Ok (res, d') →
  ∃ row, let m := scanMaintenance id row in
    let captured := match d.(captures) !! id with Some _ => true | None => false end in
    let d1 := set_maintenance <[id := set_maintenance_state change.(SC_State) (row.(m_version) + 1) now row]>
      (set_targets (λ ts, if captured then bump_rows id now ts else ts) d) in
    d.(maintenance) !! id = Some row ∧ guard_facts d m change audit.(Role)
    ∧ (p.(Any) = true ∨ row.(m_version) ∈ p.(Versions))
    ∧ appendEvent (transitioned_event now m change payload audit) d1 = Ok ((), d')
    ∧ res = mkAggregate (mkMaintenance id change.(SC_State) m.(M_ChangeTicket) m.(M_WorkflowVersion) m.(M_Metadata)
        (m.(M_Version) + 1) m.(M_CreatedAt) now) (listTargets d' id).
Proof.
  unfold transition_tx, capture_count. intros Hx. tx_inv Hx. apply load_maintenance_ok in Htx as (-> & row & Hrow & ->).
  apply transition_guards_ok in Htx1 as [-> Hg]. exists row. cbn zeta.
  assert (st1 = set_targets (λ ts, if match d.(captures) !! id with Some _ => true | None => false end
    then bump_rows id now ts else ts) d) as ->.
  { destruct (captures d !! id); cbn [Z.eqb Pos.eqb] in Htx2; cbn iota in Htx2; tx_inv Htx2; [by apply update_targets_ok in Htx2|by destruct d]. }
  bool_hyps. subst. apply update_maintenance_ok in Htx3 as (row' & Hrow' & _ & ->). cbn in Hrow'.
  rewrite Hrow in Hrow'. injection Hrow' as <-.
  split_and!; try done; [by eapply require_version_ok|by destruct x5].
Qed.

Lemma transition_preserves now id change payload p audit d res d' : db_inv d → time_ok now = true →
  valid_utf8 change.(SC_Justification) = true → transition_input id change = Ok payload →
  transition_tx now id change payload p audit d = Ok (res, d') → db_inv d'.
Proof.
  intros Hd Ht Hutf Hin Htx. unfold transition_input in Hin. case_if; [discriminate|]. bool_hyps.
  destruct (validID_spec id) as (Hne & _ & _); [done|].
  apply transition_tx_ok in Htx as (row & Hrow & Hg & _ & Happ & _).
  destruct (auditValues_nonempty audit) as (Ha1 & Ha2 & Ha3).
  assert (Hcomp : complete (transitioned_event now (scanMaintenance id row) change payload audit)).
  { split_and!; try done. cbn. intros ->. by apply eventPayload_nonempty in Hin. }
  apply appendEvent_ok in Happ as (-> & Hval & Hz & _ & _); [|done]. cbn [transitioned_event E_Payload] in Hval.
  destruct (inv_maintenance _ Hd id row Hrow) as (has & hash & l & r & Hcv & Hreplay & [Gst Grev Gcap Gcr Gts Gin Gph Gv Gnew]).
  assert (Hhas : has = match captures d !! id with Some _ => true | None => false end).
  { destruct (captures d !! id); by destruct Hcv. }
  assert (Hacc : apply_transition r (with_id (next_journal_id d) (transitioned_event now (scanMaintenance id row) change payload audit))
    = Ok (replay_transitioned r (SC_State change))).
  { apply (transition_accepted d); try done; cbn; try congruence.
    - intros Hf. rewrite Gcap. by apply Gnew.
    - intros Hf. destruct (gf_failed _ _ _ _ Hg Hf) as (_ & Hj & _). by eapply justification_payload.
    - by eapply transition_payload. }
  destruct (transition_type_spec (scanMaintenance id row) change l hash has r
    (with_id (next_journal_id d) (transitioned_event now (scanMaintenance id row) change payload audit)) (gf_valid _ _ _ _ Hg) eq_refl)
    as ((suffix & Hsuf) & _ & _ & Happly & Hex).
  eapply (inv_append d _ id); [done|reflexivity|reflexivity|reflexivity| | | | |].
  - cbn. unfold nullText. by rewrite (proj2 (String.eqb_neq _ _) Hne).
  - intros m' Hne'. cbn. rewrite lookup_insert_ne, bump_slice by done. destruct (captures d !! id); [|done].
    by rewrite decide_False.
  - cbn. apply lookup_insert_eq.
  - exists has, hash, l, (replay_transitioned r (SC_State change)).
    cbn [captures set_maintenance set_targets set_captures set_journal targets]. rewrite bump_slice, <-Hhas, decide_True by done.
    split; [done|split].
    + eapply replay_append; [done|done| |exact (eq_trans Happly Hacc)].
      eapply (shape_maintenance _ _ suffix); try done. by apply (next_id_pos d).
    + constructor; cbn; try done.
      * congruence.
      * rewrite Gcap, <-Gts. destruct has; [|done]. by rewrite <-!map_fmap_compose.
      * rewrite <-Gin. destruct has; [|done]. by rewrite <-map_fmap_compose.
      * rewrite existsb_snoc; done.
      * lia.
      * intros Hnew. pose proof (gf_valid _ _ _ _ Hg) as Hv. rewrite Hnew in Hv. apply to_new in Hv.
        destruct (gf_failed _ _ _ _ Hg Hv) as (_ & _ & _ & Hc). subst has. destruct (captures d !! id) eqn:E; [|done].
        destruct Hc as [Hc _]; [cbn; rewrite E; eauto|done].
  - eapply lock_inv_mono; [apply (inv_locks _ Hd)|]. intros m' t r' Hr. cbn in Hr.
    assert (∃ r0, targets d !! (m', t) = Some r0 ∧ t_lock_key r0 = t_lock_key r') as (r0 & Hr0 & Hk).
    { destruct (captures d !! id); [|eauto]. unfold bump_rows in Hr. rewrite map_lookup_imap in Hr.
      destruct (targets d !! (m', t)) as [r0|]; [|discriminate Hr]. cbn in Hr. injection Hr as <-. exists r0. by case_if. }
    exists r0. split_and!; [done..|]. unfold active. cbn. destruct (decide (m' = id)) as [->|Hne']; [|by rewrite lookup_insert_ne].
    rewrite Hrow. intros _. unfold holds_locks. apply (guard_active _ _ _ _ Hg).
Qed.

(** * TransitionTarget *)

Lemma target_guards_ok m target change role u : target_guards m target change role = Ok u →
  ValidTargetTransition target.(T_State) change.(SC_State) = true
  ∧ (if String.eqb change.(SC_State) "skipped"
     then isAdmin role = true ∧ validJustification change.(SC_Justification) = Ok ()
     else String.eqb target.(T_OriginalState) "degraded" = false ∧ String.eqb target.(T_OriginalState) "unknown" = false
       ∧ String.eqb target.(T_OriginalState) "stopped" = false ∧ targetPhaseAllowed m.(M_State) change.(SC_State) = true).
Proof.
  unfold target_guards. cbn zeta. intros (u1 & H1 & H2)%bind_ok.
  destruct (String.eqb target.(T_State) "healthy" || String.eqb target.(T_State) "skipped"); [discriminate|].
  destruct (ValidTargetTransition _ _); [|discriminate]. split; [done|]. cbn [negb] in H2.
  destruct (String.eqb (SC_State change) "skipped"); cbn [negb andb] in H2.
  - destruct (isAdmin role); [|discriminate]. by destruct u1.
  - destruct (String.eqb (T_OriginalState target) "degraded" || String.eqb (T_OriginalState target) "unknown") eqn:E; [discriminate|].
    apply orb_false_iff in E as [-> ->].
    destruct (String.eqb (T_OriginalState target) "stopped"); [discriminate|]. cbn [andb negb] in H2.
    by destruct (targetPhaseAllowed _ _).
Qed.

Lemma load_target_ok mid tid d t d' : load_target mid tid d = Ok (t, d') →
  d' = d ∧ ∃ row, d.(targets) !! (mid, tid) = Some row ∧ t = scanTarget mid tid row.
Proof.
  unfold load_target. intros Hx. tx_inv Hx. destruct (targets d !! (mid, tid)) eqn:E; [|discriminate Hx].
  tx_inv Hx. eauto.
Qed.

(** What a target transition that commits did. *)
Lemma transition_target_tx_ok now mid tid change payload p audit d res d' :
  transition_target_tx now mid tid change payload p audit d = Ok (res, d') →
  ∃ row trow, let m := scanMaintenance mid row in let target := scanTarget mid tid trow in
    let d1 := set_maintenance <[mid := set_maintenance_version (row.(m_version) + 1) now row]>
      (set_targets <[(mid, tid) := set_target_state change.(SC_State) (trow.(t_version) + 1) now trow]> d) in
    d.(maintenance) !! mid = Some row ∧ d.(targets) !! (mid, tid) = Some trow
    ∧ IsMaintenanceTerminal row.(m_state) = false ∧ target_guards m target change audit.(Role) = Ok ()
    ∧ (p.(Any) = true ∨ trow.(t_version) ∈ p.(Versions))
    ∧ appendEvent (target_event now m target change payload audit) d1 = Ok ((), d')
    ∧ res.(TR_MaintenanceVersion) = row.(m_version) + 1
    ∧ res.(TR_Target).(T_Version) = trow.(t_version) + 1 ∧ res.(TR_Target).(T_State) = change.(SC_State).
Proof.
  unfold transition_target_tx. intros Hx. tx_inv Hx. apply load_maintenance_ok in Htx as (-> & row & Hrow & ->).
  apply load_target_ok in Htx1 as (-> & trow & Htrow & ->). bool_hyps. subst.
  apply update_target_ok in Htx4 as (trow' & Htrow' & _ & ->). rewrite Htrow in Htrow'. injection Htrow' as <-.
  apply update_maintenance_ok in Htx6 as (row' & Hrow' & _ & ->). cbn in Hrow'. rewrite Hrow in Hrow'. injection Hrow' as <-.
  exists row, trow. cbn zeta. repeat match goal with u : () |- _ => destruct u end.
  split_and!; try done. by eapply require_version_ok.
Qed.

(** The state the replay reaches with the event of a target transition. *)
Definition replay_target_moved (r : replayMaintenance) (tid state original : string) (version : Z) : replayMaintenance :=
  mkReplay r.(r_state) (r.(r_revision) + 1) r.(r_captured) (<[tid := mkReplayTarget state (version + 1) original]> r.(r_targets))
    (r.(r_physical) || negb (String.eqb state "skipped")) r.(r_created).

Lemma target_accepted l hash has now id m target change payload audit r :
  target_guards m target change audit.(Role) = Ok () → m.(M_State) = r.(r_state) → m.(M_Version) = r.(r_revision) →
  0 < m.(M_Version) → IsMaintenanceTerminal m.(M_State) = false → target.(T_ID) ≠ "" →
  r.(r_targets) !! target.(T_ID) = Some (mkReplayTarget target.(T_State) target.(T_Version) target.(T_OriginalState)) →
  (change.(SC_State) = "skipped" → validEventJustification payload = Ok ()) → validTransitionPayload payload = Ok () →
  replay_apply l hash has r (with_id id (target_event now m target change payload audit))
  = Ok (replay_target_moved r target.(T_ID) change.(SC_State) target.(T_OriginalState) target.(T_Version)).
Proof.
  intros Hg Hs Hv Hpos Hterm Hne Hr Hj Hp. apply target_guards_ok in Hg as [Hvalid Hg].
  assert (Hd : replay_apply l hash has r (with_id id (target_event now m target change payload audit))
    = apply_target r (with_id id (target_event now m target change payload audit))).
  { unfold replay_apply. cbn. by destruct (String.eqb (SC_State change) "skipped"). }
  rewrite Hd. unfold apply_target. clear Hd.
  cbn [with_id target_event E_Type E_ToState E_FromState E_FromVersion E_ToVersion E_AggregateVersion E_ResourceType E_TargetID E_Role E_Payload].
  change (Role (auditValues audit)) with (or_system (Role audit)). rewrite Hr, or_system_admin, Hp. cbn [rt_state rt_version rt_original].
  apply seq_ok; [|apply seq_ok; [|apply seq_ok; [|apply seq_ok; [done|]]]].
  - rewrite <-Hs, Hterm, <-Hv, (proj2 (String.eqb_neq _ _) Hne), (proj2 (Z.eqb_neq _ _)), Z.eqb_refl by lia. done.
  - by rewrite !String.eqb_refl, !Z.eqb_refl, Hvalid.
  - destruct (String.eqb_spec (SC_State change) "skipped") as [E|].
    + destruct Hg as [-> _]. by rewrite Hj.
    + destruct Hg as (-> & -> & -> & Hph). by rewrite <-Hs, Hph.
  - unfold replay_target_moved. by rewrite Hv.
Qed.

Lemma target_preserves now mid tid change payload p audit d res d' : db_inv d → time_ok now = true →
  valid_utf8 change.(SC_Justification) = true → target_input mid tid change = Ok payload →
  transition_target_tx now mid tid change payload p audit d = Ok (res, d') → db_inv d'.
Proof.
  intros Hd Ht Hutf Hin Htx. unfold target_input in Hin. case_if; [discriminate|]. bool_hyps.
  destruct (validID_spec mid) as (Hne & _ & _); [done|]. destruct (validID_spec tid) as (Hnt & _ & _); [done|].
  apply transition_target_tx_ok in Htx as (row & trow & Hrow & Htrow & Hterm & Hg & _ & Happ & _).
  destruct (auditValues_nonempty audit) as (Ha1 & Ha2 & Ha3).
  assert (Hcomp : complete (target_event now (scanMaintenance mid row) (scanTarget mid tid trow) change payload audit)).
  { split_and!; try done. cbn. intros ->. by apply eventPayload_nonempty in Hin. }
  apply appendEvent_ok in Happ as (-> & Hval & Hz & _ & _); [|done]. cbn [target_event E_Payload] in Hval.
  destruct (inv_maintenance _ Hd mid row Hrow) as (has & hash & l & r & Hcv & Hreplay & [Gst Grev Gcap Gcr Gts Gin Gph Gv Gnew]).
  assert (Hslice : slice mid (targets d) !! tid = Some trow) by by rewrite slice_lookup.
  assert (Hrt : r_targets r !! tid = Some (row_replay trow)) by by rewrite <-Gts, lookup_fmap, Hslice.
  assert (Hacc : replay_apply l hash has r (with_id (next_journal_id d) (target_event now (scanMaintenance mid row) (scanTarget mid tid trow) change payload audit))
    = Ok (replay_target_moved r tid (SC_State change) (t_original_state trow) (t_version trow))).
  { apply target_accepted; try done; cbn; try congruence.
    - intros Hskip. apply target_guards_ok in Hg as [_ Hg]. rewrite Hskip in Hg. cbn in Hg. destruct Hg as [_ Hj].
      by eapply justification_payload.
    - by eapply transition_payload. }
  eapply (inv_append d _ mid); [done|reflexivity|reflexivity|reflexivity| | | | |].
  - cbn. unfold nullText. by rewrite (proj2 (String.eqb_neq _ _) Hne).
  - intros m' Hne'. cbn. by rewrite lookup_insert_ne, slice_insert_ne.
  - cbn. apply lookup_insert_eq.
  - exists has, hash, l, (replay_target_moved r tid (SC_State change) (t_original_state trow) (t_version trow)).
    cbn [captures set_maintenance set_targets set_captures set_journal targets]. rewrite slice_insert.
    split; [done|split].
    + eapply replay_append; [done|done| |exact Hacc].
      eapply (shape_target _ _ (if String.eqb (SC_State change) "skipped" then "skipped" else "transitioned")); try done;
        [by apply (next_id_pos d)|]. cbn. by destruct (String.eqb (SC_State change) "skipped").
    + constructor; cbn; try done.
      * congruence.
      * by rewrite fmap_insert, Gts.
      * rewrite fmap_insert. change (row_view (set_target_state _ _ _ trow)) with (row_view trow).
        rewrite insert_id; [done|]. by rewrite lookup_fmap, Hslice.
      * rewrite existsb_app, <-Gph. cbn. unfold is_exercise. cbn. destruct (String.eqb (SC_State change) "skipped"); by rewrite ?orb_false_r.
      * lia.
  - eapply lock_inv_mono; [apply (inv_locks _ Hd)|]. intros m' t r' Hr. cbn in Hr.
    assert (∃ r0, targets d !! (m', t) = Some r0 ∧ t_lock_key r0 = t_lock_key r') as (r0 & Hr0 & Hk).
    { rewrite lookup_insert in Hr. case_decide; [|eauto]. simplify_eq. eauto. }
    exists r0. split_and!; [done..|]. unfold active. cbn. destruct (decide (m' = mid)) as [->|Hne']; [|by rewrite lookup_insert_ne].
    by rewrite lookup_insert_eq, Hrow.
Qed.

(** * AddObservation *)

Lemma observation_tx_ok now mid tid payload p a d u d' : observation_tx now mid tid payload p a d = Ok (u, d') →
  (d' = d ∧ saved_observation mid tid a.(RequestID) d = Some payload) ∨
  (saved_observation mid tid a.(RequestID) d = None ∧ ∃ row trow,
    d.(maintenance) !! mid = Some row ∧ d.(targets) !! (mid, tid) = Some trow
    ∧ IsMaintenanceTerminal row.(m_state) = false ∧ (p.(Any) = true ∨ trow.(t_version) ∈ p.(Versions))
    ∧ appendEvent (observed_event now mid tid payload a) d = Ok ((), d')).
Proof.
  unfold observation_tx. intros Hx. tx_inv Hx. destruct (saved_observation mid tid (RequestID a) d) as [saved|].
  - tx_inv Hx. bool_hyps. subst. by left.
  - tx_inv Hx. apply load_maintenance_ok in Htx as (-> & row & Hrow & ->).
    apply load_target_ok in Htx0 as (-> & trow & Htrow & ->). bool_hyps. destruct u. right. split; [done|].
    exists row, trow. split_and!; try done. by eapply require_version_ok.
Qed.

Lemma observation_preserves now mid tid payload canonical p audit d u d' : db_inv d → time_ok now = true →
  observation_input mid tid payload = Ok canonical →
  observation_tx now mid tid canonical p (auditValues audit) d = Ok (u, d') → db_inv d'.
Proof.
  intros Hd Ht Hin Htx. unfold observation_input in Hin. case_if; [discriminate|]. bool_hyps.
  apply bind_ok in Hin as (c & Hc & Hin). case_if; [discriminate|]. injection Hin as ->.
  apply canonicalJSONObject_ok in Hc as (Hcan & Hv & Hobj & _).
  destruct (validID_spec mid) as (Hne & _ & _); [done|]. destruct (validID_spec tid) as (Hnt & _ & _); [done|].
  apply observation_tx_ok in Htx as [[-> _]|(_ & row & trow & Hrow & Htrow & Hterm & _ & Happ)]; [done|].
  destruct (auditValues_nonempty audit) as (Ha1 & Ha2 & Ha3).
  assert (Hcomp : complete (observed_event now mid tid canonical (auditValues audit))).
  { split_and!; try done. cbn. intros ->. discriminate Hv. }
  apply appendEvent_ok in Happ as (-> & _ & Hz & _ & _); [|done].
  destruct (inv_maintenance _ Hd mid row Hrow) as (has & hash & l & r & Hcv & Hreplay & Hag).
  pose proof Hag as [Gst Grev Gcap Gcr Gts Gin Gph Gv Gnew].
  assert (Hrt : r_targets r !! tid = Some (row_replay trow)) by by rewrite <-Gts, lookup_fmap, slice_lookup, Htrow.
  eapply (inv_append d _ mid); [done|reflexivity|reflexivity|reflexivity| | |exact Hrow| |exact (inv_locks _ Hd)].
  - cbn. unfold nullText. by rewrite (proj2 (String.eqb_neq _ _) Hne).
  - done.
  - exists has, hash, l, r. split; [done|split].
    + eapply replay_append; [done|done| |].
      * eapply (shape_target _ _ "observed"); try done. by apply next_id_pos.
      * unfold replay_apply. cbn -[canonicalJSONObject]. unfold apply_observed. cbn -[canonicalJSONObject].
        rewrite Gst, Hterm, Hrt, Hobj, String.eqb_refl, (proj2 (String.eqb_neq _ _) Hnt). done.
    + constructor; try done. rewrite existsb_snoc; done.
Qed.

(** * Backup events *)

Lemma backup_created_preserves m audit d u d' : db_inv d → manifest_ok m = true → m.(B_SHA256) ≠ "" → 1 ≤ m.(B_Bytes) →
  appendEvent (backup_event "backup.created" m.(B_CreatedAt) m.(B_Filename) (default "" (marshal_manifest (with_audit m true))) audit) d
  = Ok (u, d') → db_inv d'.
Proof.
  intros Hd Hm Hsha Hb Happ. assert (Ht : time_ok (B_CreatedAt m) = true) by (unfold manifest_ok in Hm; by bool_hyps).
  destruct (auditValues_nonempty audit) as (Ha1 & Ha2 & Ha3).
  assert (Hp : marshal_manifest (with_audit m true) ≠ None).
  { unfold marshal_manifest, manifest_members. cbn [with_audit B_CreatedAt]. by rewrite jtime_ok. }
  apply appendEvent_ok in Happ as (-> & Hval & Hz & Hri & _).
  2:{ split_and!; try done. cbn. destruct (marshal_manifest _) as [pl|] eqn:E; [|done]. cbn.
      unfold marshal_manifest in E. destruct (manifest_members _); [|discriminate]. by injection E as <-. }
  cbn [backup_event E_Payload E_ResourceID E_OccurredAt] in Hval, Hri, Hz.
  apply inv_append_global; [done|done|done|]. unfold verify_global_row. rewrite scan_event_row by done. cbn zeta.
  rewrite (shape_backup _ "backup.created" _ _ _ _ "created"); try done; [|by apply next_id_pos].
  cbn -[unmarshal_struct manifest_fields marshal_manifest].
  rewrite (manifest_payload (with_audit m true)); try done. cbn [with_audit B_Filename B_SHA256 B_Bytes B_AuditRecorded].
  by rewrite String.eqb_refl, (proj2 (String.eqb_neq _ _) Hsha), (proj2 (Z.ltb_ge _ _)).
Qed.

Lemma backup_downloaded_preserves now m artifact audit d u d' : db_inv d → time_ok now = true →
  valid_utf8 m.(B_Filename) = true → valid_utf8 m.(B_SHA256) = true → in_int64 m.(B_Bytes) = true → valid_utf8 artifact = true →
  m.(B_SHA256) ≠ "" → 1 ≤ m.(B_Bytes) → artifact ≠ "" →
  appendEvent (backup_event "backup.downloaded" now m.(B_Filename) (print (download_detail m artifact)) audit) d = Ok (u, d') →
  db_inv d'.
Proof.
  intros Hd Ht H1 H2 H3 H4 Hsha Hb Hart Happ. destruct (auditValues_nonempty audit) as (Ha1 & Ha2 & Ha3).
  apply appendEvent_ok in Happ as (-> & Hval & Hz & Hri & _); [|done].
  cbn [backup_event E_Payload E_ResourceID E_OccurredAt] in Hval, Hri, Hz.
  apply inv_append_global; [done|done|done|]. unfold verify_global_row. rewrite scan_event_row by done. cbn zeta.
  rewrite (shape_backup _ "backup.downloaded" _ _ _ _ "downloaded"); try done; [|by apply next_id_pos].
  cbn -[unmarshal_struct download_fields download_detail].
  rewrite download_payload; try done. cbn [D_Filename D_SHA256 D_Bytes D_Artifact].
  by rewrite String.eqb_refl, (proj2 (String.eqb_neq _ _) Hsha), (proj2 (Z.ltb_ge _ _)), (proj2 (String.eqb_neq _ _) Hart).
Qed.
End transitions.
