(* ===== verification/System.v ===== *)
(** The store as a transition system: an [operation] is one call of a method that writes, with its
    arguments and the instants the clock returned; [reachable] are the states that sequences of
    calls lead to from the initialized schema.  Writers hold the store's mutex for the whole
    transaction, so every interleaving of callers is such a sequence. *)
From S2P Require Import Prelude Utf8 Json JsonText Strconv GoTime Sha256 JsonDecode Text Errors Values Lifecycle Db Model Events Mutations Verify Payloads Invariant Preserve PreserveTransitions.
Local Open Scope Z_scope.

Inductive operation :=
  | OpCreate (now : Z) (m : Maintenance) (audit : AuditContext)
  | OpCapture (now0 now : Z) (mid : string) (c : Capture) (audit : AuditContext)
  | OpTransition (now : Z) (id : string) (change : StateChange) (p : VersionPrecondition) (audit : AuditContext)
  | OpTarget (now : Z) (mid tid : string) (change : StateChange) (p : VersionPrecondition) (audit : AuditContext)
  | OpObserve (now : Z) (mid tid payload : string) (p : VersionPrecondition) (audit : AuditContext)
  | OpBackupCreated (m : BackupManifest) (audit : AuditContext)
  | OpBackupDownload (now : Z) (m : BackupManifest) (artifact : string) (audit : AuditContext).

Section system.
Context `{SQLite}.

(** The outcome of a call, without its value, and the state it leaves. *)
Definition outcome_of {A} (r : result error A * db) : result error () * db :=
  (match r.1 with Ok _ => Ok () | Err e => Err e end, r.2).

Definition run_op (o : operation) (d : db) : result error () * db :=
  match o with
  | OpCreate now m audit => outcome_of (CreateMaintenance now m audit d)
  | OpCapture now0 now mid c audit => outcome_of (CaptureMaintenance now0 now mid c audit d)
  | OpTransition now id change p audit => outcome_of (TransitionMaintenance now id change p audit d)
  | OpTarget now mid tid change p audit => outcome_of (TransitionTarget now mid tid change p audit d)
  | OpObserve now mid tid payload p audit => outcome_of (AddObservation now mid tid payload p audit d)
  | OpBackupCreated m audit => outcome_of (RecordBackupCreated m audit d)
  | OpBackupDownload now m artifact audit => outcome_of (RecordBackupDownload now m artifact audit d)
  end.

(** What the environment owes to the store: a clock between the years 0 and 9999, a payload that
    fits the memory of a machine, strings that are UTF-8 where they end up inside a JSON document
    (what decoding a request gives), manifests of files that exist.  Nothing is asked of what a
    capture says, its observation times in particular. *)
Definition op_ok (o : operation) : Prop :=
  match o with
  | OpCreate now m _ => time_ok now = true ∧ valid_utf8 m.(M_ChangeTicket) = true ∧ valid_utf8 m.(M_WorkflowVersion) = true
  | OpCapture _ now _ c _ => time_ok now = true ∧ len c.(C_Payload) ≤ 2 ^ 62
  | OpTransition now _ change _ _ => time_ok now = true ∧ valid_utf8 change.(SC_Justification) = true
  | OpTarget now _ _ change _ _ => time_ok now = true ∧ valid_utf8 change.(SC_Justification) = true
  | OpObserve now _ _ _ _ _ => time_ok now = true
  | OpBackupCreated m _ => manifest_ok m = true ∧ m.(B_SHA256) ≠ "" ∧ 1 ≤ m.(B_Bytes)
  | OpBackupDownload now m artifact _ =>
    time_ok now = true ∧ valid_utf8 m.(B_Filename) = true ∧ valid_utf8 m.(B_SHA256) = true ∧ in_int64 m.(B_Bytes) = true
    ∧ valid_utf8 artifact = true ∧ m.(B_SHA256) ≠ "" ∧ 1 ≤ m.(B_Bytes) ∧ artifact ≠ ""
  end.

Inductive reachable : db → Prop :=
  | reachable_init : reachable initializeSchema
  | reachable_step d o : reachable d → op_ok o → reachable (run_op o d).2.

(** * The invariant along executions *)

Lemma inv_init : db_inv initializeSchema.
Proof.
  constructor; cbn; try done.
  - intros mid Hm. rewrite lookup_empty in Hm. by destruct Hm.
  - intros mid tid Hm. rewrite lookup_empty in Hm. by destruct Hm.
Qed.

Lemma outcome_state {A} (r : result error A * db) : (outcome_of r).2 = r.2.
Proof. done. Qed.

Lemma inv_step d o : db_inv d → op_ok o → db_inv (run_op o d).2.
Proof.
  intros Hd Ho. destruct o; cbn [run_op]; rewrite outcome_state.
  - destruct Ho as (Ht & H1 & H2). unfold CreateMaintenance. apply (validated_write _ (λ m, create_tx now m audit)); [done|]. intros a b d' Hin Htx. by eapply create_preserves.
  - destruct Ho as (Ht & Hl). unfold CaptureMaintenance, validated.
    destruct (capture_input now0 mid c) as [[c' l]|] eqn:Hin; [|done].
    destruct (write_spec (capture_tx now mid c' l audit) d) as [(b & d' & Hf & ->)|(e & _ & ->)]; [|done].
    by eapply capture_preserves.
  - destruct Ho as (Ht & H1). unfold TransitionMaintenance. apply (validated_write _ (λ payload, transition_tx now id change payload p audit)); [done|]. intros a b d' Hin Htx. by eapply transition_preserves.
  - destruct Ho as (Ht & H1). unfold TransitionTarget. apply (validated_write _ (λ payload, transition_target_tx now mid tid change payload p audit)); [done|]. intros a b d' Hin Htx. by eapply target_preserves.
  - unfold AddObservation. apply (validated_write _ (λ canonical, observation_tx now mid tid canonical p (auditValues audit))); [done|]. intros a b d' Hin Htx. by eapply observation_preserves.
  - destruct Ho as (Hm & H1 & H2). unfold RecordBackupCreated. cbn zeta.
    match goal with |- db_inv (write ?f d).2 => destruct (write_spec f d) as [([] & d' & Hf & ->)|(e & _ & ->)] end; [|done].
    by eapply backup_created_preserves.
  - destruct Ho as (Ht & H1 & H2 & H3 & H4 & H5 & H6 & H7). unfold RecordBackupDownload.
    match goal with |- db_inv (write ?f d).2 => destruct (write_spec f d) as [([] & d' & Hf & ->)|(e & _ & ->)] end; [|done].
    by eapply backup_downloaded_preserves.
Qed.

Lemma reachable_inv d : reachable d → db_inv d.
Proof. induction 1; [apply inv_init|by apply inv_step]. Qed.
End system.
