(* ===== verification/Soundness.v ===== *)
(** What a database the verifier accepts is like, whatever program wrote it.

    The facts are properties of the replay ([replay_facts]) carried over to the rows the verifier
    compares with it: a completed maintenance left no target unreconciled, a maintenance cancelled
    after its capture never moved a target, versions do not outrun the journal. *)
From S2P Require Import Prelude Utf8 Json JsonText Strconv GoTime Sha256 JsonDecode Text Errors Values Lifecycle Db Model Events Mutations Verify Invariant Preserve PreserveTransitions System.
Local Open Scope Z_scope.

Definition allowed_target (t : replayTarget) : Prop := targetCompletionAllowed t.(rt_original) t.(rt_state) = true.

(** What holds of every state the replay reaches, after [n] events. *)
Record replay_facts (l : list captureTarget) (n : Z) (r : replayMaintenance) : Prop := {
  rf_revision : 0 ≤ r.(r_revision) ≤ n;
  rf_version : map_Forall (λ _ t, 1 ≤ t.(rt_version) ≤ r.(r_revision)) r.(r_targets);
  rf_uncaptured : r.(r_captured) = false → r.(r_targets) = ∅ ∧ r.(r_physical) = false;
  rf_original : map_Forall (λ tid t, ∃ c, inputs_of l !! tid = Some c ∧ c.(CT_OriginalState) = t.(rt_original)) r.(r_targets);
  rf_completed : r.(r_state) = "completed" → r.(r_captured) = true ∧ r.(r_targets) ≠ ∅ ∧ map_Forall (λ _ t, allowed_target t) r.(r_targets);
  rf_cancelled : r.(r_state) = "cancelled" → r.(r_captured) = false ∨ r.(r_physical) = false
}.

Section soundness.
Context `{SQLite}.

Lemma reject_inv b message u : reject b message = Ok u → b = false.
Proof. unfold reject. by destruct b. Qed.

Lemma corrupt_inv b message u : corrupt b message = Ok u → b = false.
Proof. unfold corrupt. by destruct b. Qed.

(** Takes a chain of checks that succeeded apart. *)
Ltac checks H :=
  repeat match type of H with
  | (_ ≫= _) = Ok _ => let u := fresh "u" in let Hc := fresh "Hc" in apply bind_ok in H as (u & Hc & H);
      try apply reject_inv in Hc
  | Ok _ = Ok _ => injection H as <-
  end.

Lemma facts_empty l : replay_facts l 0 empty_replay.
Proof. constructor; cbn; try done. Qed.

Lemma facts_created l n r e r' : replay_facts l n r → apply_created r e = Ok r' → replay_facts l (n + 1) r'.
Proof.
  intros [[F1 F1'] F2 F3 F4 F5 F6] Ha. unfold apply_created in Ha. checks Ha.
  destruct (unmarshal_struct _ _ _ _); [|discriminate]. checks Ha. bool_hyps.
  constructor; cbn; try done; [lia|]. intros tid t Ht. specialize (F2 tid t Ht). cbn in F2. lia.
Qed.

Lemma facts_captured l hash has n r e r' : replay_facts l n r → apply_captured l hash has r e = Ok r' → replay_facts l (n + 1) r'.
Proof.
  intros [[F1 F1'] F2 F3 F4 F5 F6] Ha. unfold apply_captured in Ha. checks Ha.
  destruct (unmarshal_struct _ _ _ _) as [[h c]|]; [|discriminate]. checks Ha. bool_hyps.
  destruct F3 as [Ht Hp]; [done|]. rewrite Ht, replay_captured_inputs.
  constructor; cbn; try done; [lia| |].
  - intros tid t. rewrite lookup_fmap_Some. intros (c' & <- & _). cbn. lia.
  - intros tid t. rewrite lookup_fmap_Some. intros (c' & <- & Hc'). cbn. eauto.
Qed.

Lemma facts_transition l n r e r' : replay_facts l n r → apply_transition r e = Ok r' → replay_facts l (n + 1) r'.
Proof.
  intros [[F1 F1'] F2 F3 F4 F5 F6] Ha. unfold apply_transition in Ha. checks Ha. bool_hyps.
  assert (Hb : ∀ tid t', (if r_captured r then bump_replay <$> r_targets r else r_targets r) !! tid = Some t' →
    ∃ t, r_targets r !! tid = Some t ∧ rt_state t = rt_state t' ∧ rt_original t = rt_original t' ∧ rt_version t ≤ rt_version t' ≤ rt_version t + 1).
  { intros tid t'. destruct (r_captured r); [|intros; exists t'; split_and!; (done || lia)].
    rewrite lookup_fmap_Some. intros (t & <- & Ht). exists t. cbn. split_and!; (done || lia). }
  constructor; cbn; try done.
  - lia.
  - intros tid t' (t & Ht & _ & _ & Hv)%Hb. specialize (F2 tid t Ht). cbn in F2. lia.
  - intros Hcap. rewrite Hcap. auto.
  - intros tid t' (t & Ht & _ & <- & _)%Hb. by apply F4.
  - intros E. rewrite E in *. cbn in Hc5. checks Hc5. apply reject_inv in Hc5. bool_hyps.
    assert (Hne : r_targets r ≠ ∅).
    { intros Hz. unfold replay_targets in *. rewrite Hz, map_to_list_empty in *. done. }
    assert (Hcap : r_captured r = true) by (destruct (r_captured r); [done|]; destruct F3; done).
    rewrite Hcap in *. split_and!; [done|by intros ?%fmap_empty_inv|].
    intros tid t' (t & Ht & Hs & Ho & _)%Hb. unfold allowed_target. rewrite <-Hs, <-Ho.
    apply existsb_false in Hc5. rewrite Forall_forall in Hc5. specialize (Hc5 t).
    apply negb_false_iff, Hc5. unfold replay_targets. apply list_elem_of_fmap. exists (tid, t). split; [done|].
    by apply elem_of_map_to_list.
  - intros E. rewrite E in *. cbn in Hc3. by apply andb_false_iff in Hc3.
Qed.

Lemma facts_target l n r e r' : replay_facts l n r → apply_target r e = Ok r' → replay_facts l (n + 1) r'.
Proof.
  intros [[F1 F1'] F2 F3 F4 F5 F6] Ha. unfold apply_target in Ha. checks Ha. bool_hyps.
  destruct (r_targets r !! E_TargetID e) as [t|] eqn:Et; [|discriminate]. checks Ha. bool_hyps.
  assert (Hcap : r_captured r = true).
  { destruct (r_captured r); [done|]. destruct F3 as [Hz _]; [done|]. by rewrite Hz, lookup_empty in Et. }
  assert (Hlive : r_state r ≠ "completed" ∧ r_state r ≠ "cancelled").
  { split; intros E; rewrite E in *; discriminate. }
  destruct Hlive. pose proof (F2 _ _ Et) as Hv. cbn in Hv.
  constructor; cbn; try done.
  - lia.
  - apply map_Forall_insert_2; [cbn; lia|]. intros tid t0 Ht0. specialize (F2 tid t0 Ht0). cbn in F2. lia.
  - by rewrite Hcap.
  - apply map_Forall_insert_2; [by apply (F4 _ _ Et)|done].
Qed.

Lemma facts_row l hash has n r row r' : replay_facts l n r → replay_row l hash has r row = Ok r' → replay_facts l (n + 1) r'.
Proof.
  intros Hf. unfold replay_row. cbn zeta. destruct (_ ≫= _) as [r1|] eqn:E; [|discriminate]. intros [= <-].
  apply bind_ok in E as (u & _ & Ha). unfold replay_apply in Ha.
  repeat match type of Ha with (if ?b then _ else _) = _ => destruct b end; try discriminate Ha.
  - by eapply facts_created.
  - by eapply facts_captured.
  - by eapply facts_transition.
  - by eapply facts_target.
  - unfold apply_observed in Ha. checks Ha. destruct Hf as [[F1 F1'] F2 F3 F4 F5 F6]. constructor; try done. lia.
Qed.

Lemma facts_rows l hash has rows : ∀ n r r', replay_facts l n r → replay_rows l hash has r rows = Ok r' →
  replay_facts l (n + Z.of_nat (length rows)) r'.
Proof.
  induction rows as [|row rows IH]; intros n r r' Hf; cbn [replay_rows length].
  - intros [= <-]. by rewrite Z.add_0_r.
  - intros (r1 & H1 & H2)%bind_ok. replace (n + Z.of_nat (S (length rows))) with (n + 1 + Z.of_nat (length rows)) by lia.
    eapply IH; [|done]. by eapply facts_row.
Qed.

(** * From the replay to the rows *)

Lemma check_all_inv {A} (f : A → result error ()) l u a : check_all f l = Ok u → a ∈ l → f a = Ok ().
Proof.
  revert u. induction l as [|b l IH]; intros u; [by intros _ ?%elem_of_nil|]. cbn [check_all].
  intros (v & Hv & Hr)%bind_ok [->|Hin]%elem_of_cons; [by destruct v|by eapply IH].
Qed.

(** What the verifier has compared for a maintenance it accepts. *)
Record accepted (d : db) (mid : string) (row : maintenance_row) (l : list captureTarget) (r : replayMaintenance) : Prop := {
  ac_state : r.(r_state) = row.(m_state);
  ac_version : r.(r_revision) = row.(m_version);
  ac_captured : r.(r_captured) = match d.(captures) !! mid with Some _ => true | None => false end;
  ac_target : ∀ tid trow, d.(targets) !! (mid, tid) = Some trow → ∃ c t, inputs_of l !! tid = Some c
    ∧ r.(r_targets) !! tid = Some t ∧ trow.(t_state) = t.(rt_state) ∧ trow.(t_version) = t.(rt_version)
    ∧ trow.(t_original_state) = c.(CT_OriginalState) ∧ trow.(t_lock_key) = c.(CT_LockKey);
  ac_size : length (targets_of d mid) = size r.(r_targets);
  ac_facts : replay_facts l (Z.of_nat (length (events_of mid d.(journal)))) r
}.

Lemma verify_accepted d mid row u : d.(maintenance) !! mid = Some row → verifyMaintenanceReplay d mid = Ok u →
  ∃ l r, accepted d mid row l r.
Proof.
  intros Hrow. unfold verifyMaintenanceReplay. rewrite Hrow. intros (o & Ho & Hx)%bind_ok. cbn zeta in Hx.
  apply bind_ok in Hx as (r & Hr & Hx). apply bind_ok in Hx as (u1 & H1%corrupt_inv & Hx).
  apply bind_ok in Hx as (u2 & H2%corrupt_inv & Hx). apply negb_false_iff in H1. apply orb_false_iff in H2 as [H2 H3].
  apply negb_false_iff, Nat.eqb_eq in H2, H3. unfold maintenance_matches in H1.
  apply andb_true_iff in H1 as [H1 _]. apply andb_true_iff in H1 as [H1 Hcap]. apply andb_true_iff in H1 as [H1 Hv].
  apply andb_true_iff in H1 as [_ Hs]. apply String.eqb_eq in Hs. apply Z.eqb_eq in Hv. apply Bool.eqb_prop in Hcap.
  exists (match o with Some (_, l) => l | None => [] end), r. constructor; try done.
  - rewrite Hcap. unfold loadCaptureForVerify in Ho. destruct (captures d !! mid); [|by injection Ho as <-].
    destruct (canonicalJSON _); [|discriminate]. destruct (negb (String.eqb _ _)); [discriminate|].
    destruct (negb (equal_fold _ _)); [discriminate|]. destruct (parseCaptureTargets _); [|discriminate].
    by injection Ho as <-.
  - intros tid trow Ht. assert (Hin : scanTarget mid tid trow ∈ listTargets d mid).
    { unfold listTargets. apply list_elem_of_fmap. exists (tid, trow). split; [done|]. by apply elem_of_targets_of. }
    pose proof (check_all_inv _ _ _ _ Hx Hin) as Hm%corrupt_inv%negb_false_iff. unfold target_matches in Hm. cbn [scanTarget T_ID] in Hm.
    destruct (inputs_of _ !! tid) as [c|]; [|discriminate]. destruct (r_targets r !! tid) as [t|]; [|discriminate].
    cbn in Hm. bool_hyps. eauto 10.
  - unfold listTargets in H3. by rewrite length_map in H3.
  - by apply (facts_rows _ _ _ _ 0 _ _ (facts_empty _)) in Hr.
Qed.

Lemma verify_maintenance d u : verifyApplicationData d = Ok u → ∀ mid row, d.(maintenance) !! mid = Some row →
  ∃ l r, accepted d mid row l r.
Proof.
  unfold verifyApplicationData. intros (? & _ & (? & _ & (? & Hall & _)%bind_ok)%bind_ok)%bind_ok mid row Hrow.
  eapply verify_accepted; [done|]. eapply check_all_inv; [exact Hall|]. unfold maintenance_ids.
  rewrite merge_sort_Permutation. apply list_elem_of_fmap. exists (mid, row). split; [done|]. by apply elem_of_map_to_list.
Qed.

(** A completed maintenance whose database verifies. *)
Lemma accepted_completed d mid row l r : accepted d mid row l r → row.(m_state) = "completed" →
  is_Some (d.(captures) !! mid) ∧ targets_of d mid ≠ []
  ∧ ∀ tid trow, d.(targets) !! (mid, tid) = Some trow → targetCompletionAllowed trow.(t_original_state) trow.(t_state) = true.
Proof.
  intros [As Av Ac At Asz Af] Hs. destruct (rf_completed _ _ _ Af) as (Hc & Hne & Hall); [congruence|].
  split_and!.
  - rewrite Ac in Hc. destruct (captures d !! mid); [eauto|discriminate].
  - intros Hz. rewrite Hz in Asz. symmetry in Asz. by apply map_size_empty_inv in Asz.
  - intros tid trow Ht. destruct (At tid trow Ht) as (c & t & Hi & Hr & E1 & _ & E2 & _).
    rewrite E1, E2. specialize (Hall tid t Hr). unfold allowed_target in Hall.
    destruct (rf_original _ _ _ Af tid t Hr) as (c' & Hi' & Ho). rewrite Hi in Hi'. injection Hi' as <-. by rewrite Ho.
Qed.

(** The versions of rows that agree with the replay of their events. *)
Lemma consistent_versions mid row cap evs ts : consistent mid row cap evs ts →
  row.(m_version) ≤ Z.of_nat (length evs) ∧ ∀ tid trow, ts !! tid = Some trow → 1 ≤ trow.(t_version) ≤ row.(m_version).
Proof.
  intros (has & hash & l & r & _ & Hr & Hag). apply (facts_rows _ _ _ _ 0 _ _ (facts_empty _)) in Hr as Hf.
  rewrite <-(ag_revision _ _ _ _ _ _ _ Hag). split; [apply Hf|]. intros tid trow Ht. apply (rf_version _ _ _ Hf tid (row_replay trow)).
  by rewrite <-(ag_targets _ _ _ _ _ _ _ Hag), lookup_fmap, Ht.
Qed.
End soundness.
