(* ===== verification/Effects.v ===== *)
(** What a call may change: [run_op_effect] says that a call either leaves the state as it was or
    appends exactly one journal event, and that only the maintenance the event names changed; from
    it follow the facts that hold along any sequence of calls ([run_all]). *)
From S2P Require Import Prelude Utf8 Json JsonText Strconv GoTime Sha256 JsonDecode Text Errors Values Lifecycle Db Model Events Mutations Verify Invariant Preserve PreserveTransitions System.
Local Open Scope Z_scope.

(** The event names its author and the request, "system" standing for what is missing. *)
Definition attributed (a : AuditContext) (e : event_row) : Prop :=
  e.(e_actor) = (auditValues a).(Actor) ∧ e.(e_role) = (auditValues a).(Role) ∧ e.(e_request_id) = (auditValues a).(RequestID).

(** The change a call makes for [a] when it appends the event [e]. *)
Record effect (a : AuditContext) (d d' : db) (e : event_row) : Prop := {
  ef_audit : attributed a e;
  ef_journal : d'.(journal) = d.(journal) ++ [e];
  ef_schema : d'.(db_schema) = d.(db_schema);
  ef_frame : ∀ mid, e.(e_maintenance_id) ≠ Some mid → d'.(maintenance) !! mid = d.(maintenance) !! mid
    ∧ d'.(captures) !! mid = d.(captures) !! mid ∧ slice mid d'.(targets) = slice mid d.(targets);
  ef_version : ∀ mid row, d.(maintenance) !! mid = Some row →
    ∃ row', d'.(maintenance) !! mid = Some row' ∧ row.(m_version) ≤ row'.(m_version);
  ef_capture : ∀ mid c, d.(captures) !! mid = Some c → d'.(captures) !! mid = Some c;
  ef_open : ∀ mid row, e.(e_maintenance_id) = Some mid → d.(maintenance) !! mid = Some row → holds_locks row.(m_state) = true;
  ef_rowid : ∀ mid row', d'.(maintenance) !! mid = Some row' →
    (∃ row, d.(maintenance) !! mid = Some row ∧ row'.(m_rowid) = row.(m_rowid))
    ∨ (d.(maintenance) !! mid = None ∧ row'.(m_rowid) = next_rowid d ∧ e.(e_maintenance_id) = Some mid)
}.

Section effects.
Context `{SQLite}.

(** A sequence of calls. *)
Definition run_all (ops : list operation) (d : db) : db := fold_left (λ d o, (run_op o d).2) ops d.

Lemma appendEvent_row event d u d' : appendEvent event d = Ok (u, d') →
  d' = set_journal (λ l, l ++ [event_row_of (with_defaults event) (next_journal_id d)]) d.
Proof.
  unfold appendEvent. case_if; [discriminate|]. cbn zeta. case_if; [discriminate|].
  by intros (-> & _)%exec_inv%insert_event_ok.
Qed.

Lemma nullText_ne s mid : nullText s ≠ Some mid → s ≠ "" → mid ≠ s.
Proof. unfold nullText. intros Hn Hs ->. by rewrite (proj2 (String.eqb_neq _ _) Hs) in Hn. Qed.

Lemma nullText_some s mid : nullText s = Some mid → mid = s.
Proof. unfold nullText. case_if; [discriminate|]. by intros [= ->]. Qed.

(** The author of an event, as the operations give it. *)
Definition author (event : Event) (a : AuditContext) : Prop :=
  let b := mkAudit event.(E_Actor) event.(E_Role) event.(E_RequestID) in b = a ∨ b = auditValues a.

Lemma author_attributed event a id : author event a → attributed a (event_row_of (with_defaults event) id).
Proof.
  intros Ha. unfold attributed. cbn -[auditValues].
  assert (E : auditValues (mkAudit (E_Actor event) (E_Role event) (E_RequestID event)) = auditValues a).
  { destruct Ha as [-> | ->]; [done|apply auditValues_idem]. }
  by rewrite E.
Qed.

(** A body that appends to the journal after changing the rows of one maintenance. *)
Lemma effect_append a d d1 d' event mid row f u : appendEvent event d1 = Ok (u, d') → author event a → event.(E_MaintenanceID) = mid → mid ≠ "" →
  d.(maintenance) !! mid = Some row → holds_locks row.(m_state) = true → row.(m_version) ≤ (f row).(m_version) →
  d1.(journal) = d.(journal) → d1.(db_schema) = d.(db_schema) → d1.(maintenance) = <[mid := f row]> d.(maintenance) → (f row).(m_rowid) = row.(m_rowid) →
  (∀ m, m ≠ mid → d1.(captures) !! m = d.(captures) !! m ∧ slice m d1.(targets) = slice m d.(targets)) →
  (∀ c, d.(captures) !! mid = Some c → d1.(captures) !! mid = Some c) →
  ∃ e, effect a d d' e.
Proof.
  intros ->%appendEvent_row Hau Hmid Hne Hrow Ho Hv Hj Hs Hm Hr Hf Hc.
  exists (event_row_of (with_defaults event) (next_journal_id d1)).
  assert (He : e_maintenance_id (event_row_of (with_defaults event) (next_journal_id d1)) = nullText mid) by (cbn; by rewrite Hmid).
  constructor; rewrite ?He; cbn [journal db_schema maintenance captures targets set_journal]; rewrite ?Hj, ?Hs, ?Hm; try done.
  - by apply author_attributed.
  - intros m Hm'. apply nullText_ne in Hm'; [|done]. rewrite lookup_insert_ne by done. split; [done|by apply Hf].
  - intros m row0 H0. destruct (decide (m = mid)) as [->|Hne'].
    + rewrite lookup_insert_eq. exists (f row). split; [done|]. congruence.
    + rewrite lookup_insert_ne by done. exists row0. split; [done|lia].
  - intros m c Hmc. destruct (decide (m = mid)) as [->|Hne']; [by apply Hc|]. destruct (Hf m Hne') as [-> _]. done.
  - intros m row0 <-%nullText_some H0. congruence.
  - intros m row0 H0. left. apply lookup_insert_Some in H0 as [[<- <-]|[_ H0]]; eauto.
Qed.

Lemma effect_global a d d' event u : appendEvent event d = Ok (u, d') → author event a → event.(E_MaintenanceID) = "" → ∃ e, effect a d d' e.
Proof.
  intros ->%appendEvent_row Hau Hm. exists (event_row_of (with_defaults event) (next_journal_id d)).
  constructor; cbn; rewrite ?Hm; try done.
  - by apply author_attributed.
  - intros mid row Hrow. exists row. split; [done|lia].
  - eauto.
Qed.

Lemma create_effect now m0 m audit d res d' : create_input now m0 = Ok m → create_tx now m audit d = Ok (res, d') → ∃ e, effect audit d d' e.
Proof.
  intros Hin Htx. apply create_input_ok in Hin as (Hid & _). destruct (validID_spec _ Hid) as (Hne & _).
  unfold create_tx in Htx. tx_inv Htx. apply insert_maintenance_row_ok in Htx0 as (Hn & ->). apply appendEvent_row in Htx1 as ->.
  eexists. constructor; cbn -[nullText attributed]; try reflexivity.
  - apply (author_attributed (created_event now m audit)). by right.
  - intros mid Hm. apply nullText_ne in Hm; [|done]. by rewrite lookup_insert_ne.
  - intros mid row Hrow. exists row. rewrite lookup_insert_ne by congruence. split; [done|lia].
  - done.
  - intros mid row E Hrow. apply nullText_some in E. cbn in E. congruence.
  - intros mid row H0. apply lookup_insert_Some in H0 as [[<- <-]|[_ H0]]; [right|left; eauto].
    split_and!; [done|done|]. cbn. unfold nullText. by rewrite (proj2 (String.eqb_neq _ _) Hne).
Qed.

Lemma capture_effect now0 now mid c0 c l audit d res d' : capture_input now0 mid c0 = Ok (c, l) →
  capture_tx now mid c l audit d = Ok (res, d') → d' = d ∨ ∃ e, effect audit d d' e.
Proof.
  intros Hin Htx. apply capture_input_ok in Hin as (Hid & _). destruct (validID_spec _ Hid) as (Hne & _).
  apply capture_tx_ok in Htx as [(-> & _)|(row & Hrow & Hst & Hnc & _ & _ & Happ & _)]; [by left|right].
  eapply (effect_append _ d _ d' _ mid row); [exact Happ|by right|reflexivity|done|done|unfold holds_locks; by rewrite Hst| |reflexivity..| |].
  - cbn. lia.
  - intros m Hm. cbn. by rewrite lookup_insert_ne, slice_insert_rows_ne.
  - congruence.
Qed.

Lemma transition_effect now id change payload p audit d res d' : transition_input id change = Ok payload →
  transition_tx now id change payload p audit d = Ok (res, d') → ∃ e, effect audit d d' e.
Proof.
  intros Hin Htx. unfold transition_input in Hin. case_if; [discriminate|]. bool_hyps.
  destruct (validID_spec id) as (Hne & _); [done|]. apply transition_tx_ok in Htx as (row & Hrow & Hg & _ & Happ & _).
  eapply (effect_append _ d _ d' _ id row); [exact Happ|by right|reflexivity|done|done|exact (guard_active _ _ _ _ Hg)| |reflexivity..| |done].
  - cbn. lia.
  - intros m Hm. cbn. rewrite bump_slice. destruct (captures d !! id); [|done]. by rewrite decide_False.
Qed.

Lemma live_active state : IsMaintenanceTerminal state = false → holds_locks state = true.
Proof. unfold IsMaintenanceTerminal, holds_locks. intros Ht. bool_hyps. by rewrite !(proj2 (String.eqb_neq _ _)). Qed.

Lemma target_effect now mid tid change payload p audit d res d' : target_input mid tid change = Ok payload →
  transition_target_tx now mid tid change payload p audit d = Ok (res, d') → ∃ e, effect audit d d' e.
Proof.
  intros Hin Htx. unfold target_input in Hin. case_if; [discriminate|]. bool_hyps.
  destruct (validID_spec mid) as (Hne & _); [done|].
  apply transition_target_tx_ok in Htx as (row & trow & Hrow & Htrow & Hterm & _ & _ & Happ & _).
  eapply (effect_append _ d _ d' _ mid row); [exact Happ|by right|reflexivity|done|done|by apply live_active| |reflexivity..| |done].
  - cbn. lia.
  - intros m Hm. cbn. by rewrite slice_insert_ne.
Qed.

Lemma observation_effect now mid tid payload canonical p a d u d' : observation_input mid tid payload = Ok canonical →
  observation_tx now mid tid canonical p a d = Ok (u, d') → d' = d ∨ ∃ e, effect a d d' e.
Proof.
  intros Hin Htx. unfold observation_input in Hin. case_if; [discriminate|]. bool_hyps.
  destruct (validID_spec mid) as (Hne & _); [done|].
  apply observation_tx_ok in Htx as [[-> _]|(_ & row & trow & Hrow & Htrow & Hterm & _ & Happ)]; [by left|right].
  eapply (effect_append _ d d d' _ mid row id); [exact Happ|left; by destruct a|reflexivity|done|done|by apply live_active|cbn; lia|reflexivity..| |done|done|done].
  cbn. by rewrite insert_id.
Qed.

Lemma effect_values a d d' e : effect (auditValues a) d d' e → effect a d d' e.
Proof. intros [E H1 H2 H3 H4 H5 H6]. constructor; try done. unfold attributed in *. by rewrite auditValues_idem in E. Qed.

(** * One call *)

(** The author of a call. *)
Definition op_audit (o : operation) : AuditContext :=
  match o with
  | OpCreate _ _ a | OpCapture _ _ _ _ a | OpTransition _ _ _ _ a | OpTarget _ _ _ _ _ a | OpObserve _ _ _ _ _ a
  | OpBackupCreated _ a | OpBackupDownload _ _ _ a => a
  end.

Lemma run_op_effect o d : let d' := (run_op o d).2 in
  d' = d ∨ (run_op o d).1 = Ok () ∧ ∃ e, effect (op_audit o) d d' e.
Proof.
  destruct o; cbn [run_op]; unfold outcome_of; cbn [fst snd].
  - unfold CreateMaintenance, validated. destruct (create_input now m) as [m'|] eqn:Hin; [|by left].
    destruct (write_spec (create_tx now m' audit) d) as [(b & d' & Hf & ->)|(e & _ & ->)]; [right|by left].
    split; [done|]. by eapply create_effect.
  - unfold CaptureMaintenance, validated. destruct (capture_input now0 mid c) as [[c' l]|] eqn:Hin; [|by left].
    destruct (write_spec (capture_tx now mid c' l audit) d) as [(b & d' & Hf & ->)|(e & _ & ->)]; [|by left].
    destruct (capture_effect _ _ _ _ _ _ _ _ _ _ Hin Hf) as [->|?]; [by left|by right].
  - unfold TransitionMaintenance, validated. destruct (transition_input id change) as [pl|] eqn:Hin; [|by left].
    destruct (write_spec (transition_tx now id change pl p audit) d) as [(b & d' & Hf & ->)|(e & _ & ->)]; [right|by left].
    split; [done|]. by eapply transition_effect.
  - unfold TransitionTarget, validated. destruct (target_input mid tid change) as [pl|] eqn:Hin; [|by left].
    destruct (write_spec (transition_target_tx now mid tid change pl p audit) d) as [(b & d' & Hf & ->)|(e & _ & ->)]; [right|by left].
    split; [done|]. by eapply target_effect.
  - unfold AddObservation, validated. destruct (observation_input mid tid payload) as [pl|] eqn:Hin; [|by left].
    destruct (write_spec (observation_tx now mid tid pl p (auditValues audit)) d) as [(b & d' & Hf & ->)|(e & _ & ->)]; [|by left].
    destruct (observation_effect _ _ _ _ _ _ _ _ _ _ Hin Hf) as [->|[e He]]; [by left|right]. split; [done|]. exists e. by apply effect_values.
  - unfold RecordBackupCreated. cbn zeta.
    match goal with |- context [write ?f d] => destruct (write_spec f d) as [([] & d' & Hf & ->)|(e & _ & ->)] end; [right|by left].
    split; [done|]. eapply effect_global; [exact Hf|by right|done].
  - unfold RecordBackupDownload.
    match goal with |- context [write ?f d] => destruct (write_spec f d) as [([] & d' & Hf & ->)|(e & _ & ->)] end; [right|by left].
    split; [done|]. eapply effect_global; [exact Hf|by right|done].
Qed.

(** * Sequences of calls *)

(** What one call keeps, every sequence keeps. *)
Lemma run_all_ind (P : db → Prop) : (∀ o d, P d → P (run_op o d).2) → ∀ ops d, P d → P (run_all ops d).
Proof. intros Hs ops. induction ops as [|o ops IH]; intros d Hd; [done|]. cbn. by apply IH, Hs. Qed.

Lemma run_all_version mid v ops d :
  (∃ row, d.(maintenance) !! mid = Some row ∧ v ≤ row.(m_version)) →
  ∃ row, (run_all ops d).(maintenance) !! mid = Some row ∧ v ≤ row.(m_version).
Proof.
  revert d. apply (run_all_ind (λ d, ∃ row, d.(maintenance) !! mid = Some row ∧ v ≤ row.(m_version))).
  intros o d (row & Hrow & Hv). destruct (run_op_effect o d) as [->|(_ & e & He)]; [eauto|].
  destruct (ef_version _ _ _ _ He mid row Hrow) as (row' & Hrow' & Hle). exists row'. split; [done|lia].
Qed.

Lemma run_all_capture mid c ops d : d.(captures) !! mid = Some c → (run_all ops d).(captures) !! mid = Some c.
Proof.
  revert d. apply (run_all_ind (λ d, d.(captures) !! mid = Some c)). intros o d Hc.
  destruct (run_op_effect o d) as [->|(_ & e & He)]; [done|]. by apply (ef_capture _ _ _ _ He).
Qed.

Lemma run_all_journal ops d : ∃ l, (run_all ops d).(journal) = d.(journal) ++ l.
Proof.
  apply (run_all_ind (λ d', ∃ l, d'.(journal) = d.(journal) ++ l)); [|exists []; by rewrite app_nil_r].
  intros o d' [l Hl]. destruct (run_op_effect o d') as [->|(_ & e & He)]; [eauto|].
  exists (l ++ [e]). by rewrite (ef_journal _ _ _ _ He), Hl, app_assoc.
Qed.

Lemma reachable_all ops d : reachable d → Forall op_ok ops → reachable (run_all ops d).
Proof.
  revert d. induction ops as [|o ops IH]; intros d Hd; [done|]. intros [Ho Hops]%Forall_cons.
  apply IH; [by apply reachable_step|done].
Qed.

(** * Stale preconditions *)

(** The precondition of a caller that has seen version [v] only. *)
Lemma stale_version v row rt rid st req : v ≠ row → ∃ e, require_version (mkPrecondition false [v]) row rt rid st req = Err e
  ∧ errors_is e ErrVersionConflict = true.
Proof.
  intros Hv. unfold require_version, match_version. cbn. rewrite (proj2 (Z.eqb_neq _ _)) by lia. cbn. eauto.
Qed.

Lemma load_maintenance_some id row d : d.(maintenance) !! id = Some row → load_maintenance id d = Ok (scanMaintenance id row, d).
Proof. intros Hr. unfold load_maintenance. rewrite perform_bind. cbn [perform query]. by rewrite Hr. Qed.

Lemma load_target_some mid tid row d : d.(targets) !! (mid, tid) = Some row → load_target mid tid d = Ok (scanTarget mid tid row, d).
Proof. intros Hr. unfold load_target. rewrite perform_bind. cbn [perform query]. by rewrite Hr. Qed.

Lemma transition_stale now id change payload v audit d row : transition_input id change = Ok payload →
  d.(maintenance) !! id = Some row → v ≠ row.(m_version) →
  ∃ e, TransitionMaintenance now id change (mkPrecondition false [v]) audit d = (Err e, d) ∧ errors_is e ErrVersionConflict = true.
Proof.
  intros Hin Hrow Hv. unfold TransitionMaintenance, validated. rewrite Hin. rewrite write_perform. unfold transition_tx.
  rewrite perform_bind, (load_maintenance_some _ _ _ Hrow).
  destruct (stale_version v row.(m_version) "maintenance" id (M_State (scanMaintenance id row)) (SC_State change) Hv) as (e & He & Hc).
  rewrite perform_bind. cbn [scanMaintenance M_Version]. rewrite He. eauto.
Qed.

End effects.
