(* ===== verification/Scenario.v ===== *)
(** A concrete run of the store, on which the general theorems are instantiated.

    [sqlite] is one engine the parameters of the model allow; the run creates a maintenance,
    captures two targets, takes it through its phases to completion and records a backup. *)
From S2P Require Import Prelude Utf8 Json JsonText Strconv GoTime Sha256 JsonDecode Text Errors Values Lifecycle Db Model Events Mutations Verify Invariant System Effects.
Local Open Scope Z_scope.

(** An engine whose [json_valid] is Go's and whose [length] counts bytes. *)
Definition sqlite_message (e : sql_error) : string :=
  "constraint failed: " +:+ match e with
  | UniqueViolation columns => "UNIQUE constraint failed: " +:+ columns +:+ " (1555)"
  | CheckViolation table => "CHECK constraint failed: " +:+ table +:+ " (275)"
  | ForeignKeyViolation => "FOREIGN KEY constraint failed (787)"
  | TriggerAbort message => message +:+ " (1811)"
  end.

#[export] Instance sqlite : SQLite := {|
  sqlite_json_valid := valid;
  sqlite_length := len;
  sqlite_error_text := sqlite_message
|}.

Definition clock : Z := 1709163123500000000.
Definition admin : AuditContext := mkAudit "alice" "admin" "req-1".
Definition operator : AuditContext := mkAudit "bob" "operator" "req-2".

Definition new_maintenance (id : string) : Maintenance := mkMaintenance id "" "CHG-7" "" "" 0 0 0.

Definition capture_payload_of (lock1 lock2 : string) : string := json_text
  ("{'targets':[{'target_id':'a','lock_key':'" +:+ lock1 +:+ "','original_state':'running','metadata':{'b':1,'a':2}},{'target_id':'b','lock_key':'"
   +:+ lock2 +:+ "','original_state':'stopped','observed_at':'2024-01-01T00:00:00Z'}]}").

Definition capture_of (payload : string) : Capture := mkCapture "" zero_time payload "".
Definition any_version : VersionPrecondition := mkPrecondition true [].
Definition only (v : Z) : VersionPrecondition := mkPrecondition false [v].
Definition change_to (state : string) : StateChange := mkChange state " because " "".

Definition op_create (id : string) : operation := OpCreate clock (new_maintenance id) operator.
Definition op_capture (id : string) (payload : string) : operation := OpCapture clock (clock + 1) id (capture_of payload) operator.
Definition op_move (state : string) : operation := OpTransition (clock + 2) "m1" (change_to state) any_version admin.
Definition op_target (state : string) : operation := OpTarget (clock + 3) "m1" "a" (change_to state) any_version admin.
Definition observation : string := json_text "{'cpu':0.5}".
Definition op_observe : operation := OpObserve (clock + 4) "m1" "a" observation any_version operator.

Definition manifest : BackupManifest :=
  mkManifest "lazarus-1.db" clock 4096 "ab12" "3.51.3" "ok" "ok" "ok" false.

Definition opening : list operation := [op_create "m1"; op_capture "m1" (capture_payload_of "L" "K"); op_observe].

Definition to_completion : list operation := [
  op_move "stopping"; op_target "stopping"; op_target "stopped"; op_move "stopped"; op_move "waiting"; op_move "starting";
  op_target "starting"; op_target "healthy"; op_move "completed"].

Definition closing : list operation := [OpBackupCreated manifest admin; OpBackupDownload (clock + 5) manifest "lazarus-1.db" admin].

Definition created : db := run_all [op_create "m1"] initializeSchema.
Definition captured : db := run_all opening initializeSchema.
Definition completed : db := run_all (to_completion ++ closing) captured.

Lemma opening_ok : Forall op_ok opening.
Proof.
  constructor; [by vm_compute|]. constructor; [by vm_compute|].
  constructor; [vm_compute; reflexivity|constructor].
Qed.

Lemma to_completion_ok : Forall op_ok (to_completion ++ closing).
Proof. repeat constructor; vm_compute; done. Qed.

Lemma captured_reachable : reachable captured.
Proof. apply reachable_all; [constructor|apply opening_ok]. Qed.

Lemma completed_reachable : reachable completed.
Proof. apply reachable_all; [apply captured_reachable|apply to_completion_ok]. Qed.

(** Two targets of one maintenance with the same lock. *)
Definition shared : db := run_all [op_create "m1"; op_capture "m1" (capture_payload_of "L" "L")] initializeSchema.

Lemma shared_reachable : reachable shared.
Proof.
  apply reachable_all; [constructor|]. constructor; [by vm_compute|].
  constructor; [by vm_compute|constructor].
Qed.

(** A maintenance that failed after its capture. *)
Definition failed : db := (run_op (op_move "failed") captured).2.

(** A computed call that succeeds, as the pair it returns. *)
Lemma ok_pair {A} (r : result error A * db) : is_ok r.1 = true → ∃ a d', r = (Ok a, d').
Proof. destruct r as [[a|e] d']; [eauto|discriminate]. Qed.

Lemma is_some_lookup {A} (o : option A) : (match o with Some _ => true | None => false end) = true → is_Some o.
Proof. destruct o; [eauto|discriminate]. Qed.
