(* ===== verification/Atomicity.v ===== *)
(** The calls of the store on a connection where every command may fail.

    [call_on] is a call of a method as [run_op] makes it, on a [connection] and with the mishaps its
    commands meet: BEGIN, each statement of the body, COMMIT.  [calls_on] is a sequence of such calls
    on the store's one connection.  The bodies are [strict] (none goes on after a statement that
    failed), so by [Events.write_on_spec] such a sequence leaves what the calls that succeeded leave. *)
From S2P Require Import Prelude Utf8 Json JsonText Strconv GoTime Sha256 JsonDecode Text Errors Values Lifecycle Db Model Events Mutations Verify Invariant Preserve PreserveTransitions System Effects Scenario.
Local Open Scope Z_scope.

(** A body without its result. *)
Definition discarding {A} (m : tx A) : tx () := _ ← m; mret ().

Section atomicity.
Context `{SQLite}.

(** The checks of a method before its transaction, and the body it gives to [Store.write]. *)
Definition body_of (o : operation) : result error (tx ()) :=
  match o with
  | OpCreate now m audit => m ← create_input now m; Ok (discarding (create_tx now m audit))
  | OpCapture now0 now mid c audit => '(c, l) ← capture_input now0 mid c; Ok (discarding (capture_tx now mid c l audit))
  | OpTransition now id change p audit =>
    payload ← transition_input id change; Ok (discarding (transition_tx now id change payload p audit))
  | OpTarget now mid tid change p audit =>
    payload ← target_input mid tid change; Ok (discarding (transition_target_tx now mid tid change payload p audit))
  | OpObserve now mid tid payload p audit =>
    canonical ← observation_input mid tid payload; Ok (observation_tx now mid tid canonical p (auditValues audit))
  | OpBackupCreated m audit =>
    let m := with_audit m true in
    Ok (appendEvent (backup_event "backup.created" m.(B_CreatedAt) m.(B_Filename) (default "" (marshal_manifest m)) audit))
  | OpBackupDownload now m artifact audit =>
    Ok (appendEvent (backup_event "backup.downloaded" now m.(B_Filename) (print (download_detail m artifact)) audit))
  end.

Definition call_on (o : operation) (l : list mishap) (c : connection) : result error () * connection :=
  match body_of o with Ok body => write_on body l c | Err e => (Err e, c) end.

Fixpoint calls_on (calls : list (operation * list mishap)) (c : connection) : list (operation * result error ()) * connection :=
  match calls with
  | [] => ([], c)
  | (o, l) :: calls =>
    let '(r, c1) := call_on o l c in
    let '(rs, c2) := calls_on calls c1 in
    ((o, r) :: rs, c2)
  end.

(** The calls that were answered without an error. *)
Definition succeeded (answers : list (operation * result error ())) : list operation :=
  map fst (List.filter (λ a, is_ok a.2) answers).

(** * Bodies are strict *)

Create HintDb strict.
#[local] Hint Resolve strict_bind strict_query strict_exec strict_exec_rows strict_ensure strict_lift : strict.

Lemma strict_ret {A} (a : A) : strict (mret a).
Proof. done. Qed.

Lemma strict_fail {A} e : strict (fail e : tx A).
Proof. done. Qed.
#[local] Hint Resolve strict_ret strict_fail : strict.

(** Takes a body apart into its statements. *)
Ltac stricts :=
  repeat match goal with
  | |- strict (_ ≫= _) => apply strict_bind; [|intros ?]
  | |- strict (match ?x with _ => _ end) => destruct x
  | |- _ => solve [auto with strict]
  end.

Lemma strict_load_maintenance id : strict (load_maintenance id).
Proof. unfold load_maintenance. stricts. Qed.

Lemma strict_load_target mid tid : strict (load_target mid tid).
Proof. unfold load_target. stricts. Qed.

Lemma strict_appendEvent e : strict (appendEvent e).
Proof. unfold appendEvent. cbv zeta. stricts. Qed.

Lemma strict_insert_maintenance now m : strict (insert_maintenance_row now m).
Proof. split; [|done]. intros e. case_if; by eexists. Qed.

Lemma strict_check_locks l : strict (check_locks l).
Proof. induction l as [|t l IH]; cbn [check_locks]; stricts. Qed.

Lemma strict_insert_targets mid stamp l : strict (insert_targets mid stamp l).
Proof. induction l as [|t l IH]; cbn [insert_targets]; stricts. Qed.

Lemma strict_guards m change role : strict (transition_guards m change role).
Proof. unfold transition_guards, check_reopen, validateStoppedBarrier, validateCompletion, capture_count. stricts. Qed.
#[local] Hint Resolve strict_load_maintenance strict_load_target strict_appendEvent strict_insert_maintenance strict_check_locks
  strict_insert_targets strict_guards : strict.

Lemma body_strict o body : body_of o = Ok body → strict body.
Proof.
  assert (Hd : ∀ A (m : tx A), strict m → strict (discarding m)) by (intros A m Hm; unfold discarding; stricts).
  destruct o; cbn [body_of]; cbv zeta.
  - intros (x & _ & [= <-])%bind_ok. apply Hd. unfold create_tx. stricts.
  - intros ([c' l] & _ & [= <-])%bind_ok. apply Hd. unfold capture_tx. stricts.
  - intros (x & _ & [= <-])%bind_ok. apply Hd. unfold transition_tx, capture_count. stricts.
  - intros (x & _ & [= <-])%bind_ok. apply Hd. unfold transition_target_tx. stricts.
  - intros (x & _ & [= <-])%bind_ok. unfold observation_tx. stricts.
  - intros [= <-]. stricts.
  - intros [= <-]. stricts.
Qed.

(** * Calls *)

Lemma write_discarding {A} (m : tx A) d : write (discarding m) d = outcome_of (write m d).
Proof.
  rewrite !write_perform. unfold discarding. rewrite perform_bind. unfold outcome_of.
  by destruct (perform m d) as [[a d']|e].
Qed.

Lemma outcome_unit (r : result error () * db) : outcome_of r = r.
Proof. by destruct r as [[[]|e] d]. Qed.

(** A call is the checks and the body [body_of] names. *)
Lemma run_op_body o d : run_op o d = match body_of o with Ok body => write body d | Err e => (Err e, d) end.
Proof.
  destruct o; cbn [run_op body_of]; cbv zeta.
  - unfold CreateMaintenance, validated. destruct (create_input _ _); cbn [mbind result_bind]; [by rewrite write_discarding|done].
  - unfold CaptureMaintenance, validated. destruct (capture_input _ _ _) as [[c' l]|]; cbn [mbind result_bind]; [by rewrite write_discarding|done].
  - unfold TransitionMaintenance, validated. destruct (transition_input _ _); cbn [mbind result_bind]; [by rewrite write_discarding|done].
  - unfold TransitionTarget, validated. destruct (target_input _ _ _); cbn [mbind result_bind]; [by rewrite write_discarding|done].
  - unfold AddObservation, validated. destruct (observation_input _ _ _); cbn [mbind result_bind]; [by rewrite outcome_unit|done].
  - unfold RecordBackupCreated. by rewrite outcome_unit.
  - unfold RecordBackupDownload. by rewrite outcome_unit.
Qed.

(** One call: no transaction is left open, and it is the call without mishaps or nothing. *)
Lemma call_on_spec o l d : let '(r, c) := call_on o l (idle d) in
  ∃ d', c = idle d' ∧ ((∃ e, r = Err e ∧ d' = d) ∨ (r = Ok () ∧ run_op o d = (Ok (), d'))).
Proof.
  unfold call_on. rewrite run_op_body. destruct (body_of o) as [body|e] eqn:Hb; [|exists d; split; [done|]; left; by exists e].
  pose proof (write_on_spec body l d (body_strict o body Hb)) as Hw. destruct (write_on body l (idle d)) as [r [st op]].
  cbn [open_tx stored_db] in *. destruct Hw as [-> [He|([] & -> & Hp)]]; exists st; (split; [done|]); [by left|right].
  split; [done|]. by rewrite write_perform, Hp.
Qed.

(** C6.  Calls are atomic.  Whatever the BEGIN, the statements and the COMMIT of a sequence of calls meet,
    the sequence ends with no transaction open and with the database that the calls answered without an
    error leave when they run by themselves: a call that failed, at whatever command, has left nothing. *)
Theorem calls_are_atomic calls d : let '(answers, c) := calls_on calls (idle d) in
  map fst answers = map fst calls ∧ c = idle (run_all (succeeded answers) d).
Proof.
  revert d. induction calls as [|[o l] calls IH]; intros d; cbn [calls_on]; [done|].
  pose proof (call_on_spec o l d) as Hc. destruct (call_on o l (idle d)) as [r c1]. destruct Hc as (d1 & -> & Hc).
  specialize (IH d1). destruct (calls_on calls (idle d1)) as [rs c2]. destruct IH as [Hl ->].
  split; [cbn; by rewrite Hl|]. destruct Hc as [(e & -> & ->)|[-> Hrun]]; cbn; [done|]. by rewrite Hrun.
Qed.
End atomicity.

(** A capture whose second target cannot be written: the first is rolled back with it, and the next call
    begins its own transaction. *)
Definition disk_full : error := EText "database or disk is full (13)".
Definition troubled : list (operation * list mishap) := [
  (op_create "m1", []);
  (op_capture "m1" (capture_payload_of "L" "K"), [Works; Works; Works; Works; Works; Works; Works; Refused disk_full]);
  (op_create "m2", [Works; Works; Works; Aborted disk_full]);
  (op_create "m2", [])].

Example troubled_answers : map (λ a, is_ok a.2) (calls_on troubled (idle initializeSchema)).1 = [true; false; false; true].
Proof. vm_compute. reflexivity. Qed.
