(* ===== verification/Refinement.v ===== *)
(** What the store promises, as an abstract system, and that the store implements it.

    The abstract state keeps of a maintenance its phase, its targets once they are captured (the
    lock, the state the capture found and the state since) and whether a target was ever exercised.
    [astep] says which changes the product allows, without versions, roles, payloads, audit or
    journal; [run_op_simulates] shows that a call of the store that succeeds makes the step its
    arguments ask for, and the invariants of the abstract system ([settled_inv], [exclusive_inv])
    are proved once, by induction on its steps. *)
From S2P Require Import Prelude Utf8 Json JsonText Strconv GoTime Sha256 JsonDecode Text Errors Values Lifecycle Db Model Events Mutations Verify Payloads Invariant Preserve PreserveTransitions System Effects Scenario.
Local Open Scope Z_scope.

(** * The abstract system *)

Inductive origin := Running | Idle | Degraded | Unknown.

Definition oname (o : origin) : string :=
  match o with Running => "running" | Idle => "stopped" | Degraded => "degraded" | Unknown => "unknown" end.

Record atarget := mkATarget { at_lock : string; at_origin : origin; at_state : tstate }.

Record amaint := mkAMaint {
  a_phase : mstate;
  a_targets : option (gmap string atarget);
  a_touched : bool
}.

Abbreviation astate := (gmap string amaint).

(** A completed or cancelled maintenance has given its locks back. *)
Definition open (m : amaint) : Prop := m.(a_phase) ≠ Completed ∧ m.(a_phase) ≠ Cancelled.

Definition active_phase (p : mstate) : Prop := p ≠ Completed ∧ p ≠ Cancelled ∧ p ≠ Failed.

Definition holds (m : amaint) (lock : string) : Prop :=
  ∃ ts tid t, m.(a_targets) = Some ts ∧ ts !! tid = Some t ∧ t.(at_lock) = lock.

Definition initial (o : origin) : tstate := match o with Idle => TStopped | _ => TCaptured end.

(** Out of the way while the work is done, and back where it was found afterwards. *)
Definition quiet (t : atarget) : Prop :=
  t.(at_state) = TSkipped ∨ t.(at_state) = TStopped ∧ (t.(at_origin) = Running ∨ t.(at_origin) = Idle).
Definition settled (t : atarget) : Prop :=
  t.(at_state) = TSkipped ∨ t.(at_state) = THealthy ∧ t.(at_origin) = Running ∨ t.(at_state) = TStopped ∧ t.(at_origin) = Idle.

Definition all_targets (P : atarget → Prop) (m : amaint) : Prop :=
  ∀ ts tid t, m.(a_targets) = Some ts → ts !! tid = Some t → P t.

(** The phases in which a target may be moved to a state. *)
Definition move_phase (p : mstate) (t : tstate) : Prop :=
  match t with
  | TStopping | TStopped => p = Stopping
  | TStarting | THealthy => p = Starting
  | TFailed => p = Stopping ∨ p = Starting
  | TCaptured | TSkipped => False
  end.

Definition with_phase (m : amaint) (p : mstate) : amaint := mkAMaint p m.(a_targets) m.(a_touched).
Definition with_state (t : atarget) (b : tstate) : atarget := mkATarget t.(at_lock) t.(at_origin) b.

(** Setting a target aside does not touch it. *)
Definition moves (b : tstate) : bool := match b with TSkipped => false | _ => true end.

(** What a change of phase needs. *)
Inductive phase_step (m : amaint) : mstate → Prop :=
  | step_forward b : next_phase m.(a_phase) b → b ≠ Captured → (b = Stopped → all_targets quiet m) →
      (b = Completed → all_targets settled m ∧ ∃ ts, m.(a_targets) = Some ts ∧ ts ≠ ∅) → phase_step m b
  | step_cancel : m.(a_phase) = New ∨ m.(a_phase) = Captured ∧ m.(a_touched) = false → phase_step m Cancelled
  | step_fail b : next_phase m.(a_phase) b → phase_step m Failed
  | step_restart : m.(a_phase) = Failed → m.(a_targets) = None → phase_step m New
  | step_reopen ts b : m.(a_phase) = Failed → m.(a_targets) = Some ts → active_phase b → b ≠ New →
      (b = Stopped → all_targets quiet m) → phase_step m b.

Inductive label :=
  | Plan (mid : string)
  | Seize (mid : string)
  | Move (mid : string) (to : mstate)
  | Exercise (mid tid : string) (to : tstate)
  | Silent.

Inductive astep (s : astate) : label → astate → Prop :=
  | astep_plan mid : s !! mid = None → astep s (Plan mid) (<[mid := mkAMaint New None false]> s)
  | astep_seize mid m ts : s !! mid = Some m → m.(a_phase) = New → m.(a_targets) = None →
      (∀ tid t, ts !! tid = Some t → t.(at_state) = initial t.(at_origin)
        ∧ ∀ other o, s !! other = Some o → open o → ¬ holds o t.(at_lock)) →
      astep s (Seize mid) (<[mid := mkAMaint Captured (Some ts) m.(a_touched)]> s)
  | astep_move mid m b : s !! mid = Some m → phase_step m b → astep s (Move mid b) (<[mid := with_phase m b]> s)
  | astep_exercise mid tid m ts t b : s !! mid = Some m → m.(a_targets) = Some ts → ts !! tid = Some t →
      active_phase m.(a_phase) → tstep t.(at_state) b →
      (b ≠ TSkipped → t.(at_origin) = Running ∧ move_phase m.(a_phase) b) →
      astep s (Exercise mid tid b) (<[mid := mkAMaint m.(a_phase) (Some (<[tid := with_state t b]> ts)) (m.(a_touched) || moves b)]> s)
  | astep_silent : astep s Silent s.

Definition aruns : astate → astate → Prop := rtc (λ s s', ∃ l, astep s l s').

(** * Invariants of the abstract system *)

Definition settled_inv (s : astate) : Prop :=
  ∀ mid m, s !! mid = Some m → m.(a_phase) = Completed → all_targets settled m ∧ is_Some m.(a_targets).

Definition exclusive_inv (s : astate) : Prop :=
  ∀ m1 m2 a1 a2 lock, s !! m1 = Some a1 → s !! m2 = Some a2 → open a1 → open a2 → holds a1 lock → holds a2 lock → m1 = m2.

Lemma phase_step_open m b : phase_step m b → open m.
Proof.
  intros Hp. unfold open. inversion Hp as [? Hn|[Hn|[Hn _]]|? Hn|Hn|? ? Hn]; subst; try (by rewrite Hn);
    inversion Hn; by rewrite <-?H, <-?H0.
Qed.

Lemma settled_inv_step s l s' : settled_inv s → astep s l s' → settled_inv s'.
Proof.
  intros Hs Hst. inversion Hst as [mid Hn|mid m ts Hn Hph Hnt|mid m b Hm Hp|mid tid m ts t b Hm Hts Ht Ha|]; subst; [..|done];
    intros mid' m' [[<- <-]|[_ H1]]%lookup_insert_Some; eauto; cbn; try done.
  - intros ->. inversion Hp as [? ? ? ? Hc| | | |? ? ? ? (Hc & _) _]; subst; [|done]. destruct (Hc eq_refl) as (Hall & ts & Hts & _). split; [|eauto].
    exact Hall.
  - intros Hp. destruct Ha as [Hc _]. contradiction.
Qed.

Lemma exclusive_inv_insert s mid a : exclusive_inv s →
  (∀ lock, holds a lock → open a → (∃ a0, s !! mid = Some a0 ∧ open a0 ∧ holds a0 lock)
    ∨ ∀ other m, s !! other = Some m → open m → ¬ holds m lock) →
  exclusive_inv (<[mid := a]> s).
Proof.
  intros Hs Ha m1 m2 a1 a2 lock [[<- <-]|[N1 H1]]%lookup_insert_Some [[<- <-]|[N2 H2]]%lookup_insert_Some O1 O2 L1 L2; [done|..].
  - destruct (Ha lock L1 O1) as [(a0 & H0 & O0 & L0)|Hf]; [by eapply (Hs mid m2)|]. by destruct (Hf m2 a2 H2 O2).
  - destruct (Ha lock L2 O2) as [(a0 & H0 & O0 & L0)|Hf]; [by eapply (Hs m1 mid)|]. by destruct (Hf m1 a1 H1 O1).
  - by eapply Hs.
Qed.

Lemma exclusive_inv_step s l s' : exclusive_inv s → astep s l s' → exclusive_inv s'.
Proof.
  intros Hs Hst. inversion Hst as [mid Hn|mid m ts Hn Hph Hnt Hf|mid m b Hm Hp|mid tid m ts t b Hm Hts Ht Ha|]; subst; [..|done];
    apply exclusive_inv_insert; try done; intros lock (ts' & tid' & t' & Hts' & Ht' & <-) Ho; cbn in Hts'; simplify_eq.
  - right. by apply (Hf tid' t').
  - left. exists m. split_and!; [done|by eapply phase_step_open|by exists ts', tid', t'].
  - left. exists m. split_and!; [done| |].
    + destruct Ha as (H1 & H2 & _). done.
    + apply lookup_insert_Some in Ht' as [[<- <-]|[_ Ht']]; [by exists ts, tid, t|by exists ts, tid', t'].
Qed.

(** * The store's state as an abstract one *)

Definition row_face (t : target_row) : string * (string * string) := (t.(t_lock_key), (t.(t_original_state), t.(t_state))).
Definition target_face (t : atarget) : string * (string * string) := (t.(at_lock), (oname t.(at_origin), tname t.(at_state))).

(** The rows of one maintenance show an abstract maintenance. *)
Record shows (row : maintenance_row) (cap : option capture_row) (rows : gmap string target_row) (evs : list event_row)
    (a : amaint) : Prop := {
  sh_phase : row.(m_state) = mname a.(a_phase);
  sh_captured : is_Some cap ↔ is_Some a.(a_targets);
  sh_targets : row_face <$> rows = target_face <$> default ∅ a.(a_targets);
  sh_touched : existsb is_exercise evs = a.(a_touched)
}.

Definition refines (d : db) (s : astate) : Prop :=
  ∀ mid, match d.(maintenance) !! mid, s !! mid with
         | Some row, Some a => shows row (d.(captures) !! mid) (slice mid d.(targets)) (events_of mid d.(journal)) a
         | None, None => True
         | _, _ => False
         end.

(** The step an operation asks for. *)
Inductive asks : operation → label → Prop :=
  | asks_create now m audit : asks (OpCreate now m audit) (Plan m.(M_ID))
  | asks_capture now0 now mid c audit : asks (OpCapture now0 now mid c audit) (Seize mid)
  | asks_again now0 now mid c audit : asks (OpCapture now0 now mid c audit) Silent
  | asks_transition now id change p audit b : change.(SC_State) = mname b → asks (OpTransition now id change p audit) (Move id b)
  | asks_target now mid tid change p audit b : change.(SC_State) = tname b → asks (OpTarget now mid tid change p audit) (Exercise mid tid b)
  | asks_observe now mid tid payload p audit : asks (OpObserve now mid tid payload p audit) Silent
  | asks_backup m audit : asks (OpBackupCreated m audit) Silent
  | asks_download now m artifact audit : asks (OpBackupDownload now m artifact audit) Silent.

Lemma refines_some d s mid row : refines d s → d.(maintenance) !! mid = Some row →
  ∃ a, s !! mid = Some a ∧ shows row (d.(captures) !! mid) (slice mid d.(targets)) (events_of mid d.(journal)) a.
Proof. intros Hr Hm. specialize (Hr mid). rewrite Hm in Hr. destruct (s !! mid) as [a|]; [eauto|done]. Qed.

Lemma refines_none d s mid : refines d s → d.(maintenance) !! mid = None → s !! mid = None.
Proof. intros Hr Hm. specialize (Hr mid). rewrite Hm in Hr. by destruct (s !! mid). Qed.

(** A change of one maintenance refines the change of its abstract counterpart. *)
Lemma refines_update d d' s mid row a : refines d s → d'.(maintenance) = <[mid := row]> d.(maintenance) →
  (∀ m, m ≠ mid → d'.(captures) !! m = d.(captures) !! m ∧ slice m d'.(targets) = slice m d.(targets)
    ∧ events_of m d'.(journal) = events_of m d.(journal)) →
  shows row (d'.(captures) !! mid) (slice mid d'.(targets)) (events_of mid d'.(journal)) a →
  refines d' (<[mid := a]> s).
Proof.
  intros Hr Hm Ho Ha m. rewrite Hm. destruct (decide (m = mid)) as [->|Hne]; [by rewrite !lookup_insert_eq|].
  rewrite !lookup_insert_ne by done. destruct (Ho m Hne) as (-> & -> & ->). apply Hr.
Qed.

Lemma events_after mid m l event id : event.(E_MaintenanceID) = mid → mid ≠ "" →
  events_of m (l ++ [event_row_of (with_defaults event) id])
  = if decide (m = mid) then events_of m l ++ [event_row_of (with_defaults event) id] else events_of m l.
Proof.
  intros He Hne. rewrite events_of_app, events_of_one. cbn. rewrite He. unfold nullText.
  rewrite (proj2 (String.eqb_neq _ _) Hne). destruct (decide (m = mid)) as [->|Hm].
  - by rewrite bool_decide_eq_true_2.
  - rewrite bool_decide_eq_false_2 by congruence. apply app_nil_r.
Qed.

Lemma face_lookup (rows : gmap string target_row) (ts : gmap string atarget) tid row : row_face <$> rows = target_face <$> ts → rows !! tid = Some row →
  ∃ t, ts !! tid = Some t ∧ target_face t = row_face row.
Proof.
  intros He Hr. assert (E : (row_face <$> rows) !! tid = Some (row_face row)) by by rewrite lookup_fmap, Hr.
  rewrite He, lookup_fmap in E. destruct (ts !! tid) as [t|]; [|discriminate E]. apply (inj Some) in E. by eauto.
Qed.

Lemma face_lookup' (rows : gmap string target_row) (ts : gmap string atarget) tid t : row_face <$> rows = target_face <$> ts → ts !! tid = Some t →
  ∃ row, rows !! tid = Some row ∧ row_face row = target_face t.
Proof.
  intros He Hr. assert (E : (target_face <$> ts) !! tid = Some (target_face t)) by by rewrite lookup_fmap, Hr.
  rewrite <-He, lookup_fmap in E. destruct (rows !! tid) as [row|]; [|discriminate E]. apply (inj Some) in E. by eauto.
Qed.

(** A property of all rows of a maintenance, read on its abstract targets. *)
Lemma shows_all d mid row a (f : string → string → bool) (P : atarget → Prop) :
  shows row (d.(captures) !! mid) (slice mid d.(targets)) (events_of mid d.(journal)) a →
  Forall (λ kt : string * target_row, f kt.2.(t_original_state) kt.2.(t_state) = true) (targets_of d mid) →
  (∀ t, f (oname t.(at_origin)) (tname t.(at_state)) = true → P t) → all_targets P a.
Proof.
  intros [_ _ Ht _] Hf HP ts tid t Hts Htid. rewrite Hts in Ht. destruct (face_lookup' _ _ _ _ Ht Htid) as (r & Hr & E).
  injection E as _ Ho Hs. apply HP. rewrite <-Ho, <-Hs.
  apply (Forall_targets_of d mid (λ r, f (t_original_state r) (t_state r) = true) Hf tid r Hr).
Qed.

Lemma quiet_spec t : negb (unresolved (oname t.(at_origin)) (tname t.(at_state))) = true → quiet t.
Proof. destruct t as [l [] []]; cbn; intros E; try discriminate E; unfold quiet; cbn; auto. Qed.

Lemma settled_spec t : targetCompletionAllowed (oname t.(at_origin)) (tname t.(at_state)) = true → settled t.
Proof. destruct t as [l [] []]; cbn; intros E; try discriminate E; unfold settled; cbn; auto. Qed.

Lemma move_phase_spec p b : b ≠ TSkipped → targetPhaseAllowed (mname p) (tname b) = true → move_phase p b.
Proof. destruct p, b; cbn; intros Hn E; try discriminate E; try done; auto. Qed.

(** * The simulation *)

Section simulation.
Context `{SQLite}.

Lemma refines_journal d s event u d' : refines d s → appendEvent event d = Ok (u, d') →
  (∀ id, is_exercise (event_row_of (with_defaults event) id) = false) → refines d' s.
Proof.
  intros Hr ->%appendEvent_row He mid. specialize (Hr mid). cbn [maintenance captures targets journal set_journal].
  destruct (maintenance d !! mid), (s !! mid); try done. destruct Hr as [H1 H2 H3 H4]. constructor; try done.
  rewrite events_of_app, events_of_one. case_bool_decide; [|by rewrite app_nil_r]. by rewrite existsb_snoc.
Qed.

Lemma create_simulates now m0 m audit d res d' s : db_inv d → create_input now m0 = Ok m →
  create_tx now m audit d = Ok (res, d') → refines d s → ∃ s', astep s (Plan m0.(M_ID)) s' ∧ refines d' s'.
Proof.
  intros Hd Hin Htx Hr. apply create_input_ok in Hin as (Hid & Hst & _ & _ & _ & <- & _).
  destruct (validID_spec _ Hid) as (Hne & _). unfold create_tx in Htx. tx_inv Htx.
  apply insert_maintenance_row_ok in Htx0 as (Hn & ->). apply appendEvent_row in Htx1 as ->.
  eexists. split; [apply astep_plan; by eapply refines_none|].
  eapply refines_update; [exact Hr|reflexivity| |]; cbn [captures targets journal set_journal set_maintenance].
  - intros m' Hm'. by rewrite (events_after (M_ID m)), decide_False.
  - rewrite (events_after (M_ID m)), decide_True by done. rewrite (no_events d), (no_targets d), (no_capture d) by done.
    constructor; cbn; try done.
Qed.

Definition origin_of (state : string) : origin :=
  if String.eqb state "running" then Running else if String.eqb state "stopped" then Idle
  else if String.eqb state "degraded" then Degraded else Unknown.

Definition taken (t : captureTarget) : atarget :=
  let o := origin_of t.(CT_OriginalState) in mkATarget t.(CT_LockKey) o (initial o).

Lemma taken_face stamp t : valid_original t.(CT_OriginalState) = true → row_face (target_row_of stamp t) = target_face (taken t).
Proof.
  destruct t as [tid lock kind host original observed metadata]. unfold valid_original. cbn [CT_OriginalState].
  intros (x & Hx & ->%String.eqb_eq)%existsb_exists. by repeat (destruct Hx as [<-|Hx]; [done|]).
Qed.

Lemma parsed_originals payload l : parseCaptureTargets payload = Ok l → Forall (λ t, valid_original t.(CT_OriginalState) = true) l.
Proof.
  unfold parseCaptureTargets. destruct (unmarshal_struct _ _ _ _); [|discriminate].
  case_if; [intros [= <-]; constructor|]. destruct (unmarshal_slice _ _ _) as [[l0|]|]; try discriminate.
  generalize (@nil string) as seen. revert l. induction l0 as [|t l0 IH]; intros l seen; cbn [check_targets].
  - intros [= <-]. constructor.
  - intros (t' & Ht & (ts & Hts & [= <-])%bind_ok)%bind_ok. constructor; [|by eapply IH].
    unfold check_target in Ht. do 4 (case_if; [discriminate|]). apply bind_ok in Ht as (md & _ & Ht).
    case_if; [discriminate|]. injection Ht as <-. cbn. by bool_hyps.
Qed.

(** The abstract holder of a lock is an owner the query of the locks finds. *)
Lemma holds_owner d s other m lock : refines d s → s !! other = Some m → open m → holds m lock → other ∈ lock_owners d lock.
Proof.
  intros Hr Hm [Ho1 Ho2] (ts & tid & t & Hts & Ht & <-). specialize (Hr other). rewrite Hm in Hr.
  destruct (maintenance d !! other) as [row|] eqn:Hrow; [|done]. destruct Hr as [Hp _ Hf _]. rewrite Hts in Hf.
  destruct (face_lookup' _ _ _ _ Hf Ht) as (r & Hr & E). apply elem_of_lock_owners. exists tid, r.
  rewrite slice_lookup in Hr. injection E as E _ _. split_and!; [done|done|]. unfold active. rewrite Hrow.
  unfold holds_locks. rewrite Hp. by destruct (a_phase m).
Qed.

Lemma capture_simulates now0 now mid c0 c l audit d res d' s : db_inv d → capture_input now0 mid c0 = Ok (c, l) →
  capture_tx now mid c l audit d = Ok (res, d') → refines d s →
  d' = d ∨ ∃ s', astep s (Seize mid) s' ∧ refines d' s'.
Proof.
  intros Hd Hin Htx Hr. apply capture_input_ok in Hin as (Hid & _ & _ & _ & Hp). destruct (validID_spec _ Hid) as (Hne & _).
  apply capture_tx_ok in Htx as [(-> & _)|(row & Hrow & Hst & Hnc & _ & Hfree & Happ & _)]; [by left|right].
  destruct (refines_some _ _ _ _ Hr Hrow) as (a & Ha & [Sp Sc St Sx]). rewrite Hst in Sp. apply (mname_inj New) in Sp.
  assert (Hnt : slice mid d.(targets) = ∅).
  { destruct (inv_maintenance _ Hd mid row Hrow) as (has & hash & l' & r & Hcv & _ & Hag). rewrite Hnc in Hcv. destruct Hcv as (_ & _ & ->).
    apply ag_inputs in Hag. unfold inputs_of in Hag. cbn [fold_left] in Hag. rewrite fmap_empty in Hag. by apply fmap_empty_inv in Hag. }
  apply appendEvent_row in Happ as ->. exists (<[mid := mkAMaint Captured (Some (taken <$> inputs_of l)) a.(a_touched)]> s). split.
  - apply astep_seize; [done|done| |].
    + destruct (a_targets a); [|done]. rewrite Hnc in Sc. destruct Sc as [_ [? [=]]]. eauto.
    + intros tid t (ct & <- & Hct)%lookup_fmap_Some. split; [done|]. intros other m Hm Ho Hh.
      apply (holds_owner d s other m ct.(CT_LockKey)) in Hh; [|done..]. rewrite Forall_forall in Hfree.
      rewrite (Hfree ct) in Hh by by eapply inputs_of_lookup. by apply elem_of_nil in Hh.
  - eapply refines_update; [exact Hr|reflexivity| |]; cbn [captures targets journal set_journal set_maintenance set_targets set_captures].
    + intros m' Hm'. by rewrite (events_after mid), decide_False, lookup_insert_ne, slice_insert_rows_ne.
    + rewrite (events_after mid), decide_True, lookup_insert_eq, slice_insert_rows by done.
      constructor; [done|cbn; split; eauto| |by rewrite existsb_snoc].
      cbn [default a_targets id].
      rewrite <-!map_fmap_compose. apply map_fmap_ext. intros tid ct Hct%inputs_of_lookup. apply taken_face.
      apply parsed_originals in Hp. rewrite Forall_forall in Hp. auto.
Qed.

Lemma next_phase_from_new b : next_phase New b → b = Captured.
Proof. by inversion 1. Qed.

(** The guards of a transition allow what the abstract system allows. *)
Lemma guards_phase_step d mid row a change role : guard_facts d (scanMaintenance mid row) change role →
  shows row (d.(captures) !! mid) (slice mid d.(targets)) (events_of mid d.(journal)) a →
  ∃ b, change.(SC_State) = mname b ∧ phase_step a b.
Proof.
  intros [Gf Gt Gc Gv Gcan Gst Gco] Hs. pose proof Hs as [Sp Sc _ Sx]. cbn [scanMaintenance M_State M_ID] in *.
  rewrite Sp in *. pose proof Gv as (x & b & Hx%mname_inj & Hb & Hst)%maintenance_table. subst x. exists b. split; [done|].
  rewrite Hb in *.
  assert (Hquiet : b = Stopped → all_targets quiet a).
  { intros ->. eapply (shows_all d mid row a (λ o s, negb (unresolved o s))); [done| |apply quiet_spec].
    eapply Forall_impl; [by apply Gst|]. intros kt Hk. by rewrite Hk. }
  assert (Hdone : b = Completed → all_targets settled a ∧ ∃ ts, a.(a_targets) = Some ts ∧ ts ≠ ∅).
  { intros ->. destruct (Gco eq_refl) as (Hc & Hne & Hf). split; [by eapply (shows_all d mid row a targetCompletionAllowed), settled_spec|].
    destruct (proj1 Sc Hc) as [ts Hts]. exists ts. split; [done|]. intros ->. apply Hne.
    destruct Hs as [_ _ Ht _]. rewrite Hts in Ht. cbn in Ht. rewrite fmap_empty in Ht. apply fmap_empty_inv in Ht.
    apply Permutation_nil_r. by rewrite targets_of_perm, Ht, map_to_list_empty. }
  inversion Hst as [x y Hn|x Hx|x y Hn|y N1 N2 N3]; subst.
  - apply step_forward; try done. intros ->. specialize (Gc eq_refl). change "failed" with (mname Failed) in Gc.
    apply mname_inj in Gc. rewrite Gc in Hn. inversion Hn.
  - apply step_cancel. destruct Hx as [Hx|Hx]; [by left|right]. split; [done|]. rewrite <-Sx. apply Gcan; [done|]. by rewrite Hx.
  - by eapply step_fail.
  - match goal with E : Failed = _ |- _ => symmetry in E; rename E into HF end.
    destruct (Gf ltac:(by rewrite HF)) as (_ & _ & Hn & Hy). destruct (a_targets a) as [ts|] eqn:Hts.
    + eapply step_reopen; [done|done|by split_and!| |done]. intros ->. destruct Hy as (Hy & _); [apply Sc; eauto|]. by apply Hy.
    + assert (b = New) as ->; [|by apply step_restart]. apply mname_inj, Hn. destruct (captures d !! mid); [|done].
      destruct (proj1 Sc) as [? [=]]. eauto.
Qed.

Lemma bump_face now (ts : gmap string target_row) : row_face <$> (bump_target now <$> ts) = row_face <$> ts.
Proof. by rewrite <-map_fmap_compose. Qed.

Lemma transition_simulates now id change payload p audit d res d' s : transition_input id change = Ok payload →
  transition_tx now id change payload p audit d = Ok (res, d') → refines d s →
  ∃ b s', change.(SC_State) = mname b ∧ astep s (Move id b) s' ∧ refines d' s'.
Proof.
  intros Hin Htx Hr. unfold transition_input in Hin. case_if; [discriminate|]. bool_hyps.
  destruct (validID_spec id) as (Hne & _); [done|]. apply transition_tx_ok in Htx as (row & Hrow & Hg & _ & Happ & _).
  destruct (refines_some _ _ _ _ Hr Hrow) as (a & Ha & Hs). destruct (guards_phase_step _ _ _ _ _ _ Hg Hs) as (b & Hb & Hp).
  destruct (transition_type_spec (scanMaintenance id row) change [] "" false empty_replay
    (transitioned_event now (scanMaintenance id row) change payload audit) (gf_valid _ _ _ _ Hg) eq_refl) as (_ & _ & _ & _ & Hex).
  apply appendEvent_row in Happ as ->. exists b, (<[id := with_phase a b]> s). split_and!; [done|by apply astep_move|].
  eapply refines_update; [exact Hr|reflexivity| |]; cbn [captures targets journal set_journal set_maintenance set_targets].
  - intros m' Hm'. rewrite (events_after id), decide_False, bump_slice by done. destruct (captures d !! id); [|done]. by rewrite decide_False.
  - rewrite (events_after id), decide_True, bump_slice by done. destruct Hs as [Sp Sc St Sx]. constructor; [done|done| |].
    + cbn [with_phase a_targets]. rewrite <-St. destruct (captures d !! id); [|done]. by rewrite decide_True, bump_face.
    + rewrite existsb_snoc; [done|exact Hex].
Qed.

Lemma target_simulates now mid tid change payload p audit d res d' s : target_input mid tid change = Ok payload →
  transition_target_tx now mid tid change payload p audit d = Ok (res, d') → refines d s →
  ∃ b s', change.(SC_State) = tname b ∧ astep s (Exercise mid tid b) s' ∧ refines d' s'.
Proof.
  intros Hin Htx Hr. unfold target_input in Hin. case_if; [discriminate|]. bool_hyps.
  destruct (validID_spec mid) as (Hne & _); [done|].
  apply transition_target_tx_ok in Htx as (row & trow & Hrow & Htrow & Hterm & Hg & _ & Happ & _).
  destruct (refines_some _ _ _ _ Hr Hrow) as (a & Ha & [Sp Sc St Sx]). apply appendEvent_row in Happ as ->.
  rewrite <-slice_lookup in Htrow. destruct (face_lookup _ _ _ _ St Htrow) as (t & Ht & Hf).
  destruct (a_targets a) as [ts|] eqn:Hts; [|cbn in Ht; by rewrite lookup_empty in Ht]. cbn [default id] in Ht, St.
  injection Hf as Hl Ho Hst. apply target_guards_ok in Hg as [Hv Hg]. cbn [scanTarget scanMaintenance T_State T_OriginalState M_State] in *.
  pose proof Hv as (x & b & Hx & Hb & Hstep)%target_table. rewrite <-Hst in Hx. apply tname_inj in Hx. subst x.
  exists b, (<[mid := mkAMaint a.(a_phase) (Some (<[tid := with_state t b]> ts)) (a.(a_touched) || moves b)]> s). split_and!; [done| |].
  - apply astep_exercise; try done.
    + rewrite Sp in Hterm. unfold active_phase. by destruct (a_phase a).
    + intros Hns. rewrite Hb, Sp in Hg. destruct (String.eqb_spec (tname b) "skipped") as [E|_]; [by apply (tname_inj b TSkipped) in E|].
      destruct Hg as (G1 & G2 & G3 & G4). split; [|by apply move_phase_spec].
      rewrite <-Ho in G1, G2, G3. by destruct (at_origin t).
  - eapply refines_update; [exact Hr|reflexivity| |]; cbn [captures targets journal set_journal set_maintenance set_targets].
    + intros m' Hm'. by rewrite (events_after mid), decide_False, slice_insert_ne.
    + rewrite (events_after mid), decide_True, slice_insert by done. constructor; cbn [a_phase a_targets a_touched default id].
      * done.
      * rewrite Sc. split; eauto.
      * rewrite !fmap_insert, St. unfold row_face, target_face. cbn. by rewrite Hl, Ho, Hb.
      * rewrite existsb_app, Sx. f_equal. unfold is_exercise. cbn. rewrite Hb. by destruct b.
Qed.

Lemma observation_simulates now mid tid payload canonical p a d u d' s :
  observation_tx now mid tid canonical p a d = Ok (u, d') → refines d s → observation_input mid tid payload = Ok canonical → refines d' s.
Proof.
  intros [[-> _]|(_ & row & trow & _ & _ & _ & _ & Happ)]%observation_tx_ok Hr _; [done|].
  by eapply refines_journal.
Qed.

Lemma refines_init : refines initializeSchema ∅.
Proof. intros mid. cbn. by rewrite !lookup_empty. Qed.

Ltac step_with l s' := exists l, s'; split_and!; [by constructor|done|done].

Lemma simulation_step o d s : reachable d → refines d s → let d' := (run_op o d).2 in
  match (run_op o d).1 with
  | Ok _ => ∃ l s', asks o l ∧ astep s l s' ∧ refines d' s'
  | Err _ => d' = d
  end.
Proof.
  intros Hd%reachable_inv Hr. assert (Hsilent : astep s Silent s) by constructor.
  destruct o; cbn [run_op]; unfold outcome_of; cbn [fst snd].
  - unfold CreateMaintenance, validated. destruct (create_input now m) as [m'|] eqn:Hin; [|done].
    destruct (write_spec (create_tx now m' audit) d) as [(b & d' & Hf & ->)|(e & _ & ->)]; [|done].
    destruct (create_simulates _ _ _ _ _ _ _ _ Hd Hin Hf Hr) as (s' & ? & ?). step_with (Plan m.(M_ID)) s'.
  - unfold CaptureMaintenance, validated. destruct (capture_input now0 mid c) as [[c' l]|] eqn:Hin; [|done].
    destruct (write_spec (capture_tx now mid c' l audit) d) as [(b & d' & Hf & ->)|(e & _ & ->)]; [|done].
    destruct (capture_simulates _ _ _ _ _ _ _ _ _ _ _ Hd Hin Hf Hr) as [->|(s' & ? & ?)];
      [step_with Silent s|step_with (Seize mid) s'].
  - unfold TransitionMaintenance, validated. destruct (transition_input id change) as [pl|] eqn:Hin; [|done].
    destruct (write_spec (transition_tx now id change pl p audit) d) as [(b & d' & Hf & ->)|(e & _ & ->)]; [|done].
    destruct (transition_simulates _ _ _ _ _ _ _ _ _ _ Hin Hf Hr) as (ph & s' & ? & ? & ?). step_with (Move id ph) s'.
  - unfold TransitionTarget, validated. destruct (target_input mid tid change) as [pl|] eqn:Hin; [|done].
    destruct (write_spec (transition_target_tx now mid tid change pl p audit) d) as [(b & d' & Hf & ->)|(e & _ & ->)]; [|done].
    destruct (target_simulates _ _ _ _ _ _ _ _ _ _ _ Hin Hf Hr) as (ph & s' & ? & ? & ?). step_with (Exercise mid tid ph) s'.
  - unfold AddObservation, validated. destruct (observation_input mid tid payload) as [pl|] eqn:Hin; [|done].
    destruct (write_spec (observation_tx now mid tid pl p (auditValues audit)) d) as [(b & d' & Hf & ->)|(e & _ & ->)]; [|done].
    pose proof (observation_simulates _ _ _ _ _ _ _ _ _ _ _ Hf Hr Hin). step_with Silent s.
  - unfold RecordBackupCreated. cbn zeta.
    match goal with |- context [write ?f d] => destruct (write_spec f d) as [([] & d' & Hf & ->)|(e & _ & ->)] end; [|done].
    assert (refines d' s) by by eapply refines_journal. step_with Silent s.
  - unfold RecordBackupDownload.
    match goal with |- context [write ?f d] => destruct (write_spec f d) as [([] & d' & Hf & ->)|(e & _ & ->)] end; [|done].
    assert (refines d' s) by by eapply refines_journal. step_with Silent s.
Qed.

(** Every state of the store is an abstract state that the abstract system reaches, so what holds of
    those holds of the store. *)
Lemma reachable_refines d : reachable d → ∃ s, aruns ∅ s ∧ refines d s.
Proof.
  induction 1 as [|d o Hd (s & Hs & Hr) Ho]; [exists ∅; split; [constructor|apply refines_init]|].
  pose proof (simulation_step o d s Hd Hr) as Hx. cbn zeta in Hx. destruct (run_op o d).1.
  - destruct Hx as (l & s' & _ & Hst & Hr'). exists s'. split; [|done]. eapply rtc_r; eauto.
  - rewrite Hx. eauto.
Qed.

Lemma aruns_invariants s : aruns ∅ s → settled_inv s ∧ exclusive_inv s.
Proof.
  intros Hs. apply (rtc_ind_r (R := λ s s', ∃ l, astep s l s') (λ s, settled_inv s ∧ exclusive_inv s) ∅); [| |exact Hs].
  - split; [intros mid m|intros m1 m2 a1 a2 lock]; by rewrite lookup_empty.
  - intros s1 s2 _ [l Hst] [H1 H2]. split; [by eapply settled_inv_step|by eapply exclusive_inv_step].
Qed.

(** C2.  The store implements the abstract system: a call that succeeds makes the step of the
    abstract system its arguments ask for (a plan for CreateMaintenance, a capture of free locks or
    nothing for CaptureMaintenance, the named phase or target state for the transitions, nothing
    for the rest), and a call that fails makes none. *)
Theorem run_op_simulates o d s : reachable d → refines d s → let d' := (run_op o d).2 in
  match (run_op o d).1 with
  | Ok _ => ∃ l s', asks o l ∧ astep s l s' ∧ refines d' s'
  | Err _ => d' = d
  end.
Proof. apply simulation_step. Qed.
End simulation.

Lemma run_op_simulates_witness : ∃ s l s', refines captured s ∧ exclusive_inv s
  ∧ asks (op_move "stopping") l ∧ astep s l s' ∧ refines (run_op (op_move "stopping") captured).2 s'.
Proof.
  destruct (reachable_refines captured captured_reachable) as (s & Ha & Hr). pose proof (run_op_simulates (op_move "stopping") captured s captured_reachable Hr) as Hx.
  destruct (aruns_invariants s Ha) as [_ He]. cbn zeta in Hx.
  assert (E : is_ok (run_op (op_move "stopping") captured).1 = true) by (vm_compute; reflexivity).
  destruct (run_op (op_move "stopping") captured) as [[u|e] d']; [|discriminate E].
  destruct Hx as (l & s' & H1 & H2 & H3). exists s, l, s'. exact (conj Hr (conj He (conj H1 (conj H2 H3)))).
Defined.
