(* ===== verification/Reads.v ===== *)
(** The queries of internal/store/reads.go and their paging.

    A list query keeps the rows its filters accept, sorts them by their integer key, newest first,
    and takes one row more than the page holds; when that row exists the page carries the cursor of
    its last item, and the next query keeps the rows below that key. *)
From S2P Require Import Prelude Utf8 Json JsonText Strconv GoTime JsonDecode Text Errors Values Lifecycle Db Model.
Local Open Scope Z_scope.

(** * One record *)

Definition GetCapture (maintenanceID : string) (d : db) : result error Capture :=
  match d.(captures) !! maintenanceID with
  | None => Err (ESentinel ErrNotFound)
  | Some row => Ok (scanCapture maintenanceID row)
  end.

Definition GetTarget (maintenanceID targetID : string) (d : db) : result error Target :=
  if negb (validID maintenanceID) || negb (validID targetID) then Err (EWrapped ErrInvalid "invalid target identity")
  else match d.(targets) !! (maintenanceID, targetID) with
       | None => Err (ESentinel ErrNotFound)
       | Some row => Ok (scanTarget maintenanceID targetID row)
       end.

Definition GetMaintenanceAggregate (id : string) (d : db) : result error MaintenanceAggregate :=
  if negb (validID id) then Err (EWrapped ErrInvalid "invalid maintenance id")
  else match d.(maintenance) !! id with
       | None => Err (ESentinel ErrNotFound)
       | Some row => Ok (mkAggregate (scanMaintenance id row) (listTargets d id))
       end.

(** * Pages *)

Record page (A : Type) := mkPage { Items : list A; NextCursor : string }.
Arguments mkPage {A}.
Arguments Items {A}.
Arguments NextCursor {A}.

Definition decodeEventCursor (value : string) : result error Z :=
  decoded ← decodeCursor value;
  if String.eqb decoded "" then Ok 0
  else match parse_int decoded with
       | Some id => if id <? 1 then Err (EWrapped ErrInvalid "invalid event cursor") else Ok id
       | None => Err (EWrapped ErrInvalid "invalid event cursor")
       end.

(** A filter of the query: an empty option means no condition, and a NULL column meets none. *)
Definition matches (value : string) (column : option string) : bool :=
  String.eqb value "" || bool_decide (column = Some value).

Section query.
Context {A : Type} (key : A → Z).

Definition newer (a b : A) : Prop := key b ≤ key a.
#[local] Instance newer_dec : RelDecision newer.
Proof. intros a b. unfold newer. apply _. Defined.

(** [cursor > 0] adds the condition [key < cursor]. *)
Definition below (cursor : Z) (a : A) : bool := negb (0 <? cursor) || (key a <? cursor).

(** [WHERE ... ORDER BY key DESC]. *)
Definition select (keep : A → bool) (cursor : Z) (rows : list A) : list A :=
  merge_sort newer (List.filter (λ a, keep a && below cursor a) rows).

(** [LIMIT limit + 1] and the cut to a page. *)
Definition cut (limit : nat) (rows : list A) : page A :=
  let rows := take (limit + 1) rows in
  if (limit <? length rows)%nat then
    mkPage (take limit rows)
      match last (take limit rows) with Some a => encodeCursor (format_int (key a)) | None => "" end
  else mkPage rows "".
End query.

(** * Lists of maintenances *)

Record MaintenanceListOptions := mkMaintenanceList {
  LM_State : string;
  LM_MaintenanceID : string;
  LM_ChangeTicket : string;
  LM_WorkflowVersion : string;
  LM_Cursor : string;
  LM_Limit : Z
}.

Definition keep_maintenance (opts : MaintenanceListOptions) (r : string * maintenance_row) : bool :=
  matches opts.(LM_State) (Some r.2.(m_state)) && matches opts.(LM_MaintenanceID) (Some r.1)
  && matches opts.(LM_ChangeTicket) (Some r.2.(m_change_ticket)) && matches opts.(LM_WorkflowVersion) (Some r.2.(m_workflow_version)).

Definition page_map {A B} (f : A → B) (p : page A) : page B := mkPage (map f p.(Items)) p.(NextCursor).

Definition row_key (r : string * maintenance_row) : Z := r.2.(m_rowid).

Definition ListMaintenances (opts : MaintenanceListOptions) (d : db) : result error (page Maintenance) :=
  if negb (String.eqb opts.(LM_State) "") && negb (ValidMaintenanceState opts.(LM_State))
  then Err (EWrapped ErrInvalid "invalid state")
  else if negb (String.eqb opts.(LM_MaintenanceID) "") && negb (validID opts.(LM_MaintenanceID))
  then Err (EWrapped ErrInvalid "invalid maintenance id")
  else
    cursor ← decodeEventCursor opts.(LM_Cursor);
    Ok (page_map (λ '(id, row), scanMaintenance id row)
          (cut row_key (Z.to_nat (pageLimit opts.(LM_Limit)))
            (select row_key (keep_maintenance opts) cursor (map_to_list d.(maintenance))))).

(** * Lists of events *)

Record EventListOptions := mkEventList {
  LE_MaintenanceID : string;
  LE_TargetID : string;
  LE_EventType : string;
  LE_ResourceType : string;
  LE_ResourceID : string;
  LE_Actor : string;
  LE_Role : string;
  LE_RequestID : string;
  LE_Cursor : string;
  LE_Limit : Z
}.

Definition keep_event (opts : EventListOptions) (e : event_row) : bool :=
  matches opts.(LE_MaintenanceID) e.(e_maintenance_id) && matches opts.(LE_TargetID) e.(e_target_id)
  && matches opts.(LE_EventType) (Some e.(e_type)) && matches opts.(LE_ResourceType) (Some e.(e_resource_type))
  && matches opts.(LE_ResourceID) (Some e.(e_resource_id)) && matches opts.(LE_Actor) (Some e.(e_actor))
  && matches opts.(LE_Role) (Some e.(e_role)) && matches opts.(LE_RequestID) (Some e.(e_request_id)).

Definition event_options (opts : EventListOptions) : result error Z :=
  if negb (String.eqb opts.(LE_MaintenanceID) "") && negb (validID opts.(LE_MaintenanceID))
  then Err (EWrapped ErrInvalid "invalid maintenance id")
  else if negb (String.eqb opts.(LE_TargetID) "") && negb (validID opts.(LE_TargetID))
  then Err (EWrapped ErrInvalid "invalid target id")
  else if negb (String.eqb opts.(LE_TargetID) "") && String.eqb opts.(LE_MaintenanceID) ""
  then Err (EWrapped ErrInvalid "target filter requires maintenance id")
  else decodeEventCursor opts.(LE_Cursor).

Definition ListEvents (opts : EventListOptions) (d : db) : result error (page Event) :=
  cursor ← event_options opts;
  Ok (page_map scanEvent
        (cut e_id (Z.to_nat (pageLimit opts.(LE_Limit))) (select e_id (keep_event opts) cursor d.(journal)))).

(** * Lemmas on cursors *)

(** A character of the alphabet is one chunk and not a space. *)
Lemma b64_char_chunk n s : 0 ≤ n < 64 → ∃ k, chunks (String (b64_char n) s) = k :: chunks s ∧ is_space (rune k) = false.
Proof.
  intros Hn. assert (Hc : ∃ k, n = Z.of_nat k ∧ (k < 64)%nat) by (exists (Z.to_nat n); lia).
  destruct Hc as (k & -> & Hk). do 64 (destruct k as [|k]; [eexists; split; [reflexivity|reflexivity]|]). lia.
Qed.

Lemma trim_left_has k l : k ∈ l → is_space (rune k) = false → trim_left l ≠ [].
Proof.
  induction l as [|k' l IH]; [by intros ?%elem_of_nil|]. cbn. destruct (is_space (rune k')) eqn:E; [|done].
  intros [->|Hin]%elem_of_cons Hk; [congruence|auto].
Qed.

Lemma bytes_of_nil l : bytes_of l = "" → l = [].
Proof. destruct l as [|[] l]; [done|..]; discriminate. Qed.

Lemma trim_space_nonempty k s : k ∈ chunks s → is_space (rune k) = false → trim_space s ≠ "".
Proof.
  intros Hin Hk H%bytes_of_nil. apply (f_equal (@rev chunk)) in H. rewrite rev_involutive in H. cbn in H. revert H.
  apply (trim_left_has k); [|done]. apply list_elem_of_In. rewrite <-in_rev. apply list_elem_of_In.
  induction (chunks s) as [|k' l IH]; [done|]. cbn. destruct (is_space (rune k')) eqn:E; [|done].
  apply elem_of_cons in Hin as [->|Hin]; [congruence|auto].
Qed.

Lemma format_int_nonempty n : format_int n ≠ "".
Proof.
  unfold format_int. case_if; [discriminate|]. bool_hyps.
  destruct (dec_digits_head int_fuel n) as (c & s & -> & _); [lia|unfold int_fuel; lia|discriminate].
Qed.

Lemma encode_nonblank s : s ≠ "" → trim_space (encodeCursor s) ≠ "".
Proof.
  intros Hs. destruct s as [|a s]; [done|]. unfold encodeCursor. pose proof (byte_bounds a).
  assert (∃ t, b64_encode (String a s) = String (b64_char (byte a / 4)) t) as [t ->] by (destruct s as [|b [|c s]]; eauto).
  destruct (b64_char_chunk (byte a / 4) t) as (k & Hk & Hn); [lia|]. apply (trim_space_nonempty k); [|done].
  rewrite Hk. apply elem_of_cons. by left.
Qed.

Lemma decode_encode k : 1 ≤ k → in_int64 k = true → decodeEventCursor (encodeCursor (format_int k)) = Ok k.
Proof.
  intros Hk Hr. unfold decodeEventCursor, decodeCursor. pose proof (format_int_nonempty k) as Hf.
  rewrite (proj2 (String.eqb_neq _ _)) by by apply encode_nonblank. unfold encodeCursor. rewrite b64_roundtrip.
  rewrite (proj2 (Z.eqb_neq _ _)) by by rewrite len_zero. cbn.
  rewrite (proj2 (String.eqb_neq _ _)) by done. rewrite parse_format_int by done.
  by rewrite (proj2 (Z.ltb_ge _ _)) by lia.
Qed.

(** * Lemmas on pages *)

Section paging.
Context {A : Type} (key : A → Z).

Definition descending : list A → Prop := StronglySorted (λ a b, key b < key a).

#[local] Instance newer_trans : Transitive (newer key).
Proof. intros a b c. unfold newer. lia. Qed.
#[local] Instance newer_total : Total (newer key).
Proof. intros a b. unfold newer. lia. Qed.
#[local] Existing Instance newer_dec.

Lemma select_permutation keep c rows : select key keep c rows ≡ₚ List.filter (λ a, keep a && below key c a) rows.
Proof. apply merge_sort_Permutation. Qed.

Lemma elem_of_lfilter (f : A → bool) l a : a ∈ List.filter f l ↔ a ∈ l ∧ f a = true.
Proof. rewrite !list_elem_of_In. apply filter_In. Qed.

Lemma strictly l : StronglySorted (newer key) l → NoDup (map key l) → descending l.
Proof.
  induction 1 as [|a l Hs IH Hf]; intros Hn; [constructor|]. cbn in Hn. apply NoDup_cons in Hn as [Ha Hn].
  constructor; [by apply IH|]. rewrite Forall_forall in Hf |- *. intros b Hb. specialize (Hf b Hb). unfold newer in Hf.
  assert (key b ≠ key a); [|lia]. intros E. apply Ha. rewrite <-E. apply list_elem_of_In, in_map, list_elem_of_In, Hb.
Qed.

Lemma nodup_filter (f : A → bool) l : NoDup (map key l) → NoDup (map key (List.filter f l)).
Proof.
  induction l as [|a l IH]; cbn; [done|]. intros [Ha Hn]%NoDup_cons. destruct (f a); [|auto]. cbn. apply NoDup_cons. split; [|auto].
  intros (b & E & Hb)%list_elem_of_In%in_map_iff. apply filter_In in Hb as [Hb _]. apply Ha. rewrite <-E.
  by apply list_elem_of_In, in_map.
Qed.

Lemma select_descending keep c rows : NoDup (map key rows) → descending (select key keep c rows).
Proof.
  intros Hn. apply strictly; [by apply StronglySorted_merge_sort; try apply _|].
  rewrite (Permutation_map key (select_permutation keep c rows)). by apply nodup_filter.
Qed.

Lemma descending_filter (f : A → bool) l : descending l → descending (List.filter f l).
Proof.
  induction 1 as [|a l Hs IH Hf]; cbn; [constructor|]. destruct (f a); [|done]. constructor; [done|].
  rewrite Forall_forall in Hf |- *. intros b [Hb _]%elem_of_lfilter. auto.
Qed.

Lemma descending_unique l1 l2 : descending l1 → descending l2 → l1 ≡ₚ l2 → l1 = l2.
Proof. apply StronglySorted_unique_strong. intros a b _ _ ??. lia. Qed.

Lemma filter_permutation (f : A → bool) l1 l2 : l1 ≡ₚ l2 → List.filter f l1 ≡ₚ List.filter f l2.
Proof.
  induction 1 as [|a l1 l2 _ IH|a b l|l1 l2 l3 _ IH1 _ IH2]; cbn; [done| | |by etrans].
  - destruct (f a); [by constructor|done].
  - destruct (f a), (f b); try done. apply perm_swap.
Qed.

Lemma filter_filter (f g : A → bool) l : List.filter f (List.filter g l) = List.filter (λ a, g a && f a) l.
Proof. induction l as [|a l IH]; [done|]. cbn. destruct (g a); cbn; [destruct (f a); by rewrite IH|done]. Qed.

Lemma filter_agree (f g : A → bool) l : (∀ a, a ∈ l → f a = g a) → List.filter f l = List.filter g l.
Proof.
  induction l as [|a l IH]; intros Hfg; [done|]. cbn. rewrite (Hfg a) by apply list_elem_of_here.
  rewrite IH; [done|]. intros b Hb. apply Hfg. by apply list_elem_of_further.
Qed.

(** The rows after a cursor are those of the whole list below it. *)
Lemma select_below keep c rows : NoDup (map key rows) → 0 < c →
  select key keep c rows = List.filter (λ a, key a <? c) (select key keep 0 rows).
Proof.
  intros Hn Hc. apply descending_unique; [by apply select_descending|by apply descending_filter, select_descending|].
  rewrite select_permutation, (filter_permutation _ _ _ (select_permutation keep 0 rows)), filter_filter.
  erewrite filter_agree; [done|]. intros a _. cbn. unfold below. rewrite (proj2 (Z.ltb_lt 0 c)) by done. cbn. by rewrite andb_true_r.
Qed.

Lemma descending_app l1 l2 : descending (l1 ++ l2) → descending l1 ∧ descending l2 ∧ ∀ a b, a ∈ l1 → b ∈ l2 → key b < key a.
Proof.
  induction l1 as [|x l1 IH]; cbn; intros Hd.
  - split_and!; [constructor|done|]. by intros a b ?%elem_of_nil.
  - inversion Hd as [|? ? Hd' Hf]; subst. destruct (IH Hd') as (H1 & H2 & H3). rewrite Forall_app in Hf. destruct Hf as [Hf1 Hf2].
    split_and!; [by constructor|done|]. intros a b [->|Ha]%elem_of_cons Hb; [|by apply H3].
    rewrite Forall_forall in Hf2. by apply Hf2.
Qed.

(** A page is the whole list, or its first part with the cursor of the rest. *)
Lemma cut_spec limit l : descending l → (0 < limit)%nat →
  (Items (cut key limit l) = l ∧ NextCursor (cut key limit l) = "")
  ∨ (∃ a, a ∈ l ∧ NextCursor (cut key limit l) = encodeCursor (format_int (key a))
      ∧ l = Items (cut key limit l) ++ List.filter (λ b, key b <? key a) l
      ∧ (length (List.filter (λ b, (key b <? key a)%Z) l) < length l)%nat).
Proof.
  intros Hd Hl. unfold cut. cbn zeta. rewrite length_take. destruct (Nat.ltb_spec limit ((limit + 1) `min` length l)) as [Hlt|Hge]; cbn.
  - right. rewrite take_take, Nat.min_l by lia. destruct (last (take limit l)) as [a|] eqn:Hlast.
    2:{ apply last_None in Hlast. apply (f_equal length) in Hlast. rewrite length_take in Hlast. cbn in Hlast. lia. }
    apply last_Some in Hlast as [l' Hl']. exists a.
    pose proof (take_drop limit l) as Hsplit. rewrite Hl' in Hsplit.
    assert (Hf : List.filter (λ b, key b <? key a) l = drop limit l).
    { rewrite <-Hsplit at 1. rewrite <-Hsplit in Hd. rewrite List.filter_app.
      apply descending_app in Hd as (H1 & _ & H3). apply descending_app in H1 as (_ & _ & H1).
      rewrite (filter_agree _ (λ _, false)), (filter_agree (λ b, key b <? key a) (λ _, true) (drop limit l)).
      - assert (Hno : ∀ l0 : list A, List.filter (λ _, false) l0 = []) by (by induction l0). rewrite Hno. cbn.
        generalize (drop limit l). intros l0. induction l0 as [|? ? IH]; cbn; [done|by rewrite IH].
      - intros b Hb. apply Z.ltb_lt. apply H3; [|done]. apply elem_of_app. right. by apply list_elem_of_singleton.
      - intros b [Hb|Hb]%elem_of_app; apply Z.ltb_ge.
        + pose proof (H1 b a Hb). rewrite list_elem_of_singleton in H. specialize (H eq_refl). lia.
        + apply list_elem_of_singleton in Hb as ->. lia. }
    rewrite Hf. split_and!; [|done|by rewrite take_drop|].
    + rewrite <-Hsplit. apply elem_of_app. left. apply elem_of_app. right. by apply list_elem_of_singleton.
    + rewrite length_drop. lia.
  - left. split; [|done]. apply take_ge. lia.
Qed.
End paging.
