(* ===== verification/Request.v ===== *)
(** What the handlers read from a request and how store errors become responses:
    internal/api/server.go.

    A request is what [net/http] hands to the handlers: the method, the unescaped segments of the
    path, the query as its list of pairs, the values of a header by canonical name, and the body.
    A response keeps the Go value given to [writeJSON] and not its encoding. *)
From S2P Require Import Prelude Utf8 Json JsonText Strconv GoTime JsonDecode Text Auth Errors Values Model Reads.
Local Open Scope Z_scope.

(** * Requests *)

Record request := mkRequest {
  Method : string;
  Segments : list string;
  Query : list (string * string);
  Header : string → list string;
  Body : string
}.

(** [r.URL.Path]. *)
Definition url_path (r : request) : string := "/" +:+ join "/" r.(Segments).

(** [Header.Get]: the first value, or nothing. *)
Definition header_get (name : string) (r : request) : string :=
  match r.(Header) name with v :: _ => v | [] => "" end.

(** [url.Values.Get]. *)
Definition query_get (name : string) (q : list (string * string)) : string :=
  match find (λ kv, String.eqb kv.1 name) q with Some (_, v) => v | None => "" end.

Definition queryPageLimit (r : request) : result error Z :=
  let value := trim_space (query_get "limit" r.(Query)) in
  if String.eqb value "" then Ok 100
  else match parse_int value with
       | Some limit => if (limit <? 1) || (200 <? limit) then Err (EWrapped ErrInvalid "limit must be between 1 and 200") else Ok limit
       | None => Err (EWrapped ErrInvalid "limit must be between 1 and 200")
       end.

Definition rejectUnknownQuery (q : list (string * string)) (allowed : list string) : result error () :=
  match find (λ kv, negb (existsb (String.eqb kv.1) allowed)) q with
  | Some (name, _) => Err (EWrapped ErrInvalid ("unsupported query parameter " +:+ name))
  | None => Ok ()
  end.

Definition trimmed (name : string) (r : request) : string := trim_space (query_get name r.(Query)).

Definition maintenanceListOptions (r : request) : result error MaintenanceListOptions :=
  rejectUnknownQuery r.(Query) ["state"; "maintenance_id"; "change_ticket"; "workflow_version"; "cursor"; "limit"] ;;
  limit ← queryPageLimit r;
  Ok (mkMaintenanceList (trimmed "state" r) (trimmed "maintenance_id" r) (trimmed "change_ticket" r)
    (trimmed "workflow_version" r) (trimmed "cursor" r) limit).

Definition eventListOptions (r : request) : result error EventListOptions :=
  rejectUnknownQuery r.(Query) ["maintenance_id"; "target_id"; "event_type"; "resource_type"; "resource_id"; "actor"; "role";
    "request_id"; "cursor"; "limit"] ;;
  limit ← queryPageLimit r;
  let opts := mkEventList (trimmed "maintenance_id" r) (trimmed "target_id" r) (trimmed "event_type" r)
    (trimmed "resource_type" r) (trimmed "resource_id" r) (trimmed "actor" r) (trimmed "role" r) (trimmed "request_id" r)
    (trimmed "cursor" r) limit in
  if negb (String.eqb opts.(LE_TargetID) "") && String.eqb opts.(LE_MaintenanceID) ""
  then Err (EWrapped ErrInvalid "target_id requires maintenance_id")
  else Ok opts.

(** * Bodies *)

(** [None]: the error every caller answers with [invalid_json]. *)
Definition readBody (r : request) (limit : Z) : option string :=
  if (len r.(Body) =? 0) || (limit <? len r.(Body)) then None else Some r.(Body).

(** Exactly one document, without an unknown field. *)
Definition decodeJSON {S} (r : request) (fs : fields S) (zero : S) : option S :=
  data ← readBody r 2097152;
  unmarshal_struct true fs data zero.

Definition isJSONObject (raw : string) : bool :=
  let trimmed := trim_space raw in
  (2 <=? len trimmed) && has_prefix trimmed "{" && has_suffix trimmed "}" && valid trimmed.

Definition decodeBodyObject (r : request) (limit : Z) : option string :=
  data ← readBody r limit;
  if isJSONObject data then Some data else None.

Record maintenanceRequest := mkMaintenanceRequest {
  MR_MaintenanceID : string;
  MR_ChangeTicket : string;
  MR_WorkflowVersion : string;
  MR_Metadata : string
}.

Definition maintenance_request_fields : fields maintenanceRequest := [
  ("maintenance_id", at_field dec_string MR_MaintenanceID (λ a r, mkMaintenanceRequest a r.(MR_ChangeTicket) r.(MR_WorkflowVersion) r.(MR_Metadata)));
  ("change_ticket", at_field dec_string MR_ChangeTicket (λ a r, mkMaintenanceRequest r.(MR_MaintenanceID) a r.(MR_WorkflowVersion) r.(MR_Metadata)));
  ("workflow_version", at_field dec_string MR_WorkflowVersion (λ a r, mkMaintenanceRequest r.(MR_MaintenanceID) r.(MR_ChangeTicket) a r.(MR_Metadata)));
  ("metadata", at_field dec_raw MR_Metadata (λ a r, mkMaintenanceRequest r.(MR_MaintenanceID) r.(MR_ChangeTicket) r.(MR_WorkflowVersion) a))].

(** [stateChangeRequest] has the fields of [store.StateChange], to which [storeValue] copies them. *)
Definition state_change_fields : fields StateChange := [
  ("state", at_field dec_string SC_State (λ a r, mkChange a r.(SC_Justification) r.(SC_Detail)));
  ("justification", at_field dec_string SC_Justification (λ a r, mkChange r.(SC_State) a r.(SC_Detail)));
  ("detail", at_field dec_raw SC_Detail (λ a r, mkChange r.(SC_State) r.(SC_Justification) a))].

(** * If-Match *)

Fixpoint skip_blanks (s : string) : string :=
  match s with
  | String c s' => if Ascii.eqb c " " || Ascii.eqb c "009" then skip_blanks s' else s
  | EmptyString => ""
  end.

Definition etag_char (c : ascii) : bool := (byte c =? 33) || in_range 35 126 c || (128 <=? byte c).

(** The opaque part of a tag, up to its closing quote, and what follows. *)
Fixpoint opaque_tag (s : string) : option (string * string) :=
  match s with
  | EmptyString => None
  | String c s' =>
    if Ascii.eqb c dquote then Some ("", s')
    else if etag_char c then '(o, rest) ← opaque_tag s'; Some (String c o, rest)
    else None
  end.

(** The version a strong tag names, if it is one of this program's. *)
Definition tag_version (opaque : string) : list Z :=
  match parse_int opaque with
  | Some version => if (0 <? version) && String.eqb (format_int version) opaque then [version] else []
  | None => []
  end.

Definition invalid_if_match : string := "invalid_if_match".

(** The loop over the tags; every round consumes at least one byte. *)
Fixpoint if_match_tags (fuel : nat) (raw : string) : result string (list Z) :=
  match fuel with
  | O => Err invalid_if_match
  | S n =>
    let s := skip_blanks raw in
    let weak := has_prefix s "W/" in
    match (if weak then str_drop 2 s else s) with
    | EmptyString => Err invalid_if_match
    | String q s =>
      if negb (Ascii.eqb q dquote) then Err invalid_if_match
      else match opaque_tag s with
           | None => Err invalid_if_match
           | Some (opaque, s) =>
             let versions := if weak then [] else tag_version opaque in
             match skip_blanks s with
             | EmptyString => Ok versions
             | String c s =>
               if negb (Ascii.eqb c ",") || String.eqb s "" then Err invalid_if_match
               else rest ← if_match_tags n s; Ok (versions ++ rest)
             end
           end
    end
  end.

(** The precondition, or the code of the error. *)
Definition versionPrecondition (values : list string) : result string VersionPrecondition :=
  let raw := trim_space (join "," values) in
  if String.eqb raw "" then Err "if_match_required"
  else if String.eqb raw "*" then Ok (mkPrecondition true [])
  else
    versions ← if_match_tags (String.length raw) raw;
    Ok (mkPrecondition false (match versions with [] => [0] | _ => versions end)).

(** * Responses *)

Inductive value := VText (s : string) | VInt (n : Z).

Inductive body :=
  | BMap (fields : list (string * value))
  | BAggregate (aggregate : MaintenanceAggregate)
  | BCapture (capture : Capture)
  | BTarget (target : Target)
  | BMaintenances (p : page Maintenance)
  | BEvents (p : page Event)
  | BManifest (manifest : BackupManifest)
  | BRaw (text : string)
  | BEmpty.

Record response := mkResponse { Status : Z; Headers : list (string * string); RespBody : body }.

Definition writeJSON (headers : list (string * string)) (status : Z) (b : body) : response :=
  mkResponse status (headers ++ [("Content-Type", "application/json")]) b.

Definition writeError (headers : list (string * string)) (status : Z) (code : string) : response :=
  writeJSON headers status (BMap [("error", VText code)]).

Definition writeIfMatchError (code : string) : response :=
  let '(status, detail) :=
    if String.eqb code "if_match_required" then (428, "send If-Match with a strong ETag, a tag list, or *")
    else (400, "If-Match must use RFC entity-tag syntax or *") in
  writeJSON [] status (BMap [("error", VText code); ("detail", VText detail)]).

(** The code and the status of an error of the store. *)
Definition store_error_code (err : error) : string * Z :=
  if errors_is err ErrNotFound then ("not_found", 404)
  else if errors_is err ErrForbidden then ("forbidden", 403)
  else if errors_is err ErrVersionConflict then ("version_conflict", 412)
  else if errors_is err ErrPreconditionRequired then ("if_match_required", 428)
  else if errors_is err ErrConflict then ("conflict", 409)
  else if errors_is err ErrInvalid then ("invalid_resource", 400)
  else ("internal_error", 500).

Definition text_entry (key text : string) : list (string * value) := if String.eqb text "" then [] else [(key, VText text)].
Definition int_entry (key : string) (n : Z) : list (string * value) := if 0 <? n then [(key, VInt n)] else [].

(** The details of a [ConflictError] in the chain of the error. *)
Fixpoint conflict_entries (err : error) : list (string * value) :=
  match err with
  | EConflict e =>
    text_entry "reason" e.(Reason) ++ text_entry "resource_type" e.(ResourceType) ++ text_entry "resource_id" e.(ResourceID)
    ++ text_entry "holder" e.(Holder) ++ int_entry "expected_version" e.(ExpectedVersion)
    ++ int_entry "current_version" e.(CurrentVersion) ++ text_entry "current_state" e.(CurrentState)
    ++ text_entry "requested_state" e.(RequestedState)
  | EPrefixed _ e => conflict_entries e
  | _ => []
  end.

Definition writeStoreError `{SQLite} (err : error) : response :=
  let '(code, status) := store_error_code err in
  let message := if String.eqb code "invalid_resource" || String.eqb code "conflict" || String.eqb code "version_conflict"
    then [("message", VText (error_text err))] else [] in
  writeJSON [] status (BMap ([("error", VText code)] ++ message ++ conflict_entries err)).

(** * Request identity *)

(** [fresh] is the random identifier of the request. *)
Definition requestID (r : request) (fresh : string) : string :=
  let value := trim_space (header_get "X-Request-Id" r) in
  if negb (String.eqb value "") && (len value <=? 128) && negb (contains_any value (String "013" (String "010" "")))
  then value else fresh.

Definition auditContext (principal : Principal) (rid : string) : AuditContext :=
  mkAudit principal.(P_Name) principal.(P_Role) rid.

(** * Lemmas on If-Match *)

(** A run of ASCII characters that are allowed in a tag. *)
Definition tag_chars (s : string) : bool := str_forall (λ c, in_range 35 126 c) s.

Lemma opaque_tag_app o s : tag_chars o = true → opaque_tag (o +:+ String dquote s) = Some (o, s).
Proof.
  induction o as [|c o IH]; [by rewrite app_str_nil_l|]. cbn [tag_chars str_forall]. intros [Hc Ho]%andb_true_iff.
  rewrite app_str_cons. cbn [opaque_tag]. assert (Hq : Ascii.eqb c dquote = false).
  { apply Ascii.eqb_neq. intros ->. by vm_compute in Hc. }
  rewrite Hq. unfold etag_char. rewrite Hc, orb_true_r. cbn [orb]. by rewrite IH.
Qed.

Lemma digits_tag_chars n fuel : 0 ≤ n → tag_chars (dec_digits fuel n) = true.
Proof.
  revert n. induction fuel as [|f IH]; intros n Hn; [done|]. cbn [dec_digits]. assert (Hd : ∀ m, 0 ≤ m < 10 → in_range 35 126 (digit m) = true).
  { intros m Hm. unfold digit. rewrite in_range_spec, byte_chr; lia. }
  destruct (Z.ltb_spec n 10).
  - unfold tag_chars. cbn. by rewrite Hd by lia.
  - unfold tag_chars in *. rewrite str_forall_app, IH by lia. cbn. by rewrite Hd by lia.
Qed.

Lemma format_tag_chars n : 0 ≤ n → tag_chars (format_int n) = true.
Proof. intros Hn. unfold format_int. rewrite (proj2 (Z.ltb_ge _ _)) by lia. by apply digits_tag_chars. Qed.

Lemma tag_version_format n : 1 ≤ n ≤ int64_max → tag_version (format_int n) = [n].
Proof.
  intros Hn. unfold tag_version. rewrite parse_format_int.
  - rewrite String.eqb_refl. by rewrite (proj2 (Z.ltb_lt _ _)) by lia.
  - unfold in_int64, int64_min, int64_max in *. rewrite andb_true_iff, !Z.leb_le. lia.
Qed.

(** One strong tag at the head of the text. *)
Lemma if_match_strong n o s : tag_chars o = true → if_match_tags (S n) (String dquote (o +:+ String dquote s))
  = match skip_blanks s with
    | EmptyString => Ok (tag_version o)
    | String c s => if negb (Ascii.eqb c ",") || String.eqb s "" then Err invalid_if_match
                    else rest ← if_match_tags n s; Ok (tag_version o ++ rest)
    end.
Proof.
  intros Ho. pose proof (opaque_tag_app o s Ho) as Htag. revert Htag. cbn [if_match_tags].
  generalize (o +:+ String dquote s) as t. intros t Htag.
  change (skip_blanks (String dquote t)) with (String dquote t). change (has_prefix (String dquote t) "W/") with false.
  cbn -[opaque_tag tag_version if_match_tags skip_blanks]. by rewrite Htag.
Qed.

(** A list of tags as a client writes it. *)
Definition tag_list (versions : list Z) : string := join ", " (map VersionETag versions).

Lemma if_match_round vs : vs ≠ [] → Forall (λ v, 1 ≤ v ≤ int64_max) vs → ∀ fuel, (length vs ≤ fuel)%nat →
  if_match_tags fuel (tag_list vs) = Ok vs ∧ if_match_tags fuel (String " " (tag_list vs)) = Ok vs.
Proof.
  intros Hn Hv. induction vs as [|v vs IH]; [done|]. apply Forall_cons in Hv as [Hv Hvs]. intros [|fuel] Hf; [cbn in Hf; lia|].
  assert (Hblank : if_match_tags (S fuel) (String " " (tag_list (v :: vs))) = if_match_tags (S fuel) (tag_list (v :: vs))) by reflexivity.
  rewrite Hblank. assert (H : if_match_tags (S fuel) (tag_list (v :: vs)) = Ok (v :: vs)); [|done]. clear Hblank.
  pose proof (format_tag_chars v ltac:(lia)) as Hc. unfold tag_list. destruct vs as [|w vs].
  - cbn [map join]. unfold VersionETag. rewrite if_match_strong by done. cbn -[tag_version]. by rewrite tag_version_format.
  - destruct (IH ltac:(done) Hvs fuel) as [_ IH2]; [cbn in *; lia|]. unfold tag_list in IH2.
    cbn [map] in *. change (join ", " (VersionETag v :: VersionETag w :: map VersionETag vs))
      with (VersionETag v +:+ String "," (String " " (join ", " (VersionETag w :: map VersionETag vs)))).
    revert IH2. generalize (join ", " (VersionETag w :: map VersionETag vs)) as rest. intros rest IH2.
    unfold VersionETag. rewrite app_str_cons, app_str_assoc, app_str_cons, app_str_nil_l, if_match_strong by done.
    cbn -[tag_version if_match_tags]. rewrite IH2. cbn. by rewrite tag_version_format.
Qed.

Lemma trim_both_ends k m k' m' : k :: m = m' ++ [k'] → is_space (rune k) = false → is_space (rune k') = false →
  trim_both (k :: m) = k :: m.
Proof.
  intros E Hk Hk'. unfold trim_both. cbn [trim_left]. rewrite Hk, E, rev_app_distr. cbn [rev app trim_left]. rewrite Hk'.
  cbn [rev]. by rewrite rev_involutive.
Qed.

Lemma trim_ascii s a t p b : is_ascii s = true → s = String a t → s = p +:+ String b "" →
  is_space (byte a) = false → is_space (byte b) = false → trim_space s = s.
Proof.
  intros Hs Ha Hb Hka Hkb. rewrite <-(bytes_of_chunks s) at 2. unfold trim_space. fold (trim_both (chunks s)). f_equal.
  rewrite (chunks_ascii s Hs). subst s. cbn [list_ascii_of_string map].
  apply (trim_both_ends _ _ (R1 b) (map R1 (list_ascii_of_string p))); [|done|done].
  change (map R1 (list_ascii_of_string (String a t)) = map R1 (list_ascii_of_string p) ++ map R1 [b]). rewrite Hb, <-List.map_app.
  f_equal. clear. induction p as [|c p IH]; [done|]. rewrite app_str_cons. cbn. by rewrite IH.
Qed.

Lemma tag_ascii v : 0 ≤ v → is_ascii (VersionETag v) = true.
Proof.
  intros Hv. unfold VersionETag, is_ascii. cbn [str_forall]. rewrite str_forall_app. apply andb_true_iff. split; [done|].
  apply andb_true_iff. split; [|done]. pose proof (format_tag_chars v Hv) as Hc. unfold tag_chars in Hc. revert Hc.
  generalize (format_int v) as s. intros s. induction s as [|c s IH]; [done|]. cbn. intros [Hc Hs]%andb_true_iff.
  apply andb_true_iff. split; [|auto]. apply in_range_spec in Hc. apply Z.ltb_lt. lia.
Qed.

Lemma tag_list_shape vs : vs ≠ [] → Forall (λ v, 0 ≤ v) vs →
  is_ascii (tag_list vs) = true ∧ (∃ t, tag_list vs = String dquote t) ∧ ∃ p, tag_list vs = p +:+ String dquote "".
Proof.
  intros Hn Hv. induction vs as [|v vs IH]; [done|]. apply Forall_cons in Hv as [Hv Hvs]. pose proof (tag_ascii v Hv) as Ha. destruct vs as [|w vs].
  - unfold tag_list. cbn [map join]. split_and!; [done|by eexists|]. unfold VersionETag. exists (String dquote (format_int v)). by rewrite app_str_cons.
  - destruct (IH ltac:(done) Hvs) as (H1 & [t H2] & [p H3]).
    assert (E : tag_list (v :: w :: vs) = VersionETag v +:+ ", " +:+ tag_list (w :: vs)) by reflexivity. rewrite E. split_and!.
    + unfold is_ascii in *. by rewrite !str_forall_app, Ha, H1.
    + unfold VersionETag. rewrite app_str_cons. by eexists.
    + rewrite H3. exists (VersionETag v +:+ ", " +:+ p). by rewrite !app_str_assoc.
Qed.

Lemma tag_list_trim vs : vs ≠ [] → Forall (λ v, 0 ≤ v) vs → trim_space (tag_list vs) = tag_list vs.
Proof.
  intros Hn Hv. destruct (tag_list_shape vs Hn Hv) as (Ha & [t Ht] & [p Hp]). by eapply trim_ascii.
Qed.

Lemma if_match_positive fuel : ∀ s vs, if_match_tags fuel s = Ok vs → Forall (λ v, 0 < v ∧ in_int64 v = true) vs.
Proof.
  induction fuel as [|fuel IH]; intros s vs; cbn [if_match_tags]; [discriminate|].
  destruct (if has_prefix _ _ then _ else _) as [|q t]; [discriminate|]. case_if; [discriminate|].
  destruct (opaque_tag t) as [[o rest]|]; [|discriminate].
  assert (Ht : Forall (λ v, 0 < v ∧ in_int64 v = true) (if has_prefix (skip_blanks s) "W/" then [] else tag_version o)).
  { case_if; [constructor|]. unfold tag_version. destruct (parse_int o) as [v|] eqn:Hp; [|constructor]. case_if; [|constructor]. bool_hyps.
    apply Forall_singleton. split; [done|]. unfold parse_int in Hp. destruct o as [|c o]; [discriminate|].
    repeat case_if; destruct (parse_digits _); cbn in Hp; try discriminate; repeat case_if; congruence. }
  destruct (skip_blanks rest) as [|c u]; [by intros [= <-]|]. case_if; [discriminate|].
  intros (l & Hl & [= <-])%bind_ok. apply Forall_app. split; [done|by eapply IH].
Qed.

Lemma precondition_tags vs : vs ≠ [] → Forall (λ v, 1 ≤ v ≤ int64_max) vs →
  versionPrecondition [tag_list vs] = Ok (mkPrecondition false vs).
Proof.
  intros Hn Hv. assert (Hp : Forall (λ v, 0 ≤ v) vs) by (eapply Forall_impl; [exact Hv|]; cbn; lia).
  unfold versionPrecondition. cbn [join]. rewrite tag_list_trim by done. destruct (tag_list_shape vs Hn Hp) as (_ & [t Ht] & _).
  assert (Hf : (length vs ≤ String.length (tag_list vs))%nat).
  { clear. unfold tag_list. induction vs as [|v vs IH]; [cbn; lia|]. destruct vs as [|w vs]; [cbn; lia|].
    change (join ", " (map VersionETag (v :: w :: vs))) with (VersionETag v +:+ ", " +:+ join ", " (map VersionETag (w :: vs))).
    rewrite !length_app_str. cbn [List.length String.length] in *. lia. }
  destruct (if_match_round vs Hn Hv _ Hf) as [Hr _]. rewrite Hr, Ht.
  change (String dquote t =? "")%string with false. change (String dquote t =? "*")%string with false. by destruct vs.
Qed.

(** * What the requests promise *)

(** C38.  A client that sends back the ETags it was given, as a list, is understood exactly: the
    precondition holds those versions and no other. *)
Theorem if_match_roundtrip vs : vs ≠ [] → Forall (λ v, 1 ≤ v ≤ int64_max) vs →
  versionPrecondition [tag_list vs] = Ok (mkPrecondition false vs).
Proof. apply precondition_tags. Qed.

(** An accepted If-Match header is either the star alone or a nonempty list of versions, each
    positive and in 64 bits, or the one version 0, which no resource has; so a request that passed
    here is never taken for one without a precondition. *)
Theorem if_match_sound values p : versionPrecondition values = Ok p →
  (p = mkPrecondition true [] ∧ trim_space (join "," values) = "*")
  ∨ Any p = false ∧ (Versions p = [0] ∨ Versions p ≠ [] ∧ Forall (λ v, 0 < v ∧ in_int64 v = true) (Versions p)).
Proof.
  unfold versionPrecondition. cbn zeta. case_if; [discriminate|]. case_if.
  - intros [= <-]. left. by bool_hyps.
  - intros (vs & Hvs & [= <-])%bind_ok. right. split; [done|]. apply if_match_positive in Hvs. cbn. destruct vs; [by left|right; done].
Qed.

(** The page limit of an accepted request is a number from 1 to 200, which the store uses as it
    is; without one it is 100. *)
Theorem query_limit_used r n : queryPageLimit r = Ok n → 1 ≤ n ≤ 200 ∧ pageLimit n = n
  ∧ (trim_space (query_get "limit" (Query r)) = "" → n = 100).
Proof.
  assert (Hl : ∀ k, 1 ≤ k ≤ 200 → pageLimit k = k).
  { intros k Hk. unfold pageLimit. rewrite (proj2 (Z.leb_gt _ _)), (proj2 (Z.ltb_ge _ _)) by lia. done. }
  unfold queryPageLimit. cbn zeta. case_if; bool_hyps.
  - intros [= <-]. split_and!; [lia|lia|by apply Hl|done].
  - destruct (parse_int _) as [k|]; [|discriminate]. case_if; [discriminate|]. intros [= <-]. bool_hyps. split_and!; [lia|lia|apply Hl; lia|done].
Qed.

(** * Instances *)

Lemma if_match_roundtrip_witness : versionPrecondition [tag_list [3; 12]] = Ok (mkPrecondition false [3; 12]).
Proof.
  apply if_match_roundtrip; [discriminate|]. unfold int64_max. repeat first [apply Forall_nil; exact I|apply Forall_cons; split; [lia|]].
Defined.

Definition weak_tags : list string := [String "W" (String "/" (VersionETag 7))].

Lemma if_match_sound_witness : ∃ p, versionPrecondition weak_tags = Ok p
  ∧ ((p = mkPrecondition true [] ∧ trim_space (join "," weak_tags) = "*")
     ∨ Any p = false ∧ (Versions p = [0] ∨ Versions p ≠ [] ∧ Forall (λ v, 0 < v ∧ in_int64 v = true) (Versions p))).
Proof.
  exists (mkPrecondition false [0]). split; [vm_compute; reflexivity|]. apply if_match_sound. vm_compute. reflexivity.
Defined.

Definition list_request : request := mkRequest "GET" ["api"; "v1"; "events"] [("limit", " 20 "); ("actor", "ops")] (λ _, []) "".

Lemma query_limit_used_witness : queryPageLimit list_request = Ok 20 ∧ pageLimit 20 = 20.
Proof.
  split; [vm_compute; reflexivity|]. apply (query_limit_used list_request 20). vm_compute. reflexivity.
Defined.
