(* ===== verification/Disk.v ===== *)
(** The file system as the program uses it, and computations over it that can fail or be cut short.

    A [world] is the files of the disk by path and the contents of the live database.  An [io]
    computation also reads a list of [fault]s, one per operation on the world: the operation
    proceeds, fails with an I/O error, or the process stops there.  A write that fails or is cut
    short leaves an arbitrary text.  A theorem that holds for every list of faults holds whatever
    the disk does and wherever the process is killed; the loss of writes that were not synced is not
    modelled, nor are permissions.  [os.Stat] and [os.Open] follow a symbolic link once;
    the directories on a path are no links. *)
From S2P Require Import Prelude Text Errors Db.
Local Open Scope Z_scope.

Inductive entry :=
  | Regular (content : string) (mtime : Z)
  | Directory
  | Link (target : string)
  | Irregular.

Abbreviation disk := (gmap string entry).

Record world := mkWorld { files : disk; live : db }.

Definition set_files (f : disk → disk) (w : world) : world := mkWorld (f w.(files)) w.(live).

Inductive fault := Proceed | Fails (torn : string) | Stops (torn : string).

(** * Computations *)

(** The result, or [None] when the process stopped; the faults left; the world. *)
Definition io (A : Type) : Type := list fault → world → option (result error A) * list fault * world.

#[export] Instance io_ret : MRet io := λ A a fs w, (Some (Ok a), fs, w).
#[export] Instance io_bind : MBind io := λ A B f m fs w,
  match m fs w with
  | (Some (Ok a), fs', w') => f a fs' w'
  | (Some (Err e), fs', w') => (Some (Err e), fs', w')
  | (None, fs', w') => (None, fs', w')
  end.

Definition throw {A} (e : error) : io A := λ fs w, (Some (Err e), fs, w).

(** The error as a value, as the caller of a Go function gets it. *)
Definition attempt {A} (m : io A) : io (result error A) := λ fs w,
  match m fs w with
  | (Some r, fs', w') => (Some (Ok r), fs', w')
  | (None, fs', w') => (None, fs', w')
  end.

Definition of_result {A} (r : result error A) : io A := match r with Ok a => mret a | Err e => throw e end.

(** [defer cleanup()]: runs when the body returns, and its own error is dropped. *)
Definition finally {A} (m : io A) (cleanup : io ()) : io A :=
  r ← attempt m; attempt cleanup ;; of_result r.

(** [fmt.Errorf("message: %w", err)] on the error of a call. *)
Definition prefixed {A} (message : string) (m : io A) : io A :=
  r ← attempt m; of_result (match r with Ok a => Ok a | Err e => Err (EPrefixed message e) end).

Definition unless (b : bool) (e : error) : io () := if b then mret () else throw e.

Definition EIO : error := EText "input/output error".
Definition ENotExist : error := EText "file does not exist".

(** [os.IsNotExist]. *)
Definition is_not_exist (e : error) : bool :=
  match e with EText m => String.eqb m "file does not exist" | _ => false end.

(** * Operations *)

(** One operation: [f] when it proceeds, [torn] what a fault leaves of a write. *)
Definition operate {A} (torn : string → disk → disk) (f : world → result error A * world) : io A := λ fs w,
  match fs with
  | [] | Proceed :: _ => let '(r, w') := f w in (Some r, tail fs, w')
  | Fails t :: fs' => (Some (Err EIO), fs', set_files (torn t) w)
  | Stops t :: fs' => (None, fs', set_files (torn t) w)
  end.

Definition intact : string → disk → disk := λ _ d, d.

(** An operation that only looks at the world. *)
Definition look {A} (f : world → result error A) : io A := operate intact (λ w, (f w, w)).

Definition follow (d : disk) (path : string) : string :=
  match d !! path with Some (Link t) => t | _ => path end.

Definition lookup_entry (d : disk) (path : string) : result error entry := of_option ENotExist (d !! path).

Definition lstat (path : string) : io entry := look (λ w, lookup_entry w.(files) path).
Definition stat (path : string) : io entry := look (λ w, lookup_entry w.(files) (follow w.(files) path)).

(** The content of a file that can be opened and read. *)
Definition read_file (path : string) : io string := look (λ w,
  e ← lookup_entry w.(files) (follow w.(files) path);
  match e with Regular content _ => Ok content | _ => Err EIO end).

(** What is left at a path when a file is written there; a directory stays.  The program writes only
    to names it has just created or cleared, where there is no symbolic link to follow. *)
Definition put (path content : string) (mtime : Z) (d : disk) : disk :=
  match d !! path with Some Directory => d | _ => <[path := Regular content mtime]> d end.

Definition is_dir (e : entry) : bool := match e with Directory => true | _ => false end.
Definition dir_at (d : disk) (path : string) : bool := match d !! path with Some e => is_dir e | None => false end.

(** Writes a whole file. *)
Definition write_file (path content : string) (mtime : Z) : io () :=
  operate (λ t, put path t mtime) (λ w,
    (if dir_at w.(files) path then Err EIO else Ok (), set_files (put path content mtime) w)).

(** [os.Remove]: a directory only when it is empty. *)
Definition has_children (d : disk) (path : string) : bool :=
  existsb (λ pe : string * entry, has_prefix pe.1 (path +:+ "/")) (map_to_list d).

Definition remove (path : string) : io () := operate intact (λ w,
  match w.(files) !! path with
  | None => (Err ENotExist, w)
  | Some e => if is_dir e && has_children w.(files) path then (Err EIO, w) else (Ok (), set_files (delete path) w)
  end).

Definition rename_entry (from to : string) (d : disk) : disk :=
  match d !! from with Some e => <[to := e]> (delete from d) | None => d end.

(** [os.Rename] of a file: it replaces what is at the new path, a directory apart. *)
Definition rename (from to : string) : io () := operate intact (λ w,
  match w.(files) !! from with
  | None => (Err ENotExist, w)
  | Some _ => if dir_at w.(files) to then (Err EIO, w) else (Ok (), set_files (rename_entry from to) w)
  end).

(** [os.Open]; [os.Open], [Sync] and [Close]; [os.Chmod]. *)
Definition open_path (path : string) : io () := look (λ w, _ ← lookup_entry w.(files) (follow w.(files) path); Ok ()).
Definition sync_file : string → io () := open_path.
Definition chmod : string → io () := open_path.
Definition sync_dir (dir : string) : io () := sync_file dir.

(** [os.MkdirAll]; the parents are taken to exist. *)
Definition mkdir_all (dir : string) : io () := operate intact (λ w,
  match w.(files) !! dir with
  | None => (Ok (), set_files <[dir := Directory]> w)
  | Some (Directory | Link _) => (Ok (), w)
  | Some _ => (Err EIO, w)
  end).

(** A call of the store on the live database: it commits or leaves the database as it was. *)
Definition on_live {A} (f : db → result error A * db) : io A :=
  operate intact (λ w, let '(r, d) := f w.(live) in (r, mkWorld w.(files) d)).

(** What others do to the world between two operations of this computation: any change at all, or what
    other goroutines do to the live database. *)
Definition interfere (f : world → world) : io () := λ fs w, (Some (Ok ()), fs, f w).
Definition meanwhile (f : db → db) : io () := interfere (λ w, mkWorld w.(files) (f w.(live))).

(** * Paths *)

(** [filepath.Join] of a clean directory and a name. *)
Definition path_join (dir name : string) : string := dir +:+ "/" +:+ name.

Fixpoint has_slash (s : string) : bool :=
  match s with String c s' => Ascii.eqb c "/" || has_slash s' | EmptyString => false end.

(** The name of a path directly in the directory. *)
Definition name_in (dir path : string) : option string :=
  if has_prefix path (dir +:+ "/") then
    let name := str_drop (String.length (dir +:+ "/")) path in
    if has_slash name || String.eqb name "" then None else Some name
  else None.

(** [os.ReadDir]: the entries by name, in order. *)
Definition entries (dir : string) (d : disk) : list (string * entry) :=
  omap (λ pe : string * entry, (λ n, (n, pe.2)) <$> name_in dir pe.1) (map_to_list d).
Definition listing (dir : string) (d : disk) : list (string * entry) := merge_sort (λ a b, String.leb a.1 b.1) (entries dir d).
Definition read_dir (dir : string) : io (list (string * entry)) := look (λ w,
  e ← lookup_entry w.(files) dir; if is_dir e then Ok (listing dir w.(files)) else Err EIO).

Definition is_regular_file (e : entry) : bool := match e with Regular _ _ => true | _ => false end.
Definition entry_size (e : entry) : Z := match e with Regular c _ => len c | _ => 0 end.
Definition mod_time (e : entry) : Z := match e with Regular _ t => t | _ => 0 end.

(** [filepath.Base]. *)
Fixpoint last_element (acc s : string) : string :=
  match s with
  | EmptyString => acc
  | String c s' => if Ascii.eqb c "/" then last_element (match s' with EmptyString => acc | _ => "" end) s'
                   else last_element (acc +:+ String c "") s'
  end.
Fixpoint strip_slashes (l : list ascii) : list ascii :=
  match l with c :: l' => if Ascii.eqb c "/" then strip_slashes l' else l | [] => [] end.
Definition path_base (path : string) : string :=
  if String.eqb path "" then "."
  else match rev (strip_slashes (rev (list_ascii_of_string path))) with
       | [] => "/"
       | l => last_element "" (string_of_list_ascii l)
       end.

(** [filepath.Clean]: the elements of the path, those already cleaned in reverse. *)
Fixpoint clean_elements (rooted : bool) (done l : list string) : list string :=
  match l with
  | [] => rev done
  | x :: l' =>
    if String.eqb x "" || String.eqb x "." then clean_elements rooted done l'
    else if String.eqb x ".." then
      match done with
      | y :: done' => if String.eqb y ".." then clean_elements rooted (x :: done) l' else clean_elements rooted done' l'
      | [] => clean_elements rooted (if rooted then [] else [x]) l'
      end
    else clean_elements rooted (x :: done) l'
  end.
Definition clean (path : string) : string :=
  let rooted := has_prefix path "/" in
  match clean_elements rooted [] (split_on "/" path) with
  | [] => if rooted then "/" else "."
  | l => (if rooted then "/" else "") +:+ join "/" l
  end.

(** [filepath.Dir]: what the last slash ends, cleaned. *)
Fixpoint upto_slash (l : list ascii) : list ascii :=
  match l with c :: l' => if Ascii.eqb c "/" then l else upto_slash l' | [] => [] end.
Definition path_dir (path : string) : string := clean (of_rev (upto_slash (rev (list_ascii_of_string path)))).

Example path_dir_examples :
  path_dir "/a/b.db" = "/a" ∧ path_dir "x" = "." ∧ path_dir "/x" = "/" ∧ path_dir "/a//../c/./d" = "/c" ∧ path_dir "../a/../../b" = "../.." ∧ path_dir "" = ".".
Proof. by vm_compute. Qed.

(** [os.CreateTemp] in a directory: the names tried, and the first of them that is free. *)
Definition temp_path (dir name : string) : string := if has_suffix dir "/" then dir +:+ name else path_join dir name.
Definition create_temp (dir : string) (names : list string) (mtime : Z) : io string := operate intact (λ w,
  match List.find (λ p, match w.(files) !! p with None => true | Some _ => false end) (map (temp_path dir) names) with
  | Some p => (Ok p, set_files (put p "" mtime) w)
  | None => (Err (EText "file exists"), w)
  end).

(** [Close] of a file, which may report an error of its own. *)
Definition close_file : io () := look (λ _, Ok ()).

Example path_base_examples :
  path_base "/a/b.db" = "b.db" ∧ path_base "x" = "x" ∧ path_base "/a/" = "a" ∧ path_base "//" = "/" ∧ path_base "" = ".".
Proof. by vm_compute. Qed.
