(* ===== verification/DiskLogic.v ===== *)
(** Reasoning about computations over the disk.

    [triple P m Q S] says of every list of faults: from a world in [P], the computation ends with a
    result and a world in [Q], or the process stops in a world in [S].  [keeps I m] is the triple of
    an invariant, which holds wherever the computation ends; the hint database [io] proves it by
    following the structure of the computation. *)
From S2P Require Import Prelude Errors Db Disk.
Local Open Scope Z_scope.

Definition triple {A} (P : world → Prop) (m : io A) (Q : result error A → world → Prop) (S : world → Prop) : Prop :=
  ∀ fs w, P w → match m fs w with (Some r, _, w') => Q r w' | (None, _, w') => S w' end.

Definition keeps {A} (I : world → Prop) (m : io A) : Prop := triple I m (λ _, I) I.

(** The world a computation leaves, and its result when the process did not stop. *)
Definition outcome {A} (r : option (result error A) * list fault * world) : option (result error A) := r.1.1.
Definition world_after {A} (r : option (result error A) * list fault * world) : world := r.2.

(** * Rules *)

Section rules.
Context {A B : Type}.
Implicit Types (P S : world → Prop).

Lemma triple_ret P (a : A) (Q : result error A → world → Prop) S : (∀ w, P w → Q (Ok a) w) → triple P (mret a) Q S.
Proof. intros H fs w. apply H. Qed.

Lemma triple_throw P (e : error) (Q : result error A → world → Prop) S : (∀ w, P w → Q (Err e) w) → triple P (throw e) Q S.
Proof. intros H fs w. apply H. Qed.

Lemma triple_of_result P (r : result error A) (Q : result error A → world → Prop) S : (∀ w, P w → Q r w) → triple P (of_result r) Q S.
Proof. intros H fs w Hw. destruct r; cbn; by apply H. Qed.

Lemma triple_bind P (m : io A) (f : A → io B) (R : A → world → Prop) (Q : result error B → world → Prop) S :
  triple P m (λ r w, match r with Ok a => R a w | Err e => Q (Err e) w end) S →
  (∀ a, triple (R a) (f a) Q S) → triple P (m ≫= f) Q S.
Proof.
  intros Hm Hf fs w Hw. specialize (Hm fs w Hw). unfold mbind, io_bind.
  destruct (m fs w) as [[[[a|e]|] fs'] w']; [|done|done]. by apply Hf.
Qed.

Lemma triple_attempt P (m : io A) (Q : result error (result error A) → world → Prop) S :
  triple P m (λ r, Q (Ok r)) S → triple P (attempt m) Q S.
Proof. intros Hm fs w Hw. specialize (Hm fs w Hw). unfold attempt. by destruct (m fs w) as [[[?|] ?] ?]. Qed.

Lemma triple_weaken P P' (m : io A) (Q Q' : result error A → world → Prop) S S' :
  triple P' m Q' S' → (∀ w, P w → P' w) → (∀ r w, Q' r w → Q r w) → (∀ w, S' w → S w) → triple P m Q S.
Proof. intros Hm HP HQ HS fs w Hw. specialize (Hm fs w (HP w Hw)). destruct (m fs w) as [[[?|] ?] ?]; auto. Qed.

(** Two facts about the same computation. *)
Lemma triple_and P P' (m : io A) (Q Q' : result error A → world → Prop) S S' :
  triple P m Q S → triple P' m Q' S' → triple (λ w, P w ∧ P' w) m (λ r w, Q r w ∧ Q' r w) (λ w, S w ∧ S' w).
Proof. intros H1 H2 fs w [Hw Hw']. specialize (H1 fs w Hw). specialize (H2 fs w Hw'). destruct (m fs w) as [[[?|] ?] ?]; auto. Qed.

Lemma triple_operate P (torn : string → disk → disk) (f : world → result error A * world) (Q : result error A → world → Prop) S :
  (∀ t w, P w → Q (Err EIO) (set_files (torn t) w) ∧ S (set_files (torn t) w)) →
  (∀ w, P w → Q (f w).1 (f w).2) → triple P (operate torn f) Q S.
Proof.
  intros Ht Hf fs w Hw. unfold operate. destruct fs as [|[|t|t] fs].
  - specialize (Hf w Hw). by destruct (f w).
  - specialize (Hf w Hw). by destruct (f w).
  - by apply (Ht t w).
  - by apply (Ht t w).
Qed.

Lemma triple_finally P (m : io A) (cleanup : io ()) (R Q : result error A → world → Prop) S :
  triple P m R S → (∀ r, triple (R r) (attempt cleanup) (λ c w, match c with Ok _ => Q r w | Err _ => True end) S) → triple P (finally m cleanup) Q S.
Proof.
  intros Hm Hc fs w Hw. specialize (Hm fs w Hw). unfold finally, attempt, mbind, io_bind. destruct (m fs w) as [[[r|] fs'] w']; [|done].
  specialize (Hc r fs' w' Hm). unfold attempt in Hc. destruct (cleanup fs' w') as [[[c|] fs''] w'']; [by destruct r|exact Hc].
Qed.

Lemma set_files_intact t w : set_files (intact t) w = w.
Proof. by destruct w. Qed.

Lemma triple_look P (f : world → result error A) (Q : result error A → world → Prop) S :
  (∀ w, P w → S w ∧ Q (Err EIO) w ∧ Q (f w) w) → triple P (look f) Q S.
Proof.
  intros H. apply triple_operate; [|intros w Hw; by apply H].
  intros t w Hw. rewrite set_files_intact. split; by apply H.
Qed.
End rules.

Lemma triple_interfere P f (Q : result error () → world → Prop) S : (∀ w, P w → Q (Ok ()) (f w)) → triple P (interfere f) Q S.
Proof. intros H fs w Hw. by apply H. Qed.

Lemma triple_meanwhile P f (Q : result error () → world → Prop) S :
  (∀ w, P w → Q (Ok ()) (mkWorld w.(files) (f w.(live)))) → triple P (meanwhile f) Q S.
Proof. intros H fs w Hw. by apply H. Qed.

(** * Invariants *)

Section invariants.
Context {A B : Type} (I : world → Prop).

Lemma keeps_ret (a : A) : keeps I (mret a).
Proof. by apply triple_ret. Qed.

Lemma keeps_throw (e : error) : keeps (A:=A) I (throw e).
Proof. by apply triple_throw. Qed.

Lemma keeps_of_result (r : result error A) : keeps I (of_result r).
Proof. by apply triple_of_result. Qed.

Lemma keeps_unless b e : keeps I (unless b e).
Proof. destruct b; [by apply triple_ret|by apply triple_throw]. Qed.

Lemma keeps_bind (m : io A) (f : A → io B) : keeps I m → (∀ a, keeps I (f a)) → keeps I (m ≫= f).
Proof.
  intros Hm Hf. apply (triple_bind _ _ _ (λ _, I)); [|done].
  eapply triple_weaken; [exact Hm|done| |done]. by intros [?|?].
Qed.

Lemma keeps_attempt (m : io A) : keeps I m → keeps I (attempt m).
Proof. intros Hm. by apply triple_attempt. Qed.

Lemma keeps_operate (torn : string → disk → disk) (f : world → result error A * world) :
  (∀ t w, I w → I (set_files (torn t) w)) → (∀ w, I w → I (f w).2) → keeps I (operate torn f).
Proof. intros Ht Hf. apply triple_operate; [by auto|by auto]. Qed.

Lemma keeps_look (f : world → result error A) : keeps I (look f).
Proof. by apply triple_look. Qed.
End invariants.

Lemma keeps_prefixed {A} I message (m : io A) : keeps I m → keeps I (prefixed message m).
Proof. intros Hm. unfold prefixed. apply keeps_bind; [by apply keeps_attempt|]. intros r. apply keeps_of_result. Qed.

Lemma keeps_finally {A} I (m : io A) cleanup : keeps I m → keeps I cleanup → keeps I (finally m cleanup).
Proof.
  intros Hm Hc. unfold finally. apply keeps_bind; [by apply keeps_attempt|]. intros r.
  apply keeps_bind; [by apply keeps_attempt|]. intros _. apply keeps_of_result.
Qed.

Lemma keeps_meanwhile (I : world → Prop) f : (∀ w, I w → I (mkWorld w.(files) (f w.(live)))) → keeps I (meanwhile f).
Proof. intros Hf. by apply triple_meanwhile. Qed.

Lemma keeps_stat I path : keeps I (stat path).
Proof. apply keeps_look. Qed.
Lemma keeps_lstat I path : keeps I (lstat path).
Proof. apply keeps_look. Qed.
Lemma keeps_read_file I path : keeps I (read_file path).
Proof. apply keeps_look. Qed.
Lemma keeps_open_path I path : keeps I (open_path path).
Proof. apply keeps_look. Qed.
Lemma keeps_read_dir I path : keeps I (read_dir path).
Proof. apply keeps_look. Qed.

Create HintDb io.
#[export] Hint Resolve keeps_ret keeps_throw keeps_of_result keeps_unless keeps_bind keeps_attempt keeps_look keeps_prefixed
  keeps_finally keeps_stat keeps_lstat keeps_read_file keeps_open_path keeps_read_dir : io.
#[export] Hint Extern 1 (keeps _ (match ?x with _ => _ end)) => destruct x : io.
#[export] Hint Extern 1 (keeps _ close_file) => apply keeps_look : io.
#[export] Hint Extern 1 (keeps _ (sync_file _)) => apply keeps_open_path : io.
#[export] Hint Extern 1 (keeps _ (sync_dir _)) => apply keeps_open_path : io.
#[export] Hint Extern 1 (keeps _ (chmod _)) => apply keeps_open_path : io.

(** [keeps] by the structure of the computation; [io_bind] goes into its first step. *)
Ltac keeps := auto 20 with io.
Ltac io_bind := match goal with |- keeps _ (mbind _ _) => apply keeps_bind; [|intros ?] end.

(** * Writing operations *)

Section writing.
Context (I : world → Prop).

Lemma keeps_write_file path content mtime :
  (∀ t w, I w → I (set_files (put path t mtime) w)) → keeps I (write_file path content mtime).
Proof. intros H. apply keeps_operate; [done|]. intros w Hw. by apply H. Qed.

Lemma keeps_remove path : (∀ w, I w → I (set_files (delete path) w)) → keeps I (remove path).
Proof.
  intros H. apply keeps_operate; [intros t w; by rewrite set_files_intact|].
  intros w Hw. destruct (files w !! path); [|done]. case_if; [done|]. by apply H.
Qed.

Lemma keeps_rename from to : (∀ w, I w → I (set_files (rename_entry from to) w)) → keeps I (rename from to).
Proof.
  intros H. apply keeps_operate; [intros t w; by rewrite set_files_intact|].
  intros w Hw. destruct (files w !! from); [|done]. case_if; [done|]. by apply H.
Qed.

Lemma keeps_mkdir_all dir : (∀ w, files w !! dir = None → I w → I (set_files <[dir := Directory]> w)) → keeps I (mkdir_all dir).
Proof.
  intros H. apply keeps_operate; [intros t w; by rewrite set_files_intact|].
  intros w Hw. destruct (files w !! dir) as [[]|] eqn:E; cbn; auto.
Qed.

Lemma keeps_on_live {A} (f : db → result error A * db) : (∀ w, I w → I (mkWorld w.(files) (f w.(live)).2)) → keeps I (on_live f).
Proof.
  intros H. apply keeps_operate; [intros t w; by rewrite set_files_intact|].
  intros w Hw. specialize (H w Hw). by destruct (f (live w)).
Qed.
End writing.

(** Entries away from the path written. *)
Lemma put_other p q t m d : p ≠ q → put p t m d !! q = d !! q.
Proof. intros Hp. unfold put. destruct (d !! p) as [[]|]; try done; by apply lookup_insert_ne. Qed.

Lemma put_same p t m d : dir_at d p = false → put p t m d !! p = Some (Regular t m).
Proof. unfold dir_at, put. intros Hd. destruct (d !! p) as [[]|]; try discriminate Hd; apply lookup_insert_eq. Qed.

Lemma rename_other from to q d : from ≠ q → to ≠ q → rename_entry from to d !! q = d !! q.
Proof.
  intros H1 H2. unfold rename_entry. destruct (d !! from); [|done].
  etrans; [by apply lookup_insert_ne|by apply lookup_delete_ne].
Qed.

Lemma rename_to from to d e : d !! from = Some e → rename_entry from to d !! to = Some e.
Proof. intros He. unfold rename_entry. rewrite He. apply lookup_insert_eq. Qed.
