(* ===== verification/Artifacts.v ===== *)
(** Checking files that hold a database: [VerifyPath] of internal/store/verify.go and the published
    backups of internal/store/artifacts.go.

    [Engine] is what the model takes from SQLite about the bytes of a database file: whether the file
    opens and which tables it holds, the answers of the two integrity pragmas, the bytes
    [VACUUM INTO] writes, and the same pragmas on the live connection.  A file is judged by its own
    bytes: what lies beside it is not looked at, where SQLite would read a write-ahead log of the file
    too (the program checks copies it has just made, and published ones, which have none beside them).
    Failures to turn a relative
    path into an absolute one are left out, and times in a manifest compare as instants. *)
From S2P Require Import Prelude Utf8 Json JsonText Strconv GoTime Sha256 JsonDecode Indent Text Errors Values Db Model Mutations Verify Disk.
Local Open Scope Z_scope.

Class Engine := {
  runtime_version : string;
  open_file : string → result error db;
  integrity_check : string → result error string;
  foreign_keys_hold : string → result error bool;
  vacuum : db → string;
  live_integrity : db → result error string;
  live_foreign_keys : db → result error bool
}.

Record VerifyResult := mkVerifyResult {
  V_SQLiteVersion : string;
  V_IntegrityCheck : string;
  V_ForeignKeys : string;
  V_ApplicationData : string
}.

#[export] Instance manifest_eq_dec : EqDecision BackupManifest.
Proof. solve_decision. Defined.

Section artifacts.
Context `{SQLite} `{Engine}.

(** The checks of [VerifyPath] on the content of the file. *)
Definition verify_content (content : string) : result error VerifyResult :=
  if compareVersions runtime_version minimumSQLite <? 0
  then Err (EText ("sqlite runtime " +:+ runtime_version +:+ " is older than required " +:+ minimumSQLite))
  else
    integrity ← integrity_check content;
    if negb (equal_fold integrity "ok") then Err (EWrapped ErrCorrupt integrity)
    else
      sound ← foreign_keys_hold content;
      if negb sound then Err (EWrapped ErrCorrupt "foreign key violation")
      else
        d ← open_file content;
        verifyApplicationData d ;;
        Ok (mkVerifyResult runtime_version integrity "ok" "ok").

Definition VerifyPath (path : string) : io VerifyResult :=
  info ← prefixed "stat database" (stat path);
  unless (is_regular_file info && negb (entry_size info =? 0)) (EText "database must be a non-empty regular file") ;;
  content ← read_file path;
  of_result (verify_content content).

(** * Manifests *)

(** The indented manifest and a newline; nothing when the time has no RFC 3339 form. *)
Definition manifest_text (manifest : BackupManifest) : option string := indent_object <$> manifest_members manifest.

Definition read_manifest (data : string) : option BackupManifest :=
  unmarshal_struct false manifest_fields data zero_manifest.

(** [1<<20] bytes are read at most. *)
Definition manifest_limit : Z := 1048576.

Definition readBackupManifest (path : string) : io BackupManifest :=
  r ← attempt (read_file path);
  match r with
  | Err e => throw (if is_not_exist e then ESentinel ErrNotFound else e)
  | Ok content =>
    if manifest_limit <=? len content then throw (EWrapped ErrCorrupt "invalid backup manifest")
    else match read_manifest content with
         | Some manifest => mret manifest
         | None => throw (EWrapped ErrCorrupt "invalid backup manifest")
         end
  end.

(** * Published backups *)

Definition validateRegularFile (path : string) : io () :=
  r ← attempt (lstat path);
  match r with
  | Err e => throw (if is_not_exist e then ESentinel ErrNotFound else e)
  | Ok info => unless (is_regular_file info) (EWrapped ErrInvalid "backup artifact is not a regular file")
  end.

(** The content has the size and the digest the manifest states. *)
Definition content_matches (content : string) (manifest : BackupManifest) : bool :=
  (len content =? manifest.(B_Bytes)) && equal_fold manifest.(B_SHA256) (sha256_hex content).

Definition validateBackupDigest (path : string) (manifest : BackupManifest) : io () :=
  content ← read_file path;
  unless (content_matches content manifest) (EWrapped ErrCorrupt "backup artifact does not match its manifest").

Definition artifact_rune (r : Z) : bool :=
  (97 <=? r) && (r <=? 122) || (65 <=? r) && (r <=? 90) || (48 <=? r) && (r <=? 57) || existsb (Z.eqb r) (runes "._-").

Definition artifact_chars (name : string) : bool :=
  negb ((len name =? 0) || (200 <? len name) || negb (String.eqb (path_base name) name)
    || contains_any name (String "/" (String backslash "")))
  && forallb artifact_rune (runes name).

Definition wants_manifest (name : string) : bool := has_suffix name ".db.manifest.json".

(** The name of the database the artifact belongs to. *)
Definition database_name (name : string) : string :=
  if wants_manifest name then trim_suffix name ".manifest.json" else name.

Definition artifact_name (name : string) : bool :=
  artifact_chars name && has_prefix (database_name name) "lazarus-" && has_suffix (database_name name) ".db".

Definition BackupArtifact (dir name : string) : io (string * BackupManifest) :=
  if negb (artifact_name name) then throw (EWrapped ErrInvalid "invalid backup artifact name")
  else
    let databasePath := path_join dir (database_name name) in
    let manifestPath := databasePath +:+ ".manifest.json" in
    validateRegularFile manifestPath ;;
    manifest ← readBackupManifest manifestPath;
    unless (String.eqb manifest.(B_Filename) (database_name name)) (EWrapped ErrCorrupt "backup manifest filename mismatch") ;;
    validateRegularFile databasePath ;;
    validateBackupDigest databasePath manifest ;;
    verified ← prefixed "validate backup artifact" (VerifyPath databasePath);
    unless (String.eqb verified.(V_ApplicationData) "ok") (EText "validate backup artifact: %!w(<nil>)") ;;
    mret (if wants_manifest name then manifestPath else databasePath, manifest).

(** The file is given as what was found where it was opened; none: there is no file. *)
Definition ValidateOpenedBackupArtifact (file : option entry) (artifact : string) (manifest : BackupManifest) : result error () :=
  match file with
  | None => Err (EWrapped ErrInvalid "backup artifact is not open")
  | Some (Regular content _) =>
    if has_suffix artifact ".manifest.json" then
      if (manifest_limit <? len content) || negb (bool_decide (read_manifest content = Some manifest))
      then Err (EWrapped ErrCorrupt "opened manifest changed after validation") else Ok ()
    else if negb (content_matches content manifest)
    then Err (EWrapped ErrCorrupt "opened backup changed after validation") else Ok ()
  | Some _ => Err (EWrapped ErrInvalid "backup artifact is not a regular file")
  end.
End artifacts.
