(* ===== verification/Backup.v ===== *)
(** Online backups: internal/store/backup.go.

    A backup is a computation over the disk and the live database that may fail or be cut short at
    every step.  Other requests go on writing to the live database while it runs ([BackupAmong]).
    [now] is the instant the store's clock gives, which also stamps the files written; the mutex keeps
    the backups of one process apart, so nothing else changes the directory meanwhile.  The directory
    is the one the server is configured with. *)
From S2P Require Import Prelude Utf8 Json JsonText Strconv GoTime Sha256 JsonDecode Text Errors Values Db Model Events Mutations Verify Disk Artifacts.
Local Open Scope Z_scope.

(** * Small parts *)

Definition defaultKeepBack : Z := 7.

(** A fraction with all its [k] places. *)
Fixpoint frac_places (k : nat) (n : Z) : string :=
  match k with
  | O => ""
  | S k' => String (digit (n / 10 ^ Z.of_nat k')) (frac_places k' (n mod 10 ^ Z.of_nat k'))
  end.

(** [t.UTC().Format("20060102T150405.000000000Z")]. *)
Definition backup_stamp (t : Z) : string :=
  let secs := t / nanos in
  let sod := secs mod 86400 in
  let '(y, (m, d)) := date_of_day (secs / 86400 + epoch_day) in
  pad4 y +:+ pad2 m +:+ pad2 d +:+ "T" +:+ pad2 (sod / 3600) +:+ pad2 (sod mod 3600 / 60) +:+ pad2 (sod mod 60)
  +:+ "." +:+ frac_places 9 (t mod nanos) +:+ "Z".

(** [t.UnixNano()]: a 64-bit integer. *)
Definition unix_nano (t : Z) : Z := (t + 2 ^ 63) mod 2 ^ 64 - 2 ^ 63.

Definition backup_base (now : Z) : string := "lazarus-" +:+ backup_stamp now +:+ "-" +:+ format_int (unix_nano now) +:+ ".db".

Definition isBackupTempName (name : string) : bool :=
  existsb (has_suffix name) [".tmp"; ".tmp-wal"; ".tmp-shm"; ".tmp-journal"].

(** Runs a computation for every element, in order. *)
Fixpoint each {A} (f : A → io ()) (l : list A) : io () :=
  match l with
  | [] => mret ()
  | a :: l' => f a ;; each f l'
  end.

(** Removes a file; that it is gone already is fine. *)
Definition remove_present (message path : string) : io () :=
  r ← attempt (remove path);
  match r with
  | Err e => if is_not_exist e then mret () else throw (EPrefixed message e)
  | Ok _ => mret ()
  end.

(** Removes a file unless its partner exists. *)
Definition remove_orphan (inspect message partner path : string) : io () :=
  r ← attempt (stat partner);
  match r with
  | Ok _ => mret ()
  | Err e => if is_not_exist e then remove_present message path else throw (EPrefixed inspect e)
  end.

(** A file of the directory, no directory itself, whose name starts and ends as given. *)
Definition backup_entry (ends : string → bool) (e : string * entry) : bool :=
  negb (is_dir e.2) && has_prefix e.1 "lazarus-" && ends e.1.

Definition for_entries (dir : string) (ends : string → bool) (f : string → io ()) : io () :=
  l ← read_dir dir; each (λ e, f e.1) (List.filter (backup_entry ends) l).

Definition cleanupBackupTemps (dir : string) : io () :=
  for_entries dir isBackupTempName (λ name, remove_present ("remove incomplete backup " +:+ name) (path_join dir name)) ;;
  for_entries dir (λ n, has_suffix n ".db") (λ name,
    remove_orphan ("inspect incomplete backup " +:+ name) ("remove incomplete backup " +:+ name)
      (path_join dir name +:+ ".manifest.json") (path_join dir name)) ;;
  for_entries dir (λ n, has_suffix n ".db.manifest.json") (λ name,
    remove_orphan ("inspect orphan manifest " +:+ name) ("remove orphan manifest " +:+ name)
      (trim_suffix (path_join dir name) ".manifest.json") (path_join dir name)).

(** * Rotation *)

(** [now.Sub(mtime)], saturated to 64 bits. *)
Definition age (now mtime : Z) : Z := Z.max int64_min (Z.min int64_max (now - mtime)).

Definition rotate_one (dir : string) (minAge now : Z) (name : string) : io () :=
  let path := path_join dir name in
  old ← ((if 0 <? minAge then
           r ← attempt (stat path);
           match r with
           | Ok info => mret (minAge <=? age now (mod_time info))
           | Err e => if is_not_exist e then mret false else throw (EPrefixed ("inspect backup age " +:+ name) e)
           end
         else mret true) : io bool);
  if (old : bool) then remove_present ("rotate backup " +:+ name) path ;; attempt (remove (path +:+ ".manifest.json")) ;; mret ()
  else mret ().

(** The published databases of the directory, the greatest name first. *)
Definition backups_of (l : list (string * entry)) : list string :=
  merge_sort (λ a b, String.leb b a) (map fst (List.filter (backup_entry (λ n, has_suffix n ".db")) l)).

Definition rotateBackupsWithAge (dir : string) (keep : nat) (minAge now : Z) : io () :=
  l ← read_dir dir;
  if (length (backups_of l) <=? keep)%nat then mret ()
  else each (rotate_one dir minAge now) (drop keep (backups_of l)) ;; sync_dir dir.

(** * The backup *)

Section backup.
Context `{SQLite} `{Engine}.

(** [integrityCheckDB] on the snapshot connection. *)
Definition integrityCheckDB (d : db) : result error () :=
  match live_integrity d with
  | Err e => Err (EPrefixed "sqlite integrity check" e)
  | Ok integrity =>
    if negb (equal_fold integrity "ok") then Err (EWrapped ErrCorrupt integrity)
    else match live_foreign_keys d with
         | Err e => Err (EPrefixed "sqlite foreign key check" e)
         | Ok sound => if sound then Ok () else Err (EWrapped ErrCorrupt "foreign key violation")
         end
  end.

Definition openBackupConnection (path : string) : io () :=
  unless (negb (isMemoryPath path)) (EText "online backup requires a file-backed database") ;;
  prefixed "configure backup snapshot connection" (look (λ _, Ok ())).

(** [VACUUM INTO]: the file must not exist, or be empty. *)
Definition vacuum_into (path : string) (now : Z) : io () :=
  operate (λ t, put path t now) (λ w,
    match w.(files) !! path with
    | None | Some (Regular EmptyString _) => (Ok (), set_files (put path (vacuum w.(live)) now) w)
    | Some _ => (Err (EText "output file already exists"), w)
    end).

Definition created_for (requestID actor : string) (e : event_row) : bool :=
  String.eqb e.(e_type) "backup.created" && String.eqb e.(e_request_id) requestID && String.eqb e.(e_actor) actor.

(** The backup an earlier request of the same identifier and actor made. *)
Definition backupForRequest (dir requestID actor : string) : io (option BackupManifest) :=
  if String.eqb (trim_space requestID) "" then mret None
  else
    row ← look (λ w, Ok (last (List.filter (created_for requestID actor) w.(live).(journal))));
    match row with
    | None => mret None
    | Some row =>
      match read_manifest row.(e_payload) with
      | None => throw (EWrapped ErrCorrupt "saved backup event is invalid")
      | Some manifest =>
        unless (negb (String.eqb manifest.(B_Filename) "")) (EWrapped ErrCorrupt "saved backup event is invalid") ;;
        unless (String.eqb (path_base manifest.(B_Filename)) manifest.(B_Filename))
          (EWrapped ErrCorrupt "saved backup event has an invalid filename") ;;
        r ← attempt (BackupArtifact dir manifest.(B_Filename));
        mret (match r with Ok (_, validated) => Some (with_audit validated true) | Err _ => None end)
      end
    end.

(** One of the two validations of the temporary file. *)
Definition validate_backup (path : string) : io VerifyResult :=
  v ← prefixed "backup application validation failed" (VerifyPath path);
  unless (String.eqb v.(V_ApplicationData) "ok") (EText "backup application validation failed: %!w(<nil>)") ;;
  mret v.

(** From the finished copy to its publication under the final name. *)
Definition publish_database (dir base tmpPath finalPath : string) (now : Z) : io BackupManifest :=
  prefixed "set backup permissions" (chmod tmpPath) ;;
  first ← validate_backup tmpPath;
  prefixed "open backup for hashing" (open_path tmpPath) ;;
  content ← prefixed "hash backup" (read_file tmpPath);
  let manifest := mkManifest base now (len content) (sha256_hex content) runtime_version
    first.(V_IntegrityCheck) first.(V_ForeignKeys) first.(V_ApplicationData) false in
  validate_backup tmpPath ;;
  prefixed "sync backup" (sync_file tmpPath) ;;
  prefixed "publish backup" (rename tmpPath finalPath) ;;
  prefixed "sync published backup" (sync_dir dir) ;;
  mret manifest.

Definition publish_manifest (dir finalPath : string) (now : Z) (manifest : BackupManifest) : io () :=
  text ← of_result (of_option (EText "json: error calling MarshalJSON for type time.Time") (manifest_text manifest));
  let manifestTmp := finalPath +:+ ".manifest.json.tmp" in
  let manifestPath := finalPath +:+ ".manifest.json" in
  prefixed "write backup manifest" (write_file manifestTmp text now) ;;
  prefixed "sync backup manifest" (sync_file manifestTmp) ;;
  r ← attempt (rename manifestTmp manifestPath);
  match r with
  | Err e => attempt (remove manifestTmp) ;; throw (EPrefixed "publish backup manifest" e)
  | Ok _ => mret ()
  end ;;
  prefixed "sync backup manifest" (sync_file manifestPath) ;;
  prefixed "sync backup directory" (sync_dir dir).

Definition kept (keep : Z) : nat :=
  Z.to_nat (let keep := if keep <=? 0 then defaultKeepBack else keep in if 1000 <? keep then 1000 else keep).

(** The backup copies through a connection of its own while other requests use the store.  What they
    do to the live database matters only where the backup looks at it or records its event: [others]
    says what they did since the moment before. *)
Inductive moment := Looking | Checking | Copying | Recording | Finishing.

Section among.
Context (others : moment → db → db).

(** A new backup: the copy, its publication with a manifest, and the rotation of the older ones.  The
    temporary copy is removed whatever happens. *)
Definition make_backup (dir base finalPath : string) (keep minAge now : Z) (audit : AuditContext) : io BackupManifest :=
  let tmpPath := finalPath +:+ ".tmp" in
  attempt (remove tmpPath) ;;
  meanwhile (others Copying) ;;
  r ← attempt (vacuum_into tmpPath now);
  match r with
  | Err e => attempt (remove tmpPath) ;; throw (EPrefixed "vacuum into" e)
  | Ok _ =>
    finally (
      manifest ← publish_database dir base tmpPath finalPath now;
      meanwhile (others Recording) ;;
      recorded ← attempt (on_live (RecordBackupCreated manifest audit));
      meanwhile (others Finishing) ;;
      let manifest := with_audit manifest (is_ok recorded) in
      publish_manifest dir finalPath now manifest ;;
      rotateBackupsWithAge dir (kept keep) minAge now ;;
      mret manifest) (remove tmpPath)
  end.

Definition BackupAmong (path dir : string) (keep minAge now : Z) (actor role requestID : string) : io BackupManifest :=
  unless (negb (String.eqb (trim_space dir) "")) (EText "backup directory is required") ;;
  unless (negb (minAge <? 0)) (EText "backup minimum age must not be negative") ;;
  prefixed "create backup directory" (mkdir_all dir) ;;
  cleanupBackupTemps dir ;;
  meanwhile (others Looking) ;;
  existing ← backupForRequest dir requestID actor;
  match existing with
  | Some manifest => mret manifest
  | None =>
    openBackupConnection path ;;
    meanwhile (others Checking) ;;
    look (λ w, integrityCheckDB w.(live)) ;;
    look (λ _, Ok runtime_version) ;;
    let base := backup_base now in
    make_backup dir base (path_join dir base) keep minAge now (mkAudit actor role requestID)
  end.
End among.

(** The backup while no other request writes. *)
Definition undisturbed : moment → db → db := λ _ d, d.
Definition BackupWithRetention : string → string → Z → Z → Z → string → string → string → io BackupManifest := BackupAmong undisturbed.

Definition Backup (path dir : string) (keep now : Z) (actor role requestID : string) : io BackupManifest :=
  BackupWithRetention path dir keep 0 now actor role requestID.
End backup.
