(* ===== verification/BackupNames.v ===== *)
(** The names backups are published under: plain file names of the alphabet [BackupArtifact] accepts. *)
From S2P Require Import Prelude Utf8 Json JsonText Strconv GoTime JsonDecode Text Errors Disk Artifacts Backup.
Local Open Scope Z_scope.

Definition name_char (c : ascii) : bool := (byte c <? 128) && artifact_rune (byte c).

Lemma digit_name n : 0 ≤ n < 10 → name_char (digit n) = true.
Proof. intros Hn. assert (n ∈ seqZ 0 10) as H by (apply elem_of_seqZ; lia). revert n H Hn. rewrite <-Forall_forall. by repeat constructor. Qed.

Lemma digits_name fuel : ∀ n, 0 ≤ n → str_forall name_char (dec_digits fuel n) = true.
Proof.
  induction fuel as [|f IH]; intros n Hn; [done|]. cbn [dec_digits]. destruct (Z.ltb_spec n 10); cbn [str_forall].
  - rewrite digit_name by lia. done.
  - rewrite str_forall_app, IH by (apply Z.div_pos; lia). cbn [str_forall]. rewrite digit_name; [done|by apply Z.mod_pos_bound].
Qed.

Lemma format_name n : str_forall name_char (format_int n) = true.
Proof. unfold format_int. destruct (Z.ltb_spec n 0); [cbn [str_forall]|]; rewrite digits_name by lia; done. Qed.

Lemma pad2_name n : 0 ≤ n < 100 → str_forall name_char (pad2 n) = true.
Proof. intros Hn. unfold pad2. cbn [str_forall]. rewrite !digit_name by lia. done. Qed.

Lemma frac_name k : ∀ n, 0 ≤ n < 10 ^ Z.of_nat k → str_forall name_char (frac_places k n) = true.
Proof.
  induction k as [|k IH]; intros n Hn; [done|]. cbn [frac_places str_forall].
  rewrite Nat2Z.inj_succ, Z.pow_succ_r in Hn by lia. assert (0 < 10 ^ Z.of_nat k) by (apply Z.pow_pos_nonneg; lia).
  rewrite digit_name, IH; [done|by apply Z.mod_pos_bound|]. split; [apply Z.div_pos; lia|apply Z.div_lt_upper_bound; lia].
Qed.

Lemma base_chars now : time_ok now = true → str_forall name_char (backup_base now) = true.
Proof.
  unfold time_ok, year, backup_base, backup_stamp. intros Hy. bool_hyps. destruct (date_of_day _) as [y [m d]] eqn:Hd.
  apply date_of_day_spec in Hd as (-> & Hok & Hd31 & _). unfold date_ok in Hok. bool_hyps.
  unfold pad4. rewrite (proj2 (Z.ltb_ge _ _)), (proj2 (Z.ltb_lt _ _)) by lia. unfold pad4_nat.
  rewrite !str_forall_app, !pad2_name, format_name by lia. rewrite frac_name; [reflexivity|].
  change (10 ^ Z.of_nat 9) with nanos. apply Z.mod_pos_bound. unfold nanos. lia.
Qed.

Lemma base_suffix now : has_suffix (backup_base now) ".db" = true.
Proof. unfold backup_base. rewrite <-!app_str_assoc. apply has_suffix_app. Qed.

Lemma names_ascii s : str_forall name_char s = true → is_ascii s = true.
Proof.
  unfold is_ascii. induction s as [|c s IH]; [done|]. cbn [str_forall]. intros [Hc Hs]%andb_true_iff.
  apply andb_true_iff. split; [by apply andb_true_iff in Hc as [? _]|auto].
Qed.

Lemma base_valid now : time_ok now = true → valid_utf8 (backup_base now) = true.
Proof. intros Hn. by apply valid_ascii, names_ascii, base_chars. Qed.

(** A text that folds to ASCII is UTF-8: bytes that are not have the rune U+FFFD, which folds to itself. *)
Lemma no_error_valid s : Forall (λ r, r ≠ rune_error) (runes s) → valid_utf8 s = true.
Proof.
  unfold valid_utf8, runes. pose proof (chunks_pieces s) as Hp. revert Hp. generalize (chunks s) as l.
  induction l as [|k l IH]; [done|]. cbn [forallb map]. intros [Hk Hl]%andb_true_iff Hf. inversion_clear Hf as [|? ? Hr Hrs].
  rewrite IH, andb_true_r by done. by destruct k.
Qed.

Lemma fold_ascii_valid s t : equal_fold s t = true → is_ascii t = true → valid_utf8 s = true.
Proof.
  unfold equal_fold. intros E%bool_decide_eq_true Ht. apply no_error_valid. apply Forall_forall. intros r Hr ->.
  assert (Hin : rune_error ∈ fold_name s) by by (apply list_elem_of_fmap; exists rune_error).
  rewrite E in Hin. apply list_elem_of_fmap in Hin as (r & Hf & Hr').
  assert (Hs : 0 ≤ r < 128).
  { unfold runes in Hr'. rewrite (chunks_ascii t Ht) in Hr'. apply list_elem_of_fmap in Hr' as (k & -> & (c & -> & Hc)%list_elem_of_fmap).
    cbn [rune]. pose proof (byte_bounds c). split; [lia|]. clear -Ht Hc. unfold is_ascii in Ht.
    induction t as [|a t IH]; [by apply elem_of_nil in Hc|]. cbn [list_ascii_of_string str_forall] in *. apply andb_true_iff in Ht as [Ha Ht].
    apply elem_of_cons in Hc as [->|Hc]; [by apply Z.ltb_lt|auto]. }
  unfold fold_rune, rune_error in Hf. repeat case_if; bool_hyps; lia.
Qed.
