(* ===== verification/BackupFacts.v ===== *)
(** The backup computations preserve what they must whatever fails and wherever the process stops:
    files outside of the backup names, the pairs already published, the newest backups. *)
From S2P Require Import Prelude Utf8 Json JsonText Strconv GoTime Sha256 JsonDecode Text Errors Values Db Model Events Mutations Verify Payloads Disk DiskLogic Artifacts Backup.
Local Open Scope Z_scope.

(** * Names in the directory *)

Lemma path_join_inj dir a b : path_join dir a = path_join dir b → a = b.
Proof. unfold path_join. rewrite <-!app_str_assoc. apply app_str_inj_l. Qed.

Lemma name_in_spec dir p n : name_in dir p = Some n → p = path_join dir n.
Proof.
  unfold name_in, path_join. destruct (has_prefix _ _) eqn:E; [|discriminate]. case_if; [discriminate|]. intros [= <-].
  rewrite (has_prefix_spec _ _ E) at 1. by rewrite app_str_assoc.
Qed.

Lemma entries_spec dir d n e : (n, e) ∈ entries dir d → d !! path_join dir n = Some e.
Proof.
  unfold entries. intros ([p e'] & Hin & Hn)%list_elem_of_omap. cbn in Hn. apply elem_of_map_to_list in Hin.
  destruct (name_in dir p) as [n'|] eqn:E; [|discriminate]. cbn in Hn. injection Hn as -> ->. by rewrite <-(name_in_spec _ _ _ E).
Qed.

Lemma path_join_suffix dir n s : has_suffix n s = true → has_suffix (path_join dir n) s = true.
Proof. intros [a ->]%has_suffix_spec. unfold path_join. rewrite <-!app_str_assoc. apply has_suffix_app. Qed.

(** * Invariants through the loops *)

Lemma keeps_each {A} I (f : A → io ()) l : (∀ a, a ∈ l → keeps I (f a)) → keeps I (each f l).
Proof.
  intros Hf. induction l as [|a l IH]; cbn [each]; [apply keeps_ret|]. apply keeps_bind.
  - apply Hf, list_elem_of_here.
  - intros _. apply IH. intros b Hb. by apply Hf, list_elem_of_further.
Qed.

Lemma keeps_remove_present I message path : (∀ w, I w → I (set_files (delete path) w)) → keeps I (remove_present message path).
Proof. intros H. unfold remove_present. apply keeps_bind; [by apply keeps_attempt, keeps_remove|]. intros []; keeps. Qed.

Lemma keeps_remove_orphan I inspect message partner path : (∀ w, I w → I (set_files (delete path) w)) →
  keeps I (remove_orphan inspect message partner path).
Proof.
  intros H. unfold remove_orphan. apply keeps_bind; [keeps|]. intros [?|e]; [keeps|]. destruct (is_not_exist e); [|keeps].
  by apply keeps_remove_present.
Qed.

Lemma backup_entry_name ends e : backup_entry ends e = true → has_prefix e.1 "lazarus-" = true ∧ ends e.1 = true.
Proof. unfold backup_entry. rewrite !andb_true_iff. tauto. Qed.

Lemma keeps_for_entries I dir ends f :
  (∀ name, has_prefix name "lazarus-" = true → ends name = true → keeps I (f name)) → keeps I (for_entries dir ends f).
Proof.
  intros Hf. unfold for_entries. apply keeps_bind; [keeps|]. intros l. apply keeps_each. intros e He.
  apply list_elem_of_In, filter_In in He as [_ [H1 H2]%backup_entry_name]. by apply Hf.
Qed.

Lemma backups_of_spec l name : name ∈ backups_of l → has_prefix name "lazarus-" = true ∧ has_suffix name ".db" = true ∧ ∃ e, (name, e) ∈ l.
Proof.
  unfold backups_of. rewrite merge_sort_Permutation. intros ([n e] & -> & Hin)%list_elem_of_fmap.
  apply list_elem_of_In, filter_In in Hin as [Hin [H1 H2]%backup_entry_name]. split_and!; [done|done|]. exists e. by apply list_elem_of_In.
Qed.

(** * The order of backups *)

#[export] Instance name_order_trans : Transitive (λ a b, String.leb b a : Prop).
Proof. intros a b c Hab Hbc. exact (transitivity (R := String.le) (x := c) (y := b) (z := a) Hbc Hab). Qed.
#[export] Instance name_order_total : Total (λ a b, String.leb b a : Prop).
Proof. intros a b. destruct (String.leb_total a b) as [E|E]; rewrite E; auto. Qed.

Lemma entries_nodup dir d : NoDup (map fst (entries dir d)).
Proof.
  unfold entries. assert (Hn : NoDup (map_to_list d).*1) by apply NoDup_fst_map_to_list. induction (map_to_list d) as [|[p e] l IH]; [constructor|].
  apply NoDup_cons in Hn as [Hp Hl]. cbn. destruct (name_in dir p) as [n|] eqn:E; cbn; [|auto]. apply NoDup_cons. split; [|auto].
  intros ([n' e'] & -> & ([p' e2] & Hin & Hn')%list_elem_of_omap)%list_elem_of_fmap. cbn in *.
  destruct (name_in dir p') as [n2|] eqn:E2; [|discriminate]. cbn in Hn'. injection Hn' as -> ->.
  apply Hp. rewrite (name_in_spec _ _ _ E), <-(name_in_spec _ _ _ E2). apply list_elem_of_fmap. eexists. by split; [|exact Hin].
Qed.

Lemma backups_nodup l : NoDup (map fst l) → NoDup (backups_of l).
Proof.
  intros Hl. unfold backups_of. rewrite merge_sort_Permutation. induction l as [|a l IH]; [constructor|]. cbn in *.
  apply NoDup_cons in Hl as [Ha Hl]. case_if; [|auto]. cbn. apply NoDup_cons. split; [|auto].
  intros (b & E & [Hb _]%list_elem_of_In%filter_In)%list_elem_of_fmap. apply Ha. rewrite E. apply list_elem_of_fmap. exists b.
  split; [done|by apply list_elem_of_In].
Qed.

Lemma listing_nodup dir d : NoDup (map fst (listing dir d)).
Proof. unfold listing. rewrite (merge_sort_Permutation _ (entries dir d)). apply entries_nodup. Qed.

Lemma listing_spec dir d n e : (n, e) ∈ listing dir d → d !! path_join dir n = Some e.
Proof. unfold listing. rewrite merge_sort_Permutation. apply entries_spec. Qed.

(** The backups that are not among the first have a greater one before them. *)
Lemma dropped_smaller l k a b : NoDup (map fst l) → a ∈ take k (backups_of l) → b ∈ drop k (backups_of l) →
  String.leb b a = true ∧ a ≠ b.
Proof.
  intros Hl Ha Hb. pose proof (backups_nodup l Hl) as Hn.
  assert (Hs : StronglySorted (λ a b, String.leb b a : Prop) (backups_of l)) by (apply StronglySorted_merge_sort; apply _).
  rewrite <-(take_drop k (backups_of l)) in Hn, Hs. split.
  - clear Hn. induction (take k (backups_of l)) as [|x t IH]; [by apply elem_of_nil in Ha|]. cbn in Hs. inversion_clear Hs as [|? ? Hs' Hx].
    apply elem_of_cons in Ha as [->|Ha]; [|auto]. rewrite Forall_forall in Hx. apply Is_true_true, Hx, elem_of_app. by right.
  - intros ->. apply NoDup_app in Hn as (_ & Hn & _). by apply (Hn b).
Qed.

(** The greatest backup is not dropped. *)
Lemma greatest_kept l k a : NoDup (map fst l) → (0 < k)%nat → (∀ b, b ∈ backups_of l → String.leb b a = true) → a ∉ drop k (backups_of l).
Proof.
  intros Hl Hk Ha Hin. destruct (backups_of l) as [|h t] eqn:E; [by rewrite drop_nil in Hin; apply elem_of_nil in Hin|].
  destruct (dropped_smaller l k h a Hl) as [Hle Hne].
  - rewrite E. destruct k; [lia|]. apply list_elem_of_here.
  - by rewrite E.
  - apply Hne. apply String.leb_antisym; [|done]. apply Ha. apply list_elem_of_here.
Qed.

(** A file a rotation may remove: a backup of the directory, or the manifest of one. *)
Lemma keeps_rotate_one I dir minAge now name :
  (∀ w, I w → I (set_files (delete (path_join dir name)) w)) →
  (∀ w, I w → I (set_files (delete (path_join dir name +:+ ".manifest.json")) w)) →
  keeps I (rotate_one dir minAge now name).
Proof.
  intros H1 H2. unfold rotate_one. apply keeps_bind.
  - destruct (0 <? minAge); [|keeps]. apply keeps_bind; [keeps|]. intros [?|e]; keeps.
  - intros []; [|keeps]. apply keeps_bind; [by apply keeps_remove_present|]. intros _.
    apply keeps_bind; [by apply keeps_attempt, keeps_remove|]. keeps.
Qed.

(** * Confinement *)

(** The paths a backup may touch. *)
Definition backup_area (dir path : string) : bool := has_prefix path (dir +:+ "/lazarus-").

Lemma join_area dir n t : has_prefix n "lazarus-" = true → backup_area dir (path_join dir n +:+ t) = true.
Proof.
  intros Hn. unfold backup_area, path_join. apply has_prefix_more.
  rewrite (has_prefix_spec _ _ Hn). generalize (str_drop (String.length "lazarus-") n) as r. intros r.
  change (dir +:+ "/" +:+ "lazarus-" +:+ r) with (dir +:+ ("/lazarus-" +:+ r)). rewrite <-app_str_assoc. apply has_prefix_app.
Qed.

Lemma join_area' dir n : has_prefix n "lazarus-" = true → backup_area dir (path_join dir n) = true.
Proof. intros Hn. rewrite <-(app_str_nil_r (path_join dir n)). by apply join_area. Qed.

Section confined.
Context (dir : string) (f0 : disk).

(** Outside of the backup names the disk is as it was; the directory may have been created. *)
Definition confined (w : world) : Prop := ∀ p, backup_area dir p = false →
  w.(files) !! p = f0 !! p ∨ p = dir ∧ f0 !! p = None.

Lemma confined_other p w g : backup_area dir p = true → (∀ q, q ≠ p → g !! q = w.(files) !! q) → confined w → confined (mkWorld g w.(live)).
Proof.
  intros Hp Hg Hw q Hq. cbn. rewrite Hg; [by apply Hw|]. intros ->. congruence.
Qed.

Lemma confined_delete p w : backup_area dir p = true → confined w → confined (set_files (delete p) w).
Proof. intros Hp. apply (confined_other p w); [done|]. intros q Hq. by rewrite lookup_delete_ne. Qed.

Lemma confined_put p t m w : backup_area dir p = true → confined w → confined (set_files (put p t m) w).
Proof. intros Hp. apply (confined_other p w); [done|]. intros q Hq. by apply put_other. Qed.

Lemma confined_rename p q w : backup_area dir p = true → backup_area dir q = true → confined w → confined (set_files (rename_entry p q) w).
Proof.
  intros Hp Hq Hw r Hr. cbn. rewrite rename_other; [by apply Hw| |]; intros ->; congruence.
Qed.
End confined.

Lemma base_prefix now : has_prefix (backup_base now) "lazarus-" = true.
Proof. unfold backup_base. apply has_prefix_app. Qed.

#[export] Hint Resolve join_area join_area' base_prefix confined_delete confined_put confined_rename : io.

(** * The computations of a backup *)

Section computations.
Context `{SQLite} `{Engine}.

Lemma keeps_VerifyPath I path : keeps I (VerifyPath path).
Proof. unfold VerifyPath. keeps. Qed.
#[local] Hint Resolve keeps_VerifyPath : io.

Lemma keeps_validate_backup I path : keeps I (validate_backup path).
Proof. unfold validate_backup. keeps. Qed.
#[local] Hint Resolve keeps_validate_backup : io.

Lemma keeps_BackupArtifact I dir name : keeps I (BackupArtifact dir name).
Proof.
  unfold BackupArtifact. destruct (negb _); [keeps|]. unfold validateRegularFile, readBackupManifest, validateBackupDigest.
  repeat io_bind; keeps.
Qed.

Lemma keeps_backupForRequest I dir rid actor : keeps I (backupForRequest dir rid actor).
Proof.
  unfold backupForRequest. destruct (String.eqb _ _); [keeps|]. apply keeps_bind; [keeps|]. intros [row|]; [|keeps].
  destruct (read_manifest _) as [m|]; [|keeps]. do 2 (apply keeps_bind; [keeps|intros _]).
  apply keeps_bind; [apply keeps_attempt, keeps_BackupArtifact|]. keeps.
Qed.

(** A computation keeps an invariant that survives what it may remove and write. *)
Section area.
Context (I : world → Prop) (dir : string).
Hypothesis delete_ok : ∀ n t w, has_prefix n "lazarus-" = true → I w → I (set_files (delete (path_join dir n +:+ t)) w).

Lemma delete_ok' n w : has_prefix n "lazarus-" = true → I w → I (set_files (delete (path_join dir n)) w).
Proof. intros Hn. rewrite <-(app_str_nil_r (path_join dir n)). by apply delete_ok. Qed.

Lemma keeps_cleanup : keeps I (cleanupBackupTemps dir).
Proof.
  unfold cleanupBackupTemps. apply keeps_bind; [|intros _; apply keeps_bind; [|intros _]]; apply keeps_for_entries; intros name Hp _;
    [apply keeps_remove_present|apply keeps_remove_orphan|apply keeps_remove_orphan]; intros w; by apply delete_ok'.
Qed.

Lemma keeps_rotate keep minAge now : keeps I (rotateBackupsWithAge dir keep minAge now).
Proof.
  unfold rotateBackupsWithAge. apply keeps_bind; [keeps|]. intros l. case_if; [keeps|].
  apply keeps_bind; [|keeps]. apply keeps_each. intros n Hn. assert (Hn' : n ∈ backups_of l).
  { rewrite <-(take_drop keep (backups_of l)). apply elem_of_app. by right. }
  apply backups_of_spec in Hn' as (Hp & _). apply keeps_rotate_one; intros w; [by apply delete_ok'|by apply delete_ok].
Qed.
End area.

(** What the parts of a backup that write need of an invariant. *)
Section parts.
Context (I : world → Prop) (dir base : string) (now : Z).

Lemma keeps_make_backup others keep minAge audit : has_prefix base "lazarus-" = true →
  (∀ n t w, has_prefix n "lazarus-" = true → I w → I (set_files (delete (path_join dir n +:+ t)) w)) →
  (∀ n t c w, has_prefix n "lazarus-" = true → I w → I (set_files (put (path_join dir n +:+ t) c now) w)) →
  (∀ n t n' t' w, has_prefix n "lazarus-" = true → has_prefix n' "lazarus-" = true → I w →
    I (set_files (rename_entry (path_join dir n +:+ t) (path_join dir n' +:+ t')) w)) →
  (∀ m w, I w → I (mkWorld w.(files) (RecordBackupCreated m audit w.(live)).2)) →
  (∀ i w, I w → I (mkWorld w.(files) (others i w.(live)))) →
  keeps I (make_backup others dir base (path_join dir base) keep minAge now audit).
Proof.
  intros Hb Hdel Hput Hren Hlive Hothers. unfold make_backup.
  assert (Hmw : ∀ i, keeps I (meanwhile (others i))) by (intros i; apply keeps_meanwhile; intros w; apply Hothers).
  assert (Hrm : ∀ t, keeps I (remove (path_join dir base +:+ t))) by (intros t; apply keeps_remove; intros w; by apply Hdel).
  assert (Hv : keeps I (vacuum_into (path_join dir base +:+ ".tmp") now)).
  { apply keeps_operate; [intros t w; by apply Hput|]. intros w Hw. destruct (files w !! _) as [[[|c s] ?| | |]|]; try done; by apply Hput. }
  assert (Hmv : ∀ t t', keeps I (rename (path_join dir base +:+ t) (path_join dir base +:+ t'))).
  { intros t t'. apply keeps_rename. intros w. by apply Hren. }
  assert (Hmv' : ∀ t, keeps I (rename (path_join dir base +:+ t) (path_join dir base))).
  { intros t. rewrite <-(app_str_nil_r (path_join dir base)) at 2. apply Hmv. }
  apply keeps_bind; [by apply keeps_attempt|]. intros _. apply keeps_bind; [done|]. intros _.
  apply keeps_bind; [by apply keeps_attempt|]. intros [?|e].
  2: { apply keeps_bind; [by apply keeps_attempt|]. keeps. }
  apply keeps_finally; [|done]. unfold publish_database, publish_manifest.
  apply keeps_bind.
  { repeat io_bind; keeps. }
  intros m. apply keeps_bind; [done|]. intros _. apply keeps_bind; [apply keeps_attempt, keeps_on_live; intros w; apply Hlive|].
  intros recorded. apply keeps_bind; [done|]. intros _. apply keeps_bind.
  - repeat io_bind; try (by keeps).
    apply keeps_prefixed, keeps_write_file. intros t w. by apply Hput.
  - intros _. apply keeps_bind; [by apply keeps_rotate|]. keeps.
Qed.
End parts.
End computations.

#[export] Hint Resolve keeps_VerifyPath keeps_validate_backup keeps_BackupArtifact keeps_backupForRequest : io.
