(* ===== verification/Publication.v ===== *)
(** The publication of a backup: what the disk holds at each step, whatever fails and wherever the
    process stops. *)
From S2P Require Import Prelude Utf8 Json JsonText Strconv GoTime Sha256 JsonDecode Indent Text Errors Values Db Model Events Mutations Verify Payloads Disk DiskLogic Artifacts Backup BackupNames BackupFacts.
Local Open Scope Z_scope.

(** What SQLite documents of itself: its version is text, and no database file reaches 2^63 bytes. *)
Class EngineLaws `{Engine} : Prop := {
  version_text : valid_utf8 runtime_version = true;
  vacuum_size : ∀ d, len (vacuum d) ≤ int64_max
}.

(** * Manifests *)

Lemma manifest_read m text : manifest_ok m = true → manifest_text m = Some text → read_manifest text = Some m.
Proof.
  intros Hm Ht. unfold manifest_text in Ht. destruct (manifest_members m) as [l|] eqn:El; [|discriminate]. injection Ht as <-.
  assert (Hl : ∃ kv l', l = kv :: l' ∧ wf (JObj (kv :: l')) = true ∧ fits (JObj (kv :: l')) 0 = true).
  { pose proof Hm as Hm'. unfold manifest_ok in Hm'. bool_hyps. unfold manifest_members in El. rewrite jtime_ok in El by done.
    cbn [mbind option_bind] in El. injection El as <-. do 2 eexists. split_and!; [reflexivity|wf_members|reflexivity]. }
  destruct Hl as (kv & l' & -> & Hw & Hf). unfold read_manifest. rewrite unmarshal_indent by done.
  apply (manifest_payload m); [done|unfold marshal_manifest; by rewrite El|]. unfold valid. by rewrite parse_all_print, Hf by done.
Qed.

(** * The files of a backup are distinct *)

(** Two texts that end in different bytes differ. *)
Ltac ends_differ H :=
  exfalso; repeat match type of H with
  | context [?x +:+ ".tmp"] => change (x +:+ ".tmp") with (x +:+ (".tm" +:+ String "p" "")) in H
  | context [?x +:+ ".manifest.json"] => change (x +:+ ".manifest.json") with (x +:+ (".manifest.jso" +:+ String "n" "")) in H
  | context [?x +:+ ".manifest.json.tmp"] => change (x +:+ ".manifest.json.tmp") with (x +:+ (".manifest.json.tm" +:+ String "p" "")) in H
  | context [?x +:+ ".db"] => change (x +:+ ".db") with (x +:+ (".d" +:+ String "b" "")) in H
  end; rewrite <-!app_str_assoc in H; apply ends_unique in H; discriminate H.

Section files.
Context (dir : string).

Lemma db_path n : has_suffix n ".db" = true → ∃ x, path_join dir n = x +:+ ".db".
Proof. intros [a ->]%has_suffix_spec. exists (dir +:+ "/" +:+ a). unfold path_join. by rewrite !app_str_assoc. Qed.

Lemma db_not_tmp n x : has_suffix n ".db" = true → path_join dir n ≠ x +:+ ".tmp".
Proof. intros [y ->]%db_path H. ends_differ H. Qed.

Lemma db_not_manifest n x : has_suffix n ".db" = true → path_join dir n ≠ x +:+ ".manifest.json".
Proof. intros [y ->]%db_path H. ends_differ H. Qed.

Lemma manifest_not_tmp x y : x +:+ ".manifest.json" ≠ y +:+ ".tmp".
Proof. intros H. ends_differ H. Qed.

Lemma dir_not_entry n t : path_join dir n +:+ t ≠ dir.
Proof.
  intros H. apply (f_equal String.length) in H. unfold path_join in H. rewrite !length_app_str in H. cbn in H. lia.
Qed.

Lemma dir_not_entry' n : path_join dir n ≠ dir.
Proof. rewrite <-(app_str_nil_r (path_join dir n)). apply dir_not_entry. Qed.
End files.

#[export] Hint Resolve db_not_tmp db_not_manifest manifest_not_tmp dir_not_entry dir_not_entry' : io.

(** * Published pairs *)

Section published.
Context `{SQLite} `{Engine}.

(** The manifest describes the database: name, size, digest; the database passes every check. *)
Definition valid_pair (name content text : string) : Prop :=
  ∃ m v, read_manifest text = Some m ∧ m.(B_Filename) = name ∧ content_matches content m = true ∧ verify_content content = Ok v.

Definition backup_name (n : string) : Prop := has_prefix n "lazarus-" = true ∧ has_suffix n ".db" = true.

(** Every database of the directory that has a manifest is described by it. *)
Definition published (dir : string) (d : disk) : Prop := ∀ n c t c' t', backup_name n →
  d !! path_join dir n = Some (Regular c t) → d !! (path_join dir n +:+ ".manifest.json") = Some (Regular c' t') → valid_pair n c c'.

Lemma published_sub dir d d' : published dir d →
  (∀ n e, backup_name n → d' !! path_join dir n = Some e → d !! path_join dir n = Some e) →
  (∀ n e, backup_name n → d' !! (path_join dir n +:+ ".manifest.json") = Some e → d !! (path_join dir n +:+ ".manifest.json") = Some e) →
  published dir d'.
Proof. intros Hd H1 H2 n c t c' t' Hn Hc Hm. eapply Hd; eauto. Qed.

Lemma published_delete dir p d : published dir d → published dir (delete p d).
Proof.
  intros Hd. eapply published_sub; [done| |]; intros n e _ He; by apply lookup_delete_Some in He as [_ He].
Qed.

(** What is written away from the names of databases and manifests changes nothing. *)
Lemma published_away dir d d' : published dir d → (∀ n, backup_name n → d' !! path_join dir n = d !! path_join dir n) →
  (∀ n, backup_name n → d' !! (path_join dir n +:+ ".manifest.json") = d !! (path_join dir n +:+ ".manifest.json")) → published dir d'.
Proof. intros Hd H1 H2. eapply published_sub; [done| |]; intros n e Hn; [by rewrite H1|by rewrite H2]. Qed.

Lemma published_tmp dir x c m d : published dir d → published dir (put (x +:+ ".tmp") c m d).
Proof.
  intros Hd. apply (published_away _ d); [done| |]; intros n [_ Hn]; apply put_other.
  - intros E. symmetry in E. by apply db_not_tmp in E.
  - intros E. symmetry in E. by apply manifest_not_tmp in E.
Qed.

(** * The steps *)

Section steps.
Context `{!EngineLaws} (dir : string) (now minAge : Z) (track : bool).
Let base := backup_base now.
Let final := path_join dir base.
Let manifest_path := final +:+ ".manifest.json".

Lemma base_name : backup_name base.
Proof. split; [apply base_prefix|apply base_suffix]. Qed.

(** The new backup is not one the rotation of this call removes: it is too young, or no backup of the
    directory has a greater name.  That is followed only when [track] asks for it. *)
Definition newest (d : disk) : Prop := track = true →
  0 < minAge ∨ ∀ n e, backup_name n → d !! path_join dir n = Some e → String.leb n base = true.

(** Before the copy is published: there is no manifest for the new name. *)
Definition before (w : world) : Prop :=
  published dir w.(files) ∧ w.(files) !! manifest_path = None ∧ newest w.(files).

Lemma newest_sub d d' : newest d → (∀ n e, backup_name n → d' !! path_join dir n = Some e → d !! path_join dir n = Some e) → newest d'.
Proof. intros Hd Hs [Hm|Hd']%Hd; [by left|right]. intros n e Hn He. eapply Hd'; eauto. Qed.

Lemma before_delete p w : before w → before (set_files (delete p) w).
Proof.
  intros (W1 & W2 & W3). split_and!; cbn.
  - by apply published_delete.
  - destruct (decide (p = manifest_path)) as [->|Hp]; [apply lookup_delete_eq|by rewrite lookup_delete_ne].
  - eapply newest_sub; [done|]. intros n e _ He. by apply lookup_delete_Some in He as [_ He].
Qed.

Lemma before_tmp x c m w : before w → before (set_files (put (x +:+ ".tmp") c m) w).
Proof.
  intros (W1 & W2 & W3). split_and!; cbn.
  - by apply published_tmp.
  - rewrite put_other; [done|]. intros E. symmetry in E. by apply manifest_not_tmp in E.
  - eapply newest_sub; [done|]. intros n e [_ Hn]. rewrite put_other; [done|]. intros E. symmetry in E. by apply db_not_tmp in E.
Qed.

Lemma before_dir w : files w !! dir = None → before w → before (set_files <[dir := Directory]> w).
Proof.
  intros Hd (W1 & W2 & W3). split_and!; cbn.
  - eapply published_away; [done| |]; intros n _; apply lookup_insert_ne; intros E; symmetry in E; first [by apply dir_not_entry' in E|by apply dir_not_entry in E].
  - rewrite lookup_insert_ne; [done|]. intros E. symmetry in E. by apply dir_not_entry in E.
  - eapply newest_sub; [done|]. intros n e _. rewrite lookup_insert_ne; [done|]. intros E. symmetry in E. by apply dir_not_entry' in E.
Qed.

(** Reading a file whose content is known. *)
Lemma triple_read P p c t : (∀ w, P w → w.(files) !! p = Some (Regular c t)) →
  triple P (read_file p) (λ r w, P w ∧ ∀ s, r = Ok s → s = c) P.
Proof.
  intros Hp. apply triple_look. intros w Hw. split_and!; [done|done|by intros s [=]|done|].
  unfold lookup_entry, follow. rewrite (Hp w Hw). cbn. rewrite (Hp w Hw). cbn. by intros s [= <-].
Qed.

Lemma triple_stat P p c t : (∀ w, P w → w.(files) !! p = Some (Regular c t)) →
  triple P (stat p) (λ r w, P w ∧ ∀ e, r = Ok e → e = Regular c t) P.
Proof.
  intros Hp. apply triple_look. intros w Hw. split_and!; [done|done|by intros s [=]|done|].
  unfold lookup_entry, follow. rewrite (Hp w Hw). cbn. rewrite (Hp w Hw). cbn. by intros s [= <-].
Qed.

Lemma triple_prefixed {A} P message (m : io A) (Q : result error A → world → Prop) S :
  triple P m (λ r w, match r with Ok a => Q (Ok a) w | Err e => Q (Err (EPrefixed message e)) w end) S → triple P (prefixed message m) Q S.
Proof.
  intros Hm. unfold prefixed. eapply triple_bind; [apply triple_attempt, Hm|].
  intros r. apply triple_of_result. intros w. by destruct r.
Qed.

(** A step that leaves the world alone, and what its value is known to be. *)
Definition yields {A} (P : world → Prop) (m : io A) (φ : A → Prop) : Prop :=
  triple P m (λ r w, P w ∧ ∀ a, r = Ok a → φ a) P.

Lemma yields_bind {A B} P (m : io A) (f : A → io B) φ (Q : result error B → world → Prop) (S : world → Prop) : yields P m φ →
  (∀ w, P w → S w) → (∀ e w, P w → Q (Err e) w) → (∀ a, φ a → triple P (f a) Q S) → triple P (m ≫= f) Q S.
Proof.
  intros Hm HS He Hf. apply (triple_bind _ _ _ (λ a w, P w ∧ φ a)).
  - eapply triple_weaken; [exact Hm|done| |done]. intros [a|e] w [Hw Ha]; auto.
  - intros a fs w [Hw Ha]. by apply (Hf a Ha).
Qed.

Lemma yields_then {A B} P (m : io A) (f : A → io B) φ ψ : yields P m φ → (∀ a, φ a → yields P (f a) ψ) → yields P (m ≫= f) ψ.
Proof. intros Hm Hf. eapply yields_bind; [exact Hm|done|by intros e w Hw|exact Hf]. Qed.

Lemma yields_keeps {A} P (m : io A) : keeps P m → yields P m (λ _, True).
Proof. intros Hm. eapply triple_weaken; [exact Hm|done|done|done]. Qed.

Lemma yields_unless P b e : yields P (unless b e) (λ _, b = true).
Proof. destruct b; [by apply triple_ret|by apply triple_throw]. Qed.

Lemma yields_ret {A} P (a : A) (φ : A → Prop) : φ a → yields P (mret a) φ.
Proof. intros Ha. apply triple_ret. intros w Hw. split; [done|by intros ? [= <-]]. Qed.

Lemma yields_of_result {A} P (r : result error A) : yields P (of_result r) (λ a, r = Ok a).
Proof. apply triple_of_result. intros w Hw. by split. Qed.

Lemma yields_prefixed {A} P message (m : io A) φ : yields P m φ → yields P (prefixed message m) φ.
Proof. intros Hm. apply triple_prefixed. eapply triple_weaken; [exact Hm|done| |done]. intros [a|e] w [Hw Ha]; split; auto. by intros ? [=]. Qed.

(** A rotation leaves a file that is too young. *)
Lemma rotate_young (P : world → Prop) d n t0 c t : (∀ w, P w → w.(files) !! path_join d n = Some (Regular c t)) → 0 < minAge →
  age t0 t < minAge → keeps P (rotate_one d minAge t0 n).
Proof.
  intros Hp Hm Ha. unfold rotate_one. rewrite (proj2 (Z.ltb_lt _ _) Hm). cbv zeta.
  eapply (yields_bind _ _ _ (λ old, old = false)); [|done|done|intros ? ->; apply keeps_ret].
  apply (triple_bind _ _ _ (λ r w, P w ∧ ∀ e, r = Ok e → e = Regular c t)).
  - apply triple_attempt. eapply triple_weaken; [by apply (triple_stat P (path_join d n) c t)|done| |done]. done.
  - intros [e|e] fs w [Hw He].
    + rewrite (He e eq_refl). cbn. split; [done|]. intros b [= <-]. by apply Z.leb_gt.
    + destruct (is_not_exist e); cbn; split; try done. by intros b [= <-].
Qed.

(** The computation on a file whose content is known. *)
Lemma yields_VerifyPath P p c t : (∀ w, P w → w.(files) !! p = Some (Regular c t)) →
  yields P (VerifyPath p) (λ v, verify_content c = Ok v ∧ c ≠ "").
Proof.
  intros Hp. unfold VerifyPath. eapply yields_then; [by apply yields_prefixed, (triple_stat P p c t)|]. intros e ->.
  eapply yields_then; [apply yields_unless|]. intros ? Hc. eapply yields_then; [by apply (triple_read P p c t)|]. intros s ->.
  eapply triple_weaken; [apply yields_of_result|done| |done]. intros r w [Hw Hr]. split; [done|]. intros v Hv. split; [by apply Hr|].
  intros E. rewrite E in Hc. by vm_compute in Hc.
Qed.

Lemma yields_validate P p c t : (∀ w, P w → w.(files) !! p = Some (Regular c t)) →
  yields P (validate_backup p) (λ v, verify_content c = Ok v ∧ c ≠ "").
Proof.
  intros Hp. unfold validate_backup. eapply yields_then; [by apply yields_prefixed, (yields_VerifyPath P p c t)|]. intros v Hv.
  eapply yields_then; [apply yields_unless|]. intros ? _. by apply yields_ret.
Qed.

Lemma verify_content_ok c v : verify_content c = Ok v → v.(V_SQLiteVersion) = runtime_version ∧ equal_fold v.(V_IntegrityCheck) "ok" = true
  ∧ v.(V_ForeignKeys) = "ok" ∧ v.(V_ApplicationData) = "ok" ∧ foreign_keys_hold c = Ok true
  ∧ ∃ d, open_file c = Ok d ∧ verifyApplicationData d = Ok ().
Proof.
  unfold verify_content. case_if; [discriminate|]. intros (i & Hi & Hv)%bind_ok. destruct (equal_fold i "ok") eqn:E; [|discriminate].
  cbn [negb] in Hv. apply bind_ok in Hv as ([] & Hf & Hv); [|discriminate]. cbn [negb] in Hv.
  apply bind_ok in Hv as (d & Hd & ([] & Ha & [= <-])%bind_ok). split_and!; try done. by exists d.
Qed.

(** * The copy and its publication *)

Context (d0 : db).
Let content := vacuum d0.
Let tmp := final +:+ ".tmp".
Let manifest_tmp := final +:+ ".manifest.json.tmp".

(** The copy is complete under its temporary name; the database is published; its manifest too. *)
Definition copied (w : world) : Prop := before w ∧ w.(files) !! tmp = Some (Regular content now).
Definition in_place (w : world) : Prop := before w ∧ w.(files) !! final = Some (Regular content now).
Definition complete (text : string) (w : world) : Prop :=
  published dir w.(files) ∧ newest w.(files) ∧ w.(files) !! final = Some (Regular content now)
  ∧ w.(files) !! manifest_path = Some (Regular text now).

(** The manifest the content deserves, but for the audit flag. *)
Definition describes (m : BackupManifest) : Prop := ∃ v, verify_content content = Ok v ∧ content ≠ "" ∧
  m = mkManifest base now (len content) (sha256_hex content) runtime_version v.(V_IntegrityCheck) v.(V_ForeignKeys) v.(V_ApplicationData)
        m.(B_AuditRecorded).

Definition safe (w : world) : Prop := published dir w.(files).

Lemma copied_file w : copied w → w.(files) !! tmp = Some (Regular content now).
Proof. by intros []. Qed.

Lemma newest_base d e : newest d → newest (<[final := e]> d).
Proof.
  intros Hd [Hm|Hd']%Hd; [by left|right]. intros n e' Hn He. destruct (decide (n = base)) as [->|Hne].
  - destruct (String.leb_total base base); done.
  - rewrite lookup_insert_ne in He by (intros E; apply Hne; by apply path_join_inj in E). by eapply Hd'.
Qed.

Lemma published_base d e : published dir d → d !! manifest_path = None → published dir (<[final := e]> d).
Proof.
  intros Hd Hm n c t c' t' Hn Hc Hc'. destruct (decide (n = base)) as [->|Hne].
  - fold final manifest_path in Hc'. rewrite lookup_insert_ne in Hc'; [congruence|]. intros E. apply db_not_manifest in E; [done|apply base_suffix].
  - rewrite lookup_insert_ne in Hc by (intros E; apply Hne; by apply path_join_inj in E).
    rewrite lookup_insert_ne in Hc'; [by eapply Hd|]. intros E. apply db_not_manifest in E; [done|apply base_suffix].
Qed.

Lemma before_base w e : before w → before (set_files <[final := e]> w).
Proof.
  intros (W1 & W2 & W3). split_and!; cbn; [by apply published_base| |by apply newest_base].
  rewrite lookup_insert_ne; [done|]. intros E. apply db_not_manifest in E; [done|apply base_suffix].
Qed.

Lemma before_safe w : before w → safe w.
Proof. by intros []. Qed.

(** A renaming that replaces no directory. *)
Lemma triple_rename (P : world → Prop) (Q : result error () → world → Prop) (S : world → Prop) from to e :
  (∀ w, P w → w.(files) !! from = Some e) → (∀ w, P w → S w) → (∀ x w, P w → Q (Err x) w) →
  (∀ w, P w → Q (Ok ()) (set_files <[to := e]> (set_files (delete from) w))) → triple P (rename from to) Q S.
Proof.
  intros Hf HS He Hq. apply triple_operate.
  - intros t w Hw. rewrite set_files_intact. auto.
  - intros w Hw. rewrite (Hf w Hw). destruct (dir_at _ _); [by apply He|]. specialize (Hq w Hw). unfold set_files in *. cbn in *. unfold rename_entry. by rewrite (Hf w Hw).
Qed.

(** Whatever is known of the world beside the copy carries over as the renaming allows. *)
Lemma publish_database_spec (P R S : world → Prop) : (∀ w, P w → w.(files) !! tmp = Some (Regular content now)) →
  (∀ w, P w → S w) → (∀ w, R w → S w) → (∀ w, P w → R (set_files <[final := Regular content now]> (set_files (delete tmp) w))) →
  triple P (publish_database dir base tmp final now) (λ r w, match r with Ok m => R w ∧ describes m | Err _ => S w end) S.
Proof.
  intros Hfile HS HRS HR. unfold publish_database.
  eapply yields_bind; [apply yields_keeps; keeps|done|by auto|]. intros _ _.
  eapply yields_bind; [by apply (yields_validate _ _ content now)|done|by auto|]. intros v [Hv Hc].
  eapply yields_bind; [apply yields_keeps; keeps|done|by auto|]. intros _ _.
  eapply yields_bind; [by apply yields_prefixed, (triple_read _ _ content now)|done|by auto|]. intros s ->. cbv zeta.
  eapply yields_bind; [by apply (yields_validate _ _ content now)|done|by auto|]. intros v' _.
  eapply yields_bind; [apply yields_keeps; keeps|done|by auto|]. intros _ _.
  apply (triple_bind _ _ _ (λ _, R)).
  - apply triple_prefixed. by apply (triple_rename _ _ _ _ _ (Regular content now)); [|auto..].
  - intros _. eapply yields_bind; [apply yields_keeps; keeps|by auto|by auto|].
    intros _ _. apply triple_ret. intros w Hw. split; [done|]. by exists v.
Qed.

Lemma triple_publish_database : triple copied (publish_database dir base tmp final now)
  (λ r w, match r with Ok m => in_place w ∧ describes m | Err _ => safe w end) safe.
Proof.
  apply publish_database_spec; [by intros w []|by intros w [Hw _]; apply before_safe|by intros w [Hw _]; apply before_safe|].
  intros w [Hw Ht]. split; [|apply lookup_insert_eq].
  apply (before_base (set_files (delete tmp) w) (Regular content now)). by apply before_delete.
Qed.

(** * The manifest *)

Lemma describes_ok m : describes m → time_ok now = true → manifest_ok m = true.
Proof.
  intros (v & (_ & Hi & Hf & Ha & _)%verify_content_ok & _ & ->) Hn. unfold manifest_ok.
  cbn [B_Filename B_CreatedAt B_Bytes B_SHA256 B_SQLiteVersion B_IntegrityCheck B_ForeignKeys B_Application B_AuditRecorded].
  assert (Hb : valid_utf8 base = true) by by apply base_valid.
  rewrite Hb, Hn, sha256_hex_valid, version_text, Hf, Ha, (fold_ascii_valid _ "ok" Hi) by done.
  pose proof (vacuum_size d0) as Hs. pose proof (len_nonneg content) as Hl. fold content in Hs. unfold in_int64, int64_min in *.
  by rewrite (proj2 (Z.leb_le _ _) Hs), (proj2 (Z.leb_le (- 2 ^ 63) (len content))) by lia.
Qed.

Lemma describes_audit m b : describes m → describes (with_audit m b).
Proof. intros (v & Hv & Hc & ->). by exists v. Qed.

Lemma text_time m text : manifest_text m = Some text → time_ok m.(B_CreatedAt) = true.
Proof.
  unfold manifest_text, manifest_members, jtime, marshal_time, time_ok. by destruct (_ && _).
Qed.

Lemma describes_pair m text : describes m → manifest_text m = Some text → valid_pair base content text ∧ read_manifest text = Some m.
Proof.
  intros Hm Ht. assert (Hr : read_manifest text = Some m).
  { apply manifest_read; [|done]. apply describes_ok; [done|]. apply text_time in Ht. by destruct Hm as (v & _ & _ & E); rewrite E in Ht. }
  split; [|done]. destruct Hm as (v & Hv & _ & E). exists m, v. rewrite E. split_and!; [by rewrite <-E|done| |done].
  unfold content_matches. cbn. by rewrite Z.eqb_refl, equal_fold_refl.
Qed.

Lemma manifest_tmp_split : manifest_tmp = (final +:+ ".manifest.json") +:+ ".tmp".
Proof. unfold manifest_tmp. by rewrite app_str_assoc. Qed.

Lemma in_place_tmp x c m w : in_place w → in_place (set_files (put (x +:+ ".tmp") c m) w).
Proof.
  intros [W1 W2]. split; [by apply before_tmp|]. cbn. rewrite put_other; [done|]. intros E. symmetry in E.
  apply db_not_tmp in E; [done|apply base_suffix].
Qed.

Lemma in_place_delete_tmp x w : in_place w → in_place (set_files (delete (x +:+ ".tmp")) w).
Proof.
  intros [W1 W2]. split; [by apply before_delete|]. cbn. rewrite lookup_delete_ne; [done|]. intros E. symmetry in E.
  apply db_not_tmp in E; [done|apply base_suffix].
Qed.

(** The manifest takes its place: the pair is valid. *)
Lemma complete_base text w : valid_pair base content text → in_place w → complete text (set_files <[manifest_path := Regular text now]> w).
Proof.
  intros Hp [(W1 & W2 & W3) W4].
  assert (Hne : ∀ n, backup_name n → manifest_path ≠ path_join dir n).
  { intros n [_ Hn] E. symmetry in E. by apply db_not_manifest in E. }
  split_and!; cbn.
  - intros n c t c' t' Hn Hc Hc'. rewrite lookup_insert_ne in Hc by by apply Hne. destruct (decide (n = base)) as [->|Hb].
    + fold final manifest_path in Hc'. rewrite lookup_insert_eq in Hc'. injection Hc' as <- <-. fold final in Hc. rewrite W4 in Hc. by injection Hc as <- <-.
    + rewrite lookup_insert_ne in Hc'; [by eapply W1|]. intros E. apply app_str_inj_r, path_join_inj in E. congruence.
  - eapply newest_sub; [done|]. intros n e Hn. by rewrite lookup_insert_ne by by apply Hne.
  - rewrite lookup_insert_ne; [done|]. apply (Hne base), base_name.
  - apply lookup_insert_eq.
Qed.

Lemma complete_safe text w : complete text w → safe w.
Proof. by intros []. Qed.

Lemma in_place_safe w : in_place w → safe w.
Proof. intros [Hw _]. by apply before_safe. Qed.

Lemma triple_publish_manifest m : describes m → triple in_place (publish_manifest dir final now m)
  (λ r w, match r with Ok _ => ∃ text, manifest_text m = Some text ∧ complete text w | Err _ => safe w end) safe.
Proof.
  intros Hm. unfold publish_manifest. pose proof in_place_safe as Hsafe.
  eapply yields_bind; [apply yields_of_result|done|by auto|]. intros text Ht.
  assert (Htext : manifest_text m = Some text) by (destruct (manifest_text m); cbn in Ht; congruence). cbv zeta. fold manifest_tmp manifest_path.
  destruct (describes_pair m text Hm Htext) as [Hp _].
  apply (triple_bind _ _ _ (λ _ w, in_place w ∧ w.(files) !! manifest_tmp = Some (Regular text now))).
  { apply triple_prefixed, triple_operate; rewrite manifest_tmp_split.
    - intros t w Hw. split; by apply Hsafe, in_place_tmp.
    - intros w Hw. destruct (dir_at _ _) eqn:Ed; cbn [fst snd]; [by apply Hsafe, in_place_tmp|]. split; [by apply in_place_tmp|].
      by apply put_same. }
  intros _. eapply yields_bind; [apply yields_keeps; keeps|by intros w [Hw _]; auto|by intros e w [Hw _]; auto|]. intros _ _.
  apply (triple_bind _ _ _ (λ r w, match r with Ok _ => complete text w | Err _ => in_place w end)).
  { apply triple_attempt. apply (triple_rename _ _ _ _ _ (Regular text now)); [by intros w []|by intros w [Hw _]; auto|by intros x w []|].
    intros w [Hw _]. apply complete_base; [done|]. rewrite manifest_tmp_split. by apply in_place_delete_tmp. }
  intros r. apply (triple_bind _ _ _ (λ _, complete text)).
  - destruct r as [[]|e]; [by apply triple_ret|].
    eapply (triple_bind _ _ _ (λ _, in_place)); [|intros ?; apply triple_throw; auto].
    apply triple_attempt. eapply triple_weaken; [apply (keeps_remove in_place)|done|by auto|by auto].
    intros w. rewrite manifest_tmp_split. by apply in_place_delete_tmp.
  - pose proof (complete_safe text) as Hs. intros _. eapply yields_bind; [apply yields_keeps; keeps|done|by auto|]. intros _ _.
    eapply triple_weaken; [apply (keeps_prefixed (complete text)), keeps_open_path|done| |exact Hs]. intros [[]|e] w Hw; [by exists text|by apply Hs].
Qed.

(** * Rotation keeps the new backup *)

Lemma complete_delete text p w : p ≠ final → p ≠ manifest_path → complete text w → complete text (set_files (delete p) w).
Proof.
  intros Hp Hm (W1 & W2 & W3 & W4). split_and!; cbn; [by apply published_delete| |by rewrite lookup_delete_ne..].
  eapply newest_sub; [done|]. intros n e _ He. by apply lookup_delete_Some in He as [_ He].
Qed.

Lemma rotate_other text n : backup_name n → n ≠ base → keeps (complete text) (rotate_one dir minAge now n).
Proof.
  intros [_ Hn] Hne. apply keeps_rotate_one; intros w; apply complete_delete.
  - intros E. by apply path_join_inj in E.
  - by apply db_not_manifest.
  - intros E. symmetry in E. apply db_not_manifest in E; [done|apply base_suffix].
  - intros E. by apply app_str_inj_r, path_join_inj in E.
Qed.

Lemma kept_positive keep : (0 < kept keep)%nat.
Proof. unfold kept, defaultKeepBack. repeat case_if; bool_hyps; lia. Qed.

Lemma rotate_complete text keep : track = true → keeps (complete text) (rotateBackupsWithAge dir (kept keep) minAge now).
Proof.
  intros Htrack. unfold rotateBackupsWithAge. apply (triple_bind _ _ _ (λ l w, complete text w ∧ (0 < minAge ∨ base ∉ drop (kept keep) (backups_of l)))).
  - apply triple_look. intros w Hw. split_and!; [done|done|]. unfold lookup_entry, of_option. destruct (files w !! dir) as [e|]; [|done]. cbn.
    destruct (is_dir e); [|done]. split; [done|]. pose proof Hw as (_ & [Hm|Hnew]%(λ H, H Htrack) & _); [by left|right].
    apply greatest_kept; [apply listing_nodup|apply kept_positive|]. intros b (Hb1 & Hb2 & e' & He)%backups_of_spec.
    by apply (Hnew b e'), listing_spec.
  - intros l fs w [Hw Hl]. revert fs w Hw. fold (keeps (complete text)
      (if (length (backups_of l) <=? kept keep)%nat then mret () else each (rotate_one dir minAge now) (drop (kept keep) (backups_of l)) ;; sync_dir dir)).
    case_if; [keeps|]. apply keeps_bind; [|keeps]. apply keeps_each. intros n Hn. destruct (decide (n = base)) as [->|Hne].
    + destruct Hl as [Hl|Hl]; [|done]. apply (rotate_young _ _ _ _ content now); [by intros w (_ & _ & W & _)|done|].
      unfold age. rewrite Z.sub_diag. unfold int64_min, int64_max. lia.
    + apply rotate_other; [|done]. assert (Hn' : n ∈ backups_of l).
      { rewrite <-(take_drop (kept keep) (backups_of l)). apply elem_of_app. by right. }
      by apply backups_of_spec in Hn' as (? & ? & _).
Qed.

(** After the rotation: the new pair is there if it was followed, and every pair is valid. *)
Definition rotated (text : string) (w : world) : Prop := safe w ∧ (track = true → complete text w).

Lemma rotate_keeps text keep : triple (complete text) (rotateBackupsWithAge dir (kept keep) minAge now) (λ _, rotated text) (rotated text).
Proof.
  assert (Hs : keeps safe (rotateBackupsWithAge dir (kept keep) minAge now)) by (apply keeps_rotate; intros; by apply published_delete).
  destruct (decide (track = true)) as [Htrack|Htrack].
  - eapply triple_weaken; [exact (rotate_complete text keep Htrack)|done| |]; intros; (split; [by apply (complete_safe text)|done]).
  - eapply triple_weaken; [exact Hs|apply complete_safe| |]; by intros.
Qed.

(** * The whole backup *)

Context (others : moment → db → db) (audit : AuditContext).

(** The live database after a backup: the others' changes, and in their midst the event, exactly when the
    manifest says so. *)
Definition journaled_among (m : BackupManifest) (d : db) : Prop := ∃ d',
  (if m.(B_AuditRecorded) then RecordBackupCreated m audit (others Recording d0) = (Ok (), d') else d' = others Recording d0)
  ∧ d = others Finishing d'.

Definition recorded (m : BackupManifest) (w : world) : Prop := journaled_among m w.(live).

(** What a backup that was made leaves. *)
Definition made (m : BackupManifest) (w : world) : Prop :=
  describes m ∧ recorded m w ∧ ∃ text, read_manifest text = Some m ∧ rotated text w.

Section live_kept.
Context (P : db → Prop).
Let I (w : world) : Prop := P w.(live).

Lemma live_publish_database : keeps I (publish_database dir base tmp final now).
Proof. unfold publish_database. repeat io_bind; try (by keeps); by apply keeps_prefixed, keeps_rename. Qed.

Lemma live_publish_manifest m : keeps I (publish_manifest dir final now m).
Proof.
  unfold publish_manifest. repeat io_bind; try (by keeps).
  - apply keeps_prefixed. by apply keeps_write_file.
  - apply keeps_attempt. by apply keeps_rename.
  - match goal with |- keeps _ (match ?r with _ => _ end) => destruct r end; [keeps|].
    io_bind; [|keeps]. apply keeps_attempt. by apply keeps_remove.
Qed.

Lemma live_rotate keep : keeps I (rotateBackupsWithAge dir keep minAge now).
Proof. by apply keeps_rotate. Qed.
End live_kept.

Lemma record_cases m d : (∃ d', RecordBackupCreated m audit d = (Ok (), d')) ∨ ∃ e, RecordBackupCreated m audit d = (Err e, d).
Proof.
  unfold RecordBackupCreated. cbv zeta. match goal with |- context [write ?f d] => destruct (write_spec f d) as [([] & d' & _ & E)|(e & _ & E)] end; eauto.
Qed.

Lemma triple_record m d : triple (λ w, in_place w ∧ w.(live) = d) (attempt (on_live (RecordBackupCreated m audit)))
  (λ r w, in_place w ∧ match r with
    | Ok (Ok _) => RecordBackupCreated m audit d = (Ok (), w.(live))
    | _ => w.(live) = d end) safe.
Proof.
  apply triple_attempt, triple_operate.
  - intros t w [Hw Hl]. rewrite set_files_intact. split; [done|by apply in_place_safe].
  - intros w [Hw Hl]. rewrite Hl. destruct (record_cases m d) as [[d' E]|[e E]]; rewrite E; by split.
Qed.

Lemma made_delete_tmp m x w : made m w → made m (set_files (delete (x +:+ ".tmp")) w).
Proof.
  intros (Hm & Hr & text & Ht & Hc). split_and!; [done|done|]. exists text. split; [done|]. destruct Hc as [Hs Hc].
  split; [by apply published_delete|]. intros Ht'. apply complete_delete; [| |by apply Hc].
  - intros E. symmetry in E. apply db_not_tmp in E; [done|apply base_suffix].
  - intros E. symmetry in E. by apply manifest_not_tmp in E.
Qed.

Lemma safe_delete p w : safe w → safe (set_files (delete p) w).
Proof. apply published_delete. Qed.

(** The event, in the midst of what the others do. *)
Lemma triple_journal {A} m (k : bool → io A) (Q : result error A → world → Prop) : (∀ e w, in_place w → Q (Err e) w) →
  (∀ b, triple (λ w, in_place w ∧ recorded (with_audit m b) w) (k b) Q safe) →
  triple (λ w, in_place w ∧ w.(live) = d0)
    (meanwhile (others Recording) ;; recorded ← attempt (on_live (RecordBackupCreated m audit)); meanwhile (others Finishing) ;; k (is_ok recorded)) Q safe.
Proof.
  intros He Hk. apply (triple_bind _ _ _ (λ _ w, in_place w ∧ w.(live) = others Recording d0)).
  { apply triple_meanwhile. intros w [Hw ->]. by split. }
  intros _. apply (triple_bind _ _ _ (λ r w, in_place w ∧ (if is_ok r then RecordBackupCreated m audit (others Recording d0) = (Ok (), w.(live)) else w.(live) = others Recording d0))).
  { eapply triple_weaken; [apply (triple_record m (others Recording d0))|done| |done]. intros [[[]|e]|e] w [Hw Hl]; try done. by apply He. }
  intros r. apply (triple_bind _ _ _ (λ _ w, in_place w ∧ recorded (with_audit m (is_ok r)) w)); [|intros _; apply Hk].
  apply triple_meanwhile. intros w [Hw Hl]. split; [done|]. exists w.(live). split; [|done]. by destruct (is_ok r).
Qed.

(** Publication, the journal, the manifest and rotation, before the temporary file is removed. *)
Lemma triple_publish keep : triple (λ w, copied w ∧ w.(live) = d0) (
    manifest ← publish_database dir base tmp final now;
    meanwhile (others Recording) ;;
    recorded ← attempt (on_live (RecordBackupCreated manifest audit));
    meanwhile (others Finishing) ;;
    let manifest := with_audit manifest (is_ok recorded) in
    publish_manifest dir final now manifest ;;
    rotateBackupsWithAge dir (kept keep) minAge now ;;
    mret manifest)
  (λ r w, match r with Ok m => made m w | Err _ => safe w end) safe.
Proof.
  apply (triple_bind _ _ _ (λ m w, (in_place w ∧ w.(live) = d0) ∧ describes m)).
  { eapply triple_weaken; [apply (triple_and _ _ _ _ _ _ _ triple_publish_database (live_publish_database (λ d, d = d0)))|done| |by intros w []].
    intros [m|e] w [Hq Hl]; [by destruct Hq|done]. }
  intros m. intros fs w [Hw Hm]. revert fs w Hw.
  match goal with |- ∀ fs w, _ → match ?k fs w with _ => _ end => change (triple (λ w, in_place w ∧ w.(live) = d0) k
    (λ r w, match r with Ok m => made m w | Err _ => safe w end) safe) end.
  apply (triple_journal m (λ b, publish_manifest dir final now (with_audit m b) ;; rotateBackupsWithAge dir (kept keep) minAge now ;; mret (with_audit m b)));
    [intros e w; apply in_place_safe|].
  intros b. set (m' := with_audit m b). assert (Hm' : describes m') by by apply describes_audit.
  apply (triple_bind _ _ _ (λ _ w, recorded m' w ∧ ∃ text, manifest_text m' = Some text ∧ complete text w)).
  { eapply triple_weaken; [apply (triple_and _ _ _ _ _ _ _ (triple_publish_manifest m' Hm') (live_publish_manifest (journaled_among m') m'))|done| |].
    - by intros [u|e] w [].
    - by intros w []. }
  intros _. apply (triple_bind _ _ _ (λ _, made m')); [|intros _; by apply triple_ret].
  intros fs w (Hr & text & Ht & Hc). destruct (describes_pair m' text Hm' Ht) as [_ Hread].
  pose proof (triple_and _ _ _ _ _ _ _ (rotate_keeps text keep) (live_rotate (journaled_among m') (kept keep)) fs w (conj Hc Hr)) as H2.
  destruct (rotateBackupsWithAge _ _ _ _ fs w) as [[[[u|e]|] fs'] w']; destruct H2 as [H2 H3].
  - split_and!; [done|done|by exists text].
  - by destruct H2.
  - by destruct H2.
Qed.

Lemma triple_make_backup keep : triple (λ w, before w ∧ others Copying w.(live) = d0) (make_backup others dir base final keep minAge now audit)
  (λ r w, match r with Ok m => made m w | Err _ => safe w end) safe.
Proof.
  assert (Hrm0 : keeps (λ w, before w ∧ others Copying w.(live) = d0) (attempt (remove tmp))).
  { apply keeps_attempt, keeps_remove. intros w [Hw Hl]. split; [by apply before_delete|done]. }
  assert (Hrm : keeps (λ w, before w ∧ w.(live) = d0) (attempt (remove tmp))).
  { apply keeps_attempt, keeps_remove. intros w [Hw Hl]. split; [by apply before_delete|done]. }
  assert (Hsafe : ∀ w, before w ∧ w.(live) = d0 → safe w) by (intros w [Hw _]; by apply before_safe).
  unfold make_backup. cbv zeta. fold tmp.
  eapply yields_bind; [by apply yields_keeps|by intros w [Hw _]; apply before_safe|by intros e w [Hw _]; apply before_safe|]. intros _ _.
  apply (triple_bind _ _ _ (λ _ w, before w ∧ w.(live) = d0)); [by apply triple_meanwhile|intros _].
  apply (triple_bind _ _ _ (λ r w, match r with Ok _ => copied w ∧ w.(live) = d0 | Err _ => before w ∧ w.(live) = d0 end)).
  { apply triple_attempt, triple_operate.
    - intros t w [Hw Hl]. split; [split; [by apply before_tmp|done]|]. by apply before_safe, before_tmp.
    - intros w [Hw Hl]. destruct (files w !! tmp) as [[[|c s] mt| | |]|] eqn:E; cbn; try done;
        (split; [split; [by apply before_tmp|]|done]); cbn; rewrite Hl; apply put_same; unfold dir_at; by rewrite E. }
  intros [[]|e].
  - unfold finally. apply (triple_bind _ _ _ (λ r w, match r with Ok m => made m w | Err _ => safe w end)).
    { apply triple_attempt. eapply triple_weaken; [apply (triple_publish keep)|done| |done]. by intros [m|e] w. }
    intros r. apply (triple_bind _ _ _ (λ _ w, match r with Ok m => made m w | Err _ => safe w end)); [|intros _; apply triple_of_result; by destruct r].
    apply triple_attempt. eapply triple_weaken; [apply (keeps_remove (λ w, match r with Ok m => made m w | Err _ => safe w end))|done| |].
    + intros w Hw. destruct r as [m|e]; [by apply made_delete_tmp|by apply safe_delete].
    + by intros [u|e] w.
    + intros w Hw. destruct r as [m|e]; [|done]. by destruct Hw as (_ & _ & text & _ & [Hs _]).
  - eapply yields_bind; [by apply yields_keeps|done|by auto|]. intros _ _. apply triple_throw. by auto.
Qed.

(** * The live database *)

(** When no other request writes, the live database is as it was, or it has one more event, whose manifest
    describes the copy. *)
Definition journaled (w : world) : Prop :=
  w.(live) = d0 ∨ ∃ m, describes m ∧ RecordBackupCreated m audit d0 = (Ok (), w.(live)).

Lemma live_make_backup keep : triple (λ w, w.(live) = d0) (make_backup undisturbed dir base final keep minAge now audit) (λ _, journaled) journaled.
Proof.
  assert (Hs : ∀ w, w.(live) = d0 → journaled w) by (intros w Hw; by left).
  assert (Hrm : ∀ p, keeps (λ w, w.(live) = d0) (attempt (remove p))) by (intros p; by apply keeps_attempt, keeps_remove).
  assert (Hmw : ∀ (P : db → Prop) i, keeps (λ w, P w.(live)) (meanwhile (undisturbed i))) by (intros P i; by apply keeps_meanwhile).
  unfold make_backup. cbv zeta. fold tmp. eapply yields_bind; [by apply yields_keeps|done|by auto|]. intros _ _.
  eapply yields_bind; [apply yields_keeps, (Hmw (λ d, d = d0))|done|by auto|]. intros _ _.
  apply (triple_bind _ _ _ (λ r w, match r with Ok _ => w.(files) !! tmp = Some (Regular content now) | Err _ => True end ∧ w.(live) = d0)).
  { apply triple_attempt, triple_operate; [by intros t w Hw; split; [|left]|]. intros w Hw.
    destruct (files w !! tmp) as [[[|c s] mt| | |]|] eqn:E; cbn; try done; (split; [|done]); rewrite Hw; apply put_same; unfold dir_at; by rewrite E. }
  intros [[]|e].
  2: { intros fs w [_ Hw]. revert fs w Hw. change (triple (λ w, w.(live) = d0) (attempt (remove tmp) ;; @throw BackupManifest (EPrefixed "vacuum into" e)) (λ _, journaled) journaled).
       eapply yields_bind; [by apply yields_keeps|done|by auto|]. intros _ _. by apply triple_throw. }
  assert (Hj : ∀ A (m : io A), (∀ P : db → Prop, keeps (λ w, P w.(live)) m) → keeps journaled m).
  { intros A m Hm. apply (Hm (λ d, d = d0 ∨ ∃ m, describes m ∧ RecordBackupCreated m audit d0 = (Ok (), d))). }
  unfold finally. apply (triple_bind _ _ _ (λ _, journaled)).
  2: { intros r. apply (keeps_bind journaled); [|intros _; keeps]. apply Hj. intros P. by apply keeps_attempt, keeps_remove. }
  apply triple_attempt. apply (triple_bind _ _ _ (λ m w, w.(live) = d0 ∧ describes m)).
  { eapply triple_weaken; [apply (publish_database_spec (λ w, w.(files) !! tmp = Some (Regular content now) ∧ w.(live) = d0) (λ w, w.(live) = d0) (λ w, w.(live) = d0))|..]; try done.
    - by intros w [].
    - by intros w [].
    - by intros w [].
    - intros [m|e] w; [done|by left]. }
  intros m. apply (triple_bind _ _ _ (λ _ w, w.(live) = d0 ∧ describes m)); [by apply triple_meanwhile|]. intros _.
  apply (triple_bind _ _ _ (λ _, journaled)).
  { apply triple_attempt, triple_operate; [intros t w [Hw _]; rewrite set_files_intact; by split; left|]. intros w [Hw Hm]. rewrite Hw.
    unfold journaled. destruct (record_cases m d0) as [[d' E]|[e E]]; rewrite E; cbn; [right; by exists m|by left]. }
  intros r. apply keeps_bind; [apply Hj; intros P; apply Hmw|]. intros _. apply keeps_bind; [apply Hj; intros P; apply live_publish_manifest|]. intros _.
  apply keeps_bind; [apply Hj; intros P; apply live_rotate|]. intros _. keeps.
Qed.

Lemma live_backup path keep actor role rid : audit = mkAudit actor role rid →
  triple (λ w, w.(live) = d0) (BackupWithRetention path dir keep minAge now actor role rid) (λ _, journaled) journaled.
Proof.
  intros Ha. assert (Hs : ∀ w, w.(live) = d0 → journaled w) by (intros w Hw; by left). unfold BackupWithRetention, BackupAmong.
  eapply yields_bind; [apply yields_unless|done|by auto|]. intros ? _.
  eapply yields_bind; [apply yields_unless|done|by auto|]. intros ? _.
  eapply yields_bind; [by apply yields_keeps, keeps_prefixed, keeps_mkdir_all|done|by auto|]. intros _ _.
  eapply yields_bind; [by apply yields_keeps, keeps_cleanup|done|by auto|]. intros _ _.
  assert (Hmw : ∀ i, keeps (λ w, w.(live) = d0) (meanwhile (undisturbed i))) by (intros i; by apply keeps_meanwhile).
  eapply yields_bind; [apply yields_keeps, Hmw|done|by auto|]. intros _ _.
  eapply yields_bind; [apply yields_keeps; keeps|done|by auto|]. intros [m|] _; [by apply triple_ret|].
  unfold openBackupConnection. eapply yields_bind; [apply yields_keeps; keeps|done|by auto|]. intros _ _.
  eapply yields_bind; [apply yields_keeps, Hmw|done|by auto|]. intros _ _.
  do 2 (eapply yields_bind; [apply yields_keeps; keeps|done|by auto|]; intros _ _).
  cbv zeta. rewrite <-Ha. apply live_make_backup.
Qed.
End steps.
End published.
