(* ===== verification/ArtifactFacts.v ===== *)
(** What [BackupArtifact] finds, when it succeeds under any faults and when it must succeed. *)
From S2P Require Import Prelude Utf8 Json JsonText Strconv GoTime Sha256 JsonDecode Indent Text Errors Values Db Model Events Mutations Verify Disk DiskLogic Artifacts Backup BackupNames BackupFacts Publication.
Local Open Scope Z_scope.

(** The path of the artifact is the name in the directory, for a manifest too. *)
Lemma artifact_path dir name : wants_manifest name = true →
  path_join dir (database_name name) +:+ ".manifest.json" = path_join dir name.
Proof.
  unfold database_name. intros Hw. rewrite Hw. apply has_suffix_spec in Hw as [a ->].
  change (a +:+ ".db.manifest.json") with (a +:+ (".db" +:+ ".manifest.json")). rewrite <-app_str_assoc, trim_suffix_app.
  unfold path_join. by rewrite !app_str_assoc.
Qed.

Lemma contains_any_mem c s set : contains_any s set = false → str_mem c set = true → str_mem c s = false.
Proof.
  induction s as [|a s IH]; [done|]. cbn. intros [Ha Hs]%orb_false_iff Hc. rewrite IH, orb_false_r by done.
  apply Ascii.eqb_neq. intros ->. congruence.
Qed.

Lemma artifact_no_slash name : artifact_name name = true → str_mem "/" name = false.
Proof.
  unfold artifact_name, artifact_chars. intros Hn. bool_hyps. by apply (contains_any_mem _ _ (String "/" (String backslash ""))).
Qed.

Lemma artifact_valid name : artifact_name name = true → valid_utf8 name = true.
Proof.
  unfold artifact_name, artifact_chars. intros [[[_ Hr]%andb_true_iff _]%andb_true_iff _]%andb_true_iff. apply runes_small_valid.
  rewrite forallb_Forall in Hr. eapply Forall_impl; [exact Hr|]. cbn beta. intros r. unfold artifact_rune.
  change (runes "._-") with [46; 95; 45]. cbn [existsb]. rewrite !orb_true_iff, !andb_true_iff, !Z.leb_le, !Z.eqb_eq. lia.
Qed.

Lemma artifact_prefix name : artifact_name name = true → has_prefix name "lazarus-" = true.
Proof.
  unfold artifact_name. intros [[_ Hp]%andb_true_iff _]%andb_true_iff. unfold database_name in *. destruct (wants_manifest name) eqn:Hw; [|done].
  apply has_suffix_spec in Hw as [a ->]. revert Hp. change (a +:+ ".db.manifest.json") with (a +:+ (".db" +:+ ".manifest.json")).
  rewrite <-app_str_assoc, trim_suffix_app. intros Hp. by apply has_prefix_more.
Qed.

Section facts.
Context `{SQLite} `{Engine}.

(** A published pair: what the artifact of that name is in a disk. *)
Record artifact (d : disk) (dir name path : string) (m : BackupManifest) : Prop := mkArtifact {
  ar_name : artifact_name name = true;
  ar_path : path = path_join dir name;
  ar_pair : ∃ c t text t', d !! path_join dir (database_name name) = Some (Regular c t)
    ∧ d !! (path_join dir (database_name name) +:+ ".manifest.json") = Some (Regular text t')
    ∧ read_manifest text = Some m ∧ len text < manifest_limit ∧ m.(B_Filename) = database_name name
    ∧ content_matches c m = true ∧ c ≠ "" ∧ ∃ v, verify_content c = Ok v
}.

Section fixed.
Context (w0 : world).
Let here (w : world) : Prop := w = w0.

Lemma yields_look {A} (f : world → result error A) : yields here (look f) (λ a, f w0 = Ok a).
Proof. apply triple_look. intros w ->. by split_and!. Qed.

Lemma yields_attempt {A} (m : io A) φ : yields here m φ → yields here (attempt m) (λ r, ∀ a, r = Ok a → φ a).
Proof. intros Hm. apply triple_attempt. eapply triple_weaken; [exact Hm|done| |done]. intros r w [Hw Hr]. split; [done|]. by intros ? [= <-]. Qed.

Lemma yields_throw {A} e φ : yields (A:=A) here (throw e) φ.
Proof. apply triple_throw. intros w Hw. split; [done|]. by intros a [=]. Qed.

Lemma yields_regular p : yields here (validateRegularFile p) (λ _, ∃ c t, files w0 !! p = Some (Regular c t)).
Proof.
  unfold validateRegularFile. eapply yields_then; [apply yields_attempt, yields_look|]. intros [e|e] He; [|apply yields_throw].
  specialize (He e eq_refl). unfold lookup_entry in He. destruct (files w0 !! p) as [e'|]; [|discriminate]. injection He as ->.
  eapply triple_weaken; [apply (yields_unless here)|done| |done]. intros r w [Hw Hr]. split; [done|]. intros a Ha. specialize (Hr a Ha).
  destruct e; try discriminate Hr. by do 2 eexists.
Qed.

Lemma yields_manifest p text t : files w0 !! p = Some (Regular text t) →
  yields here (readBackupManifest p) (λ m, read_manifest text = Some m ∧ len text < manifest_limit).
Proof.
  intros Hp. unfold readBackupManifest. eapply yields_then; [apply yields_attempt, (triple_read here p text t); by intros w ->|].
  intros [s|e] Hs; [|apply yields_throw]. rewrite (Hs s eq_refl). destruct (Z.leb_spec manifest_limit (len text)); [apply yields_throw|].
  destruct (read_manifest text) as [m|]; [|apply yields_throw]. by apply yields_ret.
Qed.

Lemma yields_artifact dir name : yields here (BackupArtifact dir name) (λ r, artifact w0.(files) dir name r.1 r.2).
Proof.
  unfold BackupArtifact. destruct (artifact_name name) eqn:Hn; [cbn [negb]|apply yields_throw]. cbv zeta.
  eapply yields_then; [apply yields_regular|]. intros ? (text & t' & Hm).
  eapply yields_then; [by apply (yields_manifest _ text t')|]. intros m [Hr Hl].
  eapply yields_then; [apply (yields_unless here)|]. intros ? Hf%String.eqb_eq.
  eapply yields_then; [apply yields_regular|]. intros ? (c & t & Hc).
  eapply (yields_then _ _ _ (λ _, content_matches c m = true)).
  { unfold validateBackupDigest. eapply yields_then; [apply (triple_read here _ c t); by intros w ->|]. intros s ->. apply (yields_unless here). }
  intros ? Hd. eapply yields_then; [apply yields_prefixed, (yields_VerifyPath here _ c t); by intros w ->|]. intros v [Hv Hne].
  eapply yields_then; [apply (yields_unless here)|]. intros ? _. apply yields_ret. constructor; cbn.
  - done.
  - destruct (wants_manifest name) eqn:Hw; [by apply artifact_path|]. unfold database_name. by rewrite Hw.
  - exists c, t, text, t'. split_and!; try done. by exists v.
Qed.
End fixed.

(** * The backup of an earlier request *)

(** The database of the manifest is on the disk with that manifest, its audit flag apart, and is valid. *)
Definition stored (dir : string) (d : disk) (m : BackupManifest) : Prop := ∃ m0 c t text t' v,
  d !! path_join dir m.(B_Filename) = Some (Regular c t) ∧ d !! (path_join dir m.(B_Filename) +:+ ".manifest.json") = Some (Regular text t')
  ∧ read_manifest text = Some m0 ∧ with_audit m0 true = with_audit m true ∧ content_matches c m = true ∧ verify_content c = Ok v.

Lemma yields_request w0 dir rid actor :
  yields (λ w, w = w0) (backupForRequest dir rid actor) (λ o, ∀ m, o = Some m → stored dir w0.(files) m).
Proof.
  unfold backupForRequest. case_if; [by apply yields_ret|]. eapply yields_then; [apply yields_look|]. intros [row|] _; [|by apply yields_ret].
  destruct (read_manifest _) as [m|]; [|apply yields_throw]. eapply yields_then; [apply (yields_unless (λ w, w = w0))|]. intros ? _.
  eapply yields_then; [apply (yields_unless (λ w, w = w0))|]. intros ? _. eapply yields_then; [apply yields_attempt, yields_artifact|].
  intros [[p v]|e] Hr; apply yields_ret; intros m' [= <-]. destruct (Hr _ eq_refl) as [_ _ (c & t & text & t' & Hc & Hm & Ht & _ & Hf & Hd & _ & v' & Hv)].
  cbn in *. rewrite <-Hf in Hc, Hm. exists v, c, t, text, t', v'. by split_and!.
Qed.

Lemma triple_pointwise {A} (P S : world → Prop) (m : io A) (Q : result error A → world → Prop) :
  (∀ w0, P w0 → triple (λ w, w = w0) m Q S) → triple P m Q S.
Proof. intros Hm fs w Hw. by apply (Hm w Hw). Qed.

(** * Without faults *)

(** The computation gives this value and leaves this world, from no faults and to none. *)
Definition runs {A} (m : io A) (w : world) (a : A) (w' : world) : Prop := m [] w = (Some (Ok a), [], w').

Lemma runs_ret {A} (a : A) w : runs (mret a) w a w.
Proof. done. Qed.

Lemma runs_bind {A B} (m : io A) (f : A → io B) w a w' b w'' : runs m w a w' → runs (f a) w' b w'' → runs (m ≫= f) w b w''.
Proof. unfold runs, mbind, io_bind. by intros ->. Qed.

Lemma runs_attempt {A} (m : io A) w a w' : runs m w a w' → runs (attempt m) w (Ok a) w'.
Proof. unfold runs, attempt. by intros ->. Qed.

Lemma runs_prefixed {A} message (m : io A) w a w' : runs m w a w' → runs (prefixed message m) w a w'.
Proof. intros Hm. unfold prefixed. eapply runs_bind; [by apply runs_attempt|done]. Qed.

Lemma runs_unless b e w : b = true → runs (unless b e) w () w.
Proof. by intros ->. Qed.

Lemma runs_look {A} (f : world → result error A) w a : f w = Ok a → runs (look f) w a w.
Proof. unfold runs, look, operate. by intros ->. Qed.

Lemma runs_read p c t w : files w !! p = Some (Regular c t) → runs (read_file p) w c w.
Proof. intros Hp. apply runs_look. unfold lookup_entry, follow. rewrite Hp. cbn. by rewrite Hp. Qed.

Lemma runs_stat p c t w : files w !! p = Some (Regular c t) → runs (stat p) w (Regular c t) w.
Proof. intros Hp. apply runs_look. unfold lookup_entry, follow. rewrite Hp. cbn. by rewrite Hp. Qed.

Lemma runs_regular p c t w : files w !! p = Some (Regular c t) → runs (validateRegularFile p) w () w.
Proof.
  intros Hp. unfold validateRegularFile. eapply (runs_bind _ _ _ (Ok (Regular c t))); [apply runs_attempt, runs_look|by apply runs_unless].
  unfold lookup_entry. by rewrite Hp.
Qed.

Lemma runs_verify p c t v w : files w !! p = Some (Regular c t) → c ≠ "" → verify_content c = Ok v → runs (VerifyPath p) w v w.
Proof.
  intros Hp Hc Hv. unfold VerifyPath. eapply runs_bind; [by eapply runs_prefixed, runs_stat|]. eapply runs_bind; [apply runs_unless|].
  - cbn [is_regular_file entry_size]. by rewrite (proj2 (Z.eqb_neq _ _)) by by rewrite len_zero.
  - eapply runs_bind; [by eapply runs_read|]. by rewrite Hv.
Qed.

Lemma artifact_found dir name p m w : artifact w.(files) dir name p m → runs (BackupArtifact dir name) w (p, m) w.
Proof.
  intros [Hn Hp (c & t & text & t' & Hc & Hm & Hr & Hl & Hf & Hd & Hne & v & Hv)]. unfold BackupArtifact. rewrite Hn. cbn [negb]. cbv zeta.
  eapply runs_bind; [by eapply runs_regular|]. eapply (runs_bind _ _ _ m).
  { unfold readBackupManifest. eapply runs_bind; [by eapply runs_attempt, runs_read|]. cbn. by rewrite (proj2 (Z.leb_gt _ _) Hl), Hr. }
  eapply runs_bind; [apply runs_unless; by rewrite Hf, String.eqb_refl|]. eapply runs_bind; [by eapply runs_regular|].
  eapply runs_bind; [unfold validateBackupDigest; eapply runs_bind; [by eapply runs_read|by apply runs_unless]|].
  eapply runs_bind; [by eapply runs_prefixed, runs_verify|]. pose proof Hv as (_ & _ & _ & Ha & _)%verify_content_ok.
  eapply runs_bind; [apply runs_unless; by rewrite Ha|]. subst p. destruct (wants_manifest name) eqn:Hw.
  - by rewrite artifact_path.
  - unfold database_name. by rewrite Hw.
Qed.
End facts.
