(* ===== verification/BackupPromises.v ===== *)
(** What backups promise: they touch nothing else, a published pair is always valid whatever fails and
    wherever the process stops, a backup that was reported made is on the disk, rotation removes
    exactly the oldest, and an artifact that is handed out is a checked pair. *)
From S2P Require Import Prelude Utf8 Json JsonText Strconv GoTime Sha256 JsonDecode Indent Text Errors Values Db Model Events Mutations Verify Invariant System Effects Scenario Disk DiskLogic Artifacts Backup BackupNames BackupFacts Publication ArtifactFacts.
Local Open Scope Z_scope.

(** * Rotation *)

Section rotation.
Context `{SQLite} `{Engine} (dir : string) (keep : nat) (minAge now : Z) (w0 : world).

(** The backups a rotation may remove: all but the [keep] greatest names. *)
Definition rotated_out : list string := drop keep (backups_of (listing dir w0.(files))).

Lemma rotated_out_name n : n ∈ rotated_out → backup_name n.
Proof.
  intros Hn. assert (Hn' : n ∈ backups_of (listing dir w0.(files))).
  { rewrite <-(take_drop keep (backups_of _)). apply elem_of_app. by right. }
  by apply backups_of_spec in Hn' as (? & ? & _).
Qed.

(** An invariant of the removals is kept by the rotation, and one of their outcomes holds after it. *)
Lemma rotation_keeps (I : world → Prop) : (∀ w, w = w0 → I w) →
  (∀ n, n ∈ rotated_out → keeps I (rotate_one dir minAge now n)) →
  triple (λ w, w = w0) (rotateBackupsWithAge dir keep minAge now) (λ _, I) I.
Proof.
  intros H0' Hf. unfold rotateBackupsWithAge. eapply (yields_bind _ _ _ (λ l, l = listing dir w0.(files))); [|by auto..|].
  - apply triple_look. intros w ->. split_and!; try done. unfold lookup_entry, of_option. destruct (files w0 !! dir); [|done]. cbn.
    destruct (is_dir _); [|done]. by intros ? [= <-].
  - intros l ->. assert (Hk : keeps I (if (length (backups_of (listing dir (files w0))) <=? keep)%nat then mret ()
      else each (rotate_one dir minAge now) rotated_out ;; sync_dir dir)).
    { case_if; [keeps|]. apply keeps_bind; [|keeps]. by apply keeps_each. }
    by eapply triple_weaken; [exact Hk|exact H0'|..].
Qed.

Lemma removed_present P message path : triple P (remove_present message path) (λ r w, r = Ok () → w.(files) !! path = None) (λ _, True).
Proof.
  unfold remove_present. apply (triple_bind _ _ _ (λ r w, match r with Ok _ => w.(files) !! path = None | Err e => is_not_exist e = true → w.(files) !! path = None end)).
  - apply triple_attempt, triple_operate; [by intros t w _; split; [intros [=]|]|]. intros w _. destruct (files w !! path) as [e|] eqn:E; [|by intros _].
    case_if; [by intros [=]|]. apply lookup_delete_eq.
  - intros [u|e]; [by apply triple_ret|]. destruct (is_not_exist e); [by apply triple_ret; auto|]. by apply triple_throw.
Qed.

Lemma delete_absent p q : keeps (λ w, w.(files) !! p = None) (remove q).
Proof. apply keeps_remove. intros w Hw. cbn. destruct (decide (q = p)) as [->|]; [apply lookup_delete_eq|by rewrite lookup_delete_ne]. Qed.

Lemma rotate_one_absent p n : keeps (λ w, w.(files) !! p = None) (rotate_one dir minAge now n).
Proof.
  apply keeps_rotate_one; intros w Hw; cbn; match goal with |- delete ?q _ !! _ = _ => destruct (decide (q = p)) as [->|] end;
    first [apply lookup_delete_eq|by rewrite lookup_delete_ne].
Qed.

Lemma rotate_one_removes P n : minAge ≤ 0 →
  triple P (rotate_one dir minAge now n) (λ r w, r = Ok () → w.(files) !! path_join dir n = None) (λ _, True).
Proof.
  intros Hm. unfold rotate_one. rewrite (proj2 (Z.ltb_ge _ _) Hm). cbv zeta.
  eapply (yields_bind _ _ _ (λ b, b = true)); [by apply yields_ret|done|by intros e w _ [=]|]. intros ? ->.
  apply (triple_bind _ _ _ (λ _ w, w.(files) !! path_join dir n = None)).
  - eapply triple_weaken; [apply (removed_present P)|done| |done]. intros [[]|e] w Hr; [by apply Hr|by intros [=]].
  - intros _. apply (triple_bind _ _ _ (λ _ w, w.(files) !! path_join dir n = None)); [|intros _; by apply triple_ret].
    apply triple_attempt. eapply triple_weaken; [apply (delete_absent (path_join dir n))|done|by intros r w Hw|done].
Qed.

Lemma each_removes l : minAge ≤ 0 → triple (λ _, True) (each (rotate_one dir minAge now) l)
  (λ r w, r = Ok () → ∀ n, n ∈ l → w.(files) !! path_join dir n = None) (λ _, True).
Proof.
  intros Hm. induction l as [|a l IH]; cbn [each]; [apply triple_ret; intros w _ _ n Hn; by apply elem_of_nil in Hn|].
  apply (triple_bind _ _ _ (λ _ w, w.(files) !! path_join dir a = None)).
  - eapply triple_weaken; [by apply (rotate_one_removes (λ _, True))|done| |done]. intros [[]|e] w Hr; [by apply Hr|by intros [=]].
  - intros _. assert (Hk : keeps (λ w, w.(files) !! path_join dir a = None) (each (rotate_one dir minAge now) l)).
    { apply keeps_each. intros n _. apply rotate_one_absent. }
    eapply triple_weaken; [apply (triple_and _ _ _ _ _ _ _ IH Hk)|by intros w Hw| |done].
    intros r w [Hr Ha] Hok n [->|Hn]%elem_of_cons; [done|by apply Hr].
Qed.

Lemma rotation_removes : minAge ≤ 0 → triple (λ w, w = w0) (rotateBackupsWithAge dir keep minAge now)
  (λ r w, r = Ok () → ∀ n, n ∈ rotated_out → w.(files) !! path_join dir n = None) (λ _, True).
Proof.
  intros Hm. unfold rotateBackupsWithAge. eapply (yields_bind _ _ _ (λ l, l = listing dir w0.(files))); [|done|by intros e w _ [=]|].
  - apply triple_look. intros w ->. split_and!; try done. unfold lookup_entry, of_option. destruct (files w0 !! dir); [|done]. cbn.
    destruct (is_dir _); [|done]. by intros ? [= <-].
  - intros l ->. unfold rotated_out. case_if.
    + apply triple_ret. intros w _ _ n Hn. apply Nat.leb_le in Heqb. rewrite drop_ge in Hn by done. by apply elem_of_nil in Hn.
    + apply (triple_bind _ _ _ (λ _ w, ∀ n, n ∈ rotated_out → w.(files) !! path_join dir n = None)).
      * eapply triple_weaken; [by apply each_removes|done| |done]. intros [[]|e] w Hr; [by apply Hr|by intros [=]].
      * intros _. eapply triple_weaken; [apply (keeps_open_path (λ w, ∀ n, n ∈ rotated_out → w.(files) !! path_join dir n = None))|done|by intros r w Hw|done].
Qed.
End rotation.

(** * The whole call *)

Section call.
Context `{SQLite} `{Engine} `{!EngineLaws}.

Lemma keeps_backup others (I : world → Prop) path dir keep minAge now actor role rid :
  (∀ w, files w !! dir = None → I w → I (set_files <[dir := Directory]> w)) →
  (∀ n t w, has_prefix n "lazarus-" = true → I w → I (set_files (delete (path_join dir n +:+ t)) w)) →
  (∀ n t c w, has_prefix n "lazarus-" = true → I w → I (set_files (put (path_join dir n +:+ t) c now) w)) →
  (∀ n t n' t' w, has_prefix n "lazarus-" = true → has_prefix n' "lazarus-" = true → I w →
    I (set_files (rename_entry (path_join dir n +:+ t) (path_join dir n' +:+ t')) w)) →
  (∀ m w, I w → I (mkWorld w.(files) (RecordBackupCreated m (mkAudit actor role rid) w.(live)).2)) →
  (∀ i w, I w → I (mkWorld w.(files) (others i w.(live)))) →
  keeps I (BackupAmong others path dir keep minAge now actor role rid).
Proof.
  intros Hdir Hdel Hput Hren Hlive Hothers. unfold BackupAmong, openBackupConnection. do 2 (io_bind; [keeps|]).
  io_bind; [by apply keeps_prefixed, keeps_mkdir_all|]. io_bind; [by apply keeps_cleanup|].
  io_bind; [apply keeps_meanwhile; auto|]. io_bind; [keeps|].
  match goal with |- keeps _ (match ?o with _ => _ end) => destruct o end; [keeps|].
  io_bind; [keeps|]. io_bind; [apply keeps_meanwhile; auto|]. do 2 (io_bind; [keeps|]). apply keeps_make_backup; auto using base_prefix.
Qed.

(** The live database at the moment of the copy. *)
Definition copied_live (others : moment → db → db) (d : db) : db := others Copying (others Checking (others Looking d)).

(** The whole call, from a disk where the name is free, among the writes of others. *)
Lemma triple_backup others track path dir keep minAge now actor role rid d :
  triple (λ w, before dir now minAge track w ∧ w.(live) = d) (BackupAmong others path dir keep minAge now actor role rid)
  (λ r w, match r with
    | Ok m => made dir now minAge track (copied_live others d) others (mkAudit actor role rid) m w
              ∨ before dir now minAge track w ∧ w.(live) = others Looking d ∧ stored dir w.(files) m
    | Err _ => published dir w.(files) end) (λ w, published dir w.(files)).
Proof.
  set (P := λ d' w, before dir now minAge track w ∧ w.(live) = d').
  assert (Hsafe : ∀ d' w, P d' w → published dir w.(files)) by (intros d' w [Hw _]; by apply before_safe in Hw).
  assert (Hdel : ∀ d' p w, P d' w → P d' (set_files (delete p) w)) by (intros d' p w [Hw Hl]; split; [by apply before_delete|done]).
  assert (Hmw : ∀ d' i, triple (P d') (meanwhile (others i)) (λ _, P (others i d')) (P (others i d'))).
  { intros d' i. apply triple_meanwhile. intros w [Hw <-]. by split. }
  fold (P d). unfold BackupAmong.
  eapply yields_bind; [apply yields_unless|by apply Hsafe|by eauto|]. intros ? _.
  eapply yields_bind; [apply yields_unless|by apply Hsafe|by eauto|]. intros ? _.
  eapply yields_bind; [apply yields_keeps, keeps_prefixed, keeps_mkdir_all|by apply Hsafe|by eauto|].
  { intros w Hd [Hw Hl]. split; [by apply before_dir|done]. }
  intros _ _. eapply yields_bind; [apply yields_keeps, keeps_cleanup; intros; by apply Hdel|by apply Hsafe|by eauto|]. intros _ _.
  apply (triple_bind _ _ _ (λ _, P (others Looking d))).
  { eapply triple_weaken; [apply Hmw|done| |by apply Hsafe]. intros [[]|e] w Hw; [done|by apply Hsafe in Hw]. }
  intros _. apply triple_pointwise. intros w0 Hw0. eapply yields_bind; [apply yields_request|by intros w ->; eauto|by intros e w ->; eauto|].
  intros [m|] Hm; [apply triple_ret; intros w ->; right; destruct Hw0; split_and!; auto|].
  eapply (triple_weaken _ (P (others Looking d))); [|by intros w ->|by intros r w Hw; exact Hw|by intros w Hw; exact Hw]. clear w0 Hw0 Hm.
  unfold openBackupConnection. eapply yields_bind; [apply yields_keeps; keeps|by apply Hsafe|by eauto|]. intros _ _.
  apply (triple_bind _ _ _ (λ _, P (others Checking (others Looking d)))).
  { eapply triple_weaken; [apply Hmw|done| |by apply Hsafe]. intros [[]|e] w Hw; [done|by apply Hsafe in Hw]. }
  intros _. do 2 (eapply yields_bind; [apply yields_keeps; keeps|by apply Hsafe|by eauto|]; intros _ _). cbv zeta.
  eapply triple_weaken; [apply (triple_make_backup dir now minAge track (copied_live others d) others (mkAudit actor role rid) keep)| | |done].
  - intros w [Hw Hl]. split; [done|]. by rewrite Hl.
  - intros [m|e] w Hw; [by left|done].
Qed.

(** A backup touches nothing but its own names.  Whatever fails and wherever the process stops,
    every file outside of the directory's [lazarus-] names is as it was (the directory itself may
    have been created), and the live database is as it was or has exactly the one event of this
    backup, whose manifest describes a checked copy of the database. *)
Theorem backup_confined path dir keep minAge now actor role rid fs w :
  let w' := world_after (BackupWithRetention path dir keep minAge now actor role rid fs w) in
  (∀ p, backup_area dir p = false → w'.(files) !! p = w.(files) !! p ∨ p = dir ∧ w.(files) !! p = None)
  ∧ (w'.(live) = w.(live) ∨ ∃ m, describes now w.(live) m ∧ RecordBackupCreated m (mkAudit actor role rid) w.(live) = (Ok (), w'.(live))).
Proof.
  cbv zeta. split.
  - assert (Hk : keeps (confined dir w.(files)) (BackupWithRetention path dir keep minAge now actor role rid)).
    { apply (keeps_backup undisturbed); auto with io. intros w1 Hd Hc p Hp. cbn. destruct (decide (p = dir)) as [->|Hne]; [right|by rewrite lookup_insert_ne; [apply Hc|]].
      split; [done|]. destruct (Hc dir Hp) as [E|[_ E]]; congruence. }
    specialize (Hk fs w ltac:(by left)). unfold world_after. by destruct (BackupWithRetention _ _ _ _ _ _ _ _ fs w) as [[[r|] fs'] w'].
  - pose proof (live_backup dir now minAge (w.(live)) (mkAudit actor role rid) path keep actor role rid eq_refl fs w eq_refl) as Hk.
    unfold world_after. by destruct (BackupWithRetention _ _ _ _ _ _ _ _ fs w) as [[[r|] fs'] w'].
Qed.

(** C9.  A published backup is always valid.  If every database of the directory that has a manifest
    matches it in name, size and digest and passes every check, then so it is after a backup, whatever
    other requests write meanwhile, whatever fails and wherever the process stops.  The backup's own name
    is one of this nanosecond; no manifest has it yet. *)
Theorem published_always_valid others path dir keep minAge now actor role rid fs w : published dir w.(files) →
  w.(files) !! (path_join dir (backup_base now) +:+ ".manifest.json") = None →
  published dir (world_after (BackupAmong others path dir keep minAge now actor role rid fs w)).(files).
Proof.
  intros Hp Hm. pose proof (triple_backup others false path dir keep minAge now actor role rid w.(live) fs w) as Hk. unfold world_after.
  destruct (BackupAmong _ _ _ _ _ _ _ _ _ fs w) as [[[[m|e]|] fs'] w']; cbn; (apply Hk || (destruct Hk as [Hk|[Hk _]]; [..|by apply before_safe in Hk]));
    try by split; [split_and!|].
  by destruct Hk as (_ & _ & text & _ & [Hs _]).
Qed.


(** C25.  A rotation removes old backups and nothing else, under any faults: a path that is neither one
    of the backups beyond the [keep] greatest names nor its manifest is as it was; a backup younger than
    the minimum age stays with its manifest; and when the rotation succeeds without a minimum age, every
    backup beyond those kept is gone. *)
Theorem rotation_exact dir keep minAge now fs w :
  let r := rotateBackupsWithAge dir keep minAge now fs w in
  let old := drop keep (backups_of (listing dir w.(files))) in
  (∀ p, (∀ n, n ∈ old → p ≠ path_join dir n ∧ p ≠ path_join dir n +:+ ".manifest.json") → (world_after r).(files) !! p = w.(files) !! p)
  ∧ (∀ n c t, backup_name n → 0 < minAge → age now t < minAge → w.(files) !! path_join dir n = Some (Regular c t) →
     ∀ p, p = path_join dir n ∨ p = path_join dir n +:+ ".manifest.json" → (world_after r).(files) !! p = w.(files) !! p)
  ∧ (minAge ≤ 0 → outcome r = Some (Ok ()) → ∀ n, n ∈ old → (world_after r).(files) !! path_join dir n = None).
Proof.
  cbv zeta. split_and!.
  - intros p Hp. assert (Hk : triple (λ w1, w1 = w) (rotateBackupsWithAge dir keep minAge now)
      (λ _ w1, w1.(files) !! p = w.(files) !! p) (λ w1, w1.(files) !! p = w.(files) !! p)).
    { apply (rotation_keeps dir keep minAge now w (λ w1, w1.(files) !! p = w.(files) !! p)); [by intros w1 ->|]. intros n Hn.
      destruct (Hp n Hn) as [H2 H3]. by apply keeps_rotate_one; intros w1 Hw1; cbn; rewrite lookup_delete_ne. }
    specialize (Hk fs w eq_refl). unfold world_after. by destruct (rotateBackupsWithAge _ _ _ _ fs w) as [[[r|] fs'] w'].
  - intros n c t [Hpre Hsuf] Hm Ha Hf.
    set (J := λ w1, w1.(files) !! path_join dir n = Some (Regular c t) ∧
      w1.(files) !! (path_join dir n +:+ ".manifest.json") = w.(files) !! (path_join dir n +:+ ".manifest.json")).
    assert (Hk : triple (λ w1, w1 = w) (rotateBackupsWithAge dir keep minAge now) (λ _, J) J).
    { apply (rotation_keeps dir keep minAge now w J); [by intros w1 ->|]. intros n' Hn'.
      destruct (decide (n' = n)) as [->|Hne]; [by apply (rotate_young minAge J dir n now c t); [intros w1 []|..]|].
      apply (rotated_out_name dir keep w) in Hn' as [_ Hs']. apply keeps_rotate_one; intros w1 [H2 H3]; split; cbn; rewrite lookup_delete_ne; try done;
        intros E.
      - by apply path_join_inj in E.
      - by apply db_not_manifest in E.
      - symmetry in E. by apply db_not_manifest in E.
      - by apply app_str_inj_r, path_join_inj in E. }
    specialize (Hk fs w eq_refl). unfold world_after. destruct (rotateBackupsWithAge _ _ _ _ fs w) as [[[r|] fs'] w']; destruct Hk as [H2 H3];
      intros p [->| ->]; cbn; congruence.
  - intros Hm Ho n Hn. pose proof (rotation_removes dir keep minAge now w Hm fs w eq_refl) as Hk. revert Ho. unfold outcome, world_after.
    destruct (rotateBackupsWithAge _ _ _ _ fs w) as [[[r|] fs'] w']; [|discriminate]. cbn. intros [= ->]. by apply Hk.
Qed.

(** C26.  What [BackupArtifact] hands out, under any faults, lies directly in the backup directory under
    a name of its own: the database or the manifest of a pair of regular files, whose manifest names the
    database and states its size and digest, and whose database passes every check.  It changes nothing. *)
Theorem artifact_is_checked dir name fs w path m : let r := BackupArtifact dir name fs w in
  outcome r = Some (Ok (path, m)) → world_after r = w ∧ path = path_join dir name ∧ str_mem "/" name = false
  ∧ has_prefix name "lazarus-" = true ∧ artifact w.(files) dir name path m.
Proof.
  cbv zeta. pose proof (yields_artifact w dir name fs w eq_refl) as Hk. unfold outcome, world_after.
  destruct (BackupArtifact dir name fs w) as [[r fs'] w']. cbn. intros ->. destruct Hk as [-> Ha]. specialize (Ha _ eq_refl). cbn in Ha.
  pose proof Ha as [Hn Hp _]. split_and!; try done.
  - by apply artifact_no_slash.
  - by apply artifact_prefix.
Qed.

(** C28.  Without faults the check is exact: an artifact is handed out if and only if its pair is
    published and valid. *)
Theorem artifact_found_iff dir name w path m :
  outcome (BackupArtifact dir name [] w) = Some (Ok (path, m)) ↔ artifact w.(files) dir name path m.
Proof.
  split.
  - pose proof (yields_artifact w dir name [] w eq_refl) as Hk. unfold outcome.
    destruct (BackupArtifact dir name [] w) as [[r fs'] w']. cbn. intros ->. destruct Hk as [-> Ha]. by apply (Ha (path, m)).
  - intros Ha. by rewrite (artifact_found dir name path m w Ha).
Qed.
End call.

(** * Instances *)

(** An engine on which every file opens as one finished database. *)
#[export] Instance engine : Engine := {|
  runtime_version := "3.51.3";
  open_file _ := Ok completed;
  integrity_check _ := Ok "ok";
  foreign_keys_hold _ := Ok true;
  vacuum _ := "image";
  live_integrity _ := Ok "ok";
  live_foreign_keys _ := Ok true
|}.

#[export] Instance engine_laws : EngineLaws.
Proof. constructor; [reflexivity|]. intros d. by vm_compute. Defined.

Definition backup_dir : string := "/backups".
Definition empty_disk : world := mkWorld {[ backup_dir := Directory ]} completed.
Definition one_day : Z := 86400 * nanos.
Definition first_backup : option (result error BackupManifest) * list fault * world :=
  BackupWithRetention "/data/lazarus.db" backup_dir 7 one_day clock "alice" "admin" "backup-1" [] empty_disk.

Lemma empty_published : published backup_dir empty_disk.(files).
Proof.
  intros n c t c' t' _ Hc _. cbn in Hc. apply lookup_singleton_Some in Hc as [E _]. symmetry in E. by apply dir_not_entry' in E.
Qed.

Lemma first_backup_made : ∃ m, outcome first_backup = Some (Ok m).
Proof.
  assert (E : match outcome first_backup with Some (Ok _) => true | _ => false end = true) by (vm_compute; reflexivity).
  destruct (outcome first_backup) as [[m|e]|]; [by exists m|discriminate E..].
Qed.

(** Other requests that write while a backup is made: a maintenance is created between the copy and the
    event, another one after it. *)
Definition busy (i : moment) (d : db) : db :=
  match i with
  | Recording => run_all [op_create "m2"] d
  | Finishing => run_all [op_create "m3"] d
  | _ => d
  end.

Definition busy_backup : option (result error BackupManifest) * list fault * world :=
  BackupAmong busy "/data/lazarus.db" backup_dir 7 one_day clock "alice" "admin" "backup-1" [] empty_disk.

Lemma busy_backup_made : ∃ m, outcome busy_backup = Some (Ok m).
Proof.
  assert (E : match outcome busy_backup with Some (Ok _) => true | _ => false end = true) by (vm_compute; reflexivity).
  destruct (outcome busy_backup) as [[m|e]|]; [by exists m|discriminate E..].
Qed.

(** The backup's event and both maintenances are in the journal. *)
Example busy_backup_journal :
  map e_type (drop (length completed.(journal)) (world_after busy_backup).(live).(journal)) =
  ["maintenance.created"; "backup.created"; "maintenance.created"].
Proof. vm_compute. reflexivity. Qed.

Lemma published_always_valid_witness : published backup_dir (world_after (BackupAmong busy "/data/lazarus.db" backup_dir 7 0 clock
  "alice" "admin" "backup-1" [Proceed; Fails ""; Proceed] empty_disk)).(files).
Proof. apply published_always_valid; [exact empty_published|vm_compute; reflexivity]. Defined.


(** With no minimum age and a clock that was set back, the backup that is reported is rotated away. *)
Definition later_name : string := backup_base (clock + one_day).
Definition later_disk : world := set_files (λ d, <[path_join backup_dir later_name := Regular "image" clock]>
  (<[path_join backup_dir later_name +:+ ".manifest.json" := Regular "{}" clock]> d)) empty_disk.
Definition set_back : option (result error BackupManifest) * list fault * world :=
  Backup "/data/lazarus.db" backup_dir 1 clock "alice" "admin" "backup-1" [] later_disk.

Example rotated_at_once : (B_Filename <$> match outcome set_back with Some (Ok m) => Some m | _ => None end) = Some (backup_base clock)
  ∧ (world_after set_back).(files) !! path_join backup_dir (backup_base clock) = None.
Proof. split; vm_compute; reflexivity. Qed.

Lemma artifact_is_checked_witness : ∃ path m, outcome (BackupArtifact backup_dir (backup_base clock) [] (world_after first_backup)) = Some (Ok (path, m))
  ∧ path = path_join backup_dir (backup_base clock).
Proof.
  assert (E : match outcome (BackupArtifact backup_dir (backup_base clock) [] (world_after first_backup)) with Some (Ok _) => true | _ => false end = true)
    by (vm_compute; reflexivity).
  destruct (outcome (BackupArtifact backup_dir (backup_base clock) [] (world_after first_backup))) as [[[path m]|e]|] eqn:Ha; [|discriminate E..].
  exists path, m. split; [reflexivity|]. apply (artifact_is_checked backup_dir (backup_base clock) [] (world_after first_backup) path m Ha).
Defined.

Lemma rotation_exact_witness : let r := rotateBackupsWithAge backup_dir 1 0 clock [] (world_after first_backup) in
  outcome r = Some (Ok ()) ∧ ∀ n, n ∈ drop 1 (backups_of (listing backup_dir (world_after first_backup).(files))) →
  (world_after r).(files) !! path_join backup_dir n = None.
Proof.
  cbv zeta. assert (E : outcome (rotateBackupsWithAge backup_dir 1 0 clock [] (world_after first_backup)) = Some (Ok ())) by (vm_compute; reflexivity).
  split; [exact E|]. apply (rotation_exact backup_dir 1 0 clock [] (world_after first_backup)); [lia|exact E].
Defined.
