(* ===== verification/Restore.v ===== *)
(** Restoring a backup: [restoreDatabase] of cmd/lazarus/main.go.

    The copy is made and checked under a temporary name in the directory of the database; the files
    it replaces are moved aside, and the copy takes the database's name.  [names] are the random
    names [os.CreateTemp] tries, [copied_at] the instant that stamps the copy, and [replaced_at] the
    one in the name of what is moved aside.  The text of a JSON decoding error is left out. *)
From S2P Require Import Prelude Utf8 Json JsonText Strconv GoTime Sha256 JsonDecode Text Errors Values Db Model Mutations Verify Disk Artifacts Backup.
Local Open Scope Z_scope.

(** What SQLite keeps beside a database, and the database itself. *)
Definition sidecars : list string := ["-wal"; "-shm"; "-journal"].
Definition suffixes : list string := "" :: sidecars.

Definition restore_prefix : string := ".lazarus-restore-".

(** Where the copy is made, for a random part of its name. *)
Definition restore_temp (database random : string) : string := temp_path (path_dir database) (restore_prefix +:+ random).

(** [<database>.rollback-<stamp>]. *)
Definition rollback_base (database : string) (replaced_at : Z) : string := database +:+ ".rollback-" +:+ backup_stamp replaced_at.

Fixpoint refuse_sidecars (backup : string) (l : list string) : io () :=
  match l with
  | [] => mret ()
  | suffix :: l' =>
    r ← attempt (stat (backup +:+ suffix));
    match r with
    | Ok _ => throw (EText ("backup must be a standalone SQLite file; found " +:+ path_base (backup +:+ suffix)))
    | Err e => if is_not_exist e then refuse_sidecars backup l' else throw e
    end
  end.

(** Whether any of the database's files exists; all that do must be regular. *)
Fixpoint destination_exists (database : string) (found : bool) (l : list string) : io bool :=
  match l with
  | [] => mret found
  | suffix :: l' =>
    r ← attempt (stat (database +:+ suffix));
    match r with
    | Ok info =>
      unless (is_regular_file info) (EText ("destination SQLite path " +:+ path_base (database +:+ suffix) +:+ " is not a regular file")) ;;
      destination_exists database true l'
    | Err e => if is_not_exist e then destination_exists database found l' else throw e
    end
  end.

(** Moves what was moved aside back, the last first; errors are dropped. *)
Definition move_back (preserved : list (string * string)) : io () :=
  each (λ p, attempt (rename p.2 p.1) ;; mret ()) (rev preserved).

(** Moves the database's files aside; the moves made, in order. *)
Fixpoint preserve (database rollback : string) (preserved : list (string * string)) (l : list string) : io (list (string * string)) :=
  match l with
  | [] => mret preserved
  | suffix :: l' =>
    let from := database +:+ suffix in
    let to := rollback +:+ suffix in
    r ← attempt (stat from);
    match r with
    | Ok _ =>
      moved ← attempt (rename from to);
      match moved with
      | Err e => move_back preserved ;; throw (EPrefixed ("preserve current SQLite file " +:+ path_base from) e)
      | Ok _ => preserve database rollback (preserved ++ [(from, to)]) l'
      end
    | Err e => if is_not_exist e then preserve database rollback preserved l' else throw e
    end
  end.

(** [syncDirectory]. *)
Definition syncDirectory (path : string) : io () := sync_dir path.

Definition mismatch : error := EText "backup does not match a valid manifest".

(** The manifest names the backup and says its checks passed. *)
Definition manifest_accepts (backup : string) (manifest : BackupManifest) : bool :=
  String.eqb (path_base backup) manifest.(B_Filename) && String.eqb manifest.(B_IntegrityCheck) "ok"
  && String.eqb manifest.(B_ForeignKeys) "ok" && String.eqb manifest.(B_Application) "ok".

Section restore.
Context `{SQLite} `{Engine}.

(** The copy of the backup under the temporary name, checked against the manifest and by the verifier. *)
Definition copy_backup (tmpPath backup : string) (manifest : BackupManifest) (copied_at : Z) : io () :=
  chmod tmpPath ;;
  open_path backup ;;
  sourceInfo ← stat backup;
  unless (is_regular_file sourceInfo) (EText "backup must be a regular file") ;;
  content ← read_file backup;
  write_file tmpPath content copied_at ;;
  close_file ;;
  unless (content_matches content manifest && (len content =? entry_size sourceInfo)) mismatch ;;
  sync_file tmpPath ;;
  close_file ;;
  verified ← prefixed "backup sqlite validation failed" (VerifyPath tmpPath);
  unless (String.eqb verified.(V_IntegrityCheck) "ok" && String.eqb verified.(V_ForeignKeys) "ok" && String.eqb verified.(V_ApplicationData) "ok")
    (EText "backup sqlite validation failed").

(** The copy takes the place of the database; the name of what was moved aside, empty for nothing. *)
Definition replace_database (database tmpPath : string) (destinationExists : bool) (replaced_at : Z) : io string :=
  let rollbackBase := if destinationExists then rollback_base database replaced_at else "" in
  preserved ← ((if destinationExists then preserve database rollbackBase [] suffixes else mret []) : io (list (string * string)));
  moved ← attempt (rename tmpPath database);
  match moved with
  | Err e => move_back preserved ;; throw e
  | Ok _ => prefixed "sync restore directory" (syncDirectory (path_dir database)) ;; mret rollbackBase
  end.

(** [restoreDatabase], with the name it reports on standard error. *)
Definition restoreDatabase (names : list string) (copied_at replaced_at : Z) (database backup manifestPath : string) (replace : bool) : io string :=
  manifestBytes ← read_file manifestPath;
  manifest ← of_result (of_option (EText "invalid manifest") (read_manifest manifestBytes));
  unless (manifest_accepts backup manifest) mismatch ;;
  refuse_sidecars backup sidecars ;;
  destinationExists ← destination_exists database false suffixes;
  unless (negb destinationExists || replace) (EText "destination SQLite files exist; pass --replace explicitly") ;;
  mkdir_all (path_dir database) ;;
  tmpPath ← create_temp (path_dir database) (map (append restore_prefix) names) copied_at;
  finally (copy_backup tmpPath backup manifest copied_at ;; replace_database database tmpPath destinationExists replaced_at) (remove tmpPath).
End restore.
