(* ===== verification/RestoreFacts.v ===== *)
(** What a restore does to the files of a database, whatever fails and wherever the process stops. *)
From S2P Require Import Prelude Utf8 Json JsonText Strconv GoTime Sha256 JsonDecode Text Errors Values Db Model Mutations Verify Disk DiskLogic Artifacts Backup BackupFacts Publication ArtifactFacts Restore.
Local Open Scope Z_scope.

(** The names of a restore are distinct. *)
Section names.
Context (database : string) (replaced_at : Z).
Let rollback := rollback_base database replaced_at.

Lemma rollback_apart s t : s ∈ suffixes → database +:+ s ≠ rollback +:+ t.
Proof.
  intros Hs H. unfold rollback, rollback_base in H. rewrite !app_str_assoc in H. apply app_str_inj_l in H. unfold suffixes, sidecars in Hs.
  repeat (apply elem_of_cons in Hs as [->|Hs]; [discriminate H|]). by apply elem_of_nil in Hs.
Qed.

Lemma temp_apart tmp s : has_prefix tmp database = false → tmp ≠ database +:+ s.
Proof. intros Ht ->. by rewrite has_prefix_app in Ht. Qed.

Lemma temp_apart_rollback tmp s : has_prefix tmp database = false → tmp ≠ rollback +:+ s.
Proof. intros Ht ->. unfold rollback, rollback_base in Ht. by rewrite !app_str_assoc, has_prefix_app in Ht. Qed.
End names.

Section facts.
Context (database : string) (replaced_at : Z) (d0 : disk).
Let rollback := rollback_base database replaced_at.

(** Where the regular file that was at a suffix of the database is. *)
Definition at_home (s : string) (w : world) : Prop := ∀ c t, d0 !! (database +:+ s) = Some (Regular c t) → w.(files) !! (database +:+ s) = Some (Regular c t).
Definition aside (s : string) (w : world) : Prop := ∀ c t, d0 !! (database +:+ s) = Some (Regular c t) → w.(files) !! (rollback +:+ s) = Some (Regular c t).

(** The suffixes in [M] are aside, the others at home. *)
Definition split_at (M : gset string) (w : world) : Prop :=
  ∀ s, s ∈ suffixes → if decide (s ∈ M) then aside s w else at_home s w.

(** Every file is in one of its two places. *)
Definition kept (w : world) : Prop := ∃ M, split_at M w.

Lemma kept_places w s c t : kept w → s ∈ suffixes → d0 !! (database +:+ s) = Some (Regular c t) →
  w.(files) !! (database +:+ s) = Some (Regular c t) ∨ w.(files) !! (rollback +:+ s) = Some (Regular c t).
Proof. intros [M HM] Hs Hc. specialize (HM s Hs). destruct (decide (s ∈ M)); [right|left]; by apply HM. Qed.

(** Writing or removing elsewhere. *)
Lemma split_elsewhere M w w' : split_at M w →
  (∀ s, s ∈ suffixes → w'.(files) !! (database +:+ s) = w.(files) !! (database +:+ s)) →
  (∀ s, s ∈ suffixes → w'.(files) !! (rollback +:+ s) = w.(files) !! (rollback +:+ s)) → split_at M w'.
Proof.
  intros Hm Hd Hr s Hs. specialize (Hm s Hs). destruct (decide (s ∈ M)); intros c t Hc; [rewrite Hr by done|rewrite Hd by done]; by apply Hm.
Qed.

Lemma split_delete M tmp w : has_prefix tmp database = false → split_at M w → split_at M (set_files (delete tmp) w).
Proof.
  intros Ht Hw. eapply split_elsewhere; [done| |]; intros s _; cbn; apply lookup_delete_ne; [by apply temp_apart|by apply temp_apart_rollback].
Qed.

Lemma split_put M tmp c t w : has_prefix tmp database = false → split_at M w → split_at M (set_files (put tmp c t) w).
Proof.
  intros Ht Hw. eapply split_elsewhere; [done| |]; intros s _; cbn; apply put_other; [by apply temp_apart|by apply temp_apart_rollback].
Qed.

Lemma split_mkdir w dir : w.(files) !! dir = None → split_at ∅ w → split_at ∅ (set_files <[dir := Directory]> w).
Proof.
  intros Hd Hw s Hs. specialize (Hw s Hs). rewrite decide_False in Hw |- * by set_solver. intros c t Hc. cbn. rewrite lookup_insert_ne; [by apply Hw|].
  intros ->. specialize (Hw c t Hc). congruence.
Qed.

(** A rename of one suffix leaves the files of the others. *)
Lemma rename_other_suffix M M' w a b s : split_at M w → (∀ u, u ∈ suffixes → u ≠ s → u ∈ M' ↔ u ∈ M) →
  (∀ u, u ∈ suffixes → u ≠ s → a ≠ database +:+ u ∧ b ≠ database +:+ u ∧ a ≠ rollback +:+ u ∧ b ≠ rollback +:+ u) →
  (s ∈ suffixes → if decide (s ∈ M') then aside s (set_files (rename_entry a b) w) else at_home s (set_files (rename_entry a b) w)) →
  split_at M' (set_files (rename_entry a b) w).
Proof.
  intros Hw HM Ho Hs u Hu. destruct (decide (u = s)) as [->|Hus]; [by apply Hs|]. specialize (Hw u Hu).
  destruct (Ho u Hu Hus) as (H1 & H2 & H3 & H4). rewrite (decide_ext (u ∈ M') (u ∈ M)) by by apply HM.
  destruct (decide (u ∈ M)); intros c t Hc; cbn; rewrite rename_other by done; by apply Hw.
Qed.

(** Moving one file aside, and back. *)
Lemma split_aside M s w : s ∈ suffixes → s ∉ M → split_at M w →
  split_at (M ∪ {[s]}) (set_files (rename_entry (database +:+ s) (rollback +:+ s)) w).
Proof.
  intros Hs Hn Hw. apply (rename_other_suffix M _ _ _ _ s); [done|set_solver| |].
  - intros u Hu Hus. split_and!; try (by intros E%app_str_inj_l); [|by apply rollback_apart]. intros E. symmetry in E. revert E. by apply rollback_apart.
  - intros _. rewrite decide_True by set_solver. intros c t Hc. cbn. apply rename_to. specialize (Hw s Hs). rewrite decide_False in Hw by done. by apply Hw.
Qed.

Lemma split_back M s w : s ∈ suffixes → s ∈ M → split_at M w →
  split_at (M ∖ {[s]}) (set_files (rename_entry (rollback +:+ s) (database +:+ s)) w).
Proof.
  intros Hs Hn Hw. apply (rename_other_suffix M _ _ _ _ s); [done|set_solver| |].
  - intros u Hu Hus. split_and!; try (by intros E%app_str_inj_l); [|by apply rollback_apart]. intros E. symmetry in E. revert E. by apply rollback_apart.
  - intros _. rewrite decide_False by set_solver. intros c t Hc. cbn. apply rename_to. specialize (Hw s Hs). rewrite decide_True in Hw by done. by apply Hw.
Qed.

Lemma triple_moves P from to (Q : result error () → world → Prop) (S : world → Prop) :
  (∀ w, P w → S w ∧ (∀ e, Q (Err e) w) ∧ (files w !! from ≠ None → dir_at (files w) to = false → Q (Ok ()) (set_files (rename_entry from to) w))) →
  triple P (rename from to) Q S.
Proof.
  intros Hw. apply triple_operate.
  - intros t w Hp. rewrite set_files_intact. destruct (Hw w Hp) as (H1 & H2 & _). by split.
  - intros w Hp. destruct (Hw w Hp) as (_ & H2 & H3). destruct (files w !! from); [|by apply H2]. case_if; [by apply H2|]. by apply H3.
Qed.

Definition pair_of (s : string) : string * string := (database +:+ s, rollback +:+ s).

Lemma triple_move_back l : NoDup l → triple (λ w, ∃ M, (∀ s, s ∈ l → s ∈ suffixes ∧ s ∈ M) ∧ split_at M w)
  (each (λ p, attempt (rename p.2 p.1) ;; mret ()) (map pair_of l)) (λ _, kept) kept.
Proof.
  induction l as [|s l IH]; intros Hl; cbn [map each]; [apply triple_ret; intros w (M & _ & HM); by exists M|].
  apply NoDup_cons in Hl as [Hn Hl]. eapply triple_bind; [|intros ?; by apply IH].
  eapply (triple_bind _ _ _ (λ _ w, ∃ M, (∀ u, u ∈ l → u ∈ suffixes ∧ u ∈ M) ∧ split_at M w)); [|intros ?; by apply triple_ret].
  apply triple_attempt, triple_moves. intros w (M & Hin & HM). split_and!; [by exists M|intros _; exists M; split; [|done]|].
  - intros u Hu. apply Hin. by apply list_elem_of_further.
  - intros _ _. exists (M ∖ {[s]}). destruct (Hin s (list_elem_of_here s l)) as [Hs HsM]. split; [|by apply split_back].
    intros u Hu. destruct (Hin u (list_elem_of_further u s l Hu)) as [Hus HuM]. split; [done|]. set_solver.
Qed.

Lemma triple_undo l : NoDup l → triple (λ w, (∀ s, s ∈ l → s ∈ suffixes) ∧ split_at (list_to_set l) w) (move_back (map pair_of l)) (λ _, kept) kept.
Proof.
  intros Hl. unfold move_back. rewrite <-map_rev. eapply triple_weaken; [apply (triple_move_back (rev l))| |done|done].
  - apply NoDup_ListNoDup, NoDup_rev. by apply NoDup_ListNoDup.
  - intros w [Hin Hw]. exists (list_to_set l). split; [|done]. intros s Hs%list_elem_of_In%in_rev%list_elem_of_In.
    split; [by apply Hin|]. by apply elem_of_list_to_set.
Qed.

(** The suffixes of [l] that had a regular file are all among those moved. *)
Definition covers (moved l : list string) : Prop := ∀ s c t, s ∈ l → d0 !! (database +:+ s) = Some (Regular c t) → s ∈ moved.

(** What the moves so far are. *)
Definition moving (moved : list string) (w : world) : Prop :=
  NoDup moved ∧ (∀ s, s ∈ moved → s ∈ suffixes) ∧ split_at (list_to_set moved) w.

Lemma moving_kept moved w : moving moved w → kept w.
Proof. intros (_ & _ & Hw). by eexists. Qed.

(** A regular file that was there is found where it was. *)
Lemma home_stat w s c t : at_home s w → d0 !! (database +:+ s) = Some (Regular c t) →
  lookup_entry w.(files) (follow w.(files) (database +:+ s)) = Ok (Regular c t).
Proof. intros Hs Hc. specialize (Hs c t Hc). unfold follow. rewrite Hs. unfold lookup_entry. by rewrite Hs. Qed.

(** What [os.Stat] says of a path: when it answers that there is no file, there is no regular file. *)
Lemma triple_stat_home P s : s ∈ suffixes → (∀ w, P w → at_home s w) →
  triple P (attempt (stat (database +:+ s))) (λ r w, P w ∧ ∀ e, r = Ok (Err e) → is_not_exist e = true →
    ∀ c t, d0 !! (database +:+ s) ≠ Some (Regular c t)) P.
Proof.
  intros Hs Hp. apply triple_attempt, triple_look. intros w Hw. split_and!; [done|done|by intros e [= <-]|done|].
  intros e He _ c t Hc. injection He as He. rewrite (home_stat w s c t) in He; [discriminate|by apply Hp|done].
Qed.

Lemma triple_preserve l : ∀ moved, NoDup (moved ++ l) → (∀ s, s ∈ l → s ∈ suffixes) →
  triple (moving moved) (preserve database rollback (map pair_of moved) l)
    (λ r w, match r with Ok p => ∃ moved', p = map pair_of moved' ∧ moving moved' w ∧ covers moved' l ∧ (∀ s, s ∈ moved → s ∈ moved') | Err _ => kept w end) kept.
Proof.
  induction l as [|s l IH]; intros moved Hn Hl; cbn [preserve].
  { apply triple_ret. intros w Hw. exists moved. split_and!; try done. intros s c t Hs. by apply elem_of_nil in Hs. }
  assert (Hs : s ∈ suffixes) by (apply Hl, list_elem_of_here). assert (Hl' : ∀ u, u ∈ l → u ∈ suffixes) by (intros u Hu; by apply Hl, list_elem_of_further).
  pose proof Hn as (Hm & Hd & Hnl)%NoDup_app. assert (Hsm : s ∉ moved) by (intros H; by apply (Hd s H), list_elem_of_here).
  assert (Hn' : NoDup (moved ++ l)). { apply NoDup_app. apply NoDup_cons in Hnl as [_ Hnl]. split_and!; try done. intros u Hu Hul. by apply (Hd u Hu), list_elem_of_further. }
  cbv zeta. eapply (triple_bind _ _ _ (λ r w, moving moved w ∧ ∀ e, r = Err e → is_not_exist e = true → ∀ c t, d0 !! (database +:+ s) ≠ Some (Regular c t))).
  { eapply triple_weaken; [apply (triple_stat_home (moving moved) s Hs)|done| |by apply moving_kept].
    - intros w (_ & _ & Hw). specialize (Hw s Hs). by rewrite decide_False in Hw by by rewrite elem_of_list_to_set.
    - intros [r|e] w [Hw Hr]; [|by apply moving_kept in Hw]. split; [done|]. intros e ->. by apply (Hr e). }
  intros [info|e].
  - eapply (triple_bind _ _ _ (λ r w, match r with Ok _ => moving (moved ++ [s]) w | Err _ => moving moved w end)).
    { apply triple_attempt, triple_moves. intros w [Hw _]. split_and!; [by apply moving_kept in Hw|done|]. intros _ _. destruct Hw as (_ & Hms & Hw). split_and!.
      - apply NoDup_app. split_and!; [done| |apply NoDup_singleton]. intros u Hu ->%list_elem_of_singleton. done.
      - intros u [Hu| ->%list_elem_of_singleton]%elem_of_app; [by apply Hms|done].
      - rewrite list_to_set_app_L. cbn. rewrite (right_id_L ∅ (∪)). apply split_aside; [done|by rewrite elem_of_list_to_set|done]. }
    intros [[]|e].
    + replace (map pair_of moved ++ [(database +:+ s, rollback +:+ s)]) with (map pair_of (moved ++ [s])) by by rewrite map_app.
      eapply triple_weaken; [apply IH; [by rewrite <-app_assoc|done]|done| |done]. intros [p|e] w; [|done].
      intros (moved' & -> & Hw & Hc & Hi). exists moved'. split_and!; try done.
      * intros u c t [->|Hu]%elem_of_cons Hu'; [|by eapply Hc]. apply Hi, elem_of_app. right. by apply list_elem_of_singleton.
      * intros u Hu. apply Hi, elem_of_app. by left.
    + eapply (triple_bind _ _ _ (λ _, kept)); [|intros ?; by apply triple_throw].
      eapply triple_weaken; [by apply (triple_undo moved)|intros w (_ & ? & ?); by split| |done]. by intros [?|?].
  - destruct (is_not_exist e) eqn:He; [|apply triple_throw; intros w [Hw _]; by apply moving_kept in Hw].
    apply triple_pointwise. intros w0 [Hw0 Hr]. eapply triple_weaken; [by apply (IH moved)|by intros w ->| |done].
    intros [p|e'] w; [|done]. intros (moved' & -> & Hw & Hc & Hi). exists moved'. split_and!; try done.
    intros u c t [->|Hu]%elem_of_cons Hu'; [|by eapply Hc]. by destruct (Hr e eq_refl He c t).
Qed.

(** * The replacement *)

Lemma all_aside moved w : split_at (list_to_set moved) w → covers moved suffixes → split_at (list_to_set suffixes) w.
Proof.
  intros Hw Hc s Hs. rewrite decide_True by by apply elem_of_list_to_set. intros c t Hr. specialize (Hw s Hs).
  rewrite decide_True in Hw by by eapply elem_of_list_to_set, Hc. by apply Hw.
Qed.

Context (tmp : string) (Htmp : has_prefix tmp database = false) (copy : entry).

Lemma keeps_tmp_rename a b s : a = database +:+ s ∨ a = rollback +:+ s → b = database +:+ s ∨ b = rollback +:+ s →
  keeps (λ w, w.(files) !! tmp = Some copy) (rename a b).
Proof.
  intros Ha Hb. apply keeps_rename. intros w Hw. cbn. rewrite rename_other; [done|..].
  - destruct Ha as [-> | ->]; intros E; symmetry in E; revert E; [by apply temp_apart|by apply temp_apart_rollback].
  - destruct Hb as [-> | ->]; intros E; symmetry in E; revert E; [by apply temp_apart|by apply temp_apart_rollback].
Qed.

Lemma keeps_tmp_back l : keeps (λ w, w.(files) !! tmp = Some copy) (move_back (map pair_of l)).
Proof.
  unfold move_back. apply keeps_each. intros p Hp%list_elem_of_In%in_rev. apply in_map_iff in Hp as (s & <- & _).
  apply keeps_bind; [|intros ?; apply keeps_ret]. apply keeps_attempt, (keeps_tmp_rename _ _ s); [by right|by left].
Qed.

Lemma keeps_tmp_preserve l : ∀ moved, keeps (λ w, w.(files) !! tmp = Some copy) (preserve database rollback (map pair_of moved) l).
Proof.
  induction l as [|s l IH]; intros moved; cbn [preserve]; [apply keeps_ret|]. cbv zeta. io_bind; [apply keeps_attempt, keeps_stat|].
  destruct a as [info|e].
  - io_bind; [apply keeps_attempt, (keeps_tmp_rename _ _ s); [by left|by right]|]. destruct a as [[]|e].
    + replace (map pair_of moved ++ [(database +:+ s, rollback +:+ s)]) with (map pair_of (moved ++ [s])) by by rewrite map_app. apply IH.
    + io_bind; [apply keeps_tmp_back|apply keeps_throw].
  - destruct (is_not_exist e); [apply IH|apply keeps_throw].
Qed.

(** The copy is at the temporary name and nothing is moved yet; whether anything is to be moved is known. *)
Definition ready (found : bool) (w : world) : Prop :=
  w.(files) !! tmp = Some copy ∧ split_at ∅ w ∧ (found = false → covers [] suffixes).

(** The copy is in place, and what was there is aside. *)
Definition replaced (w : world) : Prop := split_at (list_to_set suffixes) w ∧ w.(files) !! database = Some copy.

Lemma suffixes_distinct : NoDup suffixes.
Proof. apply (bool_decide_unpack _). by vm_compute. Qed.

Lemma split_install w : w.(files) !! tmp = Some copy → split_at (list_to_set suffixes) w → replaced (set_files (rename_entry tmp database) w).
Proof.
  intros Hc Hw. split; [|by apply rename_to]. intros s Hs. specialize (Hw s Hs). rewrite decide_True in Hw |- * by by apply elem_of_list_to_set.
  intros c t Hr. cbn. rewrite rename_other; [by apply Hw|by apply temp_apart_rollback|].
  rewrite <-(app_str_nil_r database) at 1. apply rollback_apart. by vm_compute; left.
Qed.

Lemma triple_replace found : triple (ready found) (replace_database database tmp found replaced_at)
  (λ r w, match r with Ok _ => replaced w | Err _ => kept w end) kept.
Proof.
  unfold replace_database. cbv zeta.
  eapply (triple_bind _ _ _ (λ p w, ∃ moved, p = map pair_of moved ∧ moving moved w ∧ covers moved suffixes ∧ w.(files) !! tmp = Some copy)).
  { destruct found.
    - eapply triple_weaken; [apply (triple_and _ _ _ _ _ _ _ (triple_preserve suffixes [] suffixes_distinct (λ s Hs, Hs)) (keeps_tmp_preserve suffixes []))|..].
      + intros w (Hc & Hw & _). split; [|done]. split_and!; [apply NoDup_nil_2|by intros s ?%elem_of_nil|done].
      + intros [p|e] w [Hw Hc]; [|done]. destruct Hw as (moved & ? & ? & ? & _). exists moved. by split_and!.
      + by intros w [Hw _].
    - apply triple_ret. intros w (Hc & Hw & Hn). exists []. split_and!; try done; [|by apply Hn]. split_and!; [apply NoDup_nil_2|by intros s ?%elem_of_nil|done]. }
  intros p. apply triple_pointwise. intros w0 (moved & -> & Hw & Hc & Ht).
  eapply (triple_bind _ _ _ (λ r w, match r with Ok _ => replaced w | Err _ => w = w0 end)).
  { apply triple_attempt, triple_moves. intros w ->. split_and!; [by apply moving_kept in Hw|done|]. intros _ _. destruct Hw as (_ & _ & Hw).
    apply split_install; [done|]. by eapply all_aside. }
  assert (Hk : ∀ w, replaced w → kept w) by (intros w [Hr _]; by eexists).
  intros [[]|e].
  - eapply triple_bind; [|intros ?; apply triple_ret; intros w Hr; exact Hr].
    eapply triple_weaken; [apply keeps_prefixed; apply (keeps_open_path replaced)|done| |done]. intros [?|?] w Hr; [done|by apply Hk].
  - destruct Hw as (Hn & Hs & Hw). eapply (triple_bind _ _ _ (λ _, kept)); [|intros ?; by apply triple_throw].
    eapply triple_weaken; [by apply (triple_undo moved)|by intros w ->| |done]. by intros [?|?].
Qed.
End facts.

(** * The copy *)

Section copy.
Context `{SQLite} `{Engine} (backup tmp : string) (copied_at : Z) (d0 : disk) (Hfree : d0 !! tmp = None).

(** Only the copy and directories are new, and nothing is moved. *)
Definition untouched (w : world) : Prop := (∀ p e, d0 !! p = Some e → w.(files) !! p = Some e) ∧ ∃ c t, w.(files) !! tmp = Some (Regular c t).

Lemma untouched_put w c t : untouched w → untouched (set_files (put tmp c t) w).
Proof.
  intros [Hw (c' & t' & Ht)]. split; cbn.
  - intros p e Hp. rewrite put_other; [by apply Hw|]. intros ->. congruence.
  - exists c, t. apply put_same. unfold dir_at. by rewrite Ht.
Qed.

(** The copy is made, has the content of the backup and passes every check. *)
Definition copied_ok (m : BackupManifest) (copy : string) : Prop :=
  content_matches copy m = true ∧ copy ≠ "" ∧ (∃ v, verify_content copy = Ok v) ∧ ∀ c t, d0 !! backup = Some (Regular c t) → copy = c.

Lemma triple_copy m : triple untouched (copy_backup tmp backup m copied_at)
  (λ r w, untouched w ∧ ∀ u, r = Ok u → ∃ copy, w.(files) !! tmp = Some (Regular copy copied_at) ∧ copied_ok m copy) untouched.
Proof.
  unfold copy_backup. assert (Hf : ∀ e w, untouched w → untouched w ∧ ∀ u : (), (Err e : result error ()) = Ok u → ∃ copy, w.(files) !! tmp = Some (Regular copy copied_at) ∧ copied_ok m copy) by done.
  eapply yields_bind; [apply yields_keeps, keeps_open_path|done|done|]. intros _ _.
  eapply yields_bind; [apply yields_keeps, keeps_open_path|done|done|]. intros _ _.
  eapply yields_bind; [apply yields_keeps, keeps_stat|done|done|]. intros info _.
  eapply yields_bind; [apply yields_unless|done|done|]. intros _ _.
  eapply (yields_bind _ _ _ (λ s, ∀ c t, d0 !! backup = Some (Regular c t) → s = c)); [|done|done|].
  { apply triple_look. intros w Hw. split_and!; try done. intros s Hs c t Hc. destruct Hw as [Hw _]. specialize (Hw _ _ Hc).
    unfold lookup_entry, follow in Hs. rewrite Hw in Hs. cbn in Hs. rewrite Hw in Hs. cbn in Hs. by injection Hs as ->. }
  intros s Hs. set (P := λ w, untouched w ∧ w.(files) !! tmp = Some (Regular s copied_at)).
  eapply (triple_bind _ _ _ (λ _, P)).
  { apply triple_operate; intros; [split|]; try split; try done; try by apply untouched_put. pose proof H1 as [_ (c' & t' & Ht)]. unfold dir_at. rewrite Ht.
    split; [by apply untouched_put|]. cbn. apply put_same. unfold dir_at. by rewrite Ht. }
  assert (HP : ∀ w, P w → untouched w) by (by intros w []).
  assert (Hf' : ∀ e w, P w → untouched w ∧ ∀ u : (), (Err e : result error ()) = Ok u → ∃ copy, w.(files) !! tmp = Some (Regular copy copied_at) ∧ copied_ok m copy) by by intros e w [].
  intros _. eapply yields_bind; [apply (yields_keeps P), keeps_look|done|done|]. intros _ _.
  eapply yields_bind; [apply (yields_unless P)|done|done|]. intros _ [Hm _]%andb_true_iff.
  eapply yields_bind; [apply (yields_keeps P), keeps_open_path|done|done|]. intros _ _.
  eapply yields_bind; [apply (yields_keeps P), keeps_look|done|done|]. intros _ _.
  eapply yields_bind; [apply (yields_prefixed P), (yields_VerifyPath P tmp s copied_at); by intros w []|done|done|]. intros v [Hv Hne].
  eapply triple_weaken; [apply (yields_unless P)|done| |done]. intros r w [[Hw Ht] _]. split; [done|]. intros _ _. exists s. split; [done|]. split_and!; eauto.
Qed.
End copy.

(** * The whole restore *)

Section whole.
Context `{SQLite} `{Engine} (names : list string) (database backup manifestPath : string) (replace : bool) (copied_at replaced_at : Z) (w0 : world).
Context (Hnames : ∀ random, random ∈ names → has_prefix (restore_temp database random) database = false).
Let d0 := w0.(files).

(** The database is the checked copy, and what it replaced is aside. *)
Definition installed (base : string) (w : world) : Prop := ∃ text t m copy,
  d0 !! follow d0 manifestPath = Some (Regular text t) ∧ read_manifest text = Some m ∧ manifest_accepts backup m = true
  ∧ copied_ok backup d0 m copy ∧ replaced database replaced_at d0 (Regular copy copied_at) w
  ∧ (replace = false → covers database d0 [] suffixes).

Let kept_all := kept database replaced_at d0.
Let grown (w : world) : Prop := ∀ p e, d0 !! p = Some e → w.(files) !! p = Some e.

Lemma grown_kept w : grown w → kept_all w.
Proof. intros Hw. exists ∅. intros s _. rewrite decide_False by set_solver. intros c t. apply Hw. Qed.

Lemma keeps_refuse_sidecars I l : keeps I (refuse_sidecars backup l).
Proof. induction l as [|s l IH]; cbn [refuse_sidecars]; [keeps|]. io_bind; [keeps|]. destruct a as [?|e]; [keeps|]. destruct (is_not_exist e); [done|keeps]. Qed.

Lemma yields_destination l : ∀ found, (∀ s, s ∈ l → s ∈ suffixes) →
  yields (λ w, w = w0) (destination_exists database found l) (λ b, b = false → found = false ∧ covers database d0 [] l).
Proof.
  induction l as [|s l IH]; intros found Hl; cbn [destination_exists].
  { apply yields_ret. intros ->. split; [done|]. intros s c t Hs. by apply elem_of_nil in Hs. }
  assert (Hl' : ∀ u, u ∈ l → u ∈ suffixes) by (intros u Hu; by apply Hl, list_elem_of_further).
  eapply (yields_then _ _ _ (λ r, ∀ e, r = Err e → is_not_exist e = true → ∀ c t, d0 !! (database +:+ s) ≠ Some (Regular c t))).
  { eapply triple_weaken; [apply (triple_stat_home database d0 (λ w, w = w0) s)|done| |done].
    - by apply Hl, list_elem_of_here.
    - by intros w -> c t.
    - intros r w [Hw Hr]. split; [done|]. intros a -> e ->. by apply (Hr e). }
  intros [info|e] He.
  - eapply yields_then; [apply (yields_unless (λ w, w = w0))|]. intros _ _. eapply triple_weaken; [by apply IH|done| |done].
    intros r w [Hw Hr]. split; [done|]. intros a Ha Hf. by destruct (Hr a Ha Hf).
  - destruct (is_not_exist e) eqn:En; [|apply yields_throw]. eapply triple_weaken; [by apply IH|done| |done].
    intros r w [Hw Hr]. split; [done|]. intros a Ha Hf. destruct (Hr a Ha Hf) as [-> Hc]. split; [done|].
    intros u c t [->|Hu]%elem_of_cons Hu'; [by destruct (He e eq_refl En c t)|by eapply Hc].
Qed.

Lemma triple_create_temp : triple grown (create_temp (path_dir database) (map (append restore_prefix) names) copied_at)
  (λ r w, match r with Ok p => has_prefix p database = false ∧ d0 !! p = None ∧ untouched p d0 w | Err _ => grown w end) grown.
Proof.
  apply triple_operate; [intros t w Hw; by rewrite set_files_intact|]. intros w Hw.
  match goal with |- context [List.find ?f ?l] => destruct (List.find f l) as [p|] eqn:Ef end; [|done]. cbn.
  apply List.find_some in Ef as [Hp Hf]. apply in_map_iff in Hp as (n & <- & Hp). apply in_map_iff in Hp as (random & <- & Hr%list_elem_of_In).
  destruct (files w !! temp_path _ _) eqn:E; [discriminate|]. split_and!; [by apply Hnames| |].
  - destruct (d0 !! _) eqn:E0; [|done]. apply Hw in E0. unfold restore_temp in *. congruence.
  - split; cbn.
    + intros q e Hq. rewrite put_other; [by apply Hw|]. intros <-. apply Hw in Hq. congruence.
    + do 2 eexists. apply put_same. unfold dir_at. by rewrite E.
Qed.

Lemma triple_body tmp m found : has_prefix tmp database = false → d0 !! tmp = None → (found = false → covers database d0 [] suffixes) →
  triple (untouched tmp d0) (copy_backup tmp backup m copied_at ;; replace_database database tmp found replaced_at)
  (λ r w, match r with Ok _ => ∃ copy, copied_ok backup d0 m copy ∧ replaced database replaced_at d0 (Regular copy copied_at) w | Err _ => kept_all w end) kept_all.
Proof.
  intros Ht Hf Hc. assert (Hu : ∀ w, untouched tmp d0 w → kept_all w) by (intros w [Hw _]; exact (grown_kept w Hw)).
  eapply triple_bind; [eapply triple_weaken; [by apply triple_copy|done| |done]|].
  - intros [u|e] w [Hw Hr]; [|by apply Hu]. exact (conj Hw (Hr u eq_refl)).
  - intros u. apply triple_pointwise. intros w1 ([Hw1 _] & copy & Hcopy & Hok).
    eapply triple_weaken; [apply (triple_replace database replaced_at d0 tmp Ht (Regular copy copied_at) found)| | |done].
    + intros w ->. split_and!; [done| |done]. intros s _. rewrite decide_False by set_solver. intros c t. apply Hw1.
    + intros [r|e] w Hr; [by exists copy|done].
Qed.

Lemma triple_restore : triple (λ w, w = w0) (restoreDatabase names copied_at replaced_at database backup manifestPath replace)
  (λ r w, match r with Ok base => installed base w | Err _ => kept_all w end) kept_all.
Proof.
  assert (Hk : ∀ w, w = w0 → kept_all w) by (intros w ->; apply grown_kept; exact (λ p e E, E)).
  unfold restoreDatabase.
  eapply (yields_bind _ _ _ (λ text, ∃ t, d0 !! follow d0 manifestPath = Some (Regular text t))); [|done|intros e w; apply Hk|].
  { eapply triple_weaken; [apply (yields_look w0)|done| |done]. intros r w [Hw Hr]. split; [done|]. intros a Ha. specialize (Hr a Ha).
    unfold lookup_entry in Hr. fold d0 in Hr. destruct (d0 !! follow d0 manifestPath) as [[c t| | |]|]; try discriminate Hr. cbn in Hr. injection Hr as ->. by exists t. }
  intros text (t & Htext). eapply yields_bind; [apply yields_of_result|done|intros e w; apply Hk|]. intros m Hm.
  assert (Hm' : read_manifest text = Some m) by (destruct (read_manifest text); [by injection Hm as ->|discriminate]).
  eapply yields_bind; [apply yields_unless|done|intros e w; apply Hk|]. intros ? Ha.
  eapply yields_bind; [apply yields_keeps, keeps_refuse_sidecars|done|intros e w; apply Hk|]. intros ? _.
  eapply yields_bind; [by apply (yields_destination suffixes false)|done|intros e w; apply Hk|]. intros found Hfound.
  eapply yields_bind; [apply yields_unless|done|intros e w; apply Hk|]. intros ? Hrep.
  eapply (triple_bind _ _ _ (λ _, grown)).
  { eapply triple_weaken; [apply (keeps_mkdir_all grown)|intros w ->; exact (λ p e E, E)| |by apply grown_kept].
    - intros w Hd Hw p e Hp. cbn. rewrite lookup_insert_ne; [by apply Hw|]. intros <-. apply Hw in Hp. congruence.
    - intros [?|?] w Hw; [done|by apply grown_kept]. }
  intros ?. eapply triple_bind; [eapply triple_weaken; [apply triple_create_temp|done| |by apply grown_kept]|].
  { intros [p|e] w Hw; [exact Hw|by apply grown_kept]. }
  intros tmp. apply triple_pointwise. intros w1 (Ht & Hf & Hu).
  eapply triple_finally; [eapply triple_weaken; [by apply (triple_body tmp m found Ht Hf); intros ->; apply Hfound|by intros w ->|done|done]|].
  intros [base|e].
  - eapply triple_weaken; [apply (keeps_attempt (λ w, ∃ copy, copied_ok backup d0 m copy ∧ replaced database replaced_at d0 (Regular copy copied_at) w))|done|..].
    + apply keeps_remove. intros w (copy & Hc & Hw & Hd). exists copy. split; [done|]. split; [by apply split_delete|]. cbn. rewrite lookup_delete_ne; [done|].
      intros E. apply (temp_apart database tmp "" Ht). by rewrite app_str_nil_r.
    + intros [c|e] w (copy & Hc & Hw); [|done]. exists text, t, m, copy. split_and!; try done. intros ->. cbn in Hrep. apply orb_true_iff in Hrep as [Hn|]; [|done].
      apply Hfound. by destruct found.
    + intros w (copy & _ & Hw & _). by eexists.
  - eapply triple_weaken; [apply (keeps_attempt kept_all)|done|by intros [c|e'] w Hw|done].
    apply keeps_remove. intros w [M HM]. exists M. by apply split_delete.
Qed.
End whole.
