(* ===== verification/RestorePromises.v ===== *)
(** What a restore promises: the database it replaces is never lost, a restore that reports success
    has put the checked copy in place with nothing of the old database beside it, and a published
    backup can be restored. *)
From S2P Require Import Prelude Utf8 Json JsonText Strconv GoTime Sha256 JsonDecode Text Errors Values Db Model Mutations Verify Scenario Disk DiskLogic Artifacts Backup BackupNames BackupFacts Publication ArtifactFacts BackupPromises Restore RestoreFacts.
Local Open Scope Z_scope.

(** * Nothing stays beside the restored database *)

Section vacant.
Context (database : string) (replaced_at : Z) (d0 : disk).
Context (Hplain : ∀ s, s ∈ suffixes → d0 !! (database +:+ s) = None ∨ ∃ c t, d0 !! (database +:+ s) = Some (Regular c t)).
Let rollback := rollback_base database replaced_at.

(** The files of the suffixes in [l] are as they were, the others are gone. *)
Definition vacated (l : list string) (w : world) : Prop :=
  ∀ s, s ∈ suffixes → w.(files) !! (database +:+ s) = if decide (s ∈ l) then d0 !! (database +:+ s) else None.

Lemma vacated_elsewhere l w w' : vacated l w → (∀ s, s ∈ suffixes → w'.(files) !! (database +:+ s) = w.(files) !! (database +:+ s)) → vacated l w'.
Proof. intros Hw Hq s Hs. rewrite Hq by done. by apply Hw. Qed.

Lemma vacated_step s l w w' : s ∉ l → vacated (s :: l) w → (∀ u, u ∈ suffixes → u ≠ s → w'.(files) !! (database +:+ u) = w.(files) !! (database +:+ u)) →
  (s ∈ suffixes → w'.(files) !! (database +:+ s) = None) → vacated l w'.
Proof.
  intros Hn Hw Ho Hs u Hu. destruct (decide (u = s)) as [->|Hus]; [by rewrite decide_False, Hs|].
  rewrite Ho, (Hw u Hu) by done. destruct (decide (u ∈ s :: l)), (decide (u ∈ l)); try done; set_solver.
Qed.

Lemma vacated_absent s l w e : s ∈ suffixes → s ∉ l → vacated (s :: l) w →
  lookup_entry w.(files) (follow w.(files) (database +:+ s)) = Err e → vacated l w.
Proof.
  intros Hs Hn Hw He. apply (vacated_step s l w w); [done..|]. intros _. pose proof (Hw s Hs) as Hws. rewrite decide_True in Hws by apply list_elem_of_here.
  destruct (Hplain s Hs) as [E|(c & t & E)]; rewrite Hws, E; [done|]. rewrite E in Hws. unfold follow in He. rewrite Hws in He.
  unfold lookup_entry in He. by rewrite Hws in He.
Qed.

Lemma triple_vacate l : ∀ preserved, NoDup l → (∀ s, s ∈ l → s ∈ suffixes) →
  triple (vacated l) (preserve database rollback preserved l) (λ r w, is_ok r = true → vacated [] w) (λ _, True).
Proof.
  induction l as [|s l IH]; intros preserved Hn Hl; cbn [preserve]; [by apply triple_ret|]. apply NoDup_cons in Hn as [Hn Hl'].
  assert (Hs : s ∈ suffixes) by apply Hl, list_elem_of_here. cbv zeta.
  eapply (triple_bind _ _ _ (λ r w, match r with Ok _ => vacated (s :: l) w | Err e => is_not_exist e = true → vacated l w end)).
  { apply triple_attempt, triple_look. intros w Hw. split_and!; [done|by intros [=]|]. destruct (lookup_entry _ _) as [i|e] eqn:E; [done|]. intros _. by eapply vacated_absent. }
  intros [i|e].
  - eapply (triple_bind _ _ _ (λ r w, match r with Ok _ => vacated l w | Err _ => True end)).
    { apply triple_attempt, triple_moves. intros w Hw. split_and!; [done|done|]. intros Hf _. apply (vacated_step s l w); [done|done| |].
      - intros u Hu Hus. cbn. apply rename_other; [by intros E%app_str_inj_l|]. intros E. symmetry in E. revert E. by apply rollback_apart.
      - intros _. cbn. unfold rename_entry. destruct (files w !! (database +:+ s)) as [e|]; [|done].
        rewrite lookup_insert_ne; [apply lookup_delete_eq|]. intros E. symmetry in E. revert E. by apply rollback_apart. }
    intros [[]|e]; [apply IH; [done|]; intros u Hu; by apply Hl, list_elem_of_further|].
    apply (triple_bind _ _ _ (λ _ _, True)); [|intros ?; by apply triple_throw].
    eapply triple_weaken; [apply (keeps_each (λ _, True))|done|by intros [?|?] ? ?|done]. intros p _. apply keeps_bind; [|intros ?; apply keeps_ret].
    by apply keeps_attempt, keeps_rename.
  - destruct (is_not_exist e); [|by apply triple_throw]. eapply triple_weaken; [apply (IH preserved Hl'); intros u Hu; by apply Hl, list_elem_of_further| |done|done].
    intros w Hw. by apply Hw.
Qed.

Context `{SQLite} `{Engine} (tmp : string) (Htmp : has_prefix tmp database = false).

Lemma vacated_put c t l w : vacated l w → vacated l (set_files (put tmp c t) w).
Proof. intros Hw. eapply vacated_elsewhere; [done|]. intros s _. cbn. apply put_other. by apply temp_apart. Qed.

Lemma keeps_vacated_copy l backup m t : keeps (vacated l) (copy_backup tmp backup m t).
Proof.
  unfold copy_backup. do 5 (io_bind; [keeps|]). io_bind; [apply keeps_write_file; intros; by apply vacated_put|].
  repeat (io_bind; [solve [keeps]|]). keeps.
Qed.

Lemma sidecar_suffix s : s ∈ sidecars → s ∈ suffixes ∧ s ≠ "".
Proof. unfold suffixes, sidecars. intros Hs. split; [by apply list_elem_of_further|]. repeat (apply elem_of_cons in Hs as [->|Hs]; [done|]). by apply elem_of_nil in Hs. Qed.

(** No sidecar of the database is left. *)
Definition alone (w : world) : Prop := ∀ s, s ∈ sidecars → w.(files) !! (database +:+ s) = None.

Lemma triple_alone found : (found = false → covers database d0 [] suffixes) →
  triple (vacated suffixes) (replace_database database tmp found replaced_at) (λ r w, is_ok r = true → alone w) (λ _, True).
Proof.
  intros Hf. unfold replace_database. cbv zeta. apply (triple_bind _ _ _ (λ _, vacated [])).
  { destruct found.
    - eapply triple_weaken; [apply (triple_vacate suffixes [] suffixes_distinct); done|done| |done]. intros [p|e] w Hw; [by apply Hw|by intros [=]].
    - apply triple_ret. intros w Hw s Hs. rewrite (Hw s Hs), decide_True, decide_False by (done || by apply not_elem_of_nil).
      destruct (Hplain s Hs) as [E|(c & t & E)]; [done|]. by apply (Hf eq_refl s c t) in Hs; [apply elem_of_nil in Hs|]. }
  intros p. apply (triple_bind _ _ _ (λ r w, is_ok r = true → alone w)).
  { apply triple_attempt, triple_moves. intros w Hw. split_and!; [done|by intros e [=]|]. intros _ _ _ s Hs. apply sidecar_suffix in Hs as [Hs Hne]. cbn.
    rewrite rename_other; [|by apply temp_apart|].
    - by rewrite (Hw s Hs), decide_False by apply not_elem_of_nil.
    - intros E. rewrite <-(app_str_nil_r database) in E at 1. by apply app_str_inj_l in E. }
  intros [[]|e].
  - apply (triple_bind _ _ _ (λ _, alone)); [|intros ?; by apply triple_ret]. eapply triple_weaken; [apply keeps_prefixed, (keeps_open_path alone)| | |done].
    + intros w Hw. by apply Hw.
    + intros [?|?] w Hw; [done|by intros [=]].
  - apply (triple_bind _ _ _ (λ _ _, True)); [|intros ?; by apply triple_throw]. eapply triple_weaken; [apply (keeps_each (λ _, True))|done|by intros [?|?] ? ?|done].
    intros q _. apply keeps_bind; [|intros ?; apply keeps_ret]. by apply keeps_attempt, keeps_rename.
Qed.
End vacant.

(** * Without faults *)

Lemma runs_triple {A} (m : io A) w a w' P (Q : result error A → world → Prop) S : runs m w a w' → triple P m Q S → P w → Q (Ok a) w'.
Proof. intros Hr Hm Hw. specialize (Hm [] w Hw). unfold runs in Hr. by rewrite Hr in Hm. Qed.

Lemma runs_rename from to e w : files w !! from = Some e → dir_at (files w) to = false →
  runs (rename from to) w () (set_files (rename_entry from to) w).
Proof. intros Hf Ht. unfold runs, rename, operate. by rewrite Hf, Ht. Qed.

Lemma runs_write p c t w : dir_at (files w) p = false → runs (write_file p c t) w () (set_files (put p c t) w).
Proof. intros Hd. unfold runs, write_file, operate. by rewrite Hd. Qed.

Lemma runs_open p e w : files w !! follow (files w) p = Some e → runs (open_path p) w () w.
Proof. intros Hp. apply runs_look. unfold lookup_entry. by rewrite Hp. Qed.

Lemma runs_finally {A} (m : io A) (cleanup : io ()) w a w' r w'' : runs m w a w' → runs (attempt cleanup) w' r w'' → runs (finally m cleanup) w a w''.
Proof. intros Hm Hc. unfold finally. eapply runs_bind; [by apply runs_attempt|]. by eapply runs_bind. Qed.

Lemma runs_attempt_remove p w : ∃ r w', runs (attempt (remove p)) w r w' ∧ ∀ q, q ≠ p → w'.(files) !! q = w.(files) !! q.
Proof.
  unfold runs, attempt, remove, operate. destruct (files w !! p) as [e|]; [|by do 2 eexists].
  destruct (is_dir e && has_children (files w) p); do 2 eexists; (split; [reflexivity|]); [done|]. intros q Hq. cbn. by apply lookup_delete_ne.
Qed.

(** Nothing at a path: [os.Stat] says so. *)
Lemma runs_stat_absent p w : files w !! p = None → runs (attempt (stat p)) w (Err ENotExist) w.
Proof. intros Hp. unfold runs, attempt, stat, look, operate, follow. rewrite Hp. unfold lookup_entry. by rewrite Hp. Qed.

Section complete.
Context `{SQLite} `{Engine} (database backup tmp : string) (replaced_at : Z) (d0 : disk) (copy : entry).
Context (Hplain : ∀ s, s ∈ suffixes → d0 !! (database +:+ s) = None ∨ ∃ c t, d0 !! (database +:+ s) = Some (Regular c t)).
Context (Htmp : has_prefix tmp database = false) (Hcopy_file : copy ≠ Directory).
Let rollback := rollback_base database replaced_at.

(** Where the moves stand: those of [l] are to be made, and nothing is in their way. *)
Record clear (l : list string) (w : world) : Prop := mkClear {
  cl_vacated : vacated database d0 l w;
  cl_rollback : ∀ s, s ∈ l → dir_at w.(files) (rollback +:+ s) = false;
  cl_dir : w.(files) !! path_dir database = Some Directory;
  cl_copy : w.(files) !! tmp = Some copy
}.

Lemma rename_not_dir from to d c t p : d !! from = Some (Regular c t) → dir_at d to = false → d !! p = Some Directory → rename_entry from to d !! p = Some Directory.
Proof.
  intros Hf Ht Hp. rewrite rename_other; [done|intros ->; congruence|]. intros ->. unfold dir_at in Ht. by rewrite Hp in Ht.
Qed.

Lemma runs_preserve l : ∀ preserved w, NoDup l → (∀ s, s ∈ l → s ∈ suffixes) → clear l w →
  ∃ p w', runs (preserve database rollback preserved l) w p w' ∧ clear [] w'.
Proof.
  induction l as [|s l IH]; intros preserved w Hn Hl Hc; [by exists preserved, w|]. apply NoDup_cons in Hn as [Hn Hl'].
  assert (Hs : s ∈ suffixes) by apply Hl, list_elem_of_here. assert (Hls : ∀ u, u ∈ l → u ∈ suffixes) by (intros u Hu; apply Hl; by apply list_elem_of_further).
  destruct Hc as [Hv Hr Hd Hcopy]. pose proof (Hv s Hs) as Hw. rewrite decide_True in Hw by apply list_elem_of_here. cbn [preserve]. cbv zeta.
  destruct (Hplain s Hs) as [E|(c & t & E)]; rewrite E in Hw.
  - destruct (IH preserved w Hl' Hls) as (p & w' & Hrun & Hc').
    { constructor; try done; [|intros u Hu; apply Hr; by apply list_elem_of_further]. by apply (vacated_step database d0 Hplain s l w w). }
    exists p, w'. split; [|done]. eapply runs_bind; [by apply runs_stat_absent|]. exact Hrun.
  - set (w1 := set_files (rename_entry (database +:+ s) (rollback +:+ s)) w).
    assert (Ht : dir_at (files w) (rollback +:+ s) = false) by apply Hr, list_elem_of_here.
    assert (Hap : ∀ u, u ∈ suffixes → rollback +:+ s ≠ database +:+ u) by (intros u Hu Eu; symmetry in Eu; revert Eu; by apply rollback_apart).
    destruct (IH (preserved ++ [(database +:+ s, rollback +:+ s)]) w1 Hl' Hls) as (p & w' & Hrun & Hc').
    { constructor; cbn.
      - apply (vacated_step database d0 Hplain s l w); [done|done| |].
        + intros u Hu Hus. cbn. apply rename_other; [by intros Eu%app_str_inj_l|by apply Hap].
        + intros _. cbn. unfold rename_entry. rewrite Hw, lookup_insert_ne by by apply Hap. apply lookup_delete_eq.
      - intros u Hu. unfold dir_at. rewrite rename_other; [apply Hr; by apply list_elem_of_further|by apply rollback_apart|].
        intros Eu%app_str_inj_l. congruence.
      - by eapply rename_not_dir.
      - rewrite rename_other; [done|..]; intros Eu; symmetry in Eu; revert Eu; [by apply temp_apart|by apply temp_apart_rollback]. }
    exists p, w'. split; [|done]. eapply runs_bind; [by eapply runs_attempt, runs_stat|].
    eapply runs_bind; [by eapply runs_attempt, runs_rename|]. exact Hrun.
Qed.

Lemma runs_replace found w : clear suffixes w → (found = false → ∀ s, s ∈ suffixes → d0 !! (database +:+ s) = None) →
  ∃ base w', runs (replace_database database tmp found replaced_at) w base w' ∧ w'.(files) !! path_dir database = Some Directory.
Proof.
  intros Hc Hf. unfold replace_database. cbv zeta.
  assert (Hp : ∃ p w', runs ((if found then preserve database (if found then rollback else "") [] suffixes else mret []) : io (list (string * string))) w p w' ∧ clear [] w').
  { destruct found; [apply runs_preserve; [apply suffixes_distinct|done|done]|]. exists [], w. split; [done|]. destruct Hc as [Hv Hr Hd Hcopy].
    constructor; try done; [|by intros s ?%elem_of_nil]. intros s Hs. rewrite (Hv s Hs), decide_True, decide_False by (done || apply not_elem_of_nil). by apply Hf. }
  destruct Hp as (p & w1 & Hp & [Hv _ Hd Hcopy]). assert (Hdb : w1.(files) !! database = None).
  { rewrite <-(app_str_nil_r database). rewrite (Hv "") by apply list_elem_of_here. by rewrite decide_False by apply not_elem_of_nil. }
  assert (E : rename_entry tmp database (files w1) !! path_dir database = Some Directory).
  { rewrite rename_other; [done| |].
    - intros E. rewrite <-E, Hcopy in Hd. apply Hcopy_file. by injection Hd.
    - intros E. rewrite <-E, Hdb in Hd. done. }
  eexists _, (set_files (rename_entry tmp database) w1). split; [|exact E].
  eapply runs_bind; [exact Hp|]. eapply runs_bind; [eapply runs_attempt, runs_rename; [exact Hcopy|unfold dir_at; by rewrite Hdb]|].
  eapply runs_bind; [|by apply runs_ret]. apply runs_prefixed. eapply (runs_open _ Directory). cbn. unfold follow. by rewrite E, E.
Qed.
End complete.

(** * The whole restore *)

Section promises.
Context `{SQLite} `{Engine} (names : list string) (database backup manifestPath : string) (replace : bool) (copied_at replaced_at : Z) (w0 : world).
Let d0 := w0.(files).

(** No name tried for the copy starts with the path of the database. *)
Definition names_apart : Prop := ∀ random, random ∈ names → has_prefix (restore_temp database random) database = false.

(** The directory of the database exists, and what there is at its paths are regular files. *)
Definition plain_destination : Prop := d0 !! path_dir database = Some Directory
  ∧ ∀ s, s ∈ suffixes → d0 !! (database +:+ s) = None ∨ ∃ c t, d0 !! (database +:+ s) = Some (Regular c t).

Lemma triple_restore_alone : names_apart → plain_destination →
  triple (λ w, w = w0) (restoreDatabase names copied_at replaced_at database backup manifestPath replace) (λ r w, is_ok r = true → alone database w) (λ _, True).
Proof.
  intros Hnames [Hdir Hplain]. unfold restoreDatabase. assert (Herr : ∀ (e : error) (w : world), w = w0 → is_ok (Err e : result error string) = true → alone database w) by (by intros e w _ [=]).
  eapply yields_bind; [apply yields_keeps, keeps_read_file|done|done|]. intros text _.
  eapply yields_bind; [apply yields_of_result|done|done|]. intros m _.
  eapply yields_bind; [apply yields_unless|done|done|]. intros ? _.
  eapply yields_bind; [apply yields_keeps, keeps_refuse_sidecars|done|done|]. intros ? _.
  eapply yields_bind; [by apply (yields_destination database w0 suffixes false)|done|done|]. intros found Hfound.
  eapply yields_bind; [apply yields_unless|done|done|]. intros ? _.
  eapply yields_bind; [apply yields_keeps, keeps_mkdir_all; by intros w Hd ->; fold d0 in Hd; rewrite Hdir in Hd|done|done|]. intros ? _.
  apply (triple_bind _ _ _ (λ p w, has_prefix p database = false ∧ vacated database d0 suffixes w)).
  { apply triple_operate; [done|]. intros w ->.
    match goal with |- context [List.find ?f ?l] => destruct (List.find f l) as [p|] eqn:Ef end; [|by intros [=]]. cbn.
    apply List.find_some in Ef as [Hp _]. apply in_map_iff in Hp as (n & <- & Hp). apply in_map_iff in Hp as (random & <- & Hr%list_elem_of_In).
    split; [by apply Hnames|]. apply vacated_put; [by apply Hnames|]. intros s Hs. by rewrite decide_True. }
  intros tmp. apply triple_pointwise. intros w1 [Ht Hw1].
  apply (triple_finally _ _ _ (λ r w, is_ok r = true → alone database w)).
  - apply (triple_bind _ _ _ (λ _, vacated database d0 suffixes)).
    + eapply triple_weaken; [by apply (keeps_vacated_copy database d0 tmp Ht suffixes backup m copied_at)|by intros w ->| |done]. intros [?|?] w Hw; [done|by intros [=]].
    + intros ?. apply triple_alone; [done|done|]. intros ->. by apply Hfound.
  - intros r. destruct r as [b|e]; [|by eapply triple_weaken; [apply (keeps_attempt (λ _, True)), keeps_remove|done|intros [?|?] w _; [by intros [=]|]|done]].
    eapply triple_weaken; [apply (keeps_attempt (alone database)), keeps_remove| | |done].
    + intros w Hw s Hs. cbn. rewrite lookup_delete_ne; [by apply Hw|]. by apply temp_apart.
    + intros w Hw. by apply Hw.
    + by intros [c|e] w Hw.
Qed.

(** C8.  Whatever fails and wherever the process stops, a restore never loses a file of the database it
    replaces: the database and each of its sidecars is at its own path or moved aside under the
    rollback name, with its content.  The names tried for the temporary copy are short enough not to be
    a name of the database's files or of what is moved aside ([names_apart]). *)
Theorem restore_never_loses fs s c t : names_apart → s ∈ suffixes → w0.(files) !! (database +:+ s) = Some (Regular c t) →
  let w' := world_after (restoreDatabase names copied_at replaced_at database backup manifestPath replace fs w0) in
  w'.(files) !! (database +:+ s) = Some (Regular c t) ∨ w'.(files) !! (rollback_base database replaced_at +:+ s) = Some (Regular c t).
Proof.
  intros Hn Hs Hc. pose proof (triple_restore names database backup manifestPath replace copied_at replaced_at w0 Hn fs w0 eq_refl) as Ht.
  cbv zeta. unfold world_after. destruct (restoreDatabase _ _ _ _ _ _ _ fs w0) as [[[[base|e]|] fs'] w']; cbn.
  - destruct Ht as (? & ? & ? & ? & _ & _ & _ & _ & [Hr _] & _). by apply (kept_places _ _ (files w0)); [by eexists|..].
  - by apply (kept_places _ _ (files w0)).
  - by apply (kept_places _ _ (files w0)).
Qed.

(** C29.  A restore that reports success, under any faults, has put in place the content of the backup: it
    matches the manifest and passes every check of the verifier.  Nothing of the old database lies
    beside it, every file that was there is under the rollback name, and without [--replace] there
    was none.  The temporary names are no names of the database's files ([names_apart]) and the
    destination's paths hold regular files or nothing ([plain_destination]). *)
Theorem restore_installs fs c t : names_apart → plain_destination → w0.(files) !! backup = Some (Regular c t) →
  let r := restoreDatabase names copied_at replaced_at database backup manifestPath replace fs w0 in
  let w' := world_after r in
  match outcome r with
  | Some (Ok _) =>
    w'.(files) !! database = Some (Regular c copied_at) ∧ (∃ v, verify_content c = Ok v)
    ∧ (∃ text t m, w0.(files) !! follow w0.(files) manifestPath = Some (Regular text t) ∧ read_manifest text = Some m ∧ content_matches c m = true)
    ∧ (∀ s, s ∈ sidecars → w'.(files) !! (database +:+ s) = None)
    ∧ (∀ s c' t', s ∈ suffixes → w0.(files) !! (database +:+ s) = Some (Regular c' t') →
        replace = true ∧ w'.(files) !! (rollback_base database replaced_at +:+ s) = Some (Regular c' t'))
  | _ => True
  end.
Proof.
  intros Hn Hp Hb. pose proof (triple_restore names database backup manifestPath replace copied_at replaced_at w0 Hn fs w0 eq_refl) as Ht.
  pose proof (triple_restore_alone Hn Hp fs w0 eq_refl) as Ha. cbv zeta. unfold world_after, outcome.
  destruct (restoreDatabase _ _ _ _ _ _ _ fs w0) as [[[[base|e]|] fs'] w']; cbn; [|done|done].
  destruct Ht as (text & t1 & m & copy & Ht & Hm & _ & (Hd & _ & Hv & Hc) & [Hs Hdb] & Hr). rewrite (Hc c t Hb) in *. split_and!; try done.
  - by exists text, t1, m.
  - intros s Hs'. by apply Ha.
  - intros s c' t' Hs' Hc'. split.
    + destruct replace; [done|]. by apply (Hr eq_refl s c' t') in Hs'; [apply elem_of_nil in Hs'|].
    + specialize (Hs s Hs'). rewrite decide_True in Hs by by apply elem_of_list_to_set. by apply Hs.
Qed.
(** The backup is the one its manifest describes, and it passes every check. *)
Record sound_backup (c : string) : Prop := mkSound {
  sb_backup : ∃ t, d0 !! backup = Some (Regular c t);
  sb_manifest : ∃ text t m, d0 !! manifestPath = Some (Regular text t) ∧ read_manifest text = Some m ∧ manifest_accepts backup m = true ∧ content_matches c m = true;
  sb_checked : c ≠ "" ∧ (∃ v, verify_content c = Ok v) ∧ integrity_check c = Ok "ok"
}.

(** Nothing is in the way of a restore: the backup stands alone, the destination is free or to be
    replaced, and the first name tried for the copy is free. *)
Record way_clear : Prop := mkWay {
  wc_standalone : ∀ s, s ∈ sidecars → d0 !! (backup +:+ s) = None;
  wc_destination : plain_destination ∧ (replace = true ∨ ∀ s, s ∈ suffixes → d0 !! (database +:+ s) = None);
  wc_rollback : ∀ s, s ∈ suffixes → dir_at d0 (rollback_base database replaced_at +:+ s) = false;
  wc_names : names_apart ∧ ∃ random l, names = random :: l ∧ d0 !! restore_temp database random = None
}.

Lemma runs_refuse_sidecars l : (∀ s, s ∈ l → d0 !! (backup +:+ s) = None) → runs (refuse_sidecars backup l) w0 () w0.
Proof.
  induction l as [|s l IH]; intros Hl; [done|]. cbn [refuse_sidecars]. eapply runs_bind; [by apply runs_stat_absent, Hl, list_elem_of_here|].
  apply IH. intros u Hu. apply Hl. by apply list_elem_of_further.
Qed.

Lemma runs_destination l : ∀ found, plain_destination → (∀ s, s ∈ l → s ∈ suffixes) →
  ∃ b, runs (destination_exists database found l) w0 b w0 ∧ ((∀ s, s ∈ l → d0 !! (database +:+ s) = None) → b = found)
    ∧ (b = false → found = false ∧ ∀ s, s ∈ l → d0 !! (database +:+ s) = None).
Proof.
  induction l as [|s l IH]; intros found Hp Hl; [exists found; split_and!; [done|done|intros Hf; split; [done|by intros s ?%elem_of_nil]]|]. cbn [destination_exists].
  assert (Hls : ∀ u, u ∈ l → u ∈ suffixes) by (intros u Hu; apply Hl; by apply list_elem_of_further).
  pose proof (proj2 Hp s (Hl s (list_elem_of_here s l))) as [E|(c & t & E)].
  - destruct (IH found Hp Hls) as (b & Hb & Hn & Hn'). exists b. split_and!; [|intros Ha; apply Hn; intros u Hu; apply Ha; by apply list_elem_of_further|].
    2: { intros [Hf Hl']%Hn'. split; [done|]. intros u [->|Hu]%elem_of_cons; [done|by apply Hl']. }
    eapply runs_bind; [by apply runs_stat_absent|]. exact Hb.
  - destruct (IH true Hp Hls) as (b & Hb & _ & Hn'). exists b. split_and!; [|intros Ha; rewrite (Ha s (list_elem_of_here s l)) in E; discriminate|by intros [[=] _]%Hn'].
    eapply runs_bind; [by eapply runs_attempt, runs_stat|]. eapply runs_bind; [by apply runs_unless|]. exact Hb.
Qed.

Lemma runs_copy tmp c m w : untouched tmp d0 w → d0 !! tmp = None → (∃ t, d0 !! backup = Some (Regular c t)) → content_matches c m = true →
  c ≠ "" → (∃ v, verify_content c = Ok v) → integrity_check c = Ok "ok" →
  runs (copy_backup tmp backup m copied_at) w () (set_files (put tmp c copied_at) w).
Proof.
  intros [Hw (c' & t' & Ht)] Hf [t Hb] Hm Hne [v Hv] Hi. apply Hw in Hb. unfold copy_backup.
  assert (Hdir : dir_at (files w) tmp = false) by (unfold dir_at; by rewrite Ht).
  assert (Hput : files (set_files (put tmp c copied_at) w) !! tmp = Some (Regular c copied_at)) by (by apply put_same).
  assert (Hopen : runs (open_path tmp) (set_files (put tmp c copied_at) w) () (set_files (put tmp c copied_at) w)).
  { eapply (runs_open _ (Regular c copied_at)). unfold follow. by rewrite Hput, Hput. }
  eapply runs_bind; [eapply (runs_open _ (Regular c' t')); unfold follow; by rewrite Ht, Ht|].
  eapply runs_bind; [eapply (runs_open _ (Regular c t)); unfold follow; by rewrite Hb, Hb|].
  eapply runs_bind; [by eapply runs_stat|]. eapply runs_bind; [by apply runs_unless|]. eapply runs_bind; [by eapply runs_read|].
  eapply runs_bind; [by apply runs_write|]. eapply runs_bind; [by apply runs_look|].
  eapply runs_bind; [apply runs_unless; cbn; by rewrite Hm, Z.eqb_refl|]. eapply runs_bind; [exact Hopen|]. eapply runs_bind; [by apply runs_look|].
  eapply runs_bind; [by eapply runs_prefixed, runs_verify|]. apply runs_unless. pose proof (verify_content_ok c v Hv) as (_ & _ & -> & -> & _).
  unfold verify_content in Hv. destruct (_ <? _); [discriminate|]. rewrite Hi in Hv. cbn in Hv.
  destruct (negb _); [discriminate|]. apply bind_ok in Hv as (b & _ & Hv). destruct (negb b); [discriminate|].
  apply bind_ok in Hv as (d & _ & Hv). apply bind_ok in Hv as ([] & _ & [= <-]). done.
Qed.

Lemma restore_runs c : sound_backup c → way_clear →
  ∃ base w', runs (restoreDatabase names copied_at replaced_at database backup manifestPath replace) w0 base w'
    ∧ w'.(files) !! database = Some (Regular c copied_at) ∧ w'.(files) !! path_dir database = Some Directory ∧ alone database w'.
Proof.
  intros [Hb (text & t & m & Hm & Hr & Ha & Hc) (Hne & Hv & Hi)] [Hs [Hp Hrep] Hroll [Hn (random & l & El & Hf)]].
  assert (Hend : ∃ base w', runs (restoreDatabase names copied_at replaced_at database backup manifestPath replace) w0 base w'
    ∧ w'.(files) !! path_dir database = Some Directory).
  2: { destruct Hend as (base & w' & Hrun & Hdir). exists base, w'. split; [done|]. destruct Hb as [tb Hb].
       pose proof (runs_triple _ _ _ _ _ _ _ Hrun (triple_restore_alone Hn Hp) eq_refl eq_refl) as Halone.
       pose proof (runs_triple _ _ _ _ _ _ _ Hrun (triple_restore names database backup manifestPath replace copied_at replaced_at w0 Hn) eq_refl)
         as (? & ? & ? & copy & _ & _ & _ & (_ & _ & _ & Hcopy) & [_ Hdb] & _). rewrite (Hcopy c tb Hb) in Hdb. by split_and!. }
  unfold restoreDatabase.
  pose proof (Hn random) as Hr1. rewrite El in Hr1. specialize (Hr1 (list_elem_of_here _ _)).
  set (tmp := restore_temp database random) in *.
  set (w1 := set_files (put tmp "" copied_at) w0). assert (Ht0 : dir_at d0 tmp = false) by (unfold dir_at; by rewrite Hf).
  assert (Hu : untouched tmp d0 w1).
  { split; [|do 2 eexists; by apply put_same]. intros p e He. cbn. rewrite put_other; [done|]. intros ->. congruence. }
  set (w2 := set_files (put tmp c copied_at) w1). destruct (runs_destination suffixes false Hp (λ s H, H)) as (found & Hfound & Hnone & Hfree).
  assert (Hclear : clear database tmp replaced_at d0 (Regular c copied_at) suffixes w2).
  { constructor.
    - do 2 (apply vacated_put; [done|]). intros s Hs'. by rewrite decide_True.
    - intros s Hs'. unfold dir_at. cbn. rewrite !put_other by by apply temp_apart_rollback. by apply Hroll.
    - cbn. rewrite !put_other; [apply Hp|..]; intros E; pose proof (proj1 Hp) as Hdir; rewrite <-E, Hf in Hdir; discriminate.
    - cbn. apply put_same. unfold dir_at. rewrite put_same by done. done. }
  destruct (runs_replace database tmp replaced_at d0 (Regular c copied_at) (proj2 Hp) Hr1 ltac:(done) found w2 Hclear) as (base & w3 & Hbase & Hdir3).
  { intros ->. by apply Hfree. }
  destruct (runs_attempt_remove tmp w3) as (r & w4 & Hrm & Hrest). exists base, w4. split.
  2: { rewrite Hrest; [done|]. intros E. pose proof (proj1 Hp) as Hdir. rewrite E, Hf in Hdir. discriminate. } eapply runs_bind; [by eapply runs_read|]. rewrite Hr. cbn [of_option]. eapply runs_bind; [by apply runs_ret|].
  eapply runs_bind; [by apply runs_unless|]. eapply runs_bind; [by apply runs_refuse_sidecars|]. eapply runs_bind; [exact Hfound|].
  eapply runs_bind; [apply runs_unless|].
  { destruct Hrep as [->|Hrep]; [by rewrite orb_true_r|]. by rewrite (Hnone Hrep). }
  eapply (runs_bind _ _ _ () w0). { unfold runs, mkdir_all, operate. pose proof (proj1 Hp) as E. unfold d0 in E. by rewrite E. }
  eapply (runs_bind _ _ _ tmp w1). { unfold runs, create_temp, operate. rewrite El. cbn [map List.find]. fold d0.
    change (temp_path (path_dir database) (restore_prefix +:+ random)) with tmp. by rewrite Hf. }
  eapply runs_finally; [eapply runs_bind; [by apply runs_copy|exact Hbase]|exact Hrm].
Qed.

End promises.

(** * Instances *)

Definition data_path : string := "/data/lazarus.db".
Definition backup_path : string := path_join backup_dir (backup_base clock).
Definition backup_manifest : string := backup_path +:+ ".manifest.json".

(** After a backup, with an older database and its log where the backup is to be restored. *)
Definition old_content : string := "old image".
Definition replaced_world : world :=
  set_files (λ d, <["/data" := Directory]> (<[data_path := Regular old_content 5]> (<[data_path +:+ "-wal" := Regular "old log" 6]> d))) (world_after first_backup).

Definition restore_run (fs : list fault) : option (result error string) * list fault * world :=
  restoreDatabase ["1"; "2"] (clock + 10) (clock + 11) data_path backup_path backup_manifest true fs replaced_world.

Lemma names_ok : names_apart ["1"; "2"] data_path.
Proof. unfold names_apart. apply Forall_forall. repeat constructor. Qed.

(** What a concrete disk holds at some paths, computed at once. *)
Definition nothing (e : option entry) : bool := match e with None => true | Some _ => false end.
Definition nothing_special (e : option entry) : bool := match e with None | Some (Regular _ _) => true | Some _ => false end.

Lemma all_nothing (d : disk) base l : forallb (λ s, nothing (d !! (base +:+ s))) l = true → ∀ s, s ∈ l → d !! (base +:+ s) = None.
Proof.
  intros Hl s Hs%list_elem_of_In. rewrite forallb_forall in Hl. specialize (Hl s Hs). by destruct (d !! (base +:+ s)).
Qed.

Lemma all_plain (d : disk) base l : forallb (λ s, nothing_special (d !! (base +:+ s))) l = true →
  ∀ s, s ∈ l → d !! (base +:+ s) = None ∨ ∃ c t, d !! (base +:+ s) = Some (Regular c t).
Proof.
  intros Hl s Hs%list_elem_of_In. rewrite forallb_forall in Hl. specialize (Hl s Hs). destruct (d !! (base +:+ s)) as [[]|]; eauto; discriminate.
Qed.

Lemma no_dirs (d : disk) base l : forallb (λ s, negb (dir_at d (base +:+ s))) l = true → ∀ s, s ∈ l → dir_at d (base +:+ s) = false.
Proof. intros Hl s Hs%list_elem_of_In. rewrite forallb_forall in Hl. by apply negb_true_iff, Hl. Qed.

Lemma plain_ok : plain_destination data_path replaced_world.
Proof. split; [vm_compute; reflexivity|]. apply all_plain. vm_compute. reflexivity. Qed.

Lemma restore_never_loses_witness : (world_after (restore_run [])).(files) !! (rollback_base data_path (clock + 11) +:+ "") = Some (Regular old_content 5)
  ∨ (world_after (restore_run [])).(files) !! (data_path +:+ "") = Some (Regular old_content 5).
Proof.
  pose proof (restore_never_loses ["1"; "2"] data_path backup_path backup_manifest true (clock + 10) (clock + 11) replaced_world [] "" old_content 5
    names_ok ltac:(by apply list_elem_of_here) ltac:(by vm_compute)) as Hr. cbv zeta in Hr. destruct Hr as [Hr|Hr]; [right|left]; exact Hr.
Defined.

Lemma image_checked : ∃ v, verify_content "image" = Ok v.
Proof. eexists. vm_compute. reflexivity. Qed.

Lemma replaced_sound : sound_backup backup_path backup_manifest replaced_world "image".
Proof.
  assert (Em : ∃ text t m, replaced_world.(files) !! backup_manifest = Some (Regular text t) ∧ read_manifest text = Some m
    ∧ (manifest_accepts backup_path m && content_matches "image" m) = true).
  { assert (E : match replaced_world.(files) !! backup_manifest with
      | Some (Regular text t) => match read_manifest text with Some m => manifest_accepts backup_path m && content_matches "image" m | None => false end
      | _ => false end = true) by (vm_compute; reflexivity).
    destruct (files replaced_world !! backup_manifest) as [[text t| | |]|]; try discriminate E. destruct (read_manifest text) as [m|] eqn:E2; [|discriminate E].
    exists text, t, m. exact (conj eq_refl (conj E2 E)). }
  destruct Em as (text & t & m & H1 & H2 & [H3 H4]%andb_true_iff). constructor.
  - exists clock. vm_compute. reflexivity.
  - exists text, t, m. exact (conj H1 (conj H2 (conj H3 H4))).
  - split_and!; [discriminate|apply image_checked|reflexivity].
Qed.

Lemma replaced_clear : way_clear ["1"; "2"] data_path backup_path true (clock + 11) replaced_world.
Proof.
  constructor.
  - apply all_nothing. vm_compute. reflexivity.
  - split; [apply plain_ok|by left].
  - apply no_dirs. vm_compute. reflexivity.
  - split; [apply names_ok|]. exists "1", ["2"]. split; [reflexivity|vm_compute; reflexivity].
Qed.


Lemma restore_ok : match outcome (restore_run []) with Some (Ok _) => true | _ => false end = true.
Proof. vm_compute. reflexivity. Qed.

Lemma restore_installs_witness : (world_after (restore_run [])).(files) !! (data_path +:+ "-wal") = None.
Proof.
  pose proof (restore_installs ["1"; "2"] data_path backup_path backup_manifest true (clock + 10) (clock + 11) replaced_world [] "image" clock
    names_ok plain_ok ltac:(vm_compute; reflexivity)) as Hr. cbv zeta in Hr. pose proof restore_ok as Ho. unfold restore_run in Ho |- *.
  destruct (outcome (restoreDatabase _ _ _ _ _ _ _ _ _)) as [[base|e]|]; [|discriminate Ho..].
  destruct Hr as (_ & _ & _ & Hs & _). apply (Hs "-wal"). by apply list_elem_of_here.
Defined.

(** When [os.Stat] fails on a sidecar after the database was moved aside, the restore gives up without
    moving the database back: its path is empty. *)
Example stat_failure_strands_the_database : let r := restore_run (repeat Proceed 24 ++ [Fails ""]) in
  outcome r = Some (Err EIO) ∧ (world_after r).(files) !! data_path = None
  ∧ (world_after r).(files) !! rollback_base data_path (clock + 11) = Some (Regular old_content 5).
Proof. vm_compute. by split_and!. Qed.
