(* ===== verification/Startup.v ===== *)
(** Opening the database: [Open] and [inspectDatabasePath] of internal/store/store.go and
    [startupQuickCheck] of internal/store/startup.go.

    [Opening] is what the model takes from SQLite here: the database it finds in a file and what lies
    beside it, the answer of its quick check there, and the bytes of a file it creates.  Opening sets
    the live database of the world; what SQLite writes to its own files afterwards is not followed.
    The driver reads a path as a DSN (a question mark starts parameters); here it is the file's name.
    [now] stamps the file that is created. *)
From S2P Require Import Prelude Utf8 Json JsonText Strconv Text Errors Values Db Model Verify Disk Artifacts Restore.
Local Open Scope Z_scope.

Class Opening := {
  recover : string → (string → option entry) → result error db;
  quick_check : string → (string → option entry) → result error string;
  new_file : string
}.

(** What lies beside a file, by suffix. *)
Definition beside (d : disk) (path : string) : string → option entry := λ suffix, d !! (path +:+ suffix).

Definition busyTimeoutMS : Z := 5000.

Fixpoint refuse_orphans (path : string) (l : list string) : io () :=
  match l with
  | [] => mret ()
  | suffix :: l' =>
    r ← attempt (stat (path +:+ suffix));
    match r with
    | Ok _ => throw (EText ("refusing to initialize database while orphan sidecar " +:+ path_base (path +:+ suffix) +:+ " exists"))
    | Err e => if is_not_exist e then refuse_orphans path l' else throw e
    end
  end.

(** Whether there is a database at the path. *)
Definition inspectDatabasePath (path : string) : io bool :=
  if isMemoryPath path then mret false
  else
    prefixed "create database directory" (mkdir_all (path_dir path)) ;;
    r ← attempt (stat path);
    match r with
    | Ok info =>
      unless (is_regular_file info && negb (entry_size info =? 0)) (EText "refusing to initialize invalid existing database file") ;;
      mret true
    | Err e => if is_not_exist e then refuse_orphans path sidecars ;; mret false else throw e
    end.

Section open.
Context `{SQLite} `{Engine} `{Opening}.

(** The database of an empty file: SQLite's own schema table and no identity. *)
Definition empty_db : db := mkDb (mkSchema 0 0 [] [] []) ∅ ∅ ∅ [].

(** The statement that first touches the file: SQLite reads it, or creates it. *)
Definition connect (path : string) (existed : bool) (now : Z) : io () :=
  if isMemoryPath path then operate intact (λ w, (Ok (), mkWorld w.(files) empty_db))
  else if existed then operate intact (λ w,
    match lookup_entry w.(files) (follow w.(files) path) with
    | Ok (Regular content _) =>
      match recover content (beside w.(files) path) with
      | Ok d => (Ok (), mkWorld w.(files) d)
      | Err e => (Err e, w)
      end
    | _ => (Err EIO, w)
    end)
  else operate (λ t d, put (follow d path) t now d)
    (λ w, (Ok (), mkWorld (put (follow w.(files) path) new_file now w.(files)) empty_db)).

(** [startupQuickCheck]. *)
Definition startupQuickCheck (path : string) : io () :=
  result ← prefixed "sqlite startup quick check" (look (λ w,
    e ← lookup_entry w.(files) (follow w.(files) path);
    match e with Regular content _ => quick_check content (beside w.(files) path) | _ => Err EIO end));
  unless (equal_fold result "ok") (EWrapped ErrCorrupt result).

Definition pragma (text : string) : io () := prefixed text (look (λ _, Ok ())).

(** [Open]; the store is the live database the world has then. *)
Definition Open (path : string) (now : Z) : io () :=
  unless (negb (String.eqb (trim_space path) "")) (EText "database path is required") ;;
  existed ← inspectDatabasePath path;
  pragma ("PRAGMA busy_timeout=" +:+ format_int busyTimeoutMS) ;;
  pragma "PRAGMA foreign_keys=ON" ;;
  pragma "PRAGMA synchronous=FULL" ;;
  prefixed "PRAGMA journal_mode=WAL" (connect path existed now) ;;
  sqliteVersion ← look (λ _, Ok runtime_version);
  unless (negb (compareVersions sqliteVersion minimumSQLite <? 0))
    (EText ("sqlite runtime " +:+ sqliteVersion +:+ " is older than required " +:+ minimumSQLite)) ;;
  (if (existed : bool) then startupQuickCheck path ;; look (λ w, requireSchemaIdentity w.(live).(db_schema))
   else prefixed "initialize schema" (on_live (λ _, (Ok (), initializeSchema)))) ;;
  (if negb existed && negb (isMemoryPath path) then chmod path else mret ()) ;;
  prefixed "verify startup schema" (look (λ w, verifyRequiredSchema w.(live).(db_schema))).
End open.

