(* ===== verification/StartupFacts.v ===== *)
(** What opening the database promises: it never changes a file that is there, and a database that is
    served was recovered from its file and checked, or is a new one where there was nothing. *)
From S2P Require Import Prelude Utf8 Strconv Text Errors Values Db Model Verify Scenario Disk DiskLogic Artifacts BackupFacts Publication ArtifactFacts BackupPromises Restore RestoreFacts RestorePromises Startup.
Local Open Scope Z_scope.

Section facts.
Context `{SQLite} `{Engine} `{Opening} (path : string) (now : Z).

(** Nothing is where the path leads. *)
Definition nothing_at (d : disk) (p : string) : Prop := d !! follow d p = None.

Lemma keeps_refuse_orphans I l : keeps I (refuse_orphans path l).
Proof. induction l as [|s l IH]; cbn [refuse_orphans]; [keeps|]. io_bind; [keeps|]. destruct a as [?|e]; [keeps|]. destruct (is_not_exist e); [done|keeps]. Qed.

Lemma keeps_quick_check I : keeps I (startupQuickCheck path).
Proof. unfold startupQuickCheck. io_bind; keeps. Qed.

Lemma keeps_pragma I text : keeps I (pragma text).
Proof. unfold pragma. keeps. Qed.

Section here.
Context (w0 : world).
Let here (w : world) : Prop := w = w0.

Lemma yields_stat p : yields here (attempt (stat p)) (λ r, match r with
  | Ok e => files w0 !! follow (files w0) p = Some e
  | Err e => is_not_exist e = true → nothing_at (files w0) p end).
Proof.
  apply triple_attempt, triple_look. intros w ->. split_and!; [done|done|by intros a [= <-]|done|]. intros a [= <-].
  unfold lookup_entry, nothing_at. by destruct (files w0 !! follow _ _).
Qed.

Lemma yields_orphans l : yields here (refuse_orphans path l) (λ _, ∀ s, s ∈ l → nothing_at (files w0) (path +:+ s)).
Proof.
  induction l as [|s l IH]; cbn [refuse_orphans]; [apply yields_ret; by intros s ?%elem_of_nil|].
  eapply yields_then; [apply yields_stat|]. intros [e|e] He; [apply yields_throw|]. destruct (is_not_exist e); [|apply yields_throw].
  eapply triple_weaken; [apply IH|done| |done]. intros r w [Hw Hr]. split; [done|]. intros a Ha u [->|Hu]%elem_of_cons; [by apply He|by eapply Hr].
Qed.

(** What the inspection finds. *)
Definition inspected (existed : bool) : Prop :=
  if isMemoryPath path then existed = false
  else if existed then ∃ c t, files w0 !! follow (files w0) path = Some (Regular c t) ∧ c ≠ ""
  else nothing_at (files w0) path ∧ ∀ s, s ∈ sidecars → nothing_at (files w0) (path +:+ s).

Lemma yields_found : isMemoryPath path = false →
  yields here (r ← attempt (stat path);
    match r with
    | Ok info =>
      unless (is_regular_file info && negb (entry_size info =? 0)) (EText "refusing to initialize invalid existing database file") ;;
      mret true
    | Err e => if is_not_exist e then refuse_orphans path sidecars ;; mret false else throw e
    end) inspected.
Proof.
  intros Hm. eapply yields_then; [apply yields_stat|]. intros [info|e] He.
  - eapply yields_then; [apply (yields_unless here)|]. intros ? [Hr Hs]%andb_true_iff. apply yields_ret. unfold inspected. rewrite Hm.
    destruct info as [c t| | |]; try discriminate Hr. exists c, t. split; [done|]. intros ->. by vm_compute in Hs.
  - destruct (is_not_exist e); [|apply yields_throw]. eapply yields_then; [apply yields_orphans|]. intros ? Ho. apply yields_ret.
    unfold inspected. rewrite Hm. split; [by apply He|done].
Qed.
End here.

(** Every file that was there is there, unchanged. *)
Definition nothing_lost (d0 : disk) (w : world) : Prop := ∀ p e, d0 !! p = Some e → w.(files) !! p = Some e.

(** What is served in the end. *)
Definition opened (existed : bool) (w : world) : Prop :=
  verifyRequiredSchema w.(live).(db_schema) = Ok () ∧
  if existed then ∃ c t i, files w !! follow (files w) path = Some (Regular c t) ∧ recover c (beside w.(files) path) = Ok w.(live)
    ∧ quick_check c (beside w.(files) path) = Ok i ∧ equal_fold i "ok" = true
  else w.(live) = initializeSchema.

(** From the connection on, with what was inspected known. *)
Definition after_inspection (existed : bool) : io () :=
  pragma ("PRAGMA busy_timeout=" +:+ format_int busyTimeoutMS) ;;
  pragma "PRAGMA foreign_keys=ON" ;;
  pragma "PRAGMA synchronous=FULL" ;;
  prefixed "PRAGMA journal_mode=WAL" (connect path existed now) ;;
  sqliteVersion ← look (λ _, Ok runtime_version);
  unless (negb (compareVersions sqliteVersion minimumSQLite <? 0))
    (EText ("sqlite runtime " +:+ sqliteVersion +:+ " is older than required " +:+ minimumSQLite)) ;;
  (if (existed : bool) then startupQuickCheck path ;; look (λ w, requireSchemaIdentity w.(live).(db_schema))
   else prefixed "initialize schema" (on_live (λ _, (Ok (), initializeSchema)))) ;;
  (if negb existed && negb (isMemoryPath path) then chmod path else mret ()) ;;
  prefixed "verify startup schema" (look (λ w, verifyRequiredSchema w.(live).(db_schema))).

Lemma Open_steps : Open path now = (unless (negb (String.eqb (trim_space path) "")) (EText "database path is required") ;;
  existed ← inspectDatabasePath path; after_inspection existed).
Proof. reflexivity. Qed.

(** The checks on a database that was connected. *)
Lemma triple_checks existed (I : world → Prop) : (∀ w, I w → I (mkWorld w.(files) initializeSchema)) →
  keeps I ((if (existed : bool) then startupQuickCheck path ;; look (λ w, requireSchemaIdentity w.(live).(db_schema))
    else prefixed "initialize schema" (on_live (λ _, (Ok (), initializeSchema)))) ;;
    (if negb existed && negb (isMemoryPath path) then chmod path else mret ()) ;;
    prefixed "verify startup schema" (look (λ w, verifyRequiredSchema w.(live).(db_schema)))).
Proof.
  intros HI. io_bind.
  - destruct existed; [io_bind; [apply keeps_quick_check|keeps]|]. by apply keeps_prefixed, keeps_on_live.
  - io_bind; [case_if; keeps|keeps].
Qed.

Lemma nothing_lost_put d0 w q c : nothing_lost d0 w → files w !! q = None → nothing_lost d0 (set_files (put q c now) w).
Proof. intros Hw Hq p e Hp. cbn. rewrite put_other; [by apply Hw|]. intros ->. apply Hw in Hp. congruence. Qed.

Lemma triple_connect_kept d0 w1 existed : nothing_lost d0 w1 → inspected w1 existed →
  triple (λ w, w = w1) (connect path existed now) (λ _, nothing_lost d0) (nothing_lost d0).
Proof.
  intros Hl Hi. unfold inspected in Hi. unfold connect. destruct (isMemoryPath path).
  - apply triple_operate; [intros t w ->; by rewrite set_files_intact|by intros w ->].
  - destruct existed.
    + apply triple_operate; [intros t w ->; by rewrite set_files_intact|]. intros w ->. destruct (lookup_entry _ _) as [[c t| | |]|]; cbn; try done. by destruct (recover c _).
    + destruct Hi as [Hq _]. apply triple_operate; [intros t w ->; split; by apply nothing_lost_put|]. intros w ->. cbn. by apply (nothing_lost_put d0 w1).
Qed.

Lemma triple_inspect d0 : triple (nothing_lost d0) (inspectDatabasePath path)
  (λ r w, nothing_lost d0 w ∧ ∀ b, r = Ok b → inspected w b) (nothing_lost d0).
Proof.
  unfold inspectDatabasePath. destruct (isMemoryPath path) eqn:Em.
  - apply triple_ret. intros w Hw. split; [done|]. intros b [= <-]. unfold inspected. by rewrite Em.
  - apply (triple_bind _ _ _ (λ _, nothing_lost d0)).
    { eapply triple_weaken; [apply (keeps_prefixed (nothing_lost d0)), keeps_mkdir_all|done|by intros [?|?]|done].
      intros w Hd Hw p e Hp. cbn. rewrite lookup_insert_ne; [by apply Hw|]. intros <-. apply Hw in Hp. congruence. }
    intros ?. apply triple_pointwise. intros w1 Hw1. eapply triple_weaken; [by apply (yields_found w1)|done| |by intros w ->].
    intros r w [-> Hr]. by split.
Qed.

(** Opening never changes a file.  Whatever fails and wherever the process stops, every file of the
    disk is there with its content afterwards: a database that is refused is left alone, and one is
    created only where there was nothing. *)
Theorem open_keeps_files fs w p e : w.(files) !! p = Some e → (world_after (Open path now fs w)).(files) !! p = Some e.
Proof.
  assert (Ht : triple (nothing_lost w.(files)) (Open path now) (λ _, nothing_lost w.(files)) (nothing_lost w.(files))).
  { rewrite Open_steps. eapply yields_bind; [apply yields_unless|done|done|]. intros ? _.
    eapply triple_bind; [eapply triple_weaken; [apply (triple_inspect w.(files))|done| |done]|].
    { intros [b|e'] w' [Hw Hb]; [exact (conj Hw (Hb b eq_refl))|done]. }
    intros existed. apply triple_pointwise. intros w1 [Hl Hi]. unfold after_inspection.
    do 3 (eapply yields_bind; [apply yields_keeps, keeps_pragma|by intros w' ->|by intros e' w' ->|]; intros ? _).
    eapply (triple_bind _ _ _ (λ _, nothing_lost w.(files))); [eapply triple_prefixed, triple_weaken; [by apply (triple_connect_kept w.(files) w1)|done|by intros [?|?]|done]|].
    intros ?. do 2 (apply keeps_bind; [keeps|]; intros ?). by apply triple_checks. }
  intros Hp. specialize (Ht fs w (λ p e H, H)). unfold world_after. destruct (Open path now fs w) as [[[r|] fs'] w']; by apply Ht.
Qed.

(** * What is served *)

(** The connection, from a world that was inspected. *)
Lemma triple_connect_ok w1 existed : inspected w1 existed →
  triple (λ w, w = w1) (connect path existed now) (λ r w2, r = Ok () →
    if isMemoryPath path then True
    else if existed then w2.(files) = w1.(files) ∧ ∃ c t, files w1 !! follow (files w1) path = Some (Regular c t) ∧ recover c (beside w1.(files) path) = Ok w2.(live)
    else True) (λ _, True).
Proof.
  unfold inspected, connect. intros Hi. destruct (isMemoryPath path); [by apply triple_operate|]. destruct existed; [|by apply triple_operate].
  apply triple_operate; [done|]. intros w ->. destruct Hi as (c & t & Hc & _). unfold lookup_entry. rewrite Hc. cbn.
  destruct (recover c _) as [d|e] eqn:Er; [|by intros [=]]. intros _. split; [done|]. by exists c, t.
Qed.

Lemma triple_served w2 existed : (if isMemoryPath path then existed = false else existed = true →
    ∃ c t, files w2 !! follow (files w2) path = Some (Regular c t) ∧ recover c (beside w2.(files) path) = Ok w2.(live)) →
  triple (λ w, w = w2) ((if (existed : bool) then startupQuickCheck path ;; look (λ w, requireSchemaIdentity w.(live).(db_schema))
    else prefixed "initialize schema" (on_live (λ _, (Ok (), initializeSchema)))) ;;
    (if negb existed && negb (isMemoryPath path) then chmod path else mret ()) ;;
    prefixed "verify startup schema" (look (λ w, verifyRequiredSchema w.(live).(db_schema))))
  (λ r w, r = Ok () → opened existed w) (λ _, True).
Proof.
  intros Hc. destruct existed.
  - destruct (isMemoryPath path); [discriminate|]. destruct (Hc eq_refl) as (c & t & Hf & Hr).
    eapply (yields_bind _ _ _ (λ _, ∃ i, quick_check c (beside w2.(files) path) = Ok i ∧ equal_fold i "ok" = true)); [|done|done|].
    { unfold startupQuickCheck. eapply yields_then; [|intros ? Hq; eapply triple_weaken; [apply (yields_look w2)|done|intros r w [Hw _]; split; [done|intros ? _; exact Hq]|done]].
      eapply yields_then; [apply yields_prefixed, yields_look|]. cbn beta. intros i Hi. unfold lookup_entry in Hi. rewrite Hf in Hi. cbn in Hi.
      eapply triple_weaken; [apply (yields_unless (λ w, w = w2))|done| |done]. intros r w [Hw Hu]. split; [done|]. intros a Ha. exists i. split; [done|by eapply Hu]. }
    intros ? (i & Hi & Hok). eapply yields_bind; [by apply yields_keeps, keeps_ret|done|done|]. intros ? _.
    eapply triple_weaken; [apply yields_prefixed, (yields_look w2)|done| |done]. intros r w [-> Hv] ->. split; [by apply Hv|]. by exists c, t, i.
  - eapply (triple_bind _ _ _ (λ _ w, w.(live) = initializeSchema)).
    { assert (Hon : triple (λ w, w = w2) (on_live (λ _, (Ok (), initializeSchema))) (λ r w, r = Ok () → w.(live) = initializeSchema) (λ _, True))
        by by apply triple_operate.
      eapply triple_prefixed, triple_weaken; [exact Hon|done| |done]. intros [[]|e] w Hw; [by apply Hw|by intros [=]]. }
    intros ?. eapply (yields_bind (λ w, w.(live) = initializeSchema)); [apply yields_keeps; case_if; keeps|done|done|]. intros ? _.
    apply triple_pointwise. intros w3 Hl. eapply triple_weaken; [apply yields_prefixed, (yields_look w3)|done| |done].
    intros r w [-> Hv] ->. split; [by apply Hv|done].
Qed.

(** C31.  What [Open] serves, under any faults, has the required schema and identity.  Where the path leads
    to a file, it is what SQLite recovers from that file, which is regular and not empty, and its quick
    check passed; otherwise nothing was at the path nor at the paths of its sidecars, and the database
    is a new one.  The directory of the path exists; for a database in memory nothing is said of files. *)
Theorem open_serves_checked fs w : w.(files) !! path_dir path = Some Directory →
  let r := Open path now fs w in outcome r = Some (Ok ()) → ∃ existed, inspected w existed ∧ opened existed (world_after r).
Proof.
  intros Hdir.
  assert (Ht : triple (λ w', w' = w) (Open path now) (λ r w', r = Ok () → ∃ existed, inspected w existed ∧ opened existed w') (λ _, True)).
  { rewrite Open_steps. eapply yields_bind; [apply yields_unless|done|done|]. intros ? _.
    eapply (yields_bind _ _ _ (inspected w)); [|done|done|].
    { unfold inspectDatabasePath. destruct (isMemoryPath path) eqn:Em; [apply yields_ret; unfold inspected; by rewrite Em|].
      eapply yields_then; [apply yields_keeps, keeps_prefixed, keeps_mkdir_all; by intros w' Hd ->; rewrite Hdir in Hd|]. intros ? _. by apply yields_found. }
    intros existed Hi. unfold after_inspection.
    do 3 (eapply yields_bind; [apply yields_keeps, keeps_pragma|done|done|]; intros ? _).
    eapply (triple_bind _ _ _ (λ _ w2, if isMemoryPath path then True else if existed then w2.(files) = w.(files) ∧
      ∃ c t, files w !! follow (files w) path = Some (Regular c t) ∧ recover c (beside w.(files) path) = Ok w2.(live) else True));
      [eapply triple_prefixed, triple_weaken; [by apply (triple_connect_ok w existed)|done| |done]|].
    { intros [[]|e] w' Hw; [by apply Hw|done]. }
    intros ?. apply triple_pointwise. intros w2 Hw2.
    do 2 (eapply yields_bind; [apply yields_keeps; keeps|done|done|]; intros ? _).
    eapply triple_weaken; [apply (triple_served w2 existed)|done|by intros r w' Hr Hok; exists existed; split; [|apply Hr]|done].
    unfold inspected in Hi. destruct (isMemoryPath path); [done|]. intros ->. destruct Hw2 as [Hf Hw2]. by rewrite Hf. }
  cbv zeta. specialize (Ht fs w eq_refl). unfold outcome, world_after. destruct (Open path now fs w) as [[r fs'] w']. cbn. intros ->. by apply Ht.
Qed.
End facts.

(** * Instances *)

(** An opening that finds the finished database in every file. *)
#[export] Instance opening : Opening := {| recover _ _ := Ok completed; quick_check _ _ := Ok "ok"; new_file := "fresh" |}.

Lemma open_keeps_files_witness : replaced_world.(files) !! data_path = Some (Regular old_content 5)
  ∧ (world_after (Open data_path clock [Proceed; Fails "torn"] replaced_world)).(files) !! data_path = Some (Regular old_content 5).
Proof. split; [vm_compute; reflexivity|]. apply open_keeps_files. vm_compute. reflexivity. Defined.

Definition open_run : option (result error ()) * list fault * world := Open data_path clock [] replaced_world.

Lemma open_serves_checked_witness : ∃ existed, inspected data_path replaced_world existed ∧ opened data_path existed (world_after open_run).
Proof.
  assert (E1 : replaced_world.(files) !! path_dir data_path = Some Directory) by (vm_compute; reflexivity).
  assert (E2 : outcome open_run = Some (Ok ())) by (vm_compute; reflexivity).
  pose proof (open_serves_checked data_path clock [] replaced_world E1) as Hr. cbv zeta in Hr. fold open_run in Hr. exact (Hr E2).
Defined.
