(* ===== verification/Recovery.v ===== *)
(** From a backup to a served database: a backup that was reported made can be restored, and opening the
    restored file serves the database the backup was made of. *)
From S2P Require Import Prelude Utf8 Json JsonText Strconv GoTime Sha256 JsonDecode Text Errors Values Db Model Events Mutations Verify System Effects Scenario Disk DiskLogic Artifacts Backup BackupNames BackupFacts Publication ArtifactFacts BackupPromises Restore RestoreFacts RestorePromises Startup StartupFacts.
Local Open Scope Z_scope.

(** * Names of paths *)

Lemma last_element_plain n : str_mem "/" n = false → ∀ acc, last_element acc n = acc +:+ n.
Proof.
  induction n as [|c n IH]; intros Hn acc; [by rewrite app_str_nil_r|]. cbn in Hn. apply orb_false_iff in Hn as [Hc Hn].
  cbn [last_element]. assert (Hc' : Ascii.eqb c "/" = false) by (apply Ascii.eqb_neq; intros ->; discriminate). by rewrite Hc', IH, app_str_assoc.
Qed.

Lemma last_element_join n : str_mem "/" n = false → n ≠ "" → ∀ d acc, last_element acc (d +:+ "/" +:+ n) = n.
Proof.
  intros Hn Hne. induction d as [|c d IH]; intros acc.
  - rewrite app_str_nil_l, app_str_cons, app_str_nil_l. cbn [last_element]. rewrite Ascii.eqb_refl. destruct n; [done|]. by rewrite last_element_plain.
  - rewrite app_str_cons. cbn [last_element]. destruct (Ascii.eqb c "/"); apply IH.
Qed.

Lemma strip_plain n : str_mem "/" n = false → n ≠ "" → ∀ d,
  strip_slashes (rev (list_ascii_of_string (d +:+ n))) = rev (list_ascii_of_string (d +:+ n)).
Proof.
  intros Hn Hne d. assert (Hl : ∃ a c, n = a +:+ String c "" ∧ c ≠ "/"%char).
  { revert Hn Hne. induction n as [|c n IH]; [done|]. cbn. intros [Hc Hn]%orb_false_iff _. destruct n as [|c' n].
    - exists "", c. split; [done|]. intros ->. discriminate.
    - destruct (IH Hn ltac:(done)) as (a & x & -> & Hx). by exists (String c a), x. }
  destruct Hl as (a & c & -> & Hc). rewrite <-app_str_assoc.
  assert (Ha : ∀ s, list_ascii_of_string (s +:+ String c "") = list_ascii_of_string s ++ [c]).
  { induction s as [|x s IH]; [done|]. rewrite app_str_cons. cbn. by rewrite IH. }
  rewrite Ha, rev_app_distr. cbn. by rewrite (proj2 (Ascii.eqb_neq _ _) Hc).
Qed.

(** The last element of a path in a directory is the name. *)
Lemma path_base_join dir n : str_mem "/" n = false → n ≠ "" → path_base (path_join dir n) = n.
Proof.
  intros Hn Hne. unfold path_base, path_join. destruct (String.eqb (dir +:+ "/" +:+ n) "") eqn:E.
  { apply String.eqb_eq in E. by destruct dir. }
  rewrite <-app_str_assoc, strip_plain, rev_involutive, app_str_assoc by done.
  destruct (list_ascii_of_string (dir +:+ "/" +:+ n)) as [|x l] eqn:El; [by destruct dir|]. rewrite <-El, string_of_list_ascii_of_string. by apply last_element_join.
Qed.

Lemma base_no_slash now : time_ok now = true → str_mem "/" (backup_base now) = false.
Proof.
  intros Ht. pose proof (base_chars now Ht) as Hb. induction (backup_base now) as [|c s IH]; [done|]. cbn [str_forall str_mem] in Hb |- *.
  apply andb_true_iff in Hb as [Hc Hs]. rewrite IH, orb_false_r by done. apply Ascii.eqb_neq. intros <-. by vm_compute in Hc.
Qed.

Lemma base_nonempty now : backup_base now ≠ "".
Proof. unfold backup_base. intros H. rewrite app_str_cons in H. discriminate H. Qed.

Section recovery.
Context `{SQLite} `{Engine} `{!EngineLaws} `{Opening}.

(** What SQLite promises of [VACUUM INTO]: the copy of a database, with nothing beside it, opens as that
    database and passes SQLite's checks. *)
Record faithful_copy (d : db) : Prop := mkFaithful {
  fc_opens : open_file (vacuum d) = Ok d;
  fc_checks : integrity_check (vacuum d) = Ok "ok";
  fc_recovers : ∀ b : string → option entry, (∀ s, s ∈ sidecars → b s = None) → recover (vacuum d) b = Ok d ∧ quick_check (vacuum d) b = Ok "ok"
}.

(** The backup that was made is sound. *)
Lemma made_sound dir now minAge d0 others audit m w : time_ok now = true → integrity_check (vacuum d0) = Ok "ok" →
  made dir now minAge true d0 others audit m w → m.(B_Filename) = backup_base now ∧
  sound_backup (path_join dir (backup_base now)) (path_join dir (backup_base now) +:+ ".manifest.json") w (vacuum d0).
Proof.
  intros Ht Hi (Hd & _ & text & Hr & [_ Hc]). destruct (Hc eq_refl) as (_ & _ & Hf & Hm). destruct Hd as (v & Hv & Hne & Em).
  pose proof (verify_content_ok _ _ Hv) as (_ & _ & Hfk & Happ & _).
  assert (Hvi : v.(V_IntegrityCheck) = "ok").
  { unfold verify_content in Hv. destruct (_ <? _); [discriminate|]. rewrite Hi in Hv. cbn in Hv. destruct (negb _); [discriminate|].
    apply bind_ok in Hv as (b & _ & Hv). destruct (negb b); [discriminate|]. by apply bind_ok in Hv as (d & _ & ([] & _ & [= <-])%bind_ok). }
  split; [by rewrite Em|]. constructor.
  - by exists now.
  - exists text, now, m. split_and!; try done.
    + unfold manifest_accepts. rewrite path_base_join; [|by apply base_no_slash|apply base_nonempty].
      rewrite Em. cbn. by rewrite String.eqb_refl, Hvi, Hfk, Happ.
    + rewrite Em. unfold content_matches. cbn. by rewrite Z.eqb_refl, equal_fold_refl.
  - split_and!; [done|by exists v|done].
Qed.

(** Opening a file from which SQLite recovers a database with the required schema. *)
Lemma runs_open_file database c t d i now w : isMemoryPath database = false → trim_space database ≠ "" →
  w.(files) !! follow w.(files) database = Some (Regular c t) → c ≠ "" → w.(files) !! path_dir database = Some Directory →
  compareVersions runtime_version minimumSQLite <? 0 = false → verifyRequiredSchema d.(db_schema) = Ok () →
  recover c (beside w.(files) database) = Ok d → quick_check c (beside w.(files) database) = Ok i → equal_fold i "ok" = true →
  runs (Open database now) w () (mkWorld w.(files) d).
Proof.
  intros Hm Hp Hf Hne Hdir Hver Hs Hrec Hq Hi. unfold Open.
  eapply runs_bind; [apply runs_unless; by rewrite (proj2 (String.eqb_neq _ _) Hp)|].
  eapply (runs_bind _ _ _ true w).
  { unfold inspectDatabasePath. rewrite Hm. eapply (runs_bind _ _ _ () w); [apply runs_prefixed; unfold runs, mkdir_all, operate; by rewrite Hdir|].
    eapply (runs_bind _ _ _ (Ok (Regular c t)) w); [apply runs_attempt, runs_look; unfold lookup_entry; by rewrite Hf|]. eapply runs_bind; [apply runs_unless|done].
    cbn [is_regular_file entry_size]. by rewrite (proj2 (Z.eqb_neq _ _)) by by rewrite len_zero. }
  do 3 (eapply runs_bind; [apply runs_prefixed; by apply runs_look|]).
  eapply (runs_bind _ _ _ () (mkWorld w.(files) d)).
  { apply runs_prefixed. unfold runs, connect, operate. rewrite Hm. unfold lookup_entry. rewrite Hf. cbn. by rewrite Hrec. }
  eapply runs_bind; [by apply runs_look|]. eapply runs_bind; [apply runs_unless; by rewrite Hver|].
  eapply (runs_bind _ _ _ () (mkWorld w.(files) d)).
  { eapply runs_bind; [|apply runs_look; by apply bind_ok in Hs as ([] & ? & _)].
    unfold startupQuickCheck. eapply (runs_bind _ _ _ i); [|by apply runs_unless].
    apply runs_prefixed, runs_look. cbn. unfold lookup_entry. rewrite Hf. exact Hq. }
  eapply runs_bind; [by apply runs_ret|]. apply runs_prefixed. by apply runs_look.
Qed.

(** C4.  A backup can be recovered.  Let a backup be made under any faults and among the writes of other
    requests, in a directory whose published pairs are valid (as C9 keeps it) and without a manifest under
    the name of this instant, between the years 0 and 9999, with a positive minimum age, as every backup of
    the server has ([Command.settings_bounded]), or with no backup of a greater name.  When it is reported
    made and is a new one (a repeated request is answered with the pair made before, see C24), then
    restoring that pair to a path of a file, where nothing is in the way and without faults, succeeds, and
    opening the restored file serves exactly the database that was live at the moment of the copy.
    [faithful_copy] is what SQLite promises of [VACUUM INTO].  Without a minimum age and with a clock that
    was set back there may be nothing to restore: [BackupPromises.rotated_at_once]. *)
Theorem backup_recovers others path dir keep minAge now actor role rid fs w m database names replace copied_at replaced_at opened_at :
  let copied := others Copying (others Checking (others Looking w.(live))) in
  published dir w.(files) → w.(files) !! (path_join dir (backup_base now) +:+ ".manifest.json") = None → time_ok now = true →
  (0 < minAge ∨ ∀ n e, backup_name n → w.(files) !! path_join dir n = Some e → String.leb n (backup_base now) = true) →
  faithful_copy copied → isMemoryPath database = false → trim_space database ≠ "" →
  let r := BackupAmong others path dir keep minAge now actor role rid fs w in
  let backup := path_join dir m.(B_Filename) in
  outcome r = Some (Ok m) → m.(B_Filename) = backup_base now →
  way_clear names database backup replace replaced_at (world_after r) →
  ∃ base w2, runs (restoreDatabase names copied_at replaced_at database backup (backup +:+ ".manifest.json") replace) (world_after r) base w2
    ∧ runs (Open database opened_at) w2 () (mkWorld w2.(files) copied).
Proof.
  cbv zeta. fold (copied_live others w.(live)). intros Hp Hm Ht Hn [Ho Hi Hr] Hmem Hdb Hout Hname Hway.
  pose proof (triple_backup others true path dir keep minAge now actor role rid w.(live) fs w ltac:(split; [split_and!; [done|done|by intros _]|done])) as Hk.
  unfold outcome, world_after in *. destruct (BackupAmong _ _ _ _ _ _ _ _ _ fs w) as [[r fs'] w1]. cbn in Hout, Hway, Hk |- *. subst r.
  destruct Hk as [Hk|((_ & Hnone & _) & _ & (m0 & c & t & text & t' & v & _ & Hm' & _))]; [|rewrite Hname in Hm'; congruence].
  destruct (made_sound dir now minAge _ others _ m w1 Ht Hi Hk) as [_ Hs]. rewrite Hname in *.
  destruct (restore_runs names database _ _ replace copied_at replaced_at w1 _ Hs Hway) as (base & w2 & Hrun & Hfile & Hdir & Halone).
  exists base, w2. split; [done|]. destruct Hs as [_ _ (Hne & [v Hv] & _)].
  pose proof (verify_content_ok _ _ Hv) as (_ & _ & _ & _ & _ & d & Hd & Happ). rewrite Ho in Hd. injection Hd as <-.
  destruct (Hr (beside w2.(files) database) Halone) as [Hrec Hq].
  eapply runs_open_file; [done|done| |done|done| | |exact Hrec|exact Hq|done].
  - unfold follow. rewrite Hfile. exact Hfile.
  - unfold verify_content in Hv. by destruct (_ <? _).
  - unfold verifyApplicationData in Happ. by apply bind_ok in Happ as ([] & Hsch & _).
Qed.
End recovery.

(** * Instances *)

(** The directory of a new destination is there before the backup. *)
Definition data_disk : world := set_files <["/data" := Directory]> empty_disk.
Definition data_backup : option (result error BackupManifest) * list fault * world :=
  BackupAmong busy "/data/old.db" backup_dir 7 one_day clock "alice" "admin" "backup-1" [] data_disk.

Lemma data_backup_made : ∃ m, outcome data_backup = Some (Ok m) ∧ m.(B_Filename) = backup_base clock.
Proof.
  assert (E : match outcome data_backup with Some (Ok m) => String.eqb m.(B_Filename) (backup_base clock) | _ => false end = true) by (vm_compute; reflexivity).
  destruct (outcome data_backup) as [[m|e]|]; [|discriminate E..]. exists m. split; [reflexivity|]. by apply String.eqb_eq.
Qed.

Lemma data_published : published backup_dir data_disk.(files).
Proof.
  intros n c t c' t' _ Hc _. cbn in Hc. rewrite lookup_insert_ne in Hc by discriminate. apply lookup_singleton_Some in Hc as [E _]. symmetry in E.
  by apply dir_not_entry' in E.
Qed.

Lemma completed_faithful : faithful_copy completed.
Proof. constructor; [reflexivity|reflexivity|]. intros b _. by split. Qed.

Lemma data_clear : way_clear ["1"] data_path backup_path false (clock + 11) (world_after data_backup).
Proof.
  constructor.
  - apply all_nothing. vm_compute. reflexivity.
  - split; [split; [vm_compute; reflexivity|]|right].
    + apply all_plain. vm_compute. reflexivity.
    + apply all_nothing. vm_compute. reflexivity.
  - apply no_dirs. vm_compute. reflexivity.
  - split; [unfold names_apart; apply Forall_forall; repeat constructor|]. exists "1", []. split; [reflexivity|vm_compute; reflexivity].
Qed.

Lemma backup_recovers_witness : ∃ m, outcome data_backup = Some (Ok m) ∧ ∃ base w2,
  runs (restoreDatabase ["1"] (clock + 10) (clock + 11) data_path (path_join backup_dir m.(B_Filename)) (path_join backup_dir m.(B_Filename) +:+ ".manifest.json") false)
    (world_after data_backup) base w2 ∧ runs (Open data_path (clock + 12)) w2 () (mkWorld w2.(files) completed).
Proof.
  destruct data_backup_made as (m & Hm & Hn). exists m. split; [exact Hm|].
  pose proof (backup_recovers busy "/data/old.db" backup_dir 7 one_day clock "alice" "admin" "backup-1" [] data_disk m data_path ["1"] false (clock + 10) (clock + 11) (clock + 12)
    data_published ltac:(vm_compute; reflexivity) ltac:(vm_compute; reflexivity) (or_introl eq_refl) completed_faithful eq_refl ltac:(discriminate)) as Hr.
  cbv zeta in Hr. fold data_backup in Hr. apply Hr; [exact Hm|exact Hn|]. rewrite Hn. exact data_clear.
Defined.
