(* ===== verification/Api.v ===== *)
(** The HTTP API: internal/api/routes.go, handlers.go and the dispatch of server.go.

    A handler of the store's data is a function of the request, its principal and identifier, the
    instants the store's clock gives, and the database; it answers with a response and the database
    it leaves.  The two backup handlers are computations over the disk and the live database, which
    may fail or stop the process ([None] for the response).  The mux of [net/http] sees a clean path,
    as its segments: it selects the first route whose pattern and method match, GET routes serving
    HEAD too, and answers 405 when only the method differs.  A file is answered whole: ranges and
    conditional requests are [http.ServeContent]'s.  The headers of the mux's own answers, the escapes
    of the version label of the metrics and the log lines are left out. *)
From S2P Require Import Prelude Utf8 Json JsonText Strconv GoTime Sha256 JsonDecode Text Auth Errors Values Lifecycle Db Model Events Mutations Reads Request Disk Artifacts Backup.
Local Open Scope Z_scope.

(** * Routes *)

Inductive probe := HHealth | HReady | HVersion | HMetrics.

Inductive endpoint :=
  | HListMaintenances | HCreateMaintenance | HGetMaintenance | HTransitionMaintenance
  | HGetCapture | HCaptureMaintenance | HGetTarget | HTransitionTarget | HAddTargetObservation
  | HListEvents | HCreateBackup | HBackupArtifact.

(** The handler of a route: public, or wrapped in [require]. *)
Inductive handler := Public (p : probe) | Guarded (role : string) (h : endpoint).

Inductive segment := Lit (s : string) | Wild.

(** A route: method, pattern, handler. *)
Definition route : Type := string * list segment * handler.

Definition api (l : list segment) : list segment := Lit "api" :: Lit "v1" :: l.

Definition buildRoutes : list route := [
  ("GET", [Lit "healthz"], Public HHealth);
  ("GET", [Lit "livez"], Public HHealth);
  ("GET", [Lit "startupz"], Public HHealth);
  ("GET", [Lit "readyz"], Public HReady);
  ("GET", [Lit "version"], Public HVersion);
  ("GET", [Lit "metrics"], Public HMetrics);
  ("GET", api [Lit "maintenance"], Guarded RoleReader HListMaintenances);
  ("POST", api [Lit "maintenance"], Guarded RoleOperator HCreateMaintenance);
  ("GET", api [Lit "maintenance"; Wild], Guarded RoleReader HGetMaintenance);
  ("PATCH", api [Lit "maintenance"; Wild], Guarded RoleOperator HTransitionMaintenance);
  ("GET", api [Lit "maintenance"; Wild; Lit "capture"], Guarded RoleReader HGetCapture);
  ("PUT", api [Lit "maintenance"; Wild; Lit "capture"], Guarded RoleOperator HCaptureMaintenance);
  ("GET", api [Lit "maintenance"; Wild; Lit "targets"; Wild], Guarded RoleReader HGetTarget);
  ("PATCH", api [Lit "maintenance"; Wild; Lit "targets"; Wild], Guarded RoleOperator HTransitionTarget);
  ("POST", api [Lit "maintenance"; Wild; Lit "targets"; Wild; Lit "observations"], Guarded RoleOperator HAddTargetObservation);
  ("GET", api [Lit "events"], Guarded RoleReader HListEvents);
  ("POST", api [Lit "admin"; Lit "backups"], Guarded RoleAdmin HCreateBackup);
  ("GET", api [Lit "admin"; Lit "backups"; Wild], Guarded RoleAdmin HBackupArtifact);
  ("HEAD", api [Lit "admin"; Lit "backups"; Wild], Guarded RoleAdmin HBackupArtifact)].

(** The values of the wildcards when the pattern matches; a wildcard takes one nonempty segment. *)
Fixpoint match_pattern (p : list segment) (path : list string) : option (list string) :=
  match p, path with
  | [], [] => Some []
  | Lit l :: p', s :: path' => if String.eqb l s then match_pattern p' path' else None
  | Wild :: p', s :: path' => if String.eqb s "" then None else cons s <$> match_pattern p' path'
  | _, _ => None
  end.

Definition method_matches (pattern method : string) : bool :=
  String.eqb pattern method || String.eqb pattern "GET" && String.eqb method "HEAD".

Inductive selected := Matched (h : handler) (values : list string) | MethodNotAllowed | NotFound.

Fixpoint select_route (other : bool) (l : list route) (r : request) : selected :=
  match l with
  | [] => if other then MethodNotAllowed else NotFound
  | (m, p, h) :: l' =>
    match match_pattern p r.(Segments) with
    | None => select_route other l' r
    | Some values => if method_matches m r.(Method) then Matched h values else select_route true l' r
    end
  end.

(** [r.PathValue]: the wildcards in order. *)
Definition path_value (n : nat) (values : list string) : string := nth n values "".

(** * The server *)

Record Config := mkConfig {
  Store : option (string * db);
  Auth : option Authenticator;
  Version : string;
  BackupDir : string;
  BackupKeep : Z;
  BackupMinAge : Z
}.

(** The server with what it works on: the open database, its path, and the disk. *)
Record server := mkServer {
  s_store : option db;
  s_files : disk;
  s_path : string;
  s_auth : option Authenticator;
  s_version : string;
  s_backupDir : string;
  s_backupKeep : Z;
  s_backupMinAge : Z;
  s_ready : bool;
  s_requests : Z;
  s_errors : Z
}.

Definition New (cfg : Config) (files : disk) : server :=
  mkServer (snd <$> cfg.(Store)) files (default "" (fst <$> cfg.(Store))) cfg.(Auth) cfg.(Version) cfg.(BackupDir) cfg.(BackupKeep)
    cfg.(BackupMinAge) (match cfg.(Store), cfg.(Auth) with Some _, Some _ => true | _, _ => false end) 0 0.

Definition SetReady (value : bool) (s : server) : server :=
  mkServer s.(s_store) s.(s_files) s.(s_path) s.(s_auth) s.(s_version) s.(s_backupDir) s.(s_backupKeep) s.(s_backupMinAge) value
    s.(s_requests) s.(s_errors).

(** The counters are 64-bit. *)
Definition count (n : Z) : Z := (n + 1) mod 2 ^ 64.

Definition count_request (s : server) : server :=
  mkServer s.(s_store) s.(s_files) s.(s_path) s.(s_auth) s.(s_version) s.(s_backupDir) s.(s_backupKeep) s.(s_backupMinAge) s.(s_ready)
    (count s.(s_requests)) s.(s_errors).

Definition count_error (s : server) : server :=
  mkServer s.(s_store) s.(s_files) s.(s_path) s.(s_auth) s.(s_version) s.(s_backupDir) s.(s_backupKeep) s.(s_backupMinAge) s.(s_ready)
    s.(s_requests) (count s.(s_errors)).

Definition with_world (s : server) (w : world) : server :=
  mkServer (Some w.(live)) w.(files) s.(s_path) s.(s_auth) s.(s_version) s.(s_backupDir) s.(s_backupKeep) s.(s_backupMinAge) s.(s_ready)
    s.(s_requests) s.(s_errors).

(** What the environment of one request gives: the random identifier, the instants of the store's
    clock, what SQLite answers to the readiness check, and the faults of the disk. *)
Record environment := mkEnvironment {
  fresh_id : string;
  clock_first : Z;
  clock_second : Z;
  ping : result error ();
  query_only : result error ();
  schema_version : result error Z;
  database_bytes : option Z;
  faults : list fault
}.

(** [Store.Ready]: the connection it opens of its own and what SQLite answers there. *)
Definition Ready (path : string) (env : environment) : result error () :=
  if isMemoryPath path then env.(ping)
  else
    env.(query_only) ;;
    v ← env.(schema_version);
    if v <? 1 then Err (EText "unexpected readiness schema version") else Ok ().

Definition line (s : string) : string := s +:+ String "010" "".

(** [Server.metrics]; the version label is quoted. *)
Definition metrics (s : server) (env : environment) : string :=
  line "# TYPE lazarus_http_requests_total counter" +:+ line ("lazarus_http_requests_total " +:+ format_int s.(s_requests))
  +:+ line "# TYPE lazarus_http_errors_total counter" +:+ line ("lazarus_http_errors_total " +:+ format_int s.(s_errors))
  +:+ line "# TYPE lazarus_ready gauge" +:+ line ("lazarus_ready " +:+ (if s.(s_ready) then "1" else "0"))
  +:+ match s.(s_store) with
      | None => ""
      | Some d =>
        match env.(database_bytes) with
        | Some n => line "# TYPE lazarus_database_bytes gauge" +:+ line ("lazarus_database_bytes " +:+ format_int n)
        | None => ""
        end
        +:+ line "# TYPE lazarus_journal_events gauge"
        +:+ line ("lazarus_journal_events " +:+ format_int (Z.of_nat (length d.(journal))))
      end
  +:+ line ("lazarus_info{version=" +:+ String dquote (s.(s_version) +:+ String dquote "} 1")).

Section handlers.
Context `{SQLite} `{Engine}.

Definition etag (name : string) (version : Z) : string * string := (name, VersionETag version).

(** Answers with the error, or with what the continuation makes of the value. *)
Definition respond {A} (r : result error A * db) (k : A → response) : response * db :=
  (match r.1 with Ok a => k a | Err e => writeStoreError e end, r.2).

Definition object_or_absent (raw : string) : bool := (len raw =? 0) || isJSONObject raw.

Definition handleListMaintenances (r : request) (d : db) : response * db :=
  respond (opts ← maintenanceListOptions r; ListMaintenances opts d, d) (λ p, writeJSON [] 200 (BMaintenances p)).

Definition handleCreateMaintenance (r : request) (audit : AuditContext) (env : environment) (d : db) : response * db :=
  match decodeJSON r maintenance_request_fields (mkMaintenanceRequest "" "" "" "") with
  | None => (writeError [] 400 "invalid_json", d)
  | Some q =>
    if String.eqb (trim_space q.(MR_MaintenanceID)) "" then (writeError [] 400 "maintenance_id_required", d)
    else if negb (object_or_absent q.(MR_Metadata)) then (writeError [] 400 "metadata_must_be_object", d)
    else
      respond (CreateMaintenance env.(clock_first)
          (mkMaintenance q.(MR_MaintenanceID) "new" q.(MR_ChangeTicket) q.(MR_WorkflowVersion) q.(MR_Metadata) 0 zero_time zero_time)
          audit d)
        (λ m, writeJSON [etag "ETag" m.(M_Version)] 201 (BAggregate (mkAggregate m [])))
  end.

Definition handleGetMaintenance (id : string) (d : db) : response * db :=
  respond (GetMaintenanceAggregate id d, d)
    (λ a, writeJSON [etag "ETag" a.(MA_Maintenance).(M_Version)] 200 (BAggregate a)).

(** The body and the If-Match header of a state change, or the response that refuses them. *)
Definition state_change (r : request) : result response (StateChange * VersionPrecondition) :=
  match decodeJSON r state_change_fields (mkChange "" "" "") with
  | None => Err (writeError [] 400 "invalid_json")
  | Some change =>
    if negb (object_or_absent change.(SC_Detail)) then Err (writeError [] 400 "detail_must_be_object")
    else match versionPrecondition (r.(Header) "If-Match") with
         | Ok p => Ok (change, p)
         | Err code => Err (writeIfMatchError code)
         end
  end.

Definition handleTransitionMaintenance (r : request) (id : string) (audit : AuditContext) (env : environment) (d : db) : response * db :=
  match state_change r with
  | Err resp => (resp, d)
  | Ok (change, p) =>
    respond (TransitionMaintenance env.(clock_first) id change p audit d)
      (λ a, writeJSON [etag "ETag" a.(MA_Maintenance).(M_Version)] 200 (BAggregate a))
  end.

Definition handleGetCapture (id : string) (d : db) : response * db :=
  respond (GetCapture id d, d) (λ c, writeJSON [] 200 (BCapture c)).

Definition handleCaptureMaintenance (r : request) (id : string) (audit : AuditContext) (env : environment) (d : db) : response * db :=
  match decodeBodyObject r 2097152 with
  | None => (writeError [] 400 "invalid_json", d)
  | Some payload =>
    respond (CaptureMaintenance env.(clock_first) env.(clock_second) id (mkCapture "" zero_time payload "") audit d)
      (λ res, writeJSON [] (if res.(CR_Created) then 201 else 200) (BCapture res.(CR_Capture)))
  end.

Definition handleGetTarget (mid tid : string) (d : db) : response * db :=
  respond (GetTarget mid tid d, d) (λ t, writeJSON [etag "ETag" t.(T_Version)] 200 (BTarget t)).

Definition handleTransitionTarget (r : request) (mid tid : string) (audit : AuditContext) (env : environment) (d : db) : response * db :=
  match state_change r with
  | Err resp => (resp, d)
  | Ok (change, p) =>
    respond (TransitionTarget env.(clock_first) mid tid change p audit d)
      (λ res, writeJSON [etag "ETag" res.(TR_Target).(T_Version); etag "X-Maintenance-ETag" res.(TR_MaintenanceVersion)] 200
        (BTarget res.(TR_Target)))
  end.

Definition handleAddTargetObservation (r : request) (mid tid : string) (audit : AuditContext) (env : environment) (d : db) : response * db :=
  match decodeBodyObject r 65536 with
  | None => (writeError [] 400 "invalid_json", d)
  | Some payload =>
    match versionPrecondition (r.(Header) "If-Match") with
    | Err code => (writeIfMatchError code, d)
    | Ok p => respond (AddObservation env.(clock_first) mid tid payload p audit d) (λ _, mkResponse 204 [] BEmpty)
    end
  end.

Definition handleListEvents (r : request) (d : db) : response * db :=
  respond (opts ← eventListOptions r; ListEvents opts d, d) (λ p, writeJSON [] 200 (BEvents p)).

(** * Backups *)

Definition handleCreateBackup (audit : AuditContext) (env : environment) (s : server) : io response :=
  if String.eqb (trim_space s.(s_backupDir)) "" then mret (writeError [] 503 "backup_unavailable")
  else
    manifest ← BackupWithRetention s.(s_path) s.(s_backupDir) s.(s_backupKeep) s.(s_backupMinAge) env.(clock_first)
      audit.(Actor) audit.(Role) audit.(RequestID);
    mret (writeJSON [] 201 (BManifest manifest)).

(** [os.OpenRoot] and [Root.Open]: what the name is in the directory; a link may not leave it. *)
Definition root_open (dir name : string) : io entry := look (λ w,
  e ← lookup_entry w.(files) (path_join dir name);
  match e with
  | Link t => match name_in dir t with Some _ => lookup_entry w.(files) t | None => Err EIO end
  | _ => Ok e
  end).

Definition artifact_headers (name : string) (manifest : BackupManifest) (size : Z) : list (string * string) :=
  (if has_suffix name ".json" then [("Content-Type", "application/json")]
   else [("Content-Type", "application/vnd.sqlite3"); ("ETag", String dquote (manifest.(B_SHA256) +:+ String dquote ""))]
     ++ match hex_decode manifest.(B_SHA256) with Some digest => [("Digest", "sha-256=" +:+ b64_std_encode digest)] | None => [] end)
  ++ [("Cache-Control", "no-store"); ("Content-Length", format_int size);
      ("Content-Disposition", "attachment; filename=" +:+ String dquote (name +:+ String dquote ""))].

(** The download while others, a rotation say, change the directory or the database after the pair was
    checked.  The file that was opened stays what it was: nothing in the program writes to a published
    file, it is only replaced or removed. *)
Definition handleBackupArtifactAmong (others : world → world) (name : string) (audit : AuditContext) (env : environment) (s : server) : io response :=
  if String.eqb (trim_space s.(s_backupDir)) "" then mret (writeError [] 503 "backup_unavailable")
  else
    '(_, manifest) ← BackupArtifact s.(s_backupDir) name;
    interfere others ;;
    opened ← attempt (root_open s.(s_backupDir) name);
    match opened with
    | Err _ => mret (writeError [] 500 "internal_error")
    | Ok file =>
      look (λ _, ValidateOpenedBackupArtifact (Some file) name manifest) ;;
      on_live (RecordBackupDownload env.(clock_first) manifest name audit) ;;
      info ← attempt (look (λ _, Ok file));
      mret match info with
           | Ok (Regular content _) => mkResponse 200 (artifact_headers name manifest (len content)) (BRaw content)
           | _ => writeError [] 500 "internal_error"
           end
    end.

Definition handleBackupArtifact : string → AuditContext → environment → server → io response := handleBackupArtifactAmong (λ w, w).

(** * Dispatch *)

(** A handler of the store's data leaves the disk alone. *)
Definition on_database (s : server) (r : response * db) : option response * world := (Some r.1, mkWorld s.(s_files) r.2).

(** A computation answers its error as an error of the store. *)
Definition on_disk (s : server) (env : environment) (d : db) (m : io response) : option response * world :=
  match m env.(faults) (mkWorld s.(s_files) d) with
  | (Some (Ok resp), _, w) => (Some resp, w)
  | (Some (Err e), _, w) => (Some (writeStoreError e), w)
  | (None, _, w) => (None, w)
  end.

Definition handle (h : endpoint) (values : list string) (r : request) (audit : AuditContext) (env : environment) (s : server) (d : db)
    : option response * world :=
  let a := path_value 0 values in
  let b := path_value 1 values in
  match h with
  | HListMaintenances => on_database s (handleListMaintenances r d)
  | HCreateMaintenance => on_database s (handleCreateMaintenance r audit env d)
  | HGetMaintenance => on_database s (handleGetMaintenance a d)
  | HTransitionMaintenance => on_database s (handleTransitionMaintenance r a audit env d)
  | HGetCapture => on_database s (handleGetCapture a d)
  | HCaptureMaintenance => on_database s (handleCaptureMaintenance r a audit env d)
  | HGetTarget => on_database s (handleGetTarget a b d)
  | HTransitionTarget => on_database s (handleTransitionTarget r a b audit env d)
  | HAddTargetObservation => on_database s (handleAddTargetObservation r a b audit env d)
  | HListEvents => on_database s (handleListEvents r d)
  | HCreateBackup => on_disk s env d (handleCreateBackup audit env s)
  | HBackupArtifact => on_disk s env d (handleBackupArtifact a audit env s)
  end.

(** The probes, which need no principal. *)
Definition handle_probe (p : probe) (s : server) (env : environment) : response :=
  match p with
  | HHealth => writeJSON [] 200 (BMap [("status", VText "ok"); ("version", VText s.(s_version))])
  | HReady =>
    if s.(s_ready) && match s.(s_store) with Some _ => is_ok (Ready s.(s_path) env) | None => false end
    then writeJSON [] 200 (BMap [("status", VText "ready"); ("version", VText s.(s_version))])
    else writeError [] 503 "not_ready"
  | HVersion => writeJSON [] 200 (BMap [("version", VText s.(s_version))])
  | HMetrics => mkResponse 200 [("Content-Type", "text/plain; version=0.0.4")] (BRaw (metrics s env))
  end.

(** [Server.require] around a handler; the caller is the principal with the store it may reach. *)
Definition guarded (role : string) (caller : option (Principal * db)) (next : Principal → db → option response * server) (s : server)
    : option response * server :=
  match caller with
  | None => (Some (writeError [] 503 "authentication_unavailable"), s)
  | Some (p, d) => match Require_ p role with
                   | Err _ => (Some (writeError [] 403 "forbidden"), s)
                   | Ok _ => next p d
                   end
  end.

Definition plain_text (status : Z) (text : string) : response :=
  mkResponse status [("Content-Type", "text/plain; charset=utf-8")] (BRaw (line text)).

(** The mux: the response and the server after it. *)
Definition mux (caller : option (Principal * db)) (rid : string) (r : request) (env : environment) (s : server)
    : option response * server :=
  match select_route false buildRoutes r with
  | NotFound => (Some (plain_text 404 "404 page not found"), s)
  | MethodNotAllowed => (Some (plain_text 405 "Method Not Allowed"), s)
  | Matched (Public p) _ => (Some (handle_probe p s env), s)
  | Matched (Guarded role h) values =>
    guarded role caller (λ p d,
      let '(resp, w) := handle h values r (auditContext p rid) env s d in (resp, with_world s w)) s
  end.

Definition isAPIPath (path : string) : bool := String.eqb path "/api/v1" || has_prefix path "/api/v1/".

Definition add_headers (headers : list (string * string)) (resp : response) : response :=
  mkResponse resp.(Status) (headers ++ resp.(Headers)) resp.(RespBody).

Definition no_store : string * string := ("Cache-Control", "no-store").

Definition reading (method : string) : bool := String.eqb method "GET" || String.eqb method "HEAD".

Definition serve (rid : string) (r : request) (env : environment) (s : server) : option response * server :=
  if negb (isAPIPath (url_path r)) then mux None rid r env s
  else
    let refuse_ headers status code := (Some (writeError (no_store :: headers) status code), s) in
    match s.(s_auth) with
    | None => refuse_ [] 503 "authentication_unavailable"
    | Some _ =>
      match Authenticate s.(s_auth) (header_get "Authorization" r) with
      | Err _ => refuse_ [("WWW-Authenticate", "Bearer realm=" +:+ String dquote ("lazarus" +:+ String dquote ""))] 401 "unauthorized"
      | Ok principal =>
        match s.(s_store) with
        | None => refuse_ [] 503 "store_unavailable"
        | Some d =>
          if negb s.(s_ready) && negb (reading r.(Method)) then refuse_ [] 503 "service_draining"
          else let '(resp, s') := mux (Some (principal, d)) rid r env s in (add_headers [no_store] <$> resp, s')
        end
      end
    end.

(** The whole request; no response when the process stopped. *)
Definition ServeHTTP (r : request) (env : environment) (s : server) : option response * server :=
  let rid := requestID r env.(fresh_id) in
  let '(resp, s') := serve rid r env (count_request s) in
  (add_headers [("X-Request-ID", rid)] <$> resp,
   match resp with Some resp => if 400 <=? resp.(Status) then count_error s' else s' | None => s' end).
End handlers.
