(* ===== verification/Paging.v ===== *)
(** Paging through a list returns every row of the first page's state exactly once: the cursor of a
    page leads to the rows that follow it, whatever is appended in the meantime. *)
From S2P Require Import Prelude Utf8 Json JsonText Strconv GoTime Text Errors Values Lifecycle Db Model Events Mutations Verify Invariant System Effects Scenario Reads.
Local Open Scope Z_scope.

(** Follows the cursors from a first request; [query i] is the [i]-th request's answer.  [None]: a
    request failed or the fuel ran out. *)
Fixpoint collect {A} (fuel : nat) (query : nat → string → result error (page A)) (i : nat) (cursor : string) : option (list A) :=
  match fuel with
  | O => None
  | S fuel' =>
    match query i cursor with
    | Err _ => None
    | Ok p => if String.eqb p.(NextCursor) "" then Some p.(Items)
              else app p.(Items) <$> collect fuel' query (S i) p.(NextCursor)
    end
  end.

Lemma encode_nonempty s : s ≠ "" → encodeCursor s ≠ "".
Proof. intros Hs. apply encode_nonblank in Hs as Ht. intros E. rewrite E in Ht. by vm_compute in Ht. Qed.

Section collect.
Context {A B : Type} (key : A → Z) (f : A → B) (limit : nat) (all : list A) (query : nat → string → result error (page B)).
Hypothesis limit_positive : (0 < limit)%nat.
Hypothesis all_descending : descending key all.
Hypothesis later_pages : ∀ i a, a ∈ all → query (S i) (encodeCursor (format_int (key a)))
  = Ok (page_map f (cut key limit (List.filter (λ b, key b <? key a) all))).

Lemma collect_rest fuel : ∀ i cursor l, query i cursor = Ok (page_map f (cut key limit l)) →
  (length l < fuel)%nat → descending key l → (∀ a, a ∈ l → a ∈ all ∧ List.filter (λ b, key b <? key a) l = List.filter (λ b, key b <? key a) all) →
  collect fuel query i cursor = Some (map f l).
Proof.
  induction fuel as [|fuel IH]; intros i cursor l Hq Hlen Hd Hl; [lia|]. cbn [collect]. rewrite Hq. cbn [page_map NextCursor Items].
  destruct (cut_spec key limit l Hd limit_positive) as [[-> ->]|(a & Ha & Hc & Hsplit & Hshort)]; [done|].
  rewrite Hc, (proj2 (String.eqb_neq _ _)) by apply encode_nonempty, format_int_nonempty.
  destruct (Hl a Ha) as [Hall Hrest]. rewrite Hrest in *.
  rewrite (IH _ _ (List.filter (λ b, key b <? key a) all)); [| |lia| |].
  - cbn. rewrite <-List.map_app. by rewrite <-Hsplit.
  - by apply later_pages.
  - by apply descending_filter.
  - intros b [Hb Hlt]%elem_of_lfilter. split; [done|]. rewrite filter_filter. apply Z.ltb_lt in Hlt. apply filter_agree.
    intros x _. destruct (Z.ltb_spec (key x) (key b)), (Z.ltb_spec (key x) (key a)); try done. lia.
Qed.

Lemma collect_all i cursor : query i cursor = Ok (page_map f (cut key limit all)) →
  collect (S (length all)) query i cursor = Some (map f all).
Proof. intros Hq. eapply collect_rest; [exact Hq|lia|done|auto]. Qed.
End collect.

Lemma pageLimit_range n : 1 ≤ pageLimit n ≤ 200.
Proof. unfold pageLimit. repeat case_if; bool_hyps; lia. Qed.

Section keys.
Context {A : Type} (key : A → Z).

Lemma descending_nodup l : descending key l → NoDup (map key l).
Proof.
  induction 1 as [|a l Hs IH Hf]; cbn; [constructor|]. apply NoDup_cons. split; [|done].
  intros (b & E & Hb)%list_elem_of_In%in_map_iff. rewrite Forall_forall in Hf. apply list_elem_of_In in Hb. specialize (Hf b Hb). lia.
Qed.

Lemma numbered_descending l : (∀ i a, l !! i = Some a → key a = Z.of_nat i + 1) → descending key (rev l).
Proof.
  induction l as [|a l IH] using rev_ind; intros Hk; [constructor|]. rewrite rev_app_distr. cbn. constructor.
  - apply IH. intros i b Hi. apply Hk. by apply lookup_app_l_Some.
  - apply Forall_forall. intros b Hb. rewrite list_elem_of_In, <-in_rev, <-list_elem_of_In in Hb.
    apply list_elem_of_lookup in Hb as [i Hi]. pose proof (lookup_lt_Some _ _ _ Hi).
    rewrite (Hk i b) by by apply lookup_app_l_Some. rewrite (Hk (length l) a); [lia|]. by apply list_lookup_middle.
Qed.

(** Numbered rows sorted by their number, newest first. *)
Lemma select_numbered keep l : (∀ i a, l !! i = Some a → key a = Z.of_nat i + 1) → select key keep 0 l = rev (List.filter keep l).
Proof.
  intros Hk. pose proof (numbered_descending l Hk) as Hd.
  assert (Hn : NoDup (map key l)) by (rewrite (Permutation_map key (Permutation_rev l)); by apply descending_nodup).
  assert (Hr : rev (List.filter keep l) = List.filter keep (rev l)).
  { clear. induction l as [|a l IH]; [done|]. cbn. rewrite List.filter_app. cbn. destruct (keep a); cbn; rewrite IH, ?app_nil_r; done. }
  rewrite Hr. apply (descending_unique key); [by apply select_descending|by apply descending_filter|].
  rewrite select_permutation. erewrite (filter_agree _ keep); [|intros a _; cbn; unfold below; by rewrite andb_true_r].
  apply filter_permutation, Permutation_rev.
Qed.

(** Rows appended above the cursor do not change the page. *)
Lemma select_prefix keep c l l' : 0 < c → (∀ a, a ∈ l' → c ≤ key a) → select key keep c (l ++ l') = select key keep c l.
Proof.
  intros Hc Hl. unfold select. f_equal. rewrite List.filter_app, (filter_agree _ (λ _, false) l').
  - assert (Hno : ∀ l0 : list A, List.filter (λ _, false) l0 = []) by (by induction l0). by rewrite Hno, app_nil_r.
  - intros a Ha. specialize (Hl a Ha). unfold below. rewrite (proj2 (Z.ltb_lt 0 c)), (proj2 (Z.ltb_ge (key a) c)) by lia.
    cbn. apply andb_false_r.
Qed.
End keys.

(** * Events *)

Definition with_event_cursor (cursor : string) (o : EventListOptions) : EventListOptions :=
  mkEventList o.(LE_MaintenanceID) o.(LE_TargetID) o.(LE_EventType) o.(LE_ResourceType) o.(LE_ResourceID) o.(LE_Actor)
    o.(LE_Role) o.(LE_RequestID) cursor o.(LE_Limit).

Lemma keep_cursor c o e : keep_event (with_event_cursor c o) e = keep_event o e.
Proof. done. Qed.

Lemma event_options_cursor opts c k : event_options (with_event_cursor "" opts) = Ok 0 → decodeEventCursor c = Ok k →
  event_options (with_event_cursor c opts) = Ok k.
Proof. unfold event_options. cbn. repeat (case_if; [discriminate|]). done. Qed.

Definition with_maintenance_cursor (cursor : string) (o : MaintenanceListOptions) : MaintenanceListOptions :=
  mkMaintenanceList o.(LM_State) o.(LM_MaintenanceID) o.(LM_ChangeTicket) o.(LM_WorkflowVersion) cursor o.(LM_Limit).

Section events.
Context `{SQLite}.

Lemma journal_numbered d : reachable d → ∀ i e, d.(journal) !! i = Some e → e_id e = Z.of_nat i + 1.
Proof. intros Hd. apply (inv_ids _ (reachable_inv d Hd)). Qed.

Lemma journal_nodup d : reachable d → NoDup (map e_id d.(journal)).
Proof.
  intros Hd. rewrite (Permutation_map e_id (Permutation_rev (journal d))).
  by apply descending_nodup, numbered_descending, journal_numbered.
Qed.

(** A page below an event of [d], asked of any later state, is the page of [d]. *)
Lemma later_event_page d ops opts e : reachable d → Forall op_ok ops → Z.of_nat (length d.(journal)) ≤ int64_max →
  event_options (with_event_cursor "" opts) = Ok 0 → e ∈ rev (List.filter (keep_event opts) d.(journal)) →
  ListEvents (with_event_cursor (encodeCursor (format_int e.(e_id))) opts) (run_all ops d)
  = Ok (page_map scanEvent (cut e_id (Z.to_nat (pageLimit opts.(LE_Limit)))
      (List.filter (λ b, e_id b <? e_id e) (rev (List.filter (keep_event opts) d.(journal)))))).
Proof.
  intros Hd Hops Hmax Hopt He. assert (Hin : e ∈ journal d).
  { rewrite list_elem_of_In, <-in_rev, filter_In in He. by apply list_elem_of_In, He. }
  apply list_elem_of_lookup in Hin as [i Hi]. pose proof (journal_numbered d Hd i e Hi) as Hid.
  pose proof (lookup_lt_Some _ _ _ Hi) as Hlt. unfold ListEvents.
  rewrite (event_options_cursor _ _ (e_id e)); [|done|apply decode_encode; [lia|]].
  2:{ unfold in_int64. unfold int64_min, int64_max in *. apply andb_true_iff. rewrite !Z.leb_le. lia. }
  cbn [mbind result_bind with_event_cursor LE_Limit]. do 2 f_equal. destruct (run_all_journal ops d) as [l Hl]. rewrite Hl.
  assert (Hr : reachable (run_all ops d)) by by apply reachable_all.
  f_equal. rewrite select_prefix; [|lia|].
  - rewrite select_below; [|by apply journal_nodup|lia]. by rewrite <-(select_numbered e_id _ _ (journal_numbered d Hd)).
  - intros b Hb. apply list_elem_of_lookup in Hb as [j Hj].
    rewrite (journal_numbered _ Hr (length (journal d) + j)%nat b); [lia|].
    rewrite Hl. rewrite lookup_app_r by lia. by replace (length (journal d) + j - length (journal d))%nat with j by lia.
Qed.
End events.

(** * Maintenances *)

Section maintenances.
Context `{SQLite}.

(** The [rowid]s are distinct, and no larger than the number of events. *)
Record rowids_ok (d : db) : Prop := {
  rowid_unique : ∀ m1 m2 r1 r2, d.(maintenance) !! m1 = Some r1 → d.(maintenance) !! m2 = Some r2 → r1.(m_rowid) = r2.(m_rowid) → m1 = m2;
  rowid_range : ∀ mid row, d.(maintenance) !! mid = Some row → 1 ≤ row.(m_rowid) ≤ Z.of_nat (length d.(journal))
}.

Lemma next_rowid_spec d n : 0 ≤ n → (∀ mid row, d.(maintenance) !! mid = Some row → row.(m_rowid) ≤ n) →
  1 ≤ next_rowid d ≤ n + 1 ∧ ∀ mid row, d.(maintenance) !! mid = Some row → row.(m_rowid) < next_rowid d.
Proof.
  intros Hn. unfold next_rowid. generalize (maintenance d). intros m. intros Hm.
  assert (Hp : 0 ≤ map_fold (λ _ r acc, Z.max (m_rowid r) acc) 0 m ≤ n
    ∧ ∀ mid row, m !! mid = Some row → row.(m_rowid) ≤ map_fold (λ _ r acc, Z.max (m_rowid r) acc) 0 m).
  { revert Hm. apply (map_fold_weak_ind (λ acc m, (∀ mid row, m !! mid = Some row → row.(m_rowid) ≤ n) →
      0 ≤ acc ≤ n ∧ ∀ mid row, m !! mid = Some row → row.(m_rowid) ≤ acc)).
    - intros _. split; [lia|]. intros mid row Hrow. by rewrite lookup_empty in Hrow.
    - intros k r m' acc Hk IH Hm. destruct IH as [H1 H2].
      { intros mid row Hrow. apply (Hm mid). rewrite lookup_insert_ne; [done|congruence]. }
      pose proof (Hm k r (lookup_insert_eq _ _ _)). split; [lia|].
      intros mid row [[<- <-]|[_ Hrow]]%lookup_insert_Some; [lia|]. specialize (H2 mid row Hrow). lia. }
  destruct Hp as [H1 H2]. split; [lia|]. intros mid row Hrow. specialize (H2 mid row Hrow). lia.
Qed.

Lemma rowids_step o d : rowids_ok d → rowids_ok (run_op o d).2.
Proof.
  intros [Hu Hr]. destruct (run_op_effect o d) as [->|(_ & e & He)]; [done|].
  assert (Hlen : length (journal (run_op o d).2) = S (length (journal d))) by (rewrite (ef_journal _ _ _ _ He), length_app; cbn; lia).
  destruct (next_rowid_spec d (Z.of_nat (length (journal d)))) as [Hn1 Hn2]; [lia|intros mid row Hrow; by apply (Hr mid row)|].
  constructor.
  - intros m1 m2 r1 r2 H1 H2 E.
    destruct (ef_rowid _ _ _ _ He m1 r1 H1) as [(r1' & K1 & E1)|(K1 & E1 & I1)], (ef_rowid _ _ _ _ He m2 r2 H2) as [(r2' & K2 & E2)|(K2 & E2 & I2)].
    + eapply Hu; [done..|congruence].
    + specialize (Hn2 m1 r1' K1). lia.
    + specialize (Hn2 m2 r2' K2). lia.
    + congruence.
  - intros mid row Hrow. rewrite Hlen. destruct (ef_rowid _ _ _ _ He mid row Hrow) as [(r' & K & E)|(_ & E & _)]; [specialize (Hr mid r' K)|]; lia.
Qed.

Lemma reachable_rowids d : reachable d → rowids_ok d.
Proof. induction 1; [|by apply rowids_step]. constructor; cbn; intros *; rewrite lookup_empty; done. Qed.

Lemma rows_nodup d : rowids_ok d → NoDup (map row_key (map_to_list d.(maintenance))).
Proof.
  intros Hd. apply NoDup_fmap_2_strong; [|apply NoDup_map_to_list].
  intros [m1 r1] [m2 r2] H1%elem_of_map_to_list H2%elem_of_map_to_list E. cbn in E.
  pose proof (rowid_unique _ Hd _ _ _ _ H1 H2 E). congruence.
Qed.

(** The maintenances a list query keeps, newest first. *)
Definition listed (opts : MaintenanceListOptions) (d : db) : list (string * maintenance_row) :=
  select row_key (keep_maintenance opts) 0 (map_to_list d.(maintenance)).

Lemma list_maintenances_page d opts cursor k : ListMaintenances (with_maintenance_cursor "" opts) d = Ok k →
  ∀ n, decodeEventCursor cursor = Ok n → ListMaintenances (with_maintenance_cursor cursor opts) d
  = Ok (page_map (λ '(id, row), scanMaintenance id row) (cut row_key (Z.to_nat (pageLimit opts.(LM_Limit)))
      (select row_key (keep_maintenance opts) n (map_to_list d.(maintenance))))).
Proof.
  unfold ListMaintenances. cbn [with_maintenance_cursor LM_State LM_MaintenanceID LM_Cursor LM_Limit].
  case_if; [discriminate|]. case_if; [discriminate|]. intros _ n ->. done.
Qed.
End maintenances.

(** * What paging promises *)

(** The cursor a page carries names its last item: decoding it gives back the positive 64-bit
    key it was made from. *)
Theorem cursor_roundtrip k : 1 ≤ k ≤ int64_max → decodeEventCursor (encodeCursor (format_int k)) = Ok k.
Proof. intros Hk. apply decode_encode; [lia|]. unfold in_int64, int64_min, int64_max in *. rewrite andb_true_iff, !Z.leb_le. lia. Qed.

Section promises.
Context `{SQLite}.

(** C39.  Following the cursors of the event list to its end returns every event that matched at the
    first request exactly once, newest first, and nothing else, though other calls may run between
    the requests; as many requests as there are events, and one more, are enough. *)
Theorem event_pages_complete d (ops : nat → list operation) opts : reachable d → (∀ i, Forall op_ok (ops i)) → ops O = [] →
  Z.of_nat (length d.(journal)) ≤ int64_max → event_options (with_event_cursor "" opts) = Ok 0 →
  collect (S (length d.(journal))) (λ i c, ListEvents (with_event_cursor c opts) (run_all (ops i) d)) 0 ""
  = Some (map scanEvent (rev (List.filter (keep_event opts) d.(journal)))).
Proof.
  intros Hd Hops H0 Hmax Hopt. pose proof (pageLimit_range opts.(LE_Limit)).
  assert (Hdesc : descending e_id (rev (List.filter (keep_event opts) d.(journal)))).
  { rewrite <-(select_numbered e_id _ _ (journal_numbered d Hd)). by apply select_descending, journal_nodup. }
  apply (collect_rest e_id scanEvent (Z.to_nat (pageLimit opts.(LE_Limit))) (rev (List.filter (keep_event opts) d.(journal)))); [lia|done|..].
  - intros i e He. by apply later_event_page.
  - rewrite H0. unfold ListEvents. rewrite Hopt. cbn [mbind result_bind with_event_cursor LE_Limit run_all].
    by rewrite <-(select_numbered e_id _ _ (journal_numbered d Hd)).
  - rewrite length_rev. pose proof (filter_length_le (keep_event opts) (journal d)). lia.
  - done.
  - auto.
Qed.

(** C40.  Following the cursors of the maintenance list ends: as many requests as there are
    maintenances, and one more, are enough, and they return every maintenance the filters keep
    exactly once, the most recently created first. *)
Theorem maintenance_pages_complete d opts p : reachable d → Z.of_nat (length d.(journal)) ≤ int64_max →
  ListMaintenances (with_maintenance_cursor "" opts) d = Ok p →
  ∃ rows, collect (S (size d.(maintenance))) (λ _ c, ListMaintenances (with_maintenance_cursor c opts) d) 0 ""
    = Some (map (λ '(id, row), scanMaintenance id row) rows)
    ∧ rows ≡ₚ List.filter (keep_maintenance opts) (map_to_list d.(maintenance)) ∧ descending row_key rows.
Proof.
  intros Hd Hmax Hp. pose proof (reachable_rowids d Hd) as Hr. pose proof (pageLimit_range opts.(LM_Limit)).
  pose proof (select_descending row_key (keep_maintenance opts) 0 _ (rows_nodup d Hr)) as Hs.
  assert (Hperm : listed opts d ≡ₚ List.filter (keep_maintenance opts) (map_to_list d.(maintenance))).
  { unfold listed. rewrite select_permutation. erewrite filter_agree; [done|]. intros r _. cbn. unfold below. by rewrite andb_true_r. }
  exists (listed opts d). split_and!; [|done|done].
  apply (collect_rest row_key _ (Z.to_nat (pageLimit opts.(LM_Limit))) (listed opts d)); [lia|done|..].
  - intros _ [mid row] Hin. rewrite (list_maintenances_page _ _ _ _ Hp (row_key (mid, row))); [|].
    + do 3 f_equal. apply select_below; [by apply rows_nodup|]. rewrite Hperm, elem_of_lfilter, elem_of_map_to_list in Hin.
      destruct Hin as [Hin _]. pose proof (rowid_range _ Hr _ _ Hin). change (0 < m_rowid row). lia.
    + rewrite Hperm, elem_of_lfilter, elem_of_map_to_list in Hin. destruct Hin as [Hin _]. pose proof (rowid_range _ Hr _ _ Hin).
      change (row_key (mid, row)) with (m_rowid row). apply decode_encode; [lia|]. unfold in_int64, int64_min, int64_max in *. rewrite andb_true_iff, !Z.leb_le. lia.
  - by apply (list_maintenances_page _ _ _ _ Hp).
  - rewrite Hperm. pose proof (filter_length_le (keep_maintenance opts) (map_to_list (maintenance d))). rewrite length_map_to_list in *. lia.
  - done.
  - auto.
Qed.
End promises.

(** * Instances *)

Lemma cursor_roundtrip_witness : decodeEventCursor (encodeCursor (format_int 42)) = Ok 42.
Proof. apply cursor_roundtrip. unfold int64_max. lia. Defined.

Definition two_per_page : EventListOptions := mkEventList "m1" "" "" "" "" "" "" "" "" 2.

Definition meanwhile (i : nat) : list operation := match i with O => [] | S _ => to_completion ++ closing end.

Lemma event_pages_complete_witness :
  collect (S (length captured.(journal))) (λ i c, ListEvents (with_event_cursor c two_per_page) (run_all (meanwhile i) captured)) 0 ""
  = Some (map scanEvent (rev (List.filter (keep_event two_per_page) captured.(journal)))).
Proof.
  apply event_pages_complete; [exact captured_reachable| |reflexivity|vm_compute; discriminate|reflexivity].
  intros [|i]; [apply Forall_nil; exact I|exact to_completion_ok].
Defined.

Lemma maintenance_pages_complete_witness : ∃ rows,
  collect (S (size completed.(maintenance))) (λ _ c, ListMaintenances (with_maintenance_cursor c (mkMaintenanceList "" "" "" "" "" 1)) completed) 0 ""
    = Some (map (λ '(id, row), scanMaintenance id row) rows)
  ∧ rows ≡ₚ List.filter (keep_maintenance (mkMaintenanceList "" "" "" "" "" 1)) (map_to_list completed.(maintenance)) ∧ descending row_key rows.
Proof.
  eapply maintenance_pages_complete; [exact completed_reachable|vm_compute; discriminate|].
  vm_compute. reflexivity.
Defined.
