(* ===== verification/ApiFacts.v ===== *)
(** What the HTTP API promises: only an authenticated operator changes the store, every change is a
    call of the store whose event names the principal and the request, the store only moves along
    reachable states, and the ETag of an answer is the version the next If-Match must name. *)
From S2P Require Import Prelude Utf8 Json JsonText Strconv GoTime Sha256 JsonDecode Text Auth Errors Values Lifecycle Db Model Events Mutations Reads Request Api Verify Payloads Invariant Preserve PreserveTransitions System Soundness Effects Scenario Disk DiskLogic Artifacts Backup BackupNames BackupFacts Publication ArtifactFacts BackupPromises.
Local Open Scope Z_scope.

(** * Decoded strings are UTF-8 *)

Lemma decoded_change r c : decodeJSON r state_change_fields (mkChange "" "" "") = Some c → valid_utf8 c.(SC_Justification) = true.
Proof.
  unfold decodeJSON. destruct (readBody r _) as [data|]; [|discriminate]. cbn [mbind option_bind].
  apply (unmarshal_keeps (λ c, valid_utf8 c.(SC_Justification) = true)); [done|]. unfold state_change_fields. decoded_strings.
Qed.

Lemma decoded_request r q : decodeJSON r maintenance_request_fields (mkMaintenanceRequest "" "" "" "") = Some q →
  valid_utf8 q.(MR_ChangeTicket) = true ∧ valid_utf8 q.(MR_WorkflowVersion) = true.
Proof.
  unfold decodeJSON. destruct (readBody r _) as [data|]; [|discriminate]. cbn [mbind option_bind].
  apply (unmarshal_keeps (λ q, valid_utf8 q.(MR_ChangeTicket) = true ∧ valid_utf8 q.(MR_WorkflowVersion) = true)); [done|].
  unfold maintenance_request_fields. decoded_strings.
Qed.

Section facts.
Context `{SQLite} `{Engine}.

(** * Handlers of the store's data *)

(** A clock between the years 0 and 9999: the one thing the calls of a request ask of its environment. *)
Definition clock_ok (env : environment) : Prop := time_ok env.(clock_first) = true ∧ time_ok env.(clock_second) = true.

(** A body that is read is as long as the handler allows at the most. *)
Lemma body_limit r limit q : decodeBodyObject r limit = Some q → len q ≤ limit.
Proof.
  unfold decodeBodyObject, readBody. case_if; [discriminate|]. cbn [mbind option_bind]. case_if; [|discriminate]. intros [= <-]. by bool_hyps.
Qed.

(** The outcome of a handler: it left the database alone, or it made one call that succeeded for the
    author and answered with a success; an error never changes the database. *)
Definition handled (expected : Prop) (audit : AuditContext) (d : db) (resp : response) (d' : db) : Prop :=
  d' = d ∨ ∃ o, op_audit o = audit ∧ run_op o d = (Ok (), d') ∧ (expected → op_ok o) ∧ 200 ≤ Status resp < 300.

Lemma store_error_status err : 400 ≤ Status (writeStoreError err).
Proof. unfold writeStoreError, store_error_code. repeat case_if; cbn; lia. Qed.

(** A handler that is one call of the store. *)
Lemma respond_handled {A} expected o (r : result error A * db) (k : A → response) d : outcome_of r = run_op o d →
  (∀ a, 200 ≤ Status (k a) < 300) → (expected → op_ok o) → handled expected (op_audit o) d (respond r k).1 (respond r k).2.
Proof.
  intros Ho Hk Hok. unfold respond, handled. destruct (run_op_effect o d) as [E|(E & _)].
  - left. cbn. by rewrite <-E, <-Ho.
  - right. exists o. rewrite <-Ho in *. destruct r as [[a|e] d']; cbn in *; [|discriminate]. split_and!; try done; apply Hk.
Qed.

Lemma create_handled r audit env d : handled (clock_ok env) audit d (handleCreateMaintenance r audit env d).1 (handleCreateMaintenance r audit env d).2.
Proof.
  unfold handleCreateMaintenance. destruct (decodeJSON _ _ _) as [q|] eqn:Eq; [|by left]. case_if; [by left|]. case_if; [by left|].
  eapply (respond_handled _ (OpCreate (clock_first env) _ audit)); [reflexivity|by intros a; cbn|].
  intros (Hc & _). destruct (decoded_request r q Eq). by split_and!.
Qed.

Lemma transition_handled r id audit env d :
  handled (clock_ok env) audit d (handleTransitionMaintenance r id audit env d).1 (handleTransitionMaintenance r id audit env d).2.
Proof.
  unfold handleTransitionMaintenance, state_change. destruct (decodeJSON _ _ _) as [c|] eqn:Eq; [|by left]. case_if; [by left|].
  destruct (versionPrecondition _) as [p|]; [|by left].
  eapply (respond_handled _ (OpTransition (clock_first env) _ c p audit)); [reflexivity|by intros a; cbn|].
  intros (Hc & _). split; [done|]. by eapply decoded_change.
Qed.

Lemma capture_handled r id audit env d :
  handled (clock_ok env) audit d (handleCaptureMaintenance r id audit env d).1 (handleCaptureMaintenance r id audit env d).2.
Proof.
  unfold handleCaptureMaintenance. destruct (decodeBodyObject _ _) as [q|] eqn:Eq; [|by left].
  eapply (respond_handled _ (OpCapture (clock_first env) (clock_second env) _ _ audit)); [reflexivity|intros a; cbn; destruct (CR_Created a); lia|].
  intros (_ & Hc). split; [done|]. cbn [C_Payload]. apply body_limit in Eq. lia.
Qed.

Lemma target_handled r mid tid audit env d :
  handled (clock_ok env) audit d (handleTransitionTarget r mid tid audit env d).1 (handleTransitionTarget r mid tid audit env d).2.
Proof.
  unfold handleTransitionTarget, state_change. destruct (decodeJSON _ _ _) as [c|] eqn:Eq; [|by left]. case_if; [by left|].
  destruct (versionPrecondition _) as [p|]; [|by left].
  eapply (respond_handled _ (OpTarget (clock_first env) _ _ c p audit)); [reflexivity|by intros a; cbn|].
  intros (Hc & _). split; [done|]. by eapply decoded_change.
Qed.

Lemma observe_handled r mid tid audit env d :
  handled (clock_ok env) audit d (handleAddTargetObservation r mid tid audit env d).1 (handleAddTargetObservation r mid tid audit env d).2.
Proof.
  unfold handleAddTargetObservation. destruct (decodeBodyObject _ _) as [q|]; [|by left]. destruct (versionPrecondition _) as [p|]; [|by left].
  eapply (respond_handled _ (OpObserve (clock_first env) _ _ q p audit)); [reflexivity|by intros a; cbn|]. by intros (Hc & _).
Qed.

(** * Handlers of backups *)

Definition is_backup (h : endpoint) : bool := match h with HCreateBackup | HBackupArtifact => true | _ => false end.

(** The type of the events a handler of backups journals. *)
Definition event_kind (h : endpoint) : string := match h with HCreateBackup => "backup.created" | _ => "backup.downloaded" end.

(** What the disk of a machine can hold. *)
Definition disk_ok (d : disk) : Prop := ∀ p c t, d !! p = Some (Regular c t) → len c ≤ int64_max.

(** The database is as it was, or a call for the author added one event of the kind about a backup. *)
Definition backed_up (expected : Prop) (kind : string) (audit : AuditContext) (d d' : db) : Prop :=
  d' = d ∨ ∃ o e, op_audit o = audit ∧ run_op o d = (Ok (), d') ∧ (expected → op_ok o)
    ∧ d' = set_journal (λ l, l ++ [e]) d ∧ attributed audit e ∧ e.(e_resource_type) = "backup" ∧ e.(e_type) = kind.

Lemma backup_event_effect type t filename payload audit d d' u :
  write (appendEvent (backup_event type t filename payload audit)) d = (Ok u, d') →
  ∃ e, d' = set_journal (λ l, l ++ [e]) d ∧ attributed audit e ∧ e.(e_resource_type) = "backup" ∧ e.(e_type) = type.
Proof.
  match goal with |- write ?f d = _ → _ => destruct (write_spec f d) as [([] & d1 & Hf & ->)|(e & _ & ->)] end; [|discriminate].
  intros [= <- <-]. exists (event_row_of (with_defaults (backup_event type t filename payload audit)) (next_journal_id d)).
  split_and!; [by apply appendEvent_row in Hf|apply author_attributed; by right|done|done].
Qed.

Lemma created_backed_up expected m audit d d' : RecordBackupCreated m audit d = (Ok (), d') →
  (expected → op_ok (OpBackupCreated m audit)) → backed_up expected "backup.created" audit d d'.
Proof.
  intros E Hok. right. pose proof E as E'. unfold RecordBackupCreated in E'. apply backup_event_effect in E' as (e & He).
  exists (OpBackupCreated m audit), e. destruct He as (Hd & Ha & Ht & Hk). split_and!; try done. cbn [run_op]. unfold outcome_of. by rewrite E.
Qed.

Lemma download_backed_up expected t m name audit d d' u : RecordBackupDownload t m name audit d = (Ok u, d') →
  (expected → op_ok (OpBackupDownload t m name audit)) → backed_up expected "backup.downloaded" audit d d'.
Proof.
  intros E Hok. right. pose proof E as E'. apply backup_event_effect in E' as (e & He).
  exists (OpBackupDownload t m name audit), e. destruct He as (Hd & Ha & Ht & Hk). split_and!; try done. cbn [run_op]. unfold outcome_of. by rewrite E.
Qed.

Lemma create_backup_effect `{!EngineLaws} (Q : Prop) audit env s d : (Q → time_ok env.(clock_first) = true) →
  triple (λ w, w.(live) = d) (handleCreateBackup audit env s) (λ _ w, backed_up Q "backup.created" audit d w.(live)) (λ w, backed_up Q "backup.created" audit d w.(live)).
Proof.
  intros HQ. unfold handleCreateBackup. case_if; [apply triple_ret; by left|].
  assert (Hj : ∀ w, journaled env.(clock_first) d audit w → backed_up Q "backup.created" audit d w.(live)).
  { intros w [->|(m & Hm & Hr)]; [by left|]. eapply created_backed_up; [exact Hr|]. intros Ht%HQ.
    pose proof (describes_ok _ _ m Hm Ht) as Hok. destruct Hm as (v & _ & Hc & E). split_and!; [exact Hok|rewrite E; apply sha256_hex_nonempty|rewrite E].
    cbn. pose proof (len_nonneg (vacuum d)). assert (len (vacuum d) ≠ 0) by by rewrite len_zero. lia. }
  apply (triple_bind _ _ _ (λ _, journaled env.(clock_first) d audit)); [|intros m; by apply triple_ret].
  eapply triple_weaken; [by apply (live_backup s.(s_backupDir) env.(clock_first) s.(s_backupMinAge) d audit); destruct audit|done| |exact Hj].
  intros [m|e] w Hw; [done|by apply Hj].
Qed.

Lemma download_op_ok d dir name path m t audit : artifact d dir name path m → disk_ok d → time_ok t = true → op_ok (OpBackupDownload t m name audit).
Proof.
  intros [Hn _ (c & t0 & text & t' & Hc & _ & Hr & _ & Hf & Hd & Hne & _)] Hdisk Ht.
  unfold content_matches in Hd. apply andb_true_iff in Hd as [Hb%Z.eqb_eq Hs]. pose proof (Hdisk _ _ _ Hc) as Hmax.
  assert (Hpos : 1 ≤ len c) by (pose proof (len_nonneg c); assert (len c ≠ 0) by (by rewrite len_zero); lia).
  cbn. split_and!; try done.
  - by eapply manifest_strings.
  - by eapply manifest_strings.
  - rewrite <-Hb. unfold in_int64, int64_min. apply andb_true_iff. split; apply Z.leb_le; lia.
  - by apply artifact_valid.
  - intros E. rewrite E in Hs. by apply sha256_hex_fold in Hs.
  - lia.
  - intros ->. by vm_compute in Hn.
Qed.

Lemma download_effect (Q : Prop) name audit env s d files0 : (Q → time_ok env.(clock_first) = true ∧ disk_ok files0) →
  triple (λ w, w = mkWorld files0 d) (handleBackupArtifact name audit env s)
    (λ _ w, w.(files) = files0 ∧ backed_up Q "backup.downloaded" audit d w.(live))
    (λ w, w.(files) = files0 ∧ backed_up Q "backup.downloaded" audit d w.(live)).
Proof.
  intros HQ. set (R := λ w, w.(files) = files0 ∧ backed_up Q "backup.downloaded" audit d w.(live)).
  assert (H0' : ∀ w, w = mkWorld files0 d → R w) by (intros w ->; split; [done|by left]).
  unfold handleBackupArtifact, handleBackupArtifactAmong. case_if; [by apply triple_ret|].
  eapply yields_bind; [apply (yields_artifact (mkWorld files0 d))|done|by auto|]. intros [path m] Ha.
  eapply yields_bind; [by apply yields_keeps, triple_interfere|done|by auto|]. intros _ _.
  eapply yields_bind; [apply yields_keeps, keeps_attempt, keeps_look|done|by auto|]. intros [file|e] _; [|by apply triple_ret].
  eapply yields_bind; [apply yields_keeps, keeps_look|done|by auto|]. intros _ _.
  apply (triple_bind _ _ _ (λ _, R)).
  - apply triple_operate; [intros t w Hw; rewrite set_files_intact; by split; apply H0'|]. intros w ->. cbn [live files].
    destruct (RecordBackupDownload _ _ _ _ d) as [[[]|e] d'] eqn:E; cbn [fst snd].
    + split; [done|]. eapply download_backed_up; [exact E|]. intros [Ht Hdisk]%HQ. by eapply download_op_ok.
    + split; [done|]. left. cbn. unfold RecordBackupDownload in E. match type of E with write ?f d = _ => destruct (write_spec f d) as [([] & d1 & _ & E')|(e1 & _ & E')] end; congruence.
  - intros _. apply (triple_bind _ _ _ (λ _, R)); [apply triple_attempt; eapply triple_weaken; [apply (keeps_look R)|done|by intros []|done]|].
    intros info. by apply triple_ret.
Qed.

(** * Dispatch *)

(** What the environment owes to a request: its clock and its disk. *)
Definition sane (env : environment) (s : server) : Prop := clock_ok env ∧ disk_ok s.(s_files).

(** The endpoints that can change the store's data. *)
Definition writes (h : endpoint) : bool :=
  match h with
  | HCreateMaintenance | HTransitionMaintenance | HCaptureMaintenance | HTransitionTarget | HAddTargetObservation => true
  | _ => false
  end.

Lemma handle_backup `{!EngineLaws} h values r audit env s d : is_backup h = true →
  backed_up (sane env s) (event_kind h) audit d (handle h values r audit env s d).2.(live).
Proof.
  destruct h; try discriminate; intros _; cbn [handle]; unfold on_disk.
  - pose proof (create_backup_effect (sane env s) audit env s d (λ Q, proj1 (proj1 Q)) env.(faults) (mkWorld s.(s_files) d) eq_refl) as Hk.
    destruct (handleCreateBackup _ _ _ _ _) as [[[[?|?]|] ?] ?]; exact Hk.
  - pose proof (download_effect (sane env s) (path_value 0 values) audit env s d s.(s_files) (λ Q, conj (proj1 (proj1 Q)) (proj2 Q))
      env.(faults) (mkWorld s.(s_files) d) eq_refl) as Hk.
    destruct (handleBackupArtifact _ _ _ _ _ _) as [[[[?|?]|] ?] ?]; exact (proj2 Hk).
Qed.

Lemma handle_data h values r audit env s d : is_backup h = false → let '(resp, w) := handle h values r audit env s d in
  ∃ resp0, resp = Some resp0 ∧ w.(files) = s.(s_files) ∧ (writes h = false → w.(live) = d) ∧ handled (clock_ok env) audit d resp0 w.(live).
Proof.
  destruct h; try discriminate; intros _; cbn [handle]; unfold on_database; eexists; (split; [reflexivity|]); (split; [reflexivity|]); cbn [live];
    lazymatch goal with
    | |- context [handleCreateMaintenance] => split; [by intros [=]|apply create_handled]
    | |- context [handleTransitionMaintenance] => split; [by intros [=]|apply transition_handled]
    | |- context [handleCaptureMaintenance] => split; [by intros [=]|apply capture_handled]
    | |- context [handleTransitionTarget] => split; [by intros [=]|apply target_handled]
    | |- context [handleAddTargetObservation] => split; [by intros [=]|apply observe_handled]
    | |- _ => split; [intros _; reflexivity|left; reflexivity]
    end.
Qed.

(** A selected route is one of the table whose method matches. *)
Lemma select_route_in l : ∀ other r h values, select_route other l r = Matched h values →
  ∃ m p, In (m, p, h) l ∧ method_matches m r.(Method) = true.
Proof.
  induction l as [|[[m p] h0] l IH]; intros other r h values; cbn [select_route]; [by destruct other|].
  assert (Hrec : ∀ b, select_route b l r = Matched h values → ∃ m' p', In (m', p', h) ((m, p, h0) :: l) ∧ method_matches m' r.(Method) = true).
  { intros b Hb. destruct (IH _ _ _ _ Hb) as (m' & p' & Hin & Hm). exists m', p'. split; [by right|done]. }
  destruct (match_pattern p _) as [vs|]; [|apply Hrec]. case_if; [|apply Hrec].
  intros [= -> ->]. exists m, p. split; [by left|done].
Qed.

(** Who reaches a handler that writes. *)
Definition write_route (rt : route) : bool :=
  let '(m, _, h) := rt in
  match h with
  | Guarded role h =>
    (negb (writes h) || bool_decide (role = RoleOperator) && existsb (String.eqb m) ["POST"; "PATCH"; "PUT"])
    && (negb (is_backup h) || bool_decide (role = RoleAdmin) && (String.eqb (event_kind h) "backup.downloaded" || String.eqb m "POST"))
  | Public _ => true
  end.

Lemma write_routes : forallb write_route buildRoutes = true.
Proof. vm_compute. reflexivity. Qed.

Lemma selected_role r role h values : select_route false buildRoutes r = Matched (Guarded role h) values →
  (writes h = true → role = RoleOperator ∧ r.(Method) ∈ ["POST"; "PATCH"; "PUT"]) ∧ (is_backup h = true → role = RoleAdmin ∧ (reading r.(Method) = true → event_kind h = "backup.downloaded")).
Proof.
  intros Hs. destruct (select_route_in _ _ _ _ _ Hs) as (m & p & Hin & Hm).
  pose proof write_routes as Hall. rewrite forallb_forall in Hall. specialize (Hall _ Hin). cbn -[existsb] in Hall.
  clear Hs Hin. apply andb_true_iff in Hall as [H1 H2]. split; intros Hw; [rewrite Hw in H1; cbn -[existsb] in H1|].
  2:{ rewrite Hw in H2. cbn [negb orb] in H2. apply andb_true_iff in H2 as [Hr%bool_decide_eq_true H2]. split; [done|]. intros Hread.
      apply orb_true_iff in H2 as [H2%String.eqb_eq|H2%String.eqb_eq]; [done|]. subst m. exfalso.
      apply orb_true_iff in Hm as [Hm%String.eqb_eq|[Hm _]%andb_true_iff]; [|discriminate Hm]. rewrite <-Hm in Hread. discriminate Hread. }
  apply andb_true_iff in H1 as [Hr%bool_decide_eq_true Hm']. split; [done|].
  apply existsb_exists in Hm' as (x & Hx & <-%String.eqb_eq). apply orb_true_iff in Hm as [<-%String.eqb_eq|[->%String.eqb_eq _]%andb_true_iff].
  - by apply list_elem_of_In.
  - by destruct Hx as [|[|[|]]].
Qed.

(** What a caller's request did to the store, and by which right. *)
Definition request_effect (expected : Prop) (p : Principal) (rid : string) (r : request) (d : db) (resp : option response) (d' : db) : Prop :=
  d' = d
  ∨ rank RoleOperator ≤ rank (P_Role p) ∧ r.(Method) ∈ ["POST"; "PATCH"; "PUT"] ∧ (∃ resp0, resp = Some resp0 ∧ handled expected (auditContext p rid) d resp0 d')
  ∨ rank RoleAdmin ≤ rank (P_Role p) ∧ ∃ kind, (reading r.(Method) = true → kind = "backup.downloaded") ∧ backed_up expected kind (auditContext p rid) d d'.

Lemma handled_weaken (Q Q' : Prop) audit d resp d' : (Q' → Q) → handled Q audit d resp d' → handled Q' audit d resp d'.
Proof. intros HQ [->|(o & H1 & H2 & H3 & H4 & H5)]; [by left|right]. exists o. split_and!; auto. Qed.

Lemma mux_effect `{!EngineLaws} caller rid r env s : let '(resp, s') := mux caller rid r env s in
  s' = s ∨ ∃ p d w, caller = Some (p, d) ∧ s' = with_world s w ∧ request_effect (sane env s) p rid r d resp w.(live).
Proof.
  unfold mux. destruct (select_route _ _ _) as [[pr|role h] values| |] eqn:Hs; try by left.
  unfold guarded. destruct caller as [[p d]|]; [|by left]. destruct (Require_ p role) as [[]|] eqn:Hreq; [|by left]. apply require_rank in Hreq.
  destruct (selected_role r role h values Hs) as [Hw Hb].
  destruct (handle h values r (auditContext p rid) env s d) as [resp w] eqn:Hh. right. exists p, d, w. split_and!; [done|done|].
  destruct (is_backup h) eqn:Eb.
  - right. right. destruct (Hb eq_refl) as [-> Hk]. split; [done|]. exists (event_kind h). split; [done|]. clear Hk. pose proof (handle_backup h values r (auditContext p rid) env s d Eb) as Hk. by rewrite Hh in Hk.
  - pose proof (handle_data h values r (auditContext p rid) env s d Eb) as Hk. rewrite Hh in Hk. destruct Hk as (resp0 & -> & _ & Hread & Hk).
    destruct (writes h) eqn:Ew; [|by left; apply Hread]. right. left. destruct (Hw eq_refl) as [-> Hm]. split_and!; [done|done|].
    exists resp0. split; [done|]. eapply handled_weaken; [|exact Hk]. by intros [].
Qed.

Lemma reading_write m : m ∈ ["POST"; "PATCH"; "PUT"] → reading m = false.
Proof.
  intros Hm. unfold reading. repeat (apply elem_of_cons in Hm as [-> |Hm]; [done|]). by apply elem_of_nil in Hm.
Qed.

Lemma serve_effect `{!EngineLaws} rid r env s : let '(resp, s') := serve rid r env s in
  s_store s' = s_store s ∨ ∃ p d d', Authenticate (s_auth s) (header_get "Authorization" r) = Ok p ∧ s.(s_store) = Some d ∧ s'.(s_store) = Some d'
    ∧ (s.(s_ready) = true ∨ reading r.(Method) = true) ∧ request_effect (sane env s) p rid r d resp d'.
Proof.
  unfold serve. case_if.
  { pose proof (mux_effect None rid r env s) as Hk. destruct (mux None rid r env s) as [resp s']. by destruct Hk as [->|(? & ? & ? & [=] & _)]; left. }
  cbv zeta. destruct (s_auth s) as [a|] eqn:Ha; [|by left]. destruct (Authenticate _ _) as [p|e] eqn:Hp; [|by left].
  destruct (s_store s) as [d|] eqn:Hst; [|by left]. case_if; [by left|].
  pose proof (mux_effect (Some (p, d)) rid r env s) as Hk. destruct (mux _ rid r env s) as [resp s'].
  destruct Hk as [->|(p' & d0 & w & [= <- <-] & -> & He)]; [by left|right]. exists p, d, w.(live). split_and!; try done.
  - destruct (s_ready s); [by left|]. right. by destruct (reading _).
  - destruct He as [->|[(G1 & G2 & resp0 & -> & G3)|He]]; [by left| |by right; right]. right. left. split_and!; try done. by exists (add_headers [no_store] resp0).
Qed.

Lemma rank_operator p : rank RoleOperator ≤ rank (P_Role p) → P_Role p = RoleOperator ∨ P_Role p = RoleAdmin.
Proof.
  change (rank RoleOperator) with 2. destruct (rank_cases (P_Role p)) as [[-> _]|[[-> _]|[[_ ->]|[_ ->]]]]; [by right|by left|lia|lia].
Qed.

Lemma rank_admin p : rank RoleAdmin ≤ rank (P_Role p) → P_Role p = RoleAdmin.
Proof. change (rank RoleAdmin) with 3. destruct (rank_cases (P_Role p)) as [[-> _]|[[_ ->]|[[_ ->]|[_ ->]]]]; [done|lia..]. Qed.

(** The whole request. *)
Lemma ServeHTTP_effect `{!EngineLaws} r env s : let rid := requestID r (fresh_id env) in let '(resp, s') := ServeHTTP r env s in
  s_store s' = s_store s ∨ ∃ p d d', Authenticate (s_auth s) (header_get "Authorization" r) = Ok p ∧ s.(s_store) = Some d ∧ s'.(s_store) = Some d'
    ∧ (s.(s_ready) = true ∨ reading r.(Method) = true) ∧ request_effect (sane env s) p rid r d resp d'.
Proof.
  cbv zeta. unfold ServeHTTP. pose proof (serve_effect (requestID r (fresh_id env)) r env (count_request s)) as Hk.
  destruct (serve _ r env (count_request s)) as [resp s1]. cbn [s_store s_auth s_ready count_request] in Hk.
  assert (Hst : ∀ resp, s_store (match resp with Some x => if 400 <=? Status x then count_error s1 else s1 | None => s1 end) = s_store s1).
  { intros [x|]; [by case_if|done]. }
  rewrite Hst. destruct Hk as [E|(p & d & d' & G1 & G2 & G3 & G4 & He)]; [by left|right]. exists p, d, d'. split_and!; try done.
  destruct He as [->|[(G5 & G6 & resp0 & -> & G7)|He]]; [by left| |by right; right]. right. left. split_and!; try done.
  by exists (add_headers [("X-Request-ID", requestID r (fresh_id env))] resp0).
Qed.

Lemma single_tag v : 1 ≤ v ≤ int64_max → versionPrecondition [VersionETag v] = Ok (mkPrecondition false [v]).
Proof. intros Hv. apply (precondition_tags [v]); [done|]. by apply Forall_singleton. Qed.

Lemma conflict_code e : errors_is e ErrVersionConflict = true → store_error_code e = ("version_conflict", 412).
Proof.
  intros He. assert (Hother : ∀ t, t ≠ ErrVersionConflict → errors_is e t = false).
  { intros t Ht. induction e; cbn in *; try discriminate; auto; apply bool_decide_eq_true in He; apply bool_decide_eq_false; congruence. }
  unfold store_error_code. by rewrite !Hother, He by done.
Qed.

Lemma state_change_status r e : state_change r = Err e → Status e ≠ 200.
Proof.
  unfold state_change. destruct (decodeJSON _ _ _); [|by intros [= <-]]. case_if; [by intros [= <-]|].
  destruct (versionPrecondition _); [discriminate|]. intros [= <-]. unfold writeIfMatchError. by case_if.
Qed.

Lemma transition_row now id change p audit d agg d' : TransitionMaintenance now id change p audit d = (Ok agg, d') →
  ∃ row, d'.(maintenance) !! id = Some row ∧ agg.(MA_Maintenance).(M_Version) = row.(m_version).
Proof.
  unfold TransitionMaintenance. intros (payload & _ & Htx)%validated_ok.
  apply transition_tx_ok in Htx as (row & _ & _ & _ & Happ & ->). apply appendEvent_row in Happ as ->.
  eexists. split; [apply lookup_insert_eq|done].
Qed.

(** * What the API promises *)

(** C5.  The store changes only for an authenticated principal, by one call that journals exactly one
    event, which names that principal, its role and the request's identifier.  Maintenances and targets
    change only for an operator or admin, by a POST, PATCH or PUT while the server is not draining, and
    the answer is then a success; for an admin's backup or download the event is all that changes. *)
Theorem changes_are_authorized `{!EngineLaws} r env s : let '(resp, s') := ServeHTTP r env s in s_store s' ≠ s_store s →
  ∃ p d d' e, s_store s = Some d ∧ s_store s' = Some d'
  ∧ Authenticate (s_auth s) (header_get "Authorization" r) = Ok p ∧ d'.(journal) = d.(journal) ++ [e]
  ∧ attributed (auditContext p (requestID r (fresh_id env))) e
  ∧ ((P_Role p = RoleOperator ∨ P_Role p = RoleAdmin) ∧ s_ready s = true ∧ r.(Method) ∈ ["POST"; "PATCH"; "PUT"]
       ∧ (∃ resp0, resp = Some resp0 ∧ 200 ≤ Status resp0 < 300)
     ∨ P_Role p = RoleAdmin ∧ e.(e_resource_type) = "backup" ∧ d' = set_journal (λ l, l ++ [e]) d).
Proof.
  pose proof (ServeHTTP_effect r env s) as Hk. cbv zeta in Hk. destruct (ServeHTTP r env s) as [resp s']. intros Hne.
  destruct Hk as [E|(p & d & d' & Hp & Hd & Hd' & Hr & He)]; [congruence|]. rewrite Hd, Hd' in Hne.
  destruct He as [->|[(Hrank & Hm & resp0 & -> & [->|(o & Ho & Hrun & _ & Hst)])|(Hrank & kind & _ & [->|(o & e & Ho & Hrun & _ & Hj & Hau & Ht & _)])]]; try done.
  - destruct (run_op_effect o d) as [E|(_ & e & He)]; rewrite Hrun in *; cbn in *; [congruence|].
    exists p, d, d', e. split_and!; try done; [exact (ef_journal _ _ _ _ He)|rewrite <-Ho; apply (ef_audit _ _ _ _ He)|].
    left. split_and!; [by apply rank_operator| |done|by exists resp0]. destruct Hr as [Hr|Hr]; [done|]. by rewrite (reading_write _ Hm) in Hr.
  - exists p, d, d', e. split_and!; try done; [by rewrite Hj|]. right. split_and!; [by apply rank_admin|done|done].
Qed.

(** C21.  Whatever a client sends, and whatever fails meanwhile, the store only moves along states that
    sequences of its own calls reach, so what holds of those (the characterization of what verifies, the
    exclusive locks, the bounded versions) holds of every database the server keeps.  Nothing is assumed
    of the request; the clock must be between the years 0 and 9999 ([clock_ok]) and no file of the disk
    longer than 2^63-1 bytes ([disk_ok]). *)
Theorem requests_stay_reachable `{!EngineLaws} r env s d : s_store s = Some d → reachable d → clock_ok env → disk_ok s.(s_files) →
  ∃ d', s_store (ServeHTTP r env s).2 = Some d' ∧ reachable d'.
Proof.
  intros Hd Hreach Hok Hdisk. pose proof (ServeHTTP_effect r env s) as Hk. cbv zeta in Hk. destruct (ServeHTTP r env s) as [resp s']. cbn.
  destruct Hk as [E|(p & d0 & d' & _ & Hd0 & Hd' & _ & He)]; [exists d; by rewrite E|]. assert (d0 = d) as -> by congruence. exists d'. split; [done|].
  assert (Hs : sane env s) by done. assert (Hstep : ∀ o, run_op o d = (Ok (), d') → op_ok o → reachable d').
  { intros o Ho Hop. pose proof (reachable_step d o Hreach Hop) as Hr. by rewrite Ho in Hr. }
  destruct He as [->|[(_ & _ & resp0 & _ & [->|(o & _ & Hrun & Hop & _)])|(_ & kind & _ & [->|(o & e & _ & Hrun & Hop & _)])]]; try done; by apply (Hstep o Hrun), Hop.
Qed.

(** C22.  A request to the API without a valid credential is refused with 401 whatever its path,
    method and body, before anything of the store is read, and changes nothing. *)
Theorem unauthenticated_refused r env s a err : isAPIPath (url_path r) = true → s_auth s = Some a →
  Authenticate (Some a) (header_get "Authorization" r) = Err err →
  ∃ resp s', ServeHTTP r env s = (Some resp, s') ∧ Status resp = 401 ∧ RespBody resp = BMap [("error", VText "unauthorized")]
  ∧ s_store s' = s_store s ∧ s_files s' = s_files s ∧ s_errors s' = count (s_errors s).
Proof.
  intros Hp Ha He. unfold ServeHTTP, serve. cbn [s_auth count_request]. rewrite Hp, Ha. cbn [negb]. rewrite He. do 2 eexists. split_and!; reflexivity.
Qed.

(** C23.  A stale PATCH is refused: when the client's If-Match lists one version and the maintenance
    is at another, the answer is 412 with the reason, and nothing changes. *)
Theorem stale_patch_refused r id audit env d change payload v row : decodeJSON r state_change_fields (mkChange "" "" "") = Some change →
  object_or_absent change.(SC_Detail) = true → r.(Header) "If-Match" = [VersionETag v] → 1 ≤ v ≤ int64_max →
  transition_input id change = Ok payload → d.(maintenance) !! id = Some row → v ≠ row.(m_version) →
  let '(resp, d') := handleTransitionMaintenance r id audit env d in
  d' = d ∧ Status resp = 412 ∧ ∃ l, RespBody resp = BMap l ∧ ("error", VText "version_conflict") ∈ l.
Proof.
  intros Hdec Hobj Hm Hv Hin Hrow Hne. unfold handleTransitionMaintenance, state_change. rewrite Hdec, Hobj, Hm. cbn [negb].
  rewrite single_tag by done. cbn [respond]. destruct (transition_stale (clock_first env) id change payload v audit d row Hin Hrow Hne) as (e & He & Hx).
  unfold respond. rewrite He. cbn [fst snd]. split; [done|]. unfold writeStoreError. rewrite (conflict_code e Hx). cbn. split; [done|].
  eexists. split; [reflexivity|]. apply list_elem_of_here.
Qed.

(** The ETag of a PATCH that succeeded is the version the maintenance now has, and sending it
    back as If-Match is understood as exactly that version. *)
Theorem patch_etag_current r id audit env d resp d' : handleTransitionMaintenance r id audit env d = (resp, d') → Status resp = 200 →
  ∃ row v, d'.(maintenance) !! id = Some row ∧ v = row.(m_version) ∧ ("ETag", VersionETag v) ∈ Headers resp
  ∧ (1 ≤ v ≤ int64_max → versionPrecondition [VersionETag v] = Ok (mkPrecondition false [v])).
Proof.
  unfold handleTransitionMaintenance. destruct (state_change r) as [[change p]|e] eqn:Hc.
  2:{ intros [= <- <-] Hst. exfalso. apply (state_change_status r e Hc). lia. }
  unfold respond. destruct (TransitionMaintenance _ _ _ _ _ _) as [[agg|e] d1] eqn:E; cbn [fst snd]; intros [= <- <-] Hst.
  - apply transition_row in E as (row & Hrow & Hver). exists row, (m_version row). split_and!; [done|done| |].
    + rewrite <-Hver. apply list_elem_of_here.
    + intros Hv. by apply single_tag.
  - pose proof (store_error_status e). lia.
Qed.
End facts.

(** The readiness check answers 200 exactly when the server is ready and SQLite answers on a connection
    of its own. *)
Lemma ready_iff `{SQLite} `{Engine} env s : Status (handle_probe HReady s env) = 200 ↔
  s.(s_ready) = true ∧ is_Some s.(s_store) ∧
  if isMemoryPath s.(s_path) then env.(ping) = Ok () else env.(query_only) = Ok () ∧ ∃ v, env.(schema_version) = Ok v ∧ 1 ≤ v.
Proof.
  unfold handle_probe, Ready. destruct (s_ready s), (s_store s) as [d|]; cbn [andb]; try (split; [done|intros (? & [? ?] & _); done]).
  destruct (isMemoryPath (s_path s)).
  - destruct (ping env) as [[]|e]; cbn; split; try done. by intros (_ & _ & [=]).
  - destruct (query_only env) as [[]|e]; cbn; [|split; [done|by intros (_ & _ & [=] & _)]].
    destruct (schema_version env) as [v|e]; cbn; [|split; [done|by intros (_ & _ & _ & v & [=] & _)]].
    destruct (Z.ltb_spec v 1); cbn; split; try done.
    + intros (_ & _ & _ & v' & [= ->] & ?). lia.
    + intros _. split_and!; try done. by exists v.
Qed.

(** * Instances *)

Definition api_tokens : Authenticator := [mkToken "ops" "operator" "s3cret"].
Definition api_config : Config := mkConfig (Some ("/var/lib/lazarus/lazarus.db", captured)) (Some api_tokens) "dev" backup_dir 7 one_day.
Definition api_server : server := New api_config empty_disk.(files).
Definition api_env : environment := mkEnvironment "f00d" (clock + 5) (clock + 6) (Ok ()) (Ok ()) (Ok 1) None [].

Definition headers_of (auth tag name : string) : list string :=
  if String.eqb name "Authorization" then [auth] else if String.eqb name "If-Match" then [tag] else [].
Definition patch_request (auth : string) (v : Z) : request :=
  mkRequest "PATCH" ["api"; "v1"; "maintenance"; "m1"] [] (headers_of auth (VersionETag v)) (json_text "{'state':'stopping','justification':' because '}").

Lemma changes_are_authorized_witness : let '(resp, s') := ServeHTTP (patch_request "Bearer s3cret" 2) api_env api_server in
  s_store s' ≠ s_store api_server ∧ ∃ p, Authenticate (Some api_tokens) "Bearer s3cret" = Ok p ∧ (P_Role p = RoleOperator ∨ P_Role p = RoleAdmin).
Proof.
  assert (Hj : length ∘ journal <$> s_store (ServeHTTP (patch_request "Bearer s3cret" 2) api_env api_server).2 = Some 4%nat) by (vm_compute; reflexivity).
  pose proof (changes_are_authorized (patch_request "Bearer s3cret" 2) api_env api_server) as Hk.
  destruct (ServeHTTP (patch_request "Bearer s3cret" 2) api_env api_server) as [resp s']. cbn [snd] in Hj.
  assert (Hne : s_store s' ≠ s_store api_server) by (intros Hs; rewrite Hs in Hj; vm_compute in Hj; discriminate Hj).
  split; [exact Hne|]. destruct (Hk Hne) as (p & d & d' & e & _ & _ & Hp & _ & _ & [[Hr _]|[Hr _]]); exists p; (split; [exact Hp|]).
  - exact Hr.
  - right. exact Hr.
Defined.

Lemma served_reachable : reachable captured.
Proof. apply reachable_all; [apply reachable_init|exact opening_ok]. Qed.

Lemma requests_stay_reachable_witness : ∃ d', s_store (ServeHTTP (patch_request "Bearer s3cret" 2) api_env api_server).2 = Some d' ∧ reachable d'.
Proof.
  apply (requests_stay_reachable (patch_request "Bearer s3cret" 2) api_env api_server captured).
  - reflexivity.
  - exact served_reachable.
  - split; vm_compute; reflexivity.
  - intros p c t Hc. cbn in Hc. apply lookup_singleton_Some in Hc as [_ Hc]. discriminate Hc.
Defined.

Lemma unauthenticated_refused_witness : ∃ resp s', ServeHTTP (patch_request "Bearer guess" 2) api_env api_server = (Some resp, s')
  ∧ Status resp = 401 ∧ s_store s' = s_store api_server.
Proof.
  destruct (unauthenticated_refused (patch_request "Bearer guess" 2) api_env api_server api_tokens ErrUnauthorized)
    as (resp & s' & H1 & H2 & _ & H3 & _); [reflexivity|reflexivity|vm_compute; reflexivity|].
  exists resp, s'. split; [exact H1|split; [exact H2|exact H3]].
Defined.

Lemma stale_patch_refused_witness :
  let '(resp, d') := handleTransitionMaintenance (patch_request "" 1) "m1" operator api_env captured in d' = captured ∧ Status resp = 412.
Proof.
  assert (H := stale_patch_refused (patch_request "" 1) "m1" operator api_env captured (change_to "stopping")).
  destruct (handleTransitionMaintenance (patch_request "" 1) "m1" operator api_env captured) as [resp d'] eqn:E.
  destruct (is_some_lookup (captured.(maintenance) !! "m1")) as [row Hrow]; [vm_compute; reflexivity|].
  assert (Hv : m_version row = 2).
  { assert (Hm : m_version <$> captured.(maintenance) !! "m1" = Some 2) by (vm_compute; reflexivity). rewrite Hrow in Hm. by injection Hm. }
  destruct (transition_input "m1" (change_to "stopping")) as [payload|] eqn:Hin; [|vm_compute in Hin; discriminate Hin].
  edestruct (H payload 1 row) as (H1 & H2 & _); [vm_compute; reflexivity|vm_compute; reflexivity|reflexivity|unfold int64_max; lia|reflexivity|exact Hrow|lia|].
  split; [exact H1|exact H2].
Defined.

Lemma patch_etag_current_witness : ∃ resp d', handleTransitionMaintenance (patch_request "" 2) "m1" operator api_env captured = (resp, d')
  ∧ ∃ row v, d'.(maintenance) !! "m1" = Some row ∧ v = row.(m_version) ∧ ("ETag", VersionETag v) ∈ Headers resp.
Proof.
  destruct (handleTransitionMaintenance (patch_request "" 2) "m1" operator api_env captured) as [resp d'] eqn:E.
  exists resp, d'. split; [reflexivity|]. assert (Hs : Status (handleTransitionMaintenance (patch_request "" 2) "m1" operator api_env captured).1 = 200).
  { vm_compute. reflexivity. }
  rewrite E in Hs. cbn in Hs. destruct (patch_etag_current _ _ _ _ _ _ _ E Hs) as (row & v & H1 & H2 & H3 & _).
  exists row, v. split_and!; [exact H1|exact H2|exact H3].
Defined.
