(* ===== verification/Download.v ===== *)
(** The download of a backup: what is sent is what was checked and journaled, whatever others do to the
    directory between the check and the moment the file is opened. *)
From S2P Require Import Prelude Utf8 Json JsonText Strconv GoTime Sha256 JsonDecode Text Errors Values Db Model Events Mutations Request Auth Api Verify Payloads System Effects Scenario Disk DiskLogic Artifacts Backup BackupNames BackupFacts Publication ArtifactFacts BackupPromises ApiFacts.
Local Open Scope Z_scope.

(** * Digests up to case *)

(** A hexadecimal digit as [hex.EncodeToString] writes it, and the runes that fold to it. *)
Lemma hex_char_byte n : 0 ≤ n < 16 → byte (hex_char n) = if n <? 10 then 48 + n else 87 + n.
Proof. intros Hn. unfold hex_char. case_if; apply byte_chr; lia. Qed.

Lemma fold_hex_rune r n : 0 ≤ n < 16 → fold_rune r = fold_rune (byte (hex_char n)) →
  r = byte (hex_char n) ∨ 10 ≤ n ∧ r = 55 + n.
Proof.
  intros Hn. rewrite hex_char_byte by done. unfold fold_rune. repeat case_match; bool_hyps; lia.
Qed.

Lemma fold_hex_val c n : 0 ≤ n < 16 → fold_rune (byte c) = fold_rune (byte (hex_char n)) → hex_val c = Some n.
Proof.
  intros Hn Hf. apply fold_hex_rune in Hf; [|done]. rewrite hex_char_byte in Hf by done. unfold hex_val, in_range.
  destruct (n <? 10) eqn:E; repeat case_if; bool_hyps; first [f_equal; lia|exfalso; lia|idtac].
Qed.

Lemma hex_runes_small l x : map fold_rune l = map fold_rune (map byte (list_ascii_of_string (hex_encode x))) → Forall (λ r, 0 ≤ r < 128) l.
Proof.
  revert x. intros x Hl. assert (Hf : Forall (λ r, ∃ n, 0 ≤ n < 16 ∧ fold_rune r = fold_rune (byte (hex_char n))) l).
  { revert l Hl. induction x as [|c x IH]; intros l Hl; cbn in Hl; [by destruct l|]. pose proof (byte_bounds c).
    destruct l as [|r1 [|r2 l]]; [constructor|discriminate|]. injection Hl as H1 H2 Hl. constructor; [exists (byte c / 16); split; [lia|done]|].
    constructor; [exists (byte c mod 16); split; [lia|done]|by apply IH]. }
  eapply Forall_impl; [exact Hf|]. cbn beta. intros r (n & Hn & Hr%fold_hex_rune); [|done]. rewrite hex_char_byte in Hr by done. case_match; lia.
Qed.

Lemma runes_ascii s : Forall (λ r, 0 ≤ r < 128) (runes s) → runes s = map byte (list_ascii_of_string s).
Proof.
  intros Hs. rewrite <-(string_of_runes_runes s) at 2 by by apply runes_small_valid. revert Hs. generalize (runes s). intros l.
  induction 1 as [|r l Hr _ IH]; [done|]. unfold string_of_runes, bytes_of in *. cbn [map concat_str].
  assert (Er : encode_rune r = R1 (chr r)).
  { unfold encode_rune, scalar. rewrite (proj2 (Z.leb_le 0 r)), (proj2 (Z.leb_le r 1114111)), (proj2 (Z.leb_gt 55296 r)), (proj2 (Z.ltb_lt r 128)) by lia. done. }
  rewrite Er. cbn [chunk_bytes]. rewrite app_str_cons, app_str_nil_l. cbn [list_ascii_of_string map]. by rewrite byte_chr, <-IH by lia.
Qed.

(** A text that is the digest up to case decodes to it. *)
Lemma hex_decode_fold s x : equal_fold s (hex_encode x) = true → hex_decode s = Some x.
Proof.
  unfold equal_fold, fold_name. intros E%bool_decide_eq_true.
  assert (Hx : is_ascii (hex_encode x) = true) by apply plain_ascii, hex_plain.
  assert (Ex : runes (hex_encode x) = map byte (list_ascii_of_string (hex_encode x))).
  { unfold runes. rewrite chunks_ascii, map_map by done. done. }
  rewrite Ex in E. rewrite runes_ascii in E by by eapply hex_runes_small. clear Hx Ex. revert s E.
  induction x as [|c x IH]; intros s E; cbn in E; [by destruct s|]. pose proof (byte_bounds c).
  destruct s as [|a [|b s]]; [discriminate|discriminate|]. cbn in E. injection E as E1 E2 E. cbn [hex_decode].
  rewrite (fold_hex_val a (byte c / 16)), (fold_hex_val b (byte c mod 16)), (IH s) by (done || lia). cbn. do 2 f_equal.
  apply byte_inj. rewrite byte_chr; lia.
Qed.

(** * The download *)

Section download.
Context `{SQLite} `{Engine}.

(** An opened artifact that was accepted. *)
Lemma opened_accepted file name m : ValidateOpenedBackupArtifact (Some file) name m = Ok () → ∃ content t, file = Regular content t
  ∧ if has_suffix name ".manifest.json" then read_manifest content = Some m else content_matches content m = true.
Proof.
  unfold ValidateOpenedBackupArtifact. destruct file as [content t| | |]; try discriminate. intros Hv. exists content, t. split; [done|].
  destruct (has_suffix name _).
  - destruct (_ || negb _) eqn:E; [discriminate|]. bool_hyps. by eapply bool_decide_eq_true.
  - by destruct (content_matches content m).
Qed.

(** What an answer with a file says, from the world the request found. *)
Definition sent (others : world → world) (name : string) (audit : AuditContext) (env : environment) (s : server) (w : world)
    (resp : response) (w' : world) : Prop := ∃ path m content checked t,
  artifact w.(files) s.(s_backupDir) name path m
  ∧ w.(files) !! path_join s.(s_backupDir) (database_name name) = Some (Regular checked t)
  ∧ RespBody resp = BRaw content
  ∧ ("Content-Length", format_int (len content)) ∈ Headers resp
  ∧ (if has_suffix name ".manifest.json" then read_manifest content = Some m
     else len content = len checked ∧ sum256 content = sum256 checked
          ∧ ("Digest", "sha-256=" +:+ b64_std_encode (sum256 content)) ∈ Headers resp)
  ∧ w'.(files) = (others w).(files)
  ∧ RecordBackupDownload env.(clock_first) m name audit (others w).(live) = (Ok (), w'.(live)).

(** Only the manifest of an artifact ends like one. *)
Lemma artifact_suffix name : artifact_name name = true → has_suffix name ".manifest.json" = false → has_suffix name ".json" = false.
Proof.
  unfold artifact_name. intros [_ Hd]%andb_true_iff Hm. unfold database_name in Hd. destruct (wants_manifest name) eqn:Hw.
  - unfold wants_manifest in Hw. apply has_suffix_spec in Hw as [a ->]. change ".db.manifest.json" with (".db" +:+ ".manifest.json") in Hm.
    by rewrite <-app_str_assoc, has_suffix_app in Hm.
  - by apply (has_suffix_last name ".d" ".jso" "b" "n").
Qed.

(** Two contents a manifest describes have one size and one digest. *)
Lemma matching_contents c c' m : content_matches c m = true → content_matches c' m = true →
  len c = len c' ∧ sum256 c = sum256 c' ∧ hex_decode m.(B_SHA256) = Some (sum256 c).
Proof.
  unfold content_matches. intros [Hl%Z.eqb_eq Hd%hex_decode_fold]%andb_true_iff [Hl'%Z.eqb_eq Hd'%hex_decode_fold]%andb_true_iff.
  split_and!; [lia|congruence|done].
Qed.

Lemma opened_sent others name audit env s w path m content t w' : artifact w.(files) s.(s_backupDir) name path m →
  ValidateOpenedBackupArtifact (Some (Regular content t)) name m = Ok () → w'.(files) = (others w).(files) →
  RecordBackupDownload env.(clock_first) m name audit (others w).(live) = (Ok (), w'.(live)) →
  sent others name audit env s w (mkResponse 200 (artifact_headers name m (len content)) (BRaw content)) w'.
Proof.
  intros Ha Hv Hf Hr. apply opened_accepted in Hv as (c0 & t0 & [= <- <-] & Hv). pose proof Ha as [Hn _ (checked & tc & text & tt & Hc & _ & _ & _ & _ & Hmc & _)].
  exists path, m, content, checked, tc. split_and!; try done; cbn [Headers].
  - unfold artifact_headers. case_if; set_solver.
  - destruct (has_suffix name ".manifest.json") eqn:Hs; [done|]. destruct (matching_contents content checked m Hv Hmc) as (H1 & H2 & H3).
    split_and!; [done|done|]. unfold artifact_headers. rewrite (artifact_suffix name Hn Hs), H3. set_solver.
Qed.

Lemma download_sends others name audit env s w : triple (λ w1, w1 = w) (handleBackupArtifactAmong others name audit env s)
  (λ r w', ∀ resp, r = Ok resp → Status resp = 200 → sent others name audit env s w resp w') (λ _, True).
Proof.
  assert (Hno : ∀ (P : world → Prop) status code, status ≠ 200 → triple P (mret (writeError [] status code) : io response)
    (λ r w', ∀ resp, r = Ok resp → Status resp = 200 → sent others name audit env s w resp w') (λ _, True)).
  { intros P status code Hs. apply triple_ret. intros w1 _ resp [= <-]. by cbn. }
  unfold handleBackupArtifactAmong. case_if; [by apply Hno|].
  eapply yields_bind; [apply (yields_artifact w)|done|by intros e w1 _ ? [=]|]. intros [path m] Ha. cbn [fst snd] in Ha.
  apply (triple_bind _ _ _ (λ _ w1, w1 = others w)); [apply triple_interfere; by intros w1 ->|]. intros _.
  eapply yields_bind; [apply yields_keeps, keeps_attempt, keeps_look|done|by intros e w1 _ ? [=]|]. intros [file|e] _; [|by apply Hno].
  eapply yields_bind; [apply yields_look|done|by intros e w1 _ ? [=]|]. intros [] Hv.
  apply (triple_bind _ _ _ (λ _ w1, w1.(files) = (others w).(files) ∧ RecordBackupDownload env.(clock_first) m name audit (others w).(live) = (Ok (), w1.(live)))).
  { apply triple_operate; [by intros t w1 _; split; [intros ? [=]|]|]. intros w1 ->.
    destruct (RecordBackupDownload _ _ _ _ _) as [[[]|e] d'] eqn:E; cbn; [by split|by intros ? [=]]. }
  intros _. apply triple_pointwise. intros w1 [Hf Hr]. eapply (yields_bind _ _ _ (λ info, ∀ a, info = Ok a → a = file)); [|done|by intros e w2 _ ? [=]|].
  { apply yields_attempt. eapply triple_weaken; [apply (yields_look w1)|done| |done]. intros r w2 [Hw Hl]. split; [done|]. intros a Ha'. by injection (Hl a Ha'). }
  intros info Hi. apply triple_ret. intros w2 -> resp [= <-]. destruct info as [a|e]; [|by cbn]. rewrite (Hi a eq_refl).
  destruct file as [content t| | |]; [|by cbn..]. intros _. by eapply opened_sent.
Qed.

(** C27.  A download sends what was checked and journaled.  Whatever others do to the directory and to the
    database between the check of a pair and the opening of the file, and under any faults, an answer
    with a file means: the pair was published and valid when it was checked; the bytes sent have the
    digest of the database that passed the checks, which the Digest header states, or are a manifest that
    reads as the one checked; the length is stated; and the event of the download, with the name and the
    digest of the pair, was committed to the database the others left. *)
Theorem download_is_checked others name audit env s fs w resp :
  let r := handleBackupArtifactAmong others name audit env s fs w in
  outcome r = Some (Ok resp) → Status resp = 200 → sent others name audit env s w resp (world_after r).
Proof.
  cbv zeta. pose proof (download_sends others name audit env s w fs w eq_refl) as Hk. unfold outcome, world_after.
  destruct (handleBackupArtifactAmong others name audit env s fs w) as [[r fs'] w']. cbn. intros -> Hs. by apply (Hk resp).
Qed.
End download.

(** * Instances *)

(** While a backup is downloaded another one rotates a file away and a maintenance is created. *)
Definition elsewhere (w : world) : world := mkWorld (delete (path_join backup_dir "lazarus-old.db") w.(files)) (run_all [op_create "m2"] w.(live)).
Definition busy_download : option (result error response) * list fault * world :=
  handleBackupArtifactAmong elsewhere (backup_base clock) admin api_env api_server [] (world_after first_backup).

Lemma download_is_checked_witness : ∃ resp, outcome busy_download = Some (Ok resp) ∧ Status resp = 200
  ∧ sent elsewhere (backup_base clock) admin api_env api_server (world_after first_backup) resp (world_after busy_download).
Proof.
  assert (E : match outcome busy_download with Some (Ok resp) => Status resp =? 200 | _ => false end = true) by (vm_compute; reflexivity).
  destruct (outcome busy_download) as [[resp|e]|] eqn:Ho; [|discriminate E..]. apply Z.eqb_eq in E. exists resp. split; [reflexivity|]. split; [exact E|].
  pose proof (download_is_checked elsewhere (backup_base clock) admin api_env api_server [] (world_after first_backup) resp) as Hd.
  cbv zeta in Hd. fold busy_download in Hd. exact (Hd Ho E).
Defined.
