(* ===== verification/Command.v ===== *)
(** The command line: cmd/lazarus/main.go, its environment variables, its flags and its subcommands.

    [getenv] gives the value of an environment variable, empty when it is not set.  A subcommand ends
    with its exit code, the lines it printed and the error it reported; the usage text of the [flag]
    package is left out, and so are the umask and the TLS configuration.  The HTTP client of the health
    check is a parameter. *)
From stdpp Require Import gmap.
From S2P Require Import Prelude Utf8 Json JsonText Strconv GoTime Duration JsonDecode Text Auth Errors Values Db Model Verify Disk Artifacts Backup Restore Startup Api.
Local Open Scope Z_scope.

(** * Environment variables *)

Section environment.
Context (getenv : string → string).

Definition env (key fallback : string) : string :=
  let value := trim_space (getenv key) in if String.eqb value "" then fallback else value.

Definition durationEnv (key : string) (fallback : Z) : result error Z :=
  let value := trim_space (getenv key) in
  if String.eqb value "" then Ok fallback
  else match parse_duration value with
       | Some parsed => if parsed <=? 0 then Err (EText (key +:+ " must be a positive Go duration")) else Ok parsed
       | None => Err (EText (key +:+ " must be a positive Go duration"))
       end.

Definition backupKeepEnv : result error Z :=
  let value := trim_space (getenv "LAZARUS_BACKUP_KEEP") in
  if String.eqb value "" then Ok 7
  else
    let refused := Err (EText "LAZARUS_BACKUP_KEEP must be an integer from 1 through 1000") in
    match parse_int value with
    | Some parsed => if (parsed <? 1) || (1000 <? parsed) then refused else Ok parsed
    | None => refused
    end.
End environment.

(** * Flags *)

Inductive flag := StringFlag | BoolFlag.

(** [strconv.ParseBool]. *)
Definition parse_bool (s : string) : option bool :=
  if existsb (String.eqb s) ["1"; "t"; "T"; "TRUE"; "true"; "True"] then Some true
  else if existsb (String.eqb s) ["0"; "f"; "F"; "FALSE"; "false"; "False"] then Some false
  else None.

(** The name of a flag and the value given with it: the first [=] that is not the first byte parts them. *)
Fixpoint cut_equals (s : string) : string * option string :=
  match s with
  | String c s' => if Ascii.eqb c "=" then ("", Some s') else let '(n, v) := cut_equals s' in (String c n, v)
  | EmptyString => ("", None)
  end.
Definition split_flag (s : string) : string * option string :=
  match s with
  | String c s' => let '(n, v) := cut_equals s' in (String c n, v)
  | EmptyString => ("", None)
  end.

(** The argument without its one or two dashes; none when it is no flag. *)
Definition flag_text (arg : string) : option string :=
  match arg with
  | String a (String b s) =>
    if Ascii.eqb a "-" then Some (if Ascii.eqb b "-" then s else String b s) else None
  | _ => None
  end.

(** [FlagSet.Parse]: the values of the flags that were given, by name; nothing on an error. *)
Fixpoint parse_flags (formal : list (string * flag)) (args : list string) (values : gmap string string) : option (gmap string string) :=
  match args with
  | [] => Some values
  | arg :: args' =>
    match flag_text arg with
    | None => Some values
    | Some s =>
      if String.eqb arg "--" then Some values
      else if String.eqb s "" || has_prefix s "-" || has_prefix s "=" then None
      else
        let '(name, value) := split_flag s in
        match find (λ f, String.eqb f.1 name) formal, value with
        | None, _ => None
        | Some (_, BoolFlag), Some v =>
          match parse_bool v with Some b => parse_flags formal args' (<[name := if b then "true" else "false"]> values) | None => None end
        | Some (_, BoolFlag), None => parse_flags formal args' (<[name := "true"]> values)
        | Some (_, StringFlag), Some v => parse_flags formal args' (<[name := v]> values)
        | Some (_, StringFlag), None =>
          match args' with
          | v :: args'' => parse_flags formal args'' (<[name := v]> values)
          | [] => None
          end
        end
    end
  end.

Definition flag_value (name fallback : string) (values : gmap string string) : string := default fallback (values !! name).
Definition flag_set (name : string) (values : gmap string string) : bool := String.eqb (flag_value name "false" values) "true".

(** * Subcommands *)

Record exit := mkExit { exit_code : Z; printed : list string; reported : option error }.

Definition usage_error : exit := mkExit 2 [] None.
Definition failed_with (e : error) : exit := mkExit 1 [] (Some e).

(** [get insecure url] is the status code and the status line of the response. *)
Definition runHealthcheck (get : bool → string → result error (Z * string)) (args : list string) : exit :=
  match parse_flags [("url", StringFlag); ("insecure", BoolFlag)] args ∅ with
  | None => usage_error
  | Some values =>
    match get (flag_set "insecure" values) (flag_value "url" "http://127.0.0.1:8080/healthz" values) with
    | Err e => failed_with e
    | Ok (status, line) =>
      if (status <? 200) || (300 <=? status) then failed_with (EText ("healthcheck failed: HTTP " +:+ line)) else mkExit 0 [] None
    end
  end.

(** [json.Marshal] of a [VerifyResult]. *)
Definition verify_json (r : VerifyResult) : string :=
  print (JObj [("sqlite_version", jstring r.(V_SQLiteVersion)); ("integrity_check", jstring r.(V_IntegrityCheck));
    ("foreign_key_check", jstring r.(V_ForeignKeys)); ("application_check", jstring r.(V_ApplicationData))]).

Section subcommands.
Context `{SQLite} `{Engine}.

Definition runVerify (args : list string) : io exit :=
  match parse_flags [("database", StringFlag)] args ∅ with
  | None => mret usage_error
  | Some values =>
    let database := flag_value "database" "" values in
    if String.eqb database "" then mret usage_error
    else
      result ← attempt (VerifyPath database);
      mret match result with Err e => failed_with e | Ok r => mkExit 0 [verify_json r] None end
  end.

Definition runRestore (names : list string) (copied_at replaced_at : Z) (args : list string) : io exit :=
  match parse_flags [("database", StringFlag); ("backup", StringFlag); ("manifest", StringFlag); ("replace", BoolFlag)] args ∅ with
  | None => mret usage_error
  | Some values =>
    let database := flag_value "database" "" values in
    let backup := flag_value "backup" "" values in
    let manifest := flag_value "manifest" "" values in
    if String.eqb database "" || String.eqb backup "" || String.eqb manifest "" then mret usage_error
    else
      result ← attempt (restoreDatabase names copied_at replaced_at database backup manifest (flag_set "replace" values));
      mret match result with Err e => failed_with e | Ok _ => mkExit 0 [] None end
  end.
End subcommands.

(** What [main] runs, by the arguments after the program's name. *)
Inductive command :=
  | Healthcheck (args : list string)
  | VerifyDatabase (args : list string)
  | RestoreBackup (args : list string)
  | PrintVersion
  | RunServer.

Definition main (args : list string) : command :=
  match args with
  | [] => RunServer
  | arg :: rest =>
    if String.eqb arg "healthcheck" then Healthcheck rest
    else if String.eqb arg "verify" then VerifyDatabase rest
    else if String.eqb arg "restore" then RestoreBackup rest
    else if String.eqb arg "version" || String.eqb arg "--version" || String.eqb arg "-version" then PrintVersion
    else RunServer
  end.

(** * Starting the server *)

(** What [runServer] has when it begins to serve. *)
Record launch := mkLaunch {
  launched : server;
  write_timeout : Z;
  shutdown_timeout : Z;
  tls : bool
}.

Definition seconds (n : Z) : Z := n * nanos.

(** [filepath.Join]. *)
Definition filepath_join (a b : string) : string := clean (a +:+ "/" +:+ b).

Section start.
Context `{SQLite} `{Engine} `{Opening} (getenv : string → string).

Definition dbPath : string := env getenv "LAZARUS_DB_PATH" "/var/lib/lazarus/lazarus.db".
Definition tokenPath : string := env getenv "LAZARUS_TOKEN_FILE" "/etc/lazarus/tokens".
Definition backupDir : string := env getenv "LAZARUS_BACKUP_DIR" (filepath_join (path_dir dbPath) "backups").

(** The start of [runServer], up to the listener.  [tokens] is what [os.Open] and [Stat] give for the
    token file, with its content. *)
Definition start_server (tokens : string → result error (file_info * string)) (version : string) (now : Z) : io launch :=
  keep ← of_result (backupKeepEnv getenv);
  backupMinAge ← of_result (durationEnv getenv "LAZARUS_BACKUP_MIN_AGE" (24 * seconds 3600));
  Open dbPath now ;;
  a ← look (λ _, match tokens tokenPath with
    | Err e => Err (EPrefixed "open token file" e)
    | Ok (info, content) => match LoadFile info content with Ok a => Ok a | Err text => Err (EText text) end
    end);
  w ← look (λ w, Ok w);
  let srv := New (mkConfig (Some (dbPath, w.(live))) (Some a) version backupDir keep backupMinAge) w.(files) in
  writeTimeout ← of_result (durationEnv getenv "LAZARUS_WRITE_TIMEOUT" (2 * seconds 60));
  shutdownTimeout ← of_result (durationEnv getenv "LAZARUS_SHUTDOWN_TIMEOUT" (seconds 30));
  let cert := getenv "LAZARUS_TLS_CERT_FILE" in
  let key := getenv "LAZARUS_TLS_KEY_FILE" in
  unless (Bool.eqb (String.eqb cert "") (String.eqb key "")) (EText "LAZARUS_TLS_CERT_FILE and LAZARUS_TLS_KEY_FILE must be set together") ;;
  mret (mkLaunch srv writeTimeout shutdownTimeout (negb (String.eqb cert ""))).
End start.

(** * Facts *)

(** The settings of backups are bounded: the number kept is from 1 through 1000 and a minimum age is
    a positive 64-bit duration, whatever the environment says. *)
Theorem settings_bounded getenv key fallback keep age : 0 < fallback ≤ int64_max → backupKeepEnv getenv = Ok keep →
  durationEnv getenv key fallback = Ok age → 1 ≤ keep ≤ 1000 ∧ 0 < age ≤ int64_max.
Proof.
  intros Hf Hk Ha. split.
  - unfold backupKeepEnv in Hk. cbv zeta in Hk. case_if; [injection Hk as <-; lia|]. destruct (parse_int _) as [n|]; [|discriminate].
    case_if; [discriminate|]. injection Hk as <-. bool_hyps. lia.
  - unfold durationEnv in Ha. cbv zeta in Ha. case_if; [by injection Ha as <-|]. destruct (parse_duration _) as [n|] eqn:En; [|discriminate].
    case_if; [discriminate|]. injection Ha as <-. bool_hyps. apply duration_bounds in En. lia.
Qed.

Example flags_examples :
  flag_value "database" "" <$> parse_flags [("database", StringFlag); ("replace", BoolFlag)] ["--database"; "a.db"; "-replace"] ∅ = Some "a.db"
  ∧ flag_set "replace" <$> parse_flags [("database", StringFlag); ("replace", BoolFlag)] ["-database=a=b"; "--replace=T"; "x"] ∅ = Some true
  ∧ flag_value "database" "" <$> parse_flags [("database", StringFlag)] ["-database=a=b"] ∅ = Some "a=b"
  ∧ parse_flags [("database", StringFlag)] ["--database"] ∅ = None ∧ parse_flags [("database", StringFlag)] ["-x"] ∅ = None
  ∧ parse_flags [("replace", BoolFlag)] ["--replace=maybe"] ∅ = None ∧ main ["verify"; "x"] = VerifyDatabase ["x"] ∧ main ["serve"] = RunServer.
Proof. by vm_compute. Qed.

Definition keep_env (key : string) : string :=
  if String.eqb key "LAZARUS_BACKUP_KEEP" then " 30 " else if String.eqb key "LAZARUS_BACKUP_MIN_AGE" then "36h" else "".

Lemma settings_bounded_witness : backupKeepEnv keep_env = Ok 30 ∧ durationEnv keep_env "LAZARUS_BACKUP_MIN_AGE" 1 = Ok 129600000000000
  ∧ (1 ≤ 30 ≤ 1000) ∧ 0 < 129600000000000 ≤ int64_max.
Proof.
  split; [vm_compute; reflexivity|]. split; [vm_compute; reflexivity|].
  apply (settings_bounded keep_env "LAZARUS_BACKUP_MIN_AGE" 1); [by vm_compute|vm_compute; reflexivity|vm_compute; reflexivity].
Defined.
