(* ===== verification/Lifetime.v ===== *)
(** The life of the server process: the second half of [runServer] in cmd/lazarus/main.go.

    The signal context is a state machine of its own; that it is cancelled is one step ([Signal]) of the
    process, a state machine over the server, the requests whose handlers have begun, and where
    [runServer] is.  A handler first reads whether the server is ready and does its work in a later
    step, however late; once the signal has cancelled the contexts it may also end without having
    done anything, and a backup or a download that is cut short is a run with faults.  [http.Server.Shutdown] returns without an error
    only when no request is active.  A request whose handler would begin only after [activeHandlers] was
    seen empty is left out, and so are the clocks: every deadline may pass at any time. *)
From stdpp Require Import relations.
From S2P Require Import Prelude Errors Values Db Model Events Mutations Verify System Effects Request Auth Disk Artifacts Publication Api ApiFacts BackupPromises Command Scenario.
Local Open Scope Z_scope.

(** * The signal context *)

(** [signalContext]: whether the runtime still delivers signals to the channel, whether its one place is
    taken, whether the goroutine still waits, and whether the context is cancelled. *)
Record signal_context := mkSignals { notified : bool; queued : bool; watching : bool; cancelled : bool }.

Definition signalContext : signal_context := mkSignals true false true false.

(** A signal is queued, or dropped when one is; the goroutine cancels the context when it takes one and
    ends when the context is done; the stop function ends the delivery and cancels the context. *)
Inductive signal_step : signal_context → signal_context → Prop :=
  | Deliver q w c : signal_step (mkSignals true q w c) (mkSignals true true w c)
  | Take n c : signal_step (mkSignals n true true c) (mkSignals n false false true)
  | Leave n q : signal_step (mkSignals n q true true) (mkSignals n q false true)
  | StopSignals n q w c : signal_step (mkSignals n q w c) (mkSignals false q w true).

Lemma signal_sticky s s' : rtc signal_step s s' → cancelled s = true → cancelled s' = true.
Proof. induction 1 as [|s t s' Hs _ IH]; [done|]. intros Hc. apply IH. by destruct Hs. Qed.

(** The goroutine never leaves a context behind that is not cancelled, so no signal is lost. *)
Lemma signal_watched s : rtc signal_step signalContext s → cancelled s = true ∨ watching s = true.
Proof.
  intros Hs. cut (cancelled signalContext = true ∨ watching signalContext = true); [|by right]. revert Hs.
  induction 1 as [|s t s' Hs _ IH]; [done|]. intros Hc. apply IH. destruct Hs; cbn in *; auto.
Qed.

Lemma signal_cancels s : rtc signal_step signalContext s → queued s = true → ∃ s', rtc signal_step s s' ∧ cancelled s' = true.
Proof.
  intros [Hc|Hw]%signal_watched Hq; [exists s; split; [done|done]|]. destruct s as [n q w c]. cbn in *. subst.
  exists (mkSignals n false false true). split; [apply rtc_once, Take|done].
Qed.

(** * The process *)

(** Why [runServer] returned. *)
Inductive ending :=
  | ListenerFailed (e : error)
  | ServerClosed
  | Graceful
  | DeadlinePassed
  | HandlersStuck.

(** The deferred [st.Close()]: [closeStore] is false when handlers did not stop. *)
Definition closes_store (e : ending) : bool := match e with HandlersStuck => false | _ => true end.

(** What [runServer] returns. *)
Definition returned (e : ending) : option error :=
  match e with
  | ListenerFailed err => Some err
  | ServerClosed | Graceful => None
  | DeadlinePassed => Some (EPrefixed "graceful shutdown" (EText "context deadline exceeded"))
  | HandlersStuck => Some (EText "graceful shutdown: handlers did not stop after cancellation")
  end.

Inductive phase :=
  | Serving
  | ShuttingDown
  | AwaitingHandlers (late : bool)
  | Exited (e : ending).

(** A handler that has begun: its request, and what it read of the ready flag if it has come to that. *)
Record task := mkTask { t_request : request; t_ready : option bool }.

Record process := mkProcess {
  p_phase : phase;
  p_signalled : bool;
  p_server : server;
  p_active : list task
}.

(** Serving begins with what [start_server] made. *)
Definition serving (l : launch) : process := mkProcess Serving false l.(launched) [].

Definition accepting (p : phase) : bool := match p with Serving | ShuttingDown => true | _ => false end.
Definition running (p : phase) : bool := match p with Exited _ => false | _ => true end.

(** The endings of a listener that stopped by itself. *)
Definition listener_ending (e : ending) : bool := match e with ListenerFailed _ | ServerClosed => true | _ => false end.

(** Takes the steps apart. *)
Ltac steps H := destruct H as [ph sig s l r Ha|ph sig s l i r Hr Hl|ph sig s l i r b env resp s' Hr Hl Hh|ph s l i Hr Hl|sig s l e He|s l|s l|sig s|sig s l|late sig s|late sig s l].

Section steps.
Context `{SQLite} `{Engine}.

Inductive step : process → process → Prop :=
  | Accept ph sig s l r : accepting ph = true → step (mkProcess ph sig s l) (mkProcess ph sig s (l ++ [mkTask r None]))
  | Checked ph sig s l i r : running ph = true → l !! i = Some (mkTask r None) →
      step (mkProcess ph sig s l) (mkProcess ph sig s (<[i := mkTask r (Some s.(s_ready))]> l))
  | Handled ph sig s l i r b env resp s' : running ph = true → l !! i = Some (mkTask r (Some b)) → ServeHTTP r env (SetReady b s) = (Some resp, s') →
      step (mkProcess ph sig s l) (mkProcess ph sig (SetReady s.(s_ready) s') (delete i l))
  | Cancelled ph s l i : running ph = true → is_Some (l !! i) → step (mkProcess ph true s l) (mkProcess ph true s (delete i l))
  | Listener sig s l e : listener_ending e = true → step (mkProcess Serving sig s l) (mkProcess (Exited e) sig s l)
  | Signal s l : step (mkProcess Serving false s l) (mkProcess Serving true s l)
  | Shutdown s l : step (mkProcess Serving true s l) (mkProcess ShuttingDown true (SetReady false s) l)
  | Drained sig s : step (mkProcess ShuttingDown sig s []) (mkProcess (AwaitingHandlers false) sig s [])
  | Deadline sig s l : step (mkProcess ShuttingDown sig s l) (mkProcess (AwaitingHandlers true) sig s l)
  | HandlersDone late sig s : step (mkProcess (AwaitingHandlers late) sig s []) (mkProcess (Exited (if late then DeadlinePassed else Graceful)) sig s [])
  | Stuck late sig s l : step (mkProcess (AwaitingHandlers late) sig s l) (mkProcess (Exited HandlersStuck) sig s l).

(** * Invariants *)

(** After the shutdown began the server is not ready; a store that was closed has no handler left,
    unless the listener had failed. *)
Definition orderly (p : process) : Prop :=
  match p.(p_phase) with
  | Serving => True
  | ShuttingDown | AwaitingHandlers _ => p.(p_server).(s_ready) = false
  | Exited e => listener_ending e = true ∨ p.(p_server).(s_ready) = false ∧ (closes_store e = true → p.(p_active) = [])
  end.

Lemma step_orderly p p' : step p p' → orderly p → orderly p'.
Proof.
  intros Hs. steps Hs; unfold orderly; cbn; try done; try by destruct ph.
  - by left.
  - intros ?. right. by split.
  - intros ?. right. by split.
Qed.

Lemma steps_orderly p p' : rtc step p p' → orderly p → orderly p'.
Proof. induction 1; [done|]. intros Ho. by apply IHrtc, (step_orderly x). Qed.

(** C34.  The store is closed under no handler.  Whatever requests come and whenever the signal and the
    deadlines do, a process that began by serving and has exited after the signal has either finished or
    cancelled every handler before the store was closed, or left the store open and says so. *)
Theorem store_closed_idle launch p e : rtc step (serving launch) p → p.(p_phase) = Exited e → listener_ending e = false →
  if closes_store e then p.(p_active) = [] else returned e = Some (EText "graceful shutdown: handlers did not stop after cancellation").
Proof.
  intros Hs He Hl. pose proof (steps_orderly _ _ Hs I) as Ho. unfold orderly in Ho. rewrite He in Ho.
  destruct Ho as [Ho|[_ Ho]]; [congruence|]. destruct (closes_store e) eqn:Ec; [by apply Ho|]. by destruct e.
Qed.

Definition is_change (e : event_row) : bool := negb (String.eqb e.(e_type) "backup.downloaded").

(** What may happen to a database while the server drains: events of downloads are appended. *)
Definition only_downloads (d d' : db) : Prop := ∃ l, Forall (λ e, is_change e = false) l ∧ d' = set_journal (λ j, j ++ l) d.

Lemma only_downloads_refl d : only_downloads d d.
Proof. exists []. split; [done|]. destruct d. unfold set_journal. cbn. by rewrite app_nil_r. Qed.

Lemma only_downloads_trans d1 d2 d3 : only_downloads d1 d2 → only_downloads d2 d3 → only_downloads d1 d3.
Proof.
  intros (l1 & H1 & ->) (l2 & H2 & ->). exists (l1 ++ l2). split; [by apply Forall_app|]. unfold set_journal. cbn. by rewrite <-app_assoc.
Qed.

(** The handlers that have read that the server is ready. *)
Definition admitted (t : task) : bool := default false t.(t_ready).
Definition admissions (l : list task) : nat := length (List.filter admitted l).

(** From [n] admitted handlers to [n']: each of those that ended journaled at most one change, and
    without them only events of downloads were added. *)
Definition drained (n : nat) (d : db) (n' : nat) (d' : db) : Prop :=
  (n' ≤ n)%nat ∧ (n' = n → only_downloads d d')
  ∧ ∃ l, d'.(journal) = d.(journal) ++ l ∧ (length (List.filter is_change l) + n' ≤ n)%nat.

Lemma drained_downloads n d n' d' : only_downloads d d' → (n' ≤ n)%nat → drained n d n' d'.
Proof.
  intros Ho Hn. split_and!; [done|done|]. destruct Ho as (l & Hl & ->). exists l. split; [done|].
  assert (E : List.filter is_change l = []).
  { induction Hl as [|e l He _ IH]; [done|]. cbn. by rewrite He. }
  by rewrite E.
Qed.

Lemma drained_refl n d : drained n d n d.
Proof. by apply drained_downloads; [apply only_downloads_refl|]. Qed.

Lemma drained_trans n1 d1 n2 d2 n3 d3 : drained n1 d1 n2 d2 → drained n2 d2 n3 d3 → drained n1 d1 n3 d3.
Proof.
  intros (L1 & O1 & l1 & J1 & C1) (L2 & O2 & l2 & J2 & C2). split_and!; [lia| |].
  - intros ->. apply (only_downloads_trans _ d2); [apply O1|apply O2]; lia.
  - exists (l1 ++ l2). split; [by rewrite J2, J1, app_assoc|]. rewrite List.filter_app, length_app. lia.
Qed.

Lemma admissions_app l l' : admissions (l ++ l') = (admissions l + admissions l')%nat.
Proof. unfold admissions. by rewrite List.filter_app, length_app. Qed.

Lemma admissions_cons t l : admissions (t :: l) = ((if admitted t then 1 else 0) + admissions l)%nat.
Proof. unfold admissions. cbn. by destruct (admitted t). Qed.

Lemma admissions_delete l i t : l !! i = Some t → admissions l = ((if admitted t then 1 else 0) + admissions (delete i l))%nat.
Proof. intros Hl. rewrite delete_take_drop, <-(take_drop_middle l i t Hl) at 1. rewrite !admissions_app, admissions_cons. lia. Qed.

Lemma admissions_insert l i t t' : l !! i = Some t → admitted t' = admitted t → admissions (<[i := t']> l) = admissions l.
Proof.
  intros Hl Ht. rewrite insert_take_drop by by eapply lookup_lt_Some. rewrite <-(take_drop_middle l i t Hl) at 3.
  by rewrite !admissions_app, !admissions_cons, Ht.
Qed.

(** A request to a server that is not ready, or that was when the request read it. *)
Lemma served_request `{!EngineLaws} r b env s d : s.(s_store) = Some d →
  ∃ d', s_store (ServeHTTP r env (SetReady b s)).2 = Some d' ∧ drained (if b then 1 else 0) d 0 d'.
Proof.
  intros Hd. pose proof (ServeHTTP_effect r env (SetReady b s)) as He. cbv zeta in He. destruct (ServeHTTP r env (SetReady b s)) as [resp s']. cbn.
  assert (Hno : drained (if b then 1 else 0) d 0 d) by (apply drained_downloads; [apply only_downloads_refl|lia]).
  destruct He as [E|(p & d0 & d' & _ & Hd0 & Hd' & Hm & He)]; [exists d; by rewrite E|]. cbn in Hd0, Hm.
  assert (d0 = d) as -> by congruence. exists d'. split; [done|].
  destruct He as [->|[(_ & Hw & resp0 & _ & [->|(o & _ & Hrun & _)])|(_ & kind & Hk & [->|(o & e & _ & _ & _ & -> & _ & _ & He)])]]; try done.
  - destruct Hm as [->|Hm]; [|by rewrite (reading_write _ Hw) in Hm]. destruct (run_op_effect o d) as [E|(_ & e & E)]; rewrite Hrun in E; cbn in E.
    + by rewrite E.
    + split_and!; [lia|done|]. exists [e]. split; [exact (ef_journal _ _ _ _ E)|]. cbn [List.filter]. destruct (is_change e); cbn; lia.
  - destruct b.
    + split_and!; [lia|done|]. exists [e]. split; [done|]. cbn [List.filter]. destruct (is_change e); cbn; lia.
    + destruct Hm as [[=]|Hm]. rewrite (Hk Hm) in He. apply drained_downloads; [|done]. exists [e]. split; [|done].
      apply Forall_singleton. unfold is_change. by rewrite He.
Qed.

Lemma step_drained `{!EngineLaws} p p' d : step p p' → p.(p_server).(s_ready) = false → p.(p_phase) ≠ Serving → p.(p_server).(s_store) = Some d →
  p'.(p_server).(s_ready) = false ∧ p'.(p_phase) ≠ Serving
  ∧ ∃ d', p'.(p_server).(s_store) = Some d' ∧ drained (admissions p.(p_active)) d (admissions p'.(p_active)) d'.
Proof.
  intros Hs. steps Hs; cbn [p_server p_phase p_active SetReady s_ready s_store]; intros Hready Hp Hd; try done; (split; [done|split; [done|]]); try (exists d; split; [done|]).
  - rewrite admissions_app, Nat.add_0_r. apply drained_refl.
  - rewrite (admissions_insert _ _ _ _ Hl) by (cbn; by rewrite Hready). apply drained_refl.
  - destruct (served_request r b env s d Hd) as (d' & Hd' & Ho). rewrite Hh in Hd'. exists d'. split; [done|].
    rewrite (admissions_delete _ _ _ Hl). cbn [admitted t_ready default]. destruct Ho as (Hle & Ho & k & Hj & Hk). split_and!; [lia|intros E; apply Ho; cbn in E; lia|].
    exists k. split; [done|]. cbn in Hk |- *. lia.
  - destruct Hl as [t Hl]. rewrite (admissions_delete _ _ _ Hl). apply drained_downloads; [apply only_downloads_refl|lia].
  - apply drained_refl.
  - apply drained_refl.
  - apply drained_refl.
  - apply drained_refl.
Qed.

(** C33.  Draining freezes the store.  From the moment the shutdown has begun, whatever requests are still
    accepted and answered, each handler that had passed the readiness check before can journal at most one
    more change (an event that is not of a download, the event of a new backup included), and when none has,
    or none ends, no maintenance, target or capture changes and no backup is made: the journal can only grow
    by events of downloads, which are GET requests and still answered while the server drains. *)
Theorem draining_freezes `{!EngineLaws} p p' d : rtc step p p' → p.(p_server).(s_ready) = false → p.(p_phase) ≠ Serving →
  p.(p_server).(s_store) = Some d →
  ∃ d', p'.(p_server).(s_store) = Some d' ∧ drained (admissions p.(p_active)) d (admissions p'.(p_active)) d'.
Proof.
  intros Hs. revert d. induction Hs as [p|p q p' Hst _ IH]; intros d Hr Hp Hd; [exists d; split; [done|apply drained_refl]|].
  destruct (step_drained p q d Hst Hr Hp Hd) as (Hr' & Hp' & d1 & Hd1 & Ho). destruct (IH d1 Hr' Hp' Hd1) as (d' & Hd' & Ho').
  exists d'. split; [done|]. by eapply drained_trans.
Qed.
End steps.

(** * Instances *)

Definition test_launch : launch := mkLaunch api_server (2 * seconds 60) (seconds 30) false.
Definition late_patch : request := patch_request "Bearer s3cret" 2.

(** A request that passed the check before the signal and is answered while the server drains. *)
Definition draining_server : server := SetReady false api_server.
Definition draining_process : process := mkProcess ShuttingDown true draining_server [mkTask late_patch (Some true)].
Abbreviation answered := (ServeHTTP late_patch api_env (SetReady true draining_server)).
Definition answered_process : process := mkProcess ShuttingDown true (SetReady false answered.2) [].

Lemma answered_succeeds : Status <$> answered.1 = Some 200.
Proof. vm_compute. reflexivity. Qed.

Lemma answers_last r b env s status : Status <$> (ServeHTTP r env (SetReady b s)).1 = Some status →
  step (mkProcess ShuttingDown true s [mkTask r (Some b)]) (mkProcess ShuttingDown true (SetReady s.(s_ready) (ServeHTTP r env (SetReady b s)).2) []).
Proof.
  intros E. destruct (ServeHTTP r env (SetReady b s)) as [[resp|] s'] eqn:Es; [|discriminate E].
  exact (Handled ShuttingDown true s [mkTask r (Some b)] 0 r b env resp s' eq_refl eq_refl Es).
Qed.

Lemma answered_step : step draining_process answered_process.
Proof. unfold draining_process, answered_process. exact (answers_last _ _ _ _ _ answered_succeeds). Qed.

Lemma draining_freezes_witness : ∃ d', answered_process.(p_server).(s_store) = Some d' ∧ drained 1 captured 0 d'.
Proof.
  apply (draining_freezes draining_process answered_process captured); [apply rtc_once, answered_step|reflexivity|discriminate|reflexivity].
Defined.

Lemma store_closed_idle_witness : ∃ p, rtc step (serving test_launch) p ∧ p.(p_phase) = Exited Graceful ∧ p.(p_active) = [].
Proof.
  exists (mkProcess (Exited Graceful) true (SetReady false api_server) []).
  assert (Hs : rtc step (serving test_launch) (mkProcess (Exited Graceful) true (SetReady false api_server) [])).
  { eapply rtc_l; [by apply (Accept Serving false api_server [] late_patch)|]. eapply rtc_l; [apply Signal|].
    eapply rtc_l; [apply Shutdown|]. eapply rtc_l; [eapply (Cancelled _ _ _ 0); [reflexivity|by eexists]|]. eapply rtc_l; [apply Drained|].
    apply rtc_once, (HandlersDone false). }
  split; [exact Hs|]. split; [reflexivity|]. apply (store_closed_idle test_launch _ Graceful Hs eq_refl eq_refl).
Defined.
