(* ===== verification/Restart.v ===== *)
(** From one run of the server to the next: the deferred [st.Close()] of [runServer], and the start that
    follows it.

    While the database is open SQLite keeps its file and what lies beside it; the other files of the
    model follow the disk only where the program touches it itself.  [Closing] says what SQLite has on
    the disk for a committed database, and what its checkpoint and the closing of the connection make
    of that. *)
From stdpp Require Import relations.
From S2P Require Import Prelude Utf8 Strconv Text Auth Errors Values Db Model Events Mutations Verify Invariant System Effects Scenario Request Disk DiskLogic Artifacts Backup BackupNames BackupFacts Publication ArtifactFacts BackupPromises Restore RestoreFacts RestorePromises Startup StartupFacts Recovery Api ApiFacts Command Lifetime.
Local Open Scope Z_scope.

Class Closing := {
  committed : string → db → disk → disk;
  checkpointed : string → db → disk → disk;
  closed : string → db → disk → disk
}.

Definition settle (f : string → db → disk → disk) (path : string) (w : world) : world := mkWorld (f path w.(live) w.(files)) w.(live).

(** * Closing *)

Section close.
Context `{Closing}.

(** [Store.Close]; the path is none when the store was not opened.  The error of the checkpoint is dropped. *)
Definition Close (store : option string) : io () :=
  match store with
  | None => mret ()
  | Some path =>
    attempt (operate intact (λ w, (Ok (), settle checkpointed path w))) ;;
    operate intact (λ w, (Ok (), settle closed path w))
  end.

(** The deferred function of [runServer]: it closes the store unless handlers did not stop. *)
Definition deferred_close (e : ending) (path : string) : io () :=
  if closes_store e then attempt (Close (Some path)) ;; mret () else mret ().
End close.

(** What the run of a server leaves on the disk: the world its requests made, with the database as SQLite
    has committed it, after the deferred close under some faults, or without any when it was killed. *)
Definition left_by `{Closing} (s : server) (d : db) (e : ending) (fs : list fault) : world :=
  world_after (deferred_close e s.(s_path) fs (settle committed s.(s_path) (mkWorld s.(s_files) d))).

Section restart.
Context `{SQLite} `{Engine} `{!EngineLaws} `{Opening} `{Closing}.

(** SQLite finds the database at the path. *)
Definition holds (path : string) (d : db) (f : disk) : Prop := ∃ c t i, f !! follow f path = Some (Regular c t) ∧ c ≠ ""
  ∧ recover c (beside f path) = Ok d ∧ quick_check c (beside f path) = Ok i ∧ equal_fold i "ok" = true.

(** What SQLite promises of a committed database: it is found again, before and after a checkpoint and
    after the connection was closed; only the files of the database change. *)
Record durable (path : string) (d : db) (f : disk) : Prop := mkDurable {
  du_committed : holds path d (committed path d f);
  du_checkpointed : ∀ f', holds path d f' → holds path d (checkpointed path d f');
  du_closed : ∀ f', holds path d f' → holds path d (closed path d f');
  du_directory : ∀ f', f' !! path_dir path = Some Directory → committed path d f' !! path_dir path = Some Directory
    ∧ checkpointed path d f' !! path_dir path = Some Directory ∧ closed path d f' !! path_dir path = Some Directory
}.

(** The database is at its path, in its directory. *)
Definition kept_at (path : string) (d : db) (w : world) : Prop :=
  w.(live) = d ∧ holds path d w.(files) ∧ w.(files) !! path_dir path = Some Directory.

Lemma keeps_close path d f : durable path d f → keeps (kept_at path d) (Close (Some path)).
Proof.
  intros [_ Hc Hd Hp]. unfold Close. apply keeps_bind; [apply keeps_attempt|intros _];
    (apply keeps_operate; [intros t w; by rewrite set_files_intact|]); intros w (Hl & Hh & Hdir); unfold settle; cbn; rewrite Hl;
    (split_and!; cbn; [done|by auto|by apply Hp]).
Qed.

(** Whatever fails while the store is closed, and whether it is closed at all, the database is kept. *)
Lemma left_kept s d e fs : durable s.(s_path) d s.(s_files) → s.(s_files) !! path_dir s.(s_path) = Some Directory →
  kept_at s.(s_path) d (left_by s d e fs).
Proof.
  intros Hd Hdir. assert (H0' : kept_at s.(s_path) d (settle committed s.(s_path) (mkWorld s.(s_files) d))).
  { split_and!; [done|apply Hd|by apply (du_directory _ _ _ Hd)]. }
  assert (Hk : keeps (kept_at s.(s_path) d) (deferred_close e s.(s_path))).
  { unfold deferred_close. destruct (closes_store e); [|keeps]. apply keeps_bind; [by eapply keeps_attempt, keeps_close|intros _; keeps]. }
  specialize (Hk fs _ H0'). unfold left_by, world_after. by destruct (deferred_close _ _ fs _) as [[[r|] fs'] w'].
Qed.

(** * The schema of a served database *)

(** No request changes the schema. *)
Lemma request_schema r env s d : s_store s = Some d → ∃ d', s_store (ServeHTTP r env s).2 = Some d' ∧ d'.(db_schema) = d.(db_schema).
Proof.
  intros Hd. pose proof (ServeHTTP_effect r env s) as Hk. cbv zeta in Hk. destruct (ServeHTTP r env s) as [resp s']. cbn.
  destruct Hk as [E|(p & d0 & d' & _ & Hd0 & Hd' & _ & He)]; [exists d; by rewrite E|]. assert (d0 = d) as -> by congruence. exists d'. split; [done|].
  assert (Hop : ∀ o, run_op o d = (Ok (), d') → d'.(db_schema) = d.(db_schema)).
  { intros o Ho. destruct (run_op_effect o d) as [E|(_ & e & E)]; rewrite Ho in E; [by cbn in E; subst|exact (ef_schema _ _ _ _ E)]. }
  destruct He as [->|[(_ & _ & resp0 & _ & [->|(o & _ & Hrun & _)])|(_ & kind & _ & [->|(o & e & _ & Hrun & _)])]]; eauto.
Qed.

Definition schema_of (s : server) : option schema := db_schema <$> s_store s.

Lemma request_schema_of r env s : schema_of (ServeHTTP r env s).2 = schema_of s.
Proof.
  unfold schema_of. destruct (s_store s) as [d|] eqn:Hd.
  - destruct (request_schema r env s d Hd) as (d' & -> & E). cbn. by rewrite E.
  - pose proof (ServeHTTP_effect r env s) as Hk. cbv zeta in Hk. destruct (ServeHTTP r env s) as [resp s']. cbn.
    destruct Hk as [->|(p & d0 & d' & _ & Hd0 & _)]; [by rewrite Hd|congruence].
Qed.

Lemma request_path r env s : s_path (ServeHTTP r env s).2 = s_path s.
Proof.
  assert (Hm : ∀ caller rid r env s, s_path (mux caller rid r env s).2 = s_path s).
  { clear. intros caller rid r env s. unfold mux. destruct (select_route _ _ _) as [[p|role h] values| |]; try done. unfold guarded.
    destruct caller as [[p d]|]; [|done]. destruct (Require_ p role); [|done]. by destruct (handle _ _ _ _ _ _ _). }
  assert (Hs : ∀ rid r env s, s_path (serve rid r env s).2 = s_path s).
  { clear -Hm. intros rid r env s. unfold serve. case_if; [apply Hm|]. cbv zeta. destruct (s_auth s); [|done]. destruct (Authenticate _ _) as [p|]; [|done].
    destruct (s_store s) as [d|]; [|done]. case_if; [done|]. pose proof (Hm (Some (p, d)) rid r env s) as E. by destruct (mux _ rid r env s). }
  unfold ServeHTTP. pose proof (Hs (requestID r (fresh_id env)) r env (count_request s)) as E.
  destruct (serve _ r env _) as [[resp|] s1]; cbn in *; [|done]. by case_if.
Qed.

(** What a run of the process never changes: where the database is and its schema. *)
Definition same_database (s s' : server) : Prop := s_path s' = s_path s ∧ schema_of s' = schema_of s.

Lemma steps_same p p' : rtc step p p' → same_database p.(p_server) p'.(p_server).
Proof.
  induction 1 as [|p q p' Hst _ [IH1 IH2]]; [done|]. assert (E : same_database p.(p_server) q.(p_server)).
  { steps Hst; cbn; try done. split; [pose proof (request_path r env (SetReady b s)) as E|pose proof (request_schema_of r env (SetReady b s)) as E]; by rewrite Hh in E. }
  destruct E as [E1 E2]. split; [by rewrite IH1|by rewrite IH2].
Qed.

(** Where a process can end: between two steps, or inside a request that it was answering. *)
Inductive halted (p : process) : server → Prop :=
  | Between : halted p p.(p_server)
  | Inside i r b env : running p.(p_phase) = true → p.(p_active) !! i = Some (mkTask r (Some b)) → halted p (ServeHTTP r env (SetReady b p.(p_server))).2.

Lemma halted_same p p' s : rtc step p p' → halted p' s → same_database p.(p_server) s.
Proof.
  intros [Hp Hd]%steps_same [|i r b env _ _]; [done|]. split; [by rewrite request_path|by rewrite request_schema_of].
Qed.

(** * Starting *)

(** What an opening that succeeds has checked. *)
Lemma triple_opens path now : triple (λ _, True) (Open path now)
  (λ r w, r = Ok () → trim_space path ≠ "" ∧ (compareVersions runtime_version minimumSQLite <? 0) = false ∧ verifyRequiredSchema w.(live).(db_schema) = Ok ())
  (λ _, True).
Proof.
  assert (Hk : ∀ A (m : io A), keeps (λ _, True) m) by (intros A m fs w _; by destruct (m fs w) as [[[?|] ?] ?]).
  unfold Open. eapply yields_bind; [apply yields_unless|done|by intros e w _ [=]|]. intros ? Hp.
  do 5 (eapply yields_bind; [apply yields_keeps, Hk|done|by intros e w _ [=]|]; intros ? _).
  eapply (yields_bind _ _ _ (λ v, v = runtime_version)); [apply triple_look; intros w _; split_and!; try done; by intros ? [= <-]|done|by intros e w _ [=]|].
  intros ? ->. eapply yields_bind; [apply yields_unless|done|by intros e w _ [=]|]. intros ? Hv.
  do 2 (eapply yields_bind; [apply yields_keeps, Hk|done|by intros e w _ [=]|]; intros ? _).
  apply triple_prefixed, triple_look. intros w _. split_and!; [done|by intros [=]|]. destruct (verifyRequiredSchema _) as [[]|]; [|by intros [=]].
  intros _. cbn beta in Hp, Hv. bool_hyps. split_and!; [done|by apply Z.ltb_ge|done].
Qed.

Section start.
Context (getenv : string → string) (tokens : string → result error (file_info * string)) (version : string).
Let path := dbPath getenv.

(** What a start that succeeds has read, apart from the database, and the server it makes of one. *)
Definition settled (make : world → launch) : Prop := ∃ keep age info content a wt st,
  backupKeepEnv getenv = Ok keep ∧ durationEnv getenv "LAZARUS_BACKUP_MIN_AGE" (24 * seconds 3600) = Ok age
  ∧ tokens (tokenPath getenv) = Ok (info, content) ∧ LoadFile info content = Ok a
  ∧ durationEnv getenv "LAZARUS_WRITE_TIMEOUT" (2 * seconds 60) = Ok wt ∧ durationEnv getenv "LAZARUS_SHUTDOWN_TIMEOUT" (seconds 30) = Ok st
  ∧ Bool.eqb (String.eqb (getenv "LAZARUS_TLS_CERT_FILE") "") (String.eqb (getenv "LAZARUS_TLS_KEY_FILE") "") = true
  ∧ make = λ w, mkLaunch (New (mkConfig (Some (path, w.(live))) (Some a) version (backupDir getenv) keep age) w.(files)) wt st
      (negb (String.eqb (getenv "LAZARUS_TLS_CERT_FILE") "")).

Definition started (l : launch) (w : world) : Prop := trim_space path ≠ "" ∧ (compareVersions runtime_version minimumSQLite <? 0) = false
  ∧ verifyRequiredSchema w.(live).(db_schema) = Ok () ∧ ∃ make, settled make ∧ l = make w.

Lemma triple_start now : triple (λ _, True) (start_server getenv tokens version now) (λ r w, ∀ l, r = Ok l → started l w) (λ _, True).
Proof.
  set (T := λ _ : world, True).
  unfold start_server. eapply (yields_bind T); [apply yields_of_result|done|by intros e w _ l [=]|]. intros keep Hkeep.
  eapply (yields_bind T); [apply yields_of_result|done|by intros e w _ l [=]|]. intros age Hage.
  apply (triple_bind _ _ _ (λ _ w, trim_space path ≠ "" ∧ (compareVersions runtime_version minimumSQLite <? 0) = false ∧ verifyRequiredSchema w.(live).(db_schema) = Ok ())).
  { eapply triple_weaken; [apply triple_opens|done| |done]. intros [[]|e] w Hw; [by apply Hw|by intros l [=]]. }
  intros _. apply triple_pointwise. intros w0 (Hp & Hv & Hs). eapply yields_bind; [apply (yields_look w0)|done|by intros e w ? l [=]|]. cbn beta. intros a Ha.
  eapply yields_bind; [apply (yields_look w0)|done|by intros e w ? l [=]|]. cbn beta. intros ? [= <-].
  eapply yields_bind; [apply yields_of_result|done|by intros e w ? l [=]|]. intros wt Hwt.
  eapply yields_bind; [apply yields_of_result|done|by intros e w ? l [=]|]. intros st Hst. cbv zeta.
  eapply yields_bind; [apply yields_unless|done|by intros e w ? l [=]|]. intros ? Htls. apply triple_ret. intros w -> l [= <-]. unfold started. split_and!; [done..|].
  destruct (tokens (tokenPath getenv)) as [[info content]|e] eqn:Et; [|discriminate]. destruct (LoadFile info content) as [a'|e] eqn:El; [|discriminate].
  injection Ha as ->. eexists. split; [exists keep, age, info, content, a, wt, st; by split_and!|done].
Qed.

Lemma runs_of_result {A} (r : result error A) a w : r = Ok a → runs (of_result r) w a w.
Proof. by intros ->. Qed.

Lemma runs_start make now w w' : settled make → runs (Open path now) w () w' → runs (start_server getenv tokens version now) w (make w') w'.
Proof.
  intros (keep & age & info & content & a & wt & st & H1' & H2' & H3' & H4' & H5' & H6' & H7' & ->) Ho. unfold start_server.
  eapply runs_bind; [by apply runs_of_result|]. eapply runs_bind; [by apply runs_of_result|]. eapply runs_bind; [exact Ho|].
  eapply (runs_bind _ _ _ a w'); [apply runs_look; by rewrite H3', H4'|]. eapply runs_bind; [by apply runs_look|].
  eapply runs_bind; [by apply runs_of_result|]. eapply runs_bind; [by apply runs_of_result|]. cbv zeta. eapply runs_bind; [by apply runs_unless|].
  apply runs_ret.
Qed.
End start.

(** C32.  A restart continues where the server ended.  After any start that succeeded under any faults,
    whatever requests were served, wherever the process ended, be it inside a request, and whatever
    failed while the store was closed or whether it was closed at all, a start with the same settings
    and without faults succeeds and serves exactly the database the last run had, ready at once.  The
    database is one of files, in a directory that is still there, which SQLite keeps as it promises
    ([durable]). *)
Theorem restart_continues getenv tokens version now fs w l p s d e fs' now' forgotten :
  outcome (start_server getenv tokens version now fs w) = Some (Ok l) → rtc step (serving l) p → halted p s → s_store s = Some d →
  let path := dbPath getenv in
  isMemoryPath path = false → durable path d s.(s_files) → s.(s_files) !! path_dir path = Some Directory →
  let left := (left_by s d e fs').(files) in
  ∃ l', runs (start_server getenv tokens version now') (mkWorld left forgotten) l' (mkWorld left d)
    ∧ s_store l'.(launched) = Some d ∧ s_ready l'.(launched) = true.
Proof.
  cbv zeta. intros Ho Hsteps Hh Hd Hm Hdur Hdir. pose proof (triple_start getenv tokens version now fs w I) as Hs.
  unfold outcome in Ho. destruct (start_server getenv tokens version now fs w) as [[r fs1] w1]. cbn in Ho. subst r.
  destruct (Hs l eq_refl) as (Hp & Hv & Hschema & make & Hset & ->). destruct (halted_same _ _ _ Hsteps Hh) as [Epath Eschema].
  assert (Em : s_path (make w1).(launched) = dbPath getenv ∧ s_store (make w1).(launched) = Some w1.(live)
    ∧ ∀ w2, s_store (make w2).(launched) = Some w2.(live) ∧ s_ready (make w2).(launched) = true).
  { destruct Hset as (keep & age & info & content & a & wt & st & _ & _ & _ & _ & _ & _ & _ & ->). by split_and!. }
  destruct Em as (Ep & Es & Em). cbn in Epath, Eschema. rewrite Ep in Epath. unfold schema_of in Eschema. rewrite Es, Hd in Eschema. cbn in Eschema.
  injection Eschema as Eschema. rewrite <-Epath in Hdur, Hdir. destruct (left_kept s d e fs' Hdur Hdir) as (Hl & (c & t & i & Hf & Hc & Hr & Hq & Hi) & Hdir').
  rewrite Epath in *. exists (make (mkWorld (left_by s d e fs').(files) d)). split; [|apply Em].
  eapply runs_start; [exact Hset|]. apply (runs_open_file (dbPath getenv) c t d i now' (mkWorld (left_by s d e fs').(files) forgotten)); try done. by rewrite Eschema.
Qed.
End restart.

(** * Instances *)

(** SQLite has the database in its file; a checkpoint empties the log and closing removes it. *)
Definition plain_file (path : string) (f g : disk) : disk := match f !! path with Some (Regular _ _) => g | _ => f end.
#[export] Instance closing : Closing := {|
  committed path _ f := <[path := Regular "pages" 1]> (<[path +:+ "-wal" := Regular "log" 1]> f);
  checkpointed path _ f := plain_file path f (<[path +:+ "-wal" := Regular "" 2]> f);
  closed path _ f := plain_file path f (delete (path +:+ "-wal") f)
|}.

Lemma wal_apart path : path +:+ "-wal" ≠ path.
Proof. intros E. apply (f_equal String.length) in E. rewrite length_app_str in E. cbn in E. lia. Qed.

Lemma regular_holds path c t f : f !! path = Some (Regular c t) → c ≠ "" → holds path completed f.
Proof. intros Hf Hc. exists c, t, "ok". unfold follow. rewrite Hf. by split_and!. Qed.

Lemma completed_durable path f : path_dir path ≠ path → path_dir path ≠ path +:+ "-wal" → durable path completed f.
Proof.
  intros Hd Hw. pose proof (wal_apart path) as Ha. constructor; unfold committed, checkpointed, closed, closing.
  - apply (regular_holds _ "pages" 1); [apply lookup_insert_eq|done].
  - intros f' Hh. unfold plain_file. destruct (f' !! path) as [[c t| | |]|] eqn:E; try done. destruct Hh as (c' & t' & i & Hf & Hc & _).
    unfold follow in Hf. rewrite E, E in Hf. injection Hf as <- <-. apply (regular_holds _ c t); [by rewrite lookup_insert_ne|done].
  - intros f' Hh. unfold plain_file. destruct (f' !! path) as [[c t| | |]|] eqn:E; try done. destruct Hh as (c' & t' & i & Hf & Hc & _).
    unfold follow in Hf. rewrite E, E in Hf. injection Hf as <- <-. apply (regular_holds _ c t); [by rewrite lookup_delete_ne|done].
  - intros f' Hf. unfold plain_file. split_and!; [by rewrite !lookup_insert_ne|..]; destruct (f' !! path) as [[c t| | |]|]; try done;
      [by rewrite lookup_insert_ne|by rewrite lookup_delete_ne].
Qed.

(** A server is started on an existing database, is told to stop while a request is waiting, and fails
    while it closes the store. *)
Definition restart_env (key : string) : string := if String.eqb key "LAZARUS_DB_PATH" then data_path else "".
Definition token_file (_ : string) : result error (file_info * string) :=
  Ok (mkFileInfo true 288, json_text "{'name':'ops','role':'operator','token':'s3cret'}").
Definition first_start : option (result error launch) * list fault * world := start_server restart_env token_file "dev" clock [] replaced_world.

Lemma first_start_serves : ∃ l, outcome first_start = Some (Ok l) ∧ s_store l.(launched) = Some completed
  ∧ s_files l.(launched) !! path_dir data_path = Some Directory.
Proof.
  assert (E : match outcome first_start with Some (Ok l) => match s_files l.(launched) !! path_dir data_path with Some Directory => true | _ => false end | _ => false end = true)
    by (vm_compute; reflexivity).
  assert (E2 : match outcome first_start with Some (Ok l) => s_store l.(launched) = Some completed | _ => True end) by (vm_compute; reflexivity).
  destruct (outcome first_start) as [[l|e]|]; [|discriminate E..]. exists l. split; [reflexivity|]. split; [exact E2|].
  destruct (s_files (launched l) !! path_dir data_path) as [[| | |]|]; (reflexivity || discriminate E).
Qed.

Lemma restart_continues_witness : ∃ l p, outcome first_start = Some (Ok l) ∧ rtc step (serving l) p
  ∧ ∃ l', runs (start_server restart_env token_file "dev" (clock + 9))
      (mkWorld (left_by p.(p_server) completed Graceful [Fails ""; Stops ""]).(files) initializeSchema) l'
      (mkWorld (left_by p.(p_server) completed Graceful [Fails ""; Stops ""]).(files) completed)
    ∧ s_store l'.(launched) = Some completed ∧ s_ready l'.(launched) = true.
Proof.
  destruct first_start_serves as (l & Hl & Hs & Hf). exists l, (mkProcess ShuttingDown true (SetReady false l.(launched)) [mkTask late_patch None]).
  assert (Hsteps : rtc step (serving l) (mkProcess ShuttingDown true (SetReady false l.(launched)) [mkTask late_patch None])).
  { eapply rtc_l; [by apply (Accept Serving false (launched l) [] late_patch)|]. eapply rtc_l; [apply Signal|]. apply rtc_once, Shutdown. }
  split; [exact Hl|]. split; [exact Hsteps|].
  assert (Hpath : dbPath restart_env = data_path) by (vm_compute; reflexivity).
  pose proof (restart_continues restart_env token_file "dev" clock [] replaced_world l
    (mkProcess ShuttingDown true (SetReady false l.(launched)) [mkTask late_patch None]) (SetReady false l.(launched))
    completed Graceful [Fails ""; Stops ""] (clock + 9) initializeSchema) as Hr.
  cbv zeta in Hr. fold first_start in Hr. rewrite Hpath in Hr. apply (Hr Hl Hsteps (Between _)).
  - exact Hs.
  - reflexivity.
  - apply completed_durable; vm_compute; discriminate.
  - exact Hf.
Defined.
