(* ===== verification/Guarantees.v ===== *)
(** What the store promises to its callers, as theorems about the operations of [Mutations] and the
    verifier of [Verify], each with an instance on the run of [Scenario]. *)
From S2P Require Import Prelude Utf8 Json JsonText Strconv GoTime Sha256 JsonDecode Text Errors Values Lifecycle Db Model Events Mutations Verify Payloads Invariant Preserve PreserveTransitions System Soundness Effects Scenario.
Local Open Scope Z_scope.

Section guarantees.
Context `{SQLite}.

(** * Consistency *)

(** C1.  The verifier that backups and restores run accepts a state that calls of the store have
    reached exactly when every saved observation time is read back as the instant that was
    captured, as it is when its UTC year is within 0..9999.  So after any calls the schema is the
    required one, no lock is active twice, each maintenance and each target is what the replay of
    its events and its capture gives in everything else, and the global events are well-formed.  An
    observation time outside those years is the one thing the store takes from a client and the
    verifier then refuses ([late_capture]).  [System.op_ok] states what the calls are: the clock is
    within those years too, text is UTF-8 (as decoding a request makes it), a payload fits memory and a
    backup's manifest describes a file. *)
Theorem reachable_verifies d : reachable d → (verifyApplicationData d = Ok () ↔ observations_kept d).
Proof. intros Hd. by apply inv_verifies, reachable_inv. Qed.

(** C3.  In every reachable state a lock key is held by at most one maintenance that is neither
    completed nor cancelled. *)
Theorem locks_exclusive d m1 t1 r1 m2 t2 r2 : reachable d →
  d.(targets) !! (m1, t1) = Some r1 → d.(targets) !! (m2, t2) = Some r2 → r1.(t_lock_key) = r2.(t_lock_key) →
  active d m1 = true → active d m2 = true → m1 = m2.
Proof. intros Hd. apply (inv_locks _ (reachable_inv d Hd)). Qed.

(** C10.  In a database the verifier accepts, whatever program wrote it, a completed maintenance
    was captured, has targets, and has every target back in its original state or skipped. *)
Theorem completed_is_reconciled d u mid row : verifyApplicationData d = Ok u →
  d.(maintenance) !! mid = Some row → row.(m_state) = "completed" →
  is_Some (d.(captures) !! mid) ∧ targets_of d mid ≠ []
  ∧ ∀ tid trow, d.(targets) !! (mid, tid) = Some trow → targetCompletionAllowed trow.(t_original_state) trow.(t_state) = true.
Proof.
  intros Hv Hrow Hs. destruct (verify_maintenance d u Hv mid row Hrow) as (l & r & Hac).
  by eapply accepted_completed.
Qed.

(** * Writes *)

(** C7.  The journal is append-only and complete: a call either leaves the database untouched or
    appends exactly one event, and then changes rows only of the maintenance the event names. *)
Theorem one_event_per_change o d : let d' := (run_op o d).2 in
  d' = d ∨ ∃ e, d'.(journal) = d.(journal) ++ [e] ∧ d'.(db_schema) = d.(db_schema)
    ∧ ∀ mid, e.(e_maintenance_id) ≠ Some mid → d'.(maintenance) !! mid = d.(maintenance) !! mid
      ∧ d'.(captures) !! mid = d.(captures) !! mid ∧ slice mid d'.(targets) = slice mid d.(targets).
Proof. destruct (run_op_effect o d) as [->|(_ & e & He)]; [by left|right]. exists e. split_and!; apply He. Qed.

(** C11.  A completed or cancelled maintenance is final: no call changes its row, its capture, its
    targets or its part of the journal. *)
Theorem closed_is_final o d mid row : d.(maintenance) !! mid = Some row → holds_locks row.(m_state) = false →
  let d' := (run_op o d).2 in
  d'.(maintenance) !! mid = Some row ∧ d'.(captures) !! mid = d.(captures) !! mid
  ∧ slice mid d'.(targets) = slice mid d.(targets) ∧ events_of mid d'.(journal) = events_of mid d.(journal).
Proof.
  intros Hrow Hc. cbn zeta. destruct (run_op_effect o d) as [->|(_ & e & He)]; [done|].
  assert (Hne : e.(e_maintenance_id) ≠ Some mid).
  { intros E. pose proof (ef_open _ _ _ _ He mid row E Hrow). congruence. }
  destruct (ef_frame _ _ _ _ He mid Hne) as (-> & -> & ->). split_and!; [done..|].
  by rewrite (ef_journal _ _ _ _ He), events_of_app, events_of_one, bool_decide_eq_false_2, app_nil_r.
Qed.

(** * Optimistic concurrency *)

(** C13.  A transition that succeeds found a version its precondition accepts and an allowed move;
    it raises the version by one, moves the row to the requested state, bumps every captured
    target, answers with the new version, and journals the move under the new version. *)
Theorem transition_commits now id change p audit d agg d' : TransitionMaintenance now id change p audit d = (Ok agg, d') →
  ∃ row payload, d.(maintenance) !! id = Some row ∧ transition_input id change = Ok payload
    ∧ (p.(Any) = true ∨ row.(m_version) ∈ p.(Versions))
    ∧ ValidMaintenanceTransition row.(m_state) change.(SC_State) = true
    ∧ d'.(maintenance) !! id = Some (set_maintenance_state change.(SC_State) (row.(m_version) + 1) now row)
    ∧ slice id d'.(targets) = match d.(captures) !! id with
        | Some _ => bump_target now <$> slice id d.(targets)
        | None => slice id d.(targets)
        end
    ∧ agg.(MA_Maintenance).(M_Version) = row.(m_version) + 1 ∧ agg.(MA_Targets) = listTargets d' id
    ∧ ∃ e, last d'.(journal) = Some e ∧ e.(e_from_state) = nullText row.(m_state) ∧ e.(e_to_state) = nullText change.(SC_State)
        ∧ e.(e_aggregate_version) = nullInt (row.(m_version) + 1) ∧ e.(e_actor) = (auditValues audit).(Actor).
Proof.
  intros (payload & Hin & Htx)%validated_ok. apply transition_tx_ok in Htx as (row & Hrow & Hg & Hp & Happ & ->).
  apply appendEvent_row in Happ. subst d'. exists row, payload. split_and!; try done.
  - by apply (gf_valid _ _ _ _ Hg).
  - apply lookup_insert_eq.
  - cbn [targets set_journal set_maintenance set_targets]. rewrite bump_slice. destruct (captures d !! id); [|done]. by rewrite decide_True.
  - eexists. split; [apply last_snoc|]. split_and!; try done. apply or_system_idem.
Qed.

(** C12.  No lost update: when a caller's transition committed against version [v], every later
    transition that was prepared against [v] is refused with a version conflict and writes
    nothing, whatever calls ran in between. *)
Theorem no_lost_update now id c1 v a1 d agg d1 ops now2 c2 payload a2 :
  TransitionMaintenance now id c1 (mkPrecondition false [v]) a1 d = (Ok agg, d1) →
  transition_input id c2 = Ok payload →
  let d2 := run_all ops d1 in
  ∃ e, TransitionMaintenance now2 id c2 (mkPrecondition false [v]) a2 d2 = (Err e, d2) ∧ errors_is e ErrVersionConflict = true.
Proof.
  intros (pl & Hin & Htx)%validated_ok Hin2. apply transition_tx_ok in Htx as (row & Hrow & _ & Hp & Happ & _).
  destruct Hp as [[=]|Hp]. apply list_elem_of_singleton in Hp. cbn zeta in Happ.
  apply appendEvent_row in Happ. cbn zeta.
  destruct (run_all_version id (v + 1) ops d1) as (row2 & Hrow2 & Hv2).
  { subst d1. eexists. split; [apply lookup_insert_eq|]. cbn. lia. }
  eapply transition_stale; [done|done|lia].
Qed.

(** C14.  A phase change invalidates the ETags of the targets: after a transition of a captured
    maintenance, a target transition prepared against the target's earlier version is refused
    with a version conflict (when the new phase is not terminal). *)
Theorem phase_change_invalidates_targets now id c1 p1 a1 d agg d1 tid trow now2 c2 payload a2 :
  TransitionMaintenance now id c1 p1 a1 d = (Ok agg, d1) → is_Some (d.(captures) !! id) →
  d.(targets) !! (id, tid) = Some trow → IsMaintenanceTerminal c1.(SC_State) = false → target_input id tid c2 = Ok payload →
  ∃ e, TransitionTarget now2 id tid c2 (mkPrecondition false [trow.(t_version)]) a2 d1 = (Err e, d1)
    ∧ errors_is e ErrVersionConflict = true.
Proof.
  intros (pl & Hin & Htx)%validated_ok [c Hc] Ht Hterm Hin2. apply transition_tx_ok in Htx as (row & Hrow & _ & _ & Happ & _).
  cbn zeta in Happ. apply appendEvent_row in Happ.
  assert (Hrow1 : d1.(maintenance) !! id = Some (set_maintenance_state (SC_State c1) (m_version row + 1) now row)).
  { subst d1. apply lookup_insert_eq. }
  assert (Ht1 : d1.(targets) !! (id, tid) = Some (bump_target now trow)).
  { subst d1. rewrite Hc. cbn -[format]. unfold bump_rows. rewrite map_lookup_imap, Ht. cbn. by rewrite String.eqb_refl. }
  unfold TransitionTarget, validated. rewrite Hin2. rewrite write_perform. unfold transition_target_tx.
  rewrite perform_bind, (load_maintenance_some _ _ _ Hrow1).
  rewrite perform_bind. cbn [scanMaintenance set_maintenance_state M_State m_state]. rewrite Hterm. cbn [negb ensure perform].
  rewrite perform_bind, (load_target_some _ _ _ _ Ht1).
  destruct (stale_version (t_version trow) (t_version trow + 1) "target" tid (t_state trow) (SC_State c2)) as (e & He & Hx); [lia|].
  rewrite perform_bind. cbn [scanTarget bump_target T_Version T_State t_version t_state]. rewrite He. eauto.
Qed.

(** C20.  Versions cannot overflow before the journal does: the version of a maintenance is between 1 and
    the number of its events, the version of a target between 1 and that of its maintenance, and so
    both are positive 64-bit integers in a store whose journal has at most 2^63-1 events. *)
Theorem versions_bounded d mid row : reachable d → d.(maintenance) !! mid = Some row →
  1 ≤ row.(m_version) ≤ Z.of_nat (length (events_of mid d.(journal)))
  ∧ (∀ tid trow, d.(targets) !! (mid, tid) = Some trow → 1 ≤ trow.(t_version) ≤ row.(m_version))
  ∧ (Z.of_nat (length d.(journal)) ≤ int64_max → in_int64 row.(m_version) = true).
Proof.
  intros Hd Hrow. pose proof (reachable_inv d Hd) as Hi.
  destruct (consistent_versions _ _ _ _ _ (inv_maintenance _ Hi mid row Hrow)) as [Hv Ht].
  destruct (inv_maintenance _ Hi mid row Hrow) as (has & hash & l' & r' & _ & _ & Hag). pose proof (ag_version _ _ _ _ _ _ _ Hag) as Hpos.
  split_and!; [lia|done|intros tid trow Htr; apply (Ht tid); by rewrite slice_lookup|]. intros Hmax.
  assert (length (events_of mid d.(journal)) ≤ length d.(journal))%nat by apply filter_length_le.
  unfold in_int64. rewrite andb_true_iff, !Z.leb_le. unfold int64_min. lia.
Qed.
End guarantees.

(** * Instances *)

(** A capture whose observation falls into the year 10000 is taken, and the database refused from then on. *)
Definition late_payload : string := json_text
  "{'targets':[{'target_id':'a','lock_key':'L','original_state':'running','observed_at':'9999-12-31T23:59:59-01:00'}]}".
Definition late_capture : db := run_all [op_create "m1"; op_capture "m1" late_payload] initializeSchema.

Example late_capture_taken : (run_op (op_capture "m1" late_payload) created).1 = Ok () ∧ is_ok (verifyApplicationData late_capture) = false.
Proof. split; vm_compute; reflexivity. Qed.

Lemma late_reachable : reachable late_capture.
Proof. apply reachable_all; [constructor|]. constructor; [by vm_compute|]. constructor; [by vm_compute|constructor]. Qed.

Lemma reachable_verifies_witness : reachable completed ∧ observations_kept completed ∧ reachable late_capture ∧ ¬ observations_kept late_capture.
Proof.
  split; [exact completed_reachable|]. split; [apply (reachable_verifies completed completed_reachable); vm_compute; reflexivity|].
  split; [exact late_reachable|]. intros Hk%(reachable_verifies late_capture late_reachable).
  pose proof (proj2 late_capture_taken) as Hv. rewrite Hk in Hv. discriminate Hv.
Defined.

Lemma locks_exclusive_witness : ∃ r1 r2, shared.(targets) !! ("m1", "a") = Some r1 ∧ shared.(targets) !! ("m1", "b") = Some r2
  ∧ r1.(t_lock_key) = r2.(t_lock_key) ∧ "m1" = "m1".
Proof.
  do 2 eexists. split; [vm_compute; reflexivity|]. split; [vm_compute; reflexivity|]. split; [reflexivity|].
  eapply (locks_exclusive shared "m1" "a" _ "m1" "b"); [exact shared_reachable|vm_compute; reflexivity|vm_compute; reflexivity|reflexivity|vm_compute; reflexivity|vm_compute; reflexivity].
Defined.

Lemma completed_is_reconciled_witness : ∃ row, completed.(maintenance) !! "m1" = Some row ∧ is_Some (completed.(captures) !! "m1")
  ∧ targets_of completed "m1" ≠ []
  ∧ ∀ tid trow, completed.(targets) !! ("m1", tid) = Some trow → targetCompletionAllowed trow.(t_original_state) trow.(t_state) = true.
Proof.
  eexists. split; [vm_compute; reflexivity|].
  eapply (completed_is_reconciled completed ()); [vm_compute; reflexivity|vm_compute; reflexivity|reflexivity].
Defined.

Lemma closed_is_final_witness : ∃ row, completed.(maintenance) !! "m1" = Some row
  ∧ (run_op (op_move "new") completed).2.(maintenance) !! "m1" = Some row.
Proof.
  eexists. split; [vm_compute; reflexivity|].
  eapply (closed_is_final (op_move "new") completed "m1"); [vm_compute; reflexivity|reflexivity].
Defined.

Definition move_call : result error MaintenanceAggregate * db :=
  TransitionMaintenance (clock + 2) "m1" (change_to "stopping") (only 2) operator captured.

Lemma transition_commits_witness : ∃ agg d', move_call = (Ok agg, d')
  ∧ ∃ row, captured.(maintenance) !! "m1" = Some row ∧ agg.(MA_Maintenance).(M_Version) = row.(m_version) + 1.
Proof.
  destruct (ok_pair move_call) as (agg & d' & E); [vm_compute; reflexivity|]. exists agg, d'. split; [exact E|].
  destruct (transition_commits _ _ _ _ _ _ _ _ E) as (row & payload & Hrow & _ & _ & _ & _ & _ & Hv & _). exists row. split; [exact Hrow|exact Hv].
Defined.

Lemma no_lost_update_witness : ∃ agg d1, move_call = (Ok agg, d1)
  ∧ ∃ e, TransitionMaintenance (clock + 3) "m1" (change_to "stopping") (only 2) admin (run_all [op_target "stopping"] d1)
         = (Err e, run_all [op_target "stopping"] d1) ∧ errors_is e ErrVersionConflict = true.
Proof.
  destruct (ok_pair move_call) as (agg & d1 & E); [vm_compute; reflexivity|]. exists agg, d1. split; [exact E|].
  eapply (no_lost_update _ _ _ _ _ _ _ _ [op_target "stopping"]); [exact E|vm_compute; reflexivity].
Defined.

Lemma phase_change_invalidates_targets_witness : ∃ agg d1, move_call = (Ok agg, d1)
  ∧ ∃ e, TransitionTarget (clock + 3) "m1" "a" (change_to "stopping") (only 1) admin d1 = (Err e, d1) ∧ errors_is e ErrVersionConflict = true.
Proof.
  destruct (ok_pair move_call) as (agg & d1 & E); [vm_compute; reflexivity|]. exists agg, d1. split; [exact E|].
  eapply (phase_change_invalidates_targets _ _ _ _ _ _ _ _ "a" (mkTargetRow _ _ _ _ _ _ _ _ _ _));
    [exact E|apply is_some_lookup; vm_compute; reflexivity|vm_compute; reflexivity|vm_compute; reflexivity|vm_compute; reflexivity].
Defined.

Lemma versions_bounded_witness : ∃ row, completed.(maintenance) !! "m1" = Some row
  ∧ 1 ≤ row.(m_version) ≤ Z.of_nat (length (events_of "m1" completed.(journal))) ∧ in_int64 row.(m_version) = true.
Proof.
  assert (E : (match completed.(maintenance) !! "m1" with Some _ => true | None => false end) = true) by (vm_compute; reflexivity).
  destruct (completed.(maintenance) !! "m1") as [row|] eqn:Hrow; [|discriminate E]. exists row.
  destruct (versions_bounded completed "m1" row completed_reachable Hrow) as (H1 & _ & H2).
  exact (conj eq_refl (conj H1 (H2 ltac:(vm_compute; discriminate)))).
Defined.
