(* ===== verification/Promises.v ===== *)
(** More of what the store promises: captures and observations can be retried, locks are taken only
    when free, skipping and reopening need an administrator and a reason, versions stay within the
    journal's length. *)
From S2P Require Import Prelude Utf8 Json JsonText Strconv GoTime Sha256 JsonDecode Text Errors Values Lifecycle Db Model Events Mutations Verify Payloads Invariant Preserve PreserveTransitions System Soundness Effects Scenario.
Local Open Scope Z_scope.

Section promises.
Context `{SQLite}.

Lemma capture_commit now0 now mid c audit d res d' : CaptureMaintenance now0 now mid c audit d = (Ok res, d') →
  ∃ c' l, capture_input now0 mid c = Ok (c', l) ∧ capture_tx now mid c' l audit d = Ok (res, d').
Proof.
  unfold CaptureMaintenance, validated. destruct (capture_input now0 mid c) as [[c' l]|]; [|discriminate].
  destruct (write_spec (capture_tx now mid c' l audit) d) as [(x & d1 & Hf & ->)|(e & _ & ->)]; [|discriminate].
  intros [= -> ->]. eauto.
Qed.

(** The state a saved capture is compared with. *)
Lemma capture_saved now mid c l audit d cr row : d.(maintenance) !! mid = Some row → d.(captures) !! mid = Some cr →
  capture_tx now mid c l audit d =
    if String.eqb cr.(c_sha256) c.(C_SHA256) && String.eqb cr.(c_payload) c.(C_Payload)
    then Ok (mkCaptureResult (scanCapture mid cr) false, d)
    else Err (conflictError (Some ErrConflict) "immutable_capture_mismatch" "capture" mid 0 0 row.(m_state) "captured").
Proof.
  intros Hrow Hc. unfold capture_tx. rewrite perform_bind, (load_maintenance_some _ _ _ Hrow), perform_bind. cbn [query perform].
  rewrite Hc. by case_if.
Qed.

Lemma capture_input_payload now0 mid c c' l : capture_input now0 mid c = Ok (c', l) →
  canonicalJSONObject c.(C_Payload) = Ok c'.(C_Payload) ∧ c'.(C_SHA256) = sha256_hex c'.(C_Payload) ∧ validID mid = true
  ∧ parseCaptureTargets c'.(C_Payload) = Ok l.
Proof.
  unfold capture_input. case_if; [discriminate|]. bool_hyps. intros (p & Hp & (ts & Hts & Hc)%bind_ok)%bind_ok. by injection Hc as <- <-.
Qed.

Lemma capture_input_of now0 mid c p l : validID mid = true → canonicalJSONObject c.(C_Payload) = Ok p → parseCaptureTargets p = Ok l →
  ∃ c', capture_input now0 mid c = Ok (c', l) ∧ c'.(C_Payload) = p ∧ c'.(C_SHA256) = sha256_hex p.
Proof.
  intros Hid Hp Hl. unfold capture_input. rewrite Hid. cbn [negb]. rewrite Hp. cbn [mbind result_bind]. rewrite Hl. cbn. eauto.
Qed.

(** After a capture call succeeded, the capture row is there, with the call's payload. *)
Lemma capture_row_saved now0 now mid c audit d res d' c' l : capture_input now0 mid c = Ok (c', l) →
  capture_tx now mid c' l audit d = Ok (res, d') →
  ∃ cr row, d'.(captures) !! mid = Some cr ∧ d'.(maintenance) !! mid = Some row
    ∧ cr.(c_sha256) = c'.(C_SHA256) ∧ cr.(c_payload) = c'.(C_Payload).
Proof.
  intros Hin Htx. pose proof Htx as Htx'. unfold capture_tx in Htx'.
  apply tx_bind_inv in Htx' as (m & d1 & (_ & row0 & Hrow0 & _)%load_maintenance_ok & _).
  apply capture_tx_ok in Htx as [(-> & _ & row & Hcr & _ & H1 & H2)|(row & Hrow & _ & _ & _ & _ & Happ & _)]; [eauto 10|].
  apply appendEvent_row in Happ as ->. do 2 eexists. split_and!; [apply lookup_insert_eq|apply lookup_insert_eq|done|done].
Qed.

(** C15.  Capture is idempotent: once a capture call has succeeded, repeating it with a document
    of the same canonical form succeeds at any later time, whatever ran in between, returns the
    saved capture, reports that nothing was created, and writes nothing. *)
Theorem capture_is_idempotent now0 now mid c audit d res d1 ops now0' now' c2 audit2 :
  CaptureMaintenance now0 now mid c audit d = (Ok res, d1) →
  canonicalJSONObject c2.(C_Payload) = canonicalJSONObject c.(C_Payload) →
  let d2 := run_all ops d1 in
  ∃ cr, d2.(captures) !! mid = Some cr
    ∧ CaptureMaintenance now0' now' mid c2 audit2 d2 = (Ok (mkCaptureResult (scanCapture mid cr) false), d2).
Proof.
  intros (c' & l & Hin & Htx)%capture_commit Heq. cbn zeta.
  destruct (capture_input_payload _ _ _ _ _ Hin) as (Hp & Hsha & Hid & Hl).
  destruct (capture_row_saved _ _ _ _ _ _ _ _ _ _ Hin Htx) as (cr & row & Hcr & Hrow & H1 & H2).
  pose proof (run_all_capture mid cr ops d1 Hcr) as Hcr2.
  destruct (run_all_version mid (m_version row) ops d1) as (row2 & Hrow2 & _); [exists row; split; [done|lia]|].
  exists cr. split; [done|]. unfold CaptureMaintenance, validated.
  destruct (capture_input_of now0' mid c2 (C_Payload c') l) as (c2' & -> & P2 & S2); [done|congruence|done|].
  rewrite write_perform, (capture_saved _ _ _ _ _ _ cr row2) by done.
  by rewrite H1, H2, P2, S2, Hsha, !String.eqb_refl.
Qed.

(** A capture is immutable: a call with a document of another canonical form is refused with
    a conflict and writes nothing. *)
Theorem capture_mismatch_refused now0 now mid c audit d cr row c' l : d.(maintenance) !! mid = Some row → d.(captures) !! mid = Some cr →
  capture_input now0 mid c = Ok (c', l) → c'.(C_Payload) ≠ cr.(c_payload) →
  CaptureMaintenance now0 now mid c audit d
  = (Err (conflictError (Some ErrConflict) "immutable_capture_mismatch" "capture" mid 0 0 row.(m_state) "captured"), d).
Proof.
  intros Hrow Hcr Hin Hne. unfold CaptureMaintenance, validated. rewrite Hin, write_perform, (capture_saved _ _ _ _ _ _ cr row) by done.
  by rewrite (proj2 (String.eqb_neq cr.(c_payload) _)), andb_false_r.
Qed.

(** C16.  A capture that creates something found a new maintenance and every lock free; it saves
    the canonical document under its hash and exactly the parsed targets, each in its starting
    state at version 1, and makes the maintenance captured.  The database is one the store keeps
    ([Invariant.db_inv], which every reachable state has). *)
Theorem capture_takes_free_locks now0 now mid c audit d cap d' : db_inv d →
  CaptureMaintenance now0 now mid c audit d = (Ok (mkCaptureResult cap true), d') →
  ∃ row l, d.(maintenance) !! mid = Some row ∧ row.(m_state) = "new" ∧ parseCaptureTargets cap.(C_Payload) = Ok l
    ∧ canonicalJSONObject c.(C_Payload) = Ok cap.(C_Payload) ∧ cap.(C_SHA256) = sha256_hex cap.(C_Payload)
    ∧ Forall (λ t, lock_owners d t.(CT_LockKey) = []) l
    ∧ d'.(captures) !! mid = Some (capture_row_of cap)
    ∧ slice mid d'.(targets) = target_row_of (format cap.(C_CapturedAt)) <$> inputs_of l
    ∧ d'.(maintenance) !! mid = Some (set_maintenance_state "captured" (row.(m_version) + 1) now row).
Proof.
  intros Hd (c' & l & Hin & Htx)%capture_commit. destruct (capture_input_payload _ _ _ _ _ Hin) as (Hp & Hsha & Hid & Hl).
  apply capture_tx_ok in Htx as [(_ & [=] & _)|(row & Hrow & Hst & Hnc & _ & Hfree & Happ & [= ->])].
  apply appendEvent_row in Happ as ->. exists row, l. split_and!; try done; cbn -[format].
  - apply lookup_insert_eq.
  - apply slice_insert_rows. destruct (inv_maintenance _ Hd mid row Hrow) as (has & hash & l0 & r & Hcv & _ & Hag).
    rewrite Hnc in Hcv. destruct Hcv as (-> & -> & ->). destruct Hag as [_ _ _ _ _ Gin _ _ _].
    eapply fmap_empty_inv. by rewrite Gin.
  - apply lookup_insert_eq.
Qed.

(** C17.  A target transition that succeeds found a live maintenance, a version of the target its
    precondition accepts and an allowed move; it changes that target's state and version (and the
    time of its update) only, raises the maintenance's version by one and answers with both new
    versions. *)
Theorem target_transition_commits now mid tid change p audit d res d' : TransitionTarget now mid tid change p audit d = (Ok res, d') →
  ∃ row trow, d.(maintenance) !! mid = Some row ∧ d.(targets) !! (mid, tid) = Some trow
    ∧ IsMaintenanceTerminal row.(m_state) = false ∧ (p.(Any) = true ∨ trow.(t_version) ∈ p.(Versions))
    ∧ ValidTargetTransition trow.(t_state) change.(SC_State) = true
    ∧ d'.(targets) = <[(mid, tid) := set_target_state change.(SC_State) (trow.(t_version) + 1) now trow]> d.(targets)
    ∧ d'.(maintenance) = <[mid := set_maintenance_version (row.(m_version) + 1) now row]> d.(maintenance)
    ∧ d'.(captures) = d.(captures)
    ∧ res.(TR_Target).(T_Version) = trow.(t_version) + 1 ∧ res.(TR_MaintenanceVersion) = row.(m_version) + 1.
Proof.
  intros (payload & Hin & Htx)%validated_ok.
  apply transition_target_tx_ok in Htx as (row & trow & Hrow & Htrow & Hterm & Hg & Hp & Happ & H1 & H2 & H3).
  apply appendEvent_row in Happ as ->. exists row, trow. split_and!; try done. by apply target_guards_ok in Hg as [? _].
Qed.

(** C18.  A target is skipped only by an administrator with a justification, and only an originally
    running target moves otherwise, in the phase that allows the move. *)
Theorem target_move_authorized now mid tid change p audit d res d' : TransitionTarget now mid tid change p audit d = (Ok res, d') →
  (change.(SC_State) = "skipped" ∧ audit.(Role) = "admin" ∧ validJustification change.(SC_Justification) = Ok ())
  ∨ (change.(SC_State) ≠ "skipped" ∧ ∃ row trow, d.(maintenance) !! mid = Some row ∧ d.(targets) !! (mid, tid) = Some trow
     ∧ (trow.(t_original_state) ∉ ["degraded"; "unknown"; "stopped"])
     ∧ targetPhaseAllowed row.(m_state) change.(SC_State) = true).
Proof.
  intros (payload & Hin & Htx)%validated_ok.
  apply transition_target_tx_ok in Htx as (row & trow & Hrow & Htrow & _ & Hg & _).
  apply target_guards_ok in Hg as [_ Hg]. destruct (String.eqb_spec (SC_State change) "skipped") as [E|E].
  - left. destruct Hg as [Ha Hj]. split_and!; [done| |done]. by apply String.eqb_eq in Ha.
  - right. split; [done|]. exists row, trow. destruct Hg as (H1 & H2 & H3 & H4). cbn in H1, H2, H3. bool_hyps.
    split_and!; [done..| |done]. intros Hin'.
    repeat (apply elem_of_cons in Hin' as [Hin'|Hin']; [congruence|]). by apply elem_of_nil in Hin'.
Qed.

(** C19.  A failed maintenance moves again only when an administrator reopens it with a
    justification: one that was never captured goes back to new, a captured one to an active
    phase. *)
Theorem reopen_authorized now id change p audit d agg d' row : TransitionMaintenance now id change p audit d = (Ok agg, d') →
  d.(maintenance) !! id = Some row → row.(m_state) = "failed" →
  audit.(Role) = "admin" ∧ validJustification change.(SC_Justification) = Ok ()
  ∧ match d.(captures) !! id with
    | None => change.(SC_State) = "new"
    | Some _ => change.(SC_State) ∈ ["captured"; "stopping"; "stopped"; "waiting"; "starting"]
    end.
Proof.
  intros (payload & Hin & Htx)%validated_ok Hrow Hs. apply transition_tx_ok in Htx as (row' & Hrow' & Hg & _).
  rewrite Hrow in Hrow'. injection Hrow' as <-. destruct (gf_failed _ _ _ _ Hg Hs) as (Ha & Hj & Hn & Hy).
  split_and!; [by apply String.eqb_eq in Ha|done|]. cbn [scanMaintenance M_ID] in *. destruct (captures d !! id) eqn:Hc; [|auto].
  destruct Hy as (H1 & H2 & H3); [eauto|]. pose proof (gf_valid _ _ _ _ Hg) as Hv. cbn in Hv. rewrite Hs in Hv.
  apply maintenance_table in Hv as (a & b & Ha' & Hb & Hstep). change "failed" with (mname Failed) in Ha'. apply mname_inj in Ha' as <-.
  rewrite Hb in *. inversion Hstep as [? ? Hp|? [?|?]|? ? Hp|? N1 N2 N3]; subst; try done; try (by inversion Hp).
  destruct b; cbn in *; try done; repeat first [by left|right].
Qed.

Lemma validID_observation mid tid payload c : observation_input mid tid payload = Ok c → mid ≠ "" ∧ tid ≠ "".
Proof.
  unfold observation_input. case_if; [discriminate|]. bool_hyps. intros _.
  split; [destruct (validID_spec mid) as (? & _)|destruct (validID_spec tid) as (? & _)]; done.
Qed.

Lemma find_app {A} (f : A → bool) l1 l2 : find f (l1 ++ l2) = match find f l1 with Some a => Some a | None => find f l2 end.
Proof. induction l1 as [|a l1 IH]; cbn; [done|]. by destruct (f a). Qed.

Lemma saved_run_all mid tid req c ops d : saved_observation mid tid req d = Some c → saved_observation mid tid req (run_all ops d) = Some c.
Proof.
  unfold saved_observation. destruct (run_all_journal ops d) as [l ->]. rewrite find_app. by destruct (find _ (journal d)).
Qed.

(** The observation just journaled is the one a retry finds. *)
Lemma saved_append now mid tid c audit d : mid ≠ "" → tid ≠ "" → len c ≠ 0 →
  saved_observation mid tid (auditValues audit).(RequestID) d = None →
  saved_observation mid tid (auditValues audit).(RequestID)
    (set_journal (λ l, l ++ [event_row_of (with_defaults (observed_event now mid tid c (auditValues audit))) (next_journal_id d)]) d) = Some c.
Proof.
  intros Hm Ht Hc Hs. unfold saved_observation in *. cbn [journal set_journal]. rewrite find_app.
  destruct (find _ (journal d)); [discriminate|]. cbn -[auditValues]. unfold nullText, observation_key.
  cbn. rewrite !(proj2 (String.eqb_neq _ _)) by done. cbn. rewrite bool_decide_eq_true_2 by by rewrite or_system_idem.
  cbn. by rewrite (proj2 (Z.eqb_neq _ _) Hc).
Qed.

(** An observation can be retried: once a call has succeeded, the same request with the same
    document succeeds at any later time and writes nothing, and with another document it is
    refused with a conflict. *)
Theorem observation_retry now mid tid payload p audit d d1 ops now2 payload2 c2 p2 audit2 canonical :
  AddObservation now mid tid payload p audit d = (Ok (), d1) → canonicalJSONObject payload = Ok canonical →
  (auditValues audit2).(RequestID) = (auditValues audit).(RequestID) → observation_input mid tid payload2 = Ok c2 →
  let d2 := run_all ops d1 in
  AddObservation now2 mid tid payload2 p2 audit2 d2 =
    (if String.eqb c2 canonical then Ok ()
     else Err (conflictError (Some ErrConflict) "observation_request_id_reused" "target" tid 0 0 "" "observed"), d2).
Proof.
  intros (c & Hin & Htx)%validated_ok Hc Hreq Hin2. cbn zeta.
  assert (c = canonical) as ->.
  { unfold observation_input in Hin. case_if; [discriminate|]. rewrite Hc in Hin. cbn in Hin. case_if; [discriminate|]. congruence. }
  assert (Hsaved : saved_observation mid tid (auditValues audit).(RequestID) d1 = Some canonical).
  { destruct (validID_observation _ _ _ _ Hin) as [Hm Ht].
    apply observation_tx_ok in Htx as [[-> Hs]|(Hs & _ & _ & _ & _ & _ & _ & Happ)]; [done|].
    apply appendEvent_row in Happ as ->. apply saved_append; try done. apply canonicalJSONObject_ok in Hc as (_ & Hv & _). intros Hz%len_zero. by subst canonical. }
  unfold AddObservation, validated. rewrite Hin2. rewrite write_perform. unfold observation_tx. rewrite perform_bind. cbn [query perform].
  rewrite Hreq, (saved_run_all _ _ _ _ ops _ Hsaved). unfold ensure. rewrite (String.eqb_sym canonical). by destruct (String.eqb c2 canonical).
Qed.
End promises.

(** * Instances *)

Definition payload_1 : string := capture_payload_of "L" "K".
Definition capture_call : result error CaptureResult * db :=
  CaptureMaintenance clock (clock + 1) "m1" (capture_of payload_1) operator created.

Lemma capture_is_idempotent_witness : ∃ res d1, capture_call = (Ok res, d1)
  ∧ ∃ cr, (run_all to_completion d1).(captures) !! "m1" = Some cr
    ∧ CaptureMaintenance clock clock "m1" (capture_of payload_1) admin (run_all to_completion d1)
      = (Ok (mkCaptureResult (scanCapture "m1" cr) false), run_all to_completion d1).
Proof.
  destruct (ok_pair capture_call) as (res & d1 & E); [vm_compute; reflexivity|]. exists res, d1. split; [exact E|].
  eapply (capture_is_idempotent _ _ _ _ _ _ _ _ to_completion); [exact E|reflexivity].
Defined.

Lemma capture_mismatch_refused_witness : ∃ state,
  CaptureMaintenance clock clock "m1" (capture_of (capture_payload_of "L" "M")) admin captured
  = (Err (conflictError (Some ErrConflict) "immutable_capture_mismatch" "capture" "m1" 0 0 state "captured"), captured).
Proof.
  eexists. eapply capture_mismatch_refused; [vm_compute; reflexivity|vm_compute; reflexivity|vm_compute; reflexivity|].
  vm_compute. discriminate.
Defined.

Lemma created_reachable : reachable created.
Proof. apply reachable_all; [constructor|]. constructor; [by vm_compute|constructor]. Qed.

Lemma capture_created : (match capture_call.1 with Ok res => res.(CR_Created) | Err _ => false end) = true.
Proof. vm_compute. reflexivity. Qed.

Lemma capture_takes_free_locks_witness : ∃ cap d', capture_call = (Ok (mkCaptureResult cap true), d')
  ∧ ∃ l, parseCaptureTargets cap.(C_Payload) = Ok l ∧ Forall (λ t, lock_owners created t.(CT_LockKey) = []) l.
Proof.
  pose proof capture_created as Hc. destruct capture_call as [[[cap b]|] d'] eqn:E; [|discriminate Hc]. cbn in Hc. subst b.
  exists cap, d'. split; [reflexivity|].
  destruct (capture_takes_free_locks _ _ _ _ _ _ _ _ (reachable_inv _ created_reachable) E) as (row & l & _ & _ & Hl & _ & _ & Hf & _).
  exists l. split; [exact Hl|exact Hf].
Defined.

Definition stopping : db := (run_op (op_move "stopping") captured).2.
Definition target_call : result error TargetTransitionResult * db :=
  TransitionTarget (clock + 3) "m1" "a" (change_to "stopping") (only 2) operator stopping.

Lemma target_transition_commits_witness : ∃ res d', target_call = (Ok res, d')
  ∧ ∃ row, stopping.(maintenance) !! "m1" = Some row ∧ res.(TR_MaintenanceVersion) = row.(m_version) + 1.
Proof.
  destruct (ok_pair target_call) as (res & d' & E); [vm_compute; reflexivity|]. exists res, d'. split; [exact E|].
  destruct (target_transition_commits _ _ _ _ _ _ _ _ _ E) as (row & trow & Hrow & _ & _ & _ & _ & _ & _ & _ & _ & Hv).
  exists row. split; [exact Hrow|exact Hv].
Defined.

Definition skip_call : result error TargetTransitionResult * db :=
  TransitionTarget (clock + 3) "m1" "a" (change_to "skipped") any_version admin captured.

Lemma target_move_authorized_witness : ∃ res d', skip_call = (Ok res, d')
  ∧ (("skipped" = "skipped" ∧ admin.(Role) = "admin" ∧ validJustification " because " = Ok ())
     ∨ ("skipped" ≠ "skipped" ∧ ∃ row trow, captured.(maintenance) !! "m1" = Some row ∧ captured.(targets) !! ("m1", "a") = Some trow
       ∧ (trow.(t_original_state) ∉ ["degraded"; "unknown"; "stopped"])
       ∧ targetPhaseAllowed row.(m_state) "skipped" = true)).
Proof.
  destruct (ok_pair skip_call) as (res & d' & E); [vm_compute; reflexivity|]. exists res, d'. split; [exact E|].
  exact (target_move_authorized _ _ _ _ _ _ _ _ _ E).
Defined.

Definition reopen_call : result error MaintenanceAggregate * db :=
  TransitionMaintenance (clock + 3) "m1" (change_to "stopping") any_version admin failed.

Lemma reopen_authorized_witness : ∃ agg d', reopen_call = (Ok agg, d') ∧ admin.(Role) = "admin".
Proof.
  destruct (ok_pair reopen_call) as (agg & d' & E); [vm_compute; reflexivity|]. exists agg, d'. split; [exact E|].
  assert (∃ row, failed.(maintenance) !! "m1" = Some row ∧ row.(m_state) = "failed") as (row & Hr & Hs).
  { eexists. split; [vm_compute; reflexivity|reflexivity]. }
  destruct (reopen_authorized _ _ _ _ _ _ _ _ row E Hr Hs) as (Ha & _). exact Ha.
Defined.

Definition observe_call : result error () * db := AddObservation (clock + 4) "m1" "a" observation any_version operator captured.

Lemma observation_retry_witness : ∃ d1, observe_call = (Ok (), d1)
  ∧ ∃ c2 canonical, AddObservation (clock + 9) "m1" "a" observation (only 99) operator (run_all to_completion d1)
    = (if String.eqb c2 canonical then Ok ()
       else Err (conflictError (Some ErrConflict) "observation_request_id_reused" "target" "a" 0 0 "" "observed"), run_all to_completion d1).
Proof.
  destruct (ok_pair observe_call) as ([] & d1 & E); [vm_compute; reflexivity|]. exists d1. split; [exact E|].
  do 2 eexists. eapply (observation_retry _ _ _ _ _ _ _ _ to_completion); [exact E|vm_compute; reflexivity|reflexivity|vm_compute; reflexivity].
Defined.
